(** * The harness virtual file system (vfs.ts), embedded in Rocq

    The TypeScript module keeps a tree of mutable objects (file system,
    directories, files, symbolic links) that refer to one another by
    reference, notify one another through an [EventEmitter], populate
    themselves lazily and can be frozen.  The embedding keeps that shape:

    - every object lives in a store ([heap]) and is named by its index
      ([ref]); two objects are the same object iff their references are
      equal;
    - every method body is a program ([Prog]) over primitive store
      operations and method calls, written in the order of the source;
    - dynamic dispatch is a case analysis on the class tag of [this];
    - [invoke n] runs a method with at most [n] nested calls: the call
      stack of the source is the only thing the fuel measures. *)

From Stdlib Require Import Ascii ZArith Lia.
From stdpp Require Import base list strings.

(** ** The environment of the module

    [vfs.ts] imports [./vpath] and, through [compareStrings] of
    [./utils], the [Intl] collators of the host.  Neither is part of the
    sources at hand, so both are parameters of the development. *)

Class Env := {
  vpath_basename : string -> string;
  vpath_dirname : string -> string;
  vpath_combine : string -> string -> string;
  vpath_resolve : string -> string -> string;
  vpath_parse : string -> list string;
  caseInsensitiveCollator : option (string -> string -> Z);
  caseSensitiveCollator : option (string -> string -> Z);
  toUpperCase : string -> string
}.

(** ** Data model *)

(** Object identity: the index of the object in the store. *)
Abbreviation ref := nat (only parsing).

Inductive Class :=
| VirtualFileSystem
| VirtualDirectory
| VirtualDirectoryRoot
| VirtualDirectorySymlink
| VirtualFile
| VirtualFileSymlink.

(** [x instanceof VirtualDirectory], [x instanceof VirtualFile]: the two
    symlink classes extend the class they stand for. *)
Definition instanceof_VirtualDirectory (c : Class) : bool :=
  match c with
  | VirtualDirectory | VirtualDirectoryRoot | VirtualDirectorySymlink => true
  | _ => false
  end.

Definition instanceof_VirtualFile (c : Class) : bool :=
  match c with
  | VirtualFile | VirtualFileSymlink => true
  | _ => false
  end.

Definition instanceof_VirtualSymlink (c : Class) : bool :=
  match c with
  | VirtualFileSymlink | VirtualDirectorySymlink => true
  | _ => false
  end.

(** [interface FileSystemResolver].  [createResolver] only ever looks at
    the [path] of the directory or file it is handed, so a resolver is a
    pair of functions of that path. *)
Record FileSystemResolver := {
  resolver_getEntries : string -> list string * list string; (* files, directories *)
  resolver_getContent : string -> option string
}.

(** The three closures a directory symlink registers on its target; a
    listener is identified by the symlink that owns it. *)
Inductive Handler :=
| onTargetParentChildRemoved (link : ref)
| onTargetChildRemoved (link : ref)
| onTargetChildAdded (link : ref).

Inductive EventName := childAdded | childRemoved.

(** One record for all classes: a subclass instance carries the fields
    of its superclasses.  [_targetPath] is [_targetPath] of a directory
    symlink and the (string) [_target] of a file symlink; [_target] is
    the resolved directory of a directory symlink; [_contentResolver] is
    [VirtualFile._resolver].  [path] is cached by the getter on first
    use; it is a function of the read-only [parent] and [name], so the
    constructor computes it. *)
Record Obj := mkObj {
  class : Class;
  _readOnly : bool;
  fileSystem : ref;
  parent : ref;
  name : string;
  path : string;
  listeners_childAdded : list Handler;
  listeners_childRemoved : list Handler;
  (* VirtualFileSystem *)
  _root : option ref;
  _useCaseSensitiveFileNames : bool;
  _currentDirectory : string;
  (* VirtualDirectory *)
  _entries : option (list ref);
  _resolver : option FileSystemResolver;
  _shadowRoot : option ref;
  (* VirtualDirectorySymlink, VirtualFileSymlink *)
  _targetPath : string;
  _target : option ref;
  _symLinks : list (ref * ref);
  _symEntries : option (list ref);
  (* VirtualFile *)
  _content : option string;
  _contentResolver : option (string -> option string)
}.

(** [entry.path], where a parameter called [path] is in scope. *)
Definition path_of (entry : Obj) : string := path entry.

(** What a resolver was asked, in order. *)
Inductive Consulted :=
| asked_getEntries (dir_path : string)
| asked_getContent (file_path : string).

Record State := mkState {
  heap : list Obj;
  asked : list Consulted
}.

(** The only error the module raises itself is the one of
    [writePreamble]; [TypeError] is what the runtime raises on a missing
    object or array. *)
Inductive Error :=
| FrozenEntry   (* Error("Cannot modify a frozen entry.") *)
| TypeError.

Inductive Outcome (A : Type) :=
| Returned (a : A)
| Thrown (e : Error)
| OutOfFuel.
Arguments Returned {A} a.
Arguments Thrown {A} e.
Arguments OutOfFuel {A}.

(** ** Field assignments *)

Inductive Update :=
| set_readOnly_true
| set_root (r : ref)
| set_currentDirectory (s : string)
| set_entries_empty
| push_entries (e : ref)
| splice_entries (i : nat)
| clear_resolver
| set_shadowRoot (r : option ref)
| set_targetPath (s : string)
| set_target (r : option ref)
| symLinks_set (k v : ref)
| symLinks_delete (k : ref)
| symLinks_clear
| set_symEntries (l : option (list ref))
| push_symEntries (e : ref)
| splice_symEntries (i : nat)
| set_content (v : option string)
| clear_contentResolver
| add_listener (ev : EventName) (h : Handler)
| remove_listener (ev : EventName) (h : Handler).

Global Instance Handler_eq_dec : EqDecision Handler.
Proof. solve_decision. Defined.

(** [array.splice(i, 1)]. *)
Definition splice {A} (i : nat) (l : list A) : list A := take i l ++ drop (S i) l.

(** [Map.prototype.set]: an existing key keeps its place. *)
Fixpoint map_set (k v : ref) (m : list (ref * ref)) : list (ref * ref) :=
  match m with
  | [] => [(k, v)]
  | (k', v') :: m' => if Nat.eqb k k' then (k, v) :: m' else (k', v') :: map_set k v m'
  end.

Fixpoint map_get (k : ref) (m : list (ref * ref)) : option ref :=
  match m with
  | [] => None
  | (k', v') :: m' => if Nat.eqb k k' then Some v' else map_get k m'
  end.

Definition map_delete (k : ref) (m : list (ref * ref)) : list (ref * ref) :=
  filter (fun kv => negb (Nat.eqb k (fst kv))) m.

(** [EventEmitter.removeListener] removes the most recently added
    instance of the listener, if any. *)
Fixpoint remove_last (h : Handler) (l : list Handler) : list Handler :=
  match l with
  | [] => []
  | x :: l' =>
      if bool_decide (h ∈ l') then x :: remove_last h l'
      else if bool_decide (x = h) then l' else x :: l'
  end.

Definition with_readOnly (b : bool) (o : Obj) : Obj :=
  mkObj (class o) b (fileSystem o) (parent o) (name o) (path o)
    (listeners_childAdded o) (listeners_childRemoved o)
    (_root o) (_useCaseSensitiveFileNames o) (_currentDirectory o)
    (_entries o) (_resolver o) (_shadowRoot o)
    (_targetPath o) (_target o) (_symLinks o) (_symEntries o)
    (_content o) (_contentResolver o).

Definition with_listeners (a r : list Handler) (o : Obj) : Obj :=
  mkObj (class o) (_readOnly o) (fileSystem o) (parent o) (name o) (path o)
    a r
    (_root o) (_useCaseSensitiveFileNames o) (_currentDirectory o)
    (_entries o) (_resolver o) (_shadowRoot o)
    (_targetPath o) (_target o) (_symLinks o) (_symEntries o)
    (_content o) (_contentResolver o).

Definition with_fs (r : option ref) (cwd : string) (o : Obj) : Obj :=
  mkObj (class o) (_readOnly o) (fileSystem o) (parent o) (name o) (path o)
    (listeners_childAdded o) (listeners_childRemoved o)
    r (_useCaseSensitiveFileNames o) cwd
    (_entries o) (_resolver o) (_shadowRoot o)
    (_targetPath o) (_target o) (_symLinks o) (_symEntries o)
    (_content o) (_contentResolver o).

Definition with_dir (e : option (list ref)) (r : option FileSystemResolver)
    (s : option ref) (o : Obj) : Obj :=
  mkObj (class o) (_readOnly o) (fileSystem o) (parent o) (name o) (path o)
    (listeners_childAdded o) (listeners_childRemoved o)
    (_root o) (_useCaseSensitiveFileNames o) (_currentDirectory o)
    e r s
    (_targetPath o) (_target o) (_symLinks o) (_symEntries o)
    (_content o) (_contentResolver o).

Definition with_link (p : string) (t : option ref) (m : list (ref * ref))
    (e : option (list ref)) (o : Obj) : Obj :=
  mkObj (class o) (_readOnly o) (fileSystem o) (parent o) (name o) (path o)
    (listeners_childAdded o) (listeners_childRemoved o)
    (_root o) (_useCaseSensitiveFileNames o) (_currentDirectory o)
    (_entries o) (_resolver o) (_shadowRoot o)
    p t m e
    (_content o) (_contentResolver o).

Definition with_file (c : option string) (r : option (string -> option string))
    (o : Obj) : Obj :=
  mkObj (class o) (_readOnly o) (fileSystem o) (parent o) (name o) (path o)
    (listeners_childAdded o) (listeners_childRemoved o)
    (_root o) (_useCaseSensitiveFileNames o) (_currentDirectory o)
    (_entries o) (_resolver o) (_shadowRoot o)
    (_targetPath o) (_target o) (_symLinks o) (_symEntries o)
    c r.

(** An assignment through [undefined] (a push on an array that is not
    there) is the runtime's [TypeError]: [None]. *)
Definition apply_update (u : Update) (o : Obj) : option Obj :=
  match u with
  | set_readOnly_true => Some (with_readOnly true o)
  | set_root r => Some (with_fs (Some r) (_currentDirectory o) o)
  | set_currentDirectory s => Some (with_fs (_root o) s o)
  | set_entries_empty => Some (with_dir (Some []) (_resolver o) (_shadowRoot o) o)
  | push_entries e =>
      match _entries o with
      | Some l => Some (with_dir (Some (l ++ [e])) (_resolver o) (_shadowRoot o) o)
      | None => None
      end
  | splice_entries i =>
      match _entries o with
      | Some l => Some (with_dir (Some (splice i l)) (_resolver o) (_shadowRoot o) o)
      | None => None
      end
  | clear_resolver => Some (with_dir (_entries o) None (_shadowRoot o) o)
  | set_shadowRoot r => Some (with_dir (_entries o) (_resolver o) r o)
  | set_targetPath s => Some (with_link s (_target o) (_symLinks o) (_symEntries o) o)
  | set_target r => Some (with_link (_targetPath o) r (_symLinks o) (_symEntries o) o)
  | symLinks_set k v =>
      Some (with_link (_targetPath o) (_target o) (map_set k v (_symLinks o)) (_symEntries o) o)
  | symLinks_delete k =>
      Some (with_link (_targetPath o) (_target o) (map_delete k (_symLinks o)) (_symEntries o) o)
  | symLinks_clear => Some (with_link (_targetPath o) (_target o) [] (_symEntries o) o)
  | set_symEntries l => Some (with_link (_targetPath o) (_target o) (_symLinks o) l o)
  | push_symEntries e =>
      match _symEntries o with
      | Some l => Some (with_link (_targetPath o) (_target o) (_symLinks o) (Some (l ++ [e])) o)
      | None => None
      end
  | splice_symEntries i =>
      match _symEntries o with
      | Some l => Some (with_link (_targetPath o) (_target o) (_symLinks o) (Some (splice i l)) o)
      | None => None
      end
  | set_content v => Some (with_file v (_contentResolver o) o)
  | clear_contentResolver => Some (with_file (_content o) None o)
  | add_listener childAdded h =>
      Some (with_listeners (listeners_childAdded o ++ [h]) (listeners_childRemoved o) o)
  | add_listener childRemoved h =>
      Some (with_listeners (listeners_childAdded o) (listeners_childRemoved o ++ [h]) o)
  | remove_listener childAdded h =>
      Some (with_listeners (remove_last h (listeners_childAdded o)) (listeners_childRemoved o) o)
  | remove_listener childRemoved h =>
      Some (with_listeners (listeners_childAdded o) (remove_last h (listeners_childRemoved o)) o)
  end.

(** ** Programs over the store *)

Inductive Prim : Type -> Type :=
| alloc (mk : ref -> Obj) : Prim ref      (* [new C(...)]: the object knows its own reference *)
| read (r : ref) : Prim Obj
| assign (r : ref) (u : Update) : Prim unit
| consult (c : Consulted) : Prim unit.

Definition prim_step {B} (p : Prim B) (s : State) : State * Outcome B :=
  match p in Prim B return State * Outcome B with
  | alloc mk =>
      let r := length (heap s) in
      (mkState (heap s ++ [mk r]) (asked s), Returned r)
  | read r =>
      match heap s !! r with
      | Some o => (s, Returned o)
      | None => (s, Thrown TypeError)
      end
  | assign r u =>
      match heap s !! r with
      | Some o =>
          match apply_update u o with
          | Some o' => (mkState (<[r:=o']> (heap s)) (asked s), Returned tt)
          | None => (s, Thrown TypeError)
          end
      | None => (s, Thrown TypeError)
      end
  | consult c => (mkState (heap s) (asked s ++ [c]), Returned tt)
  end.

Inductive Kind := kind_file | kind_directory.

(** The option bags of [getEntries] and [getEntry]; a [RegExp] is used
    through [test] only. *)
Record Options := mkOptions {
  recursive : bool;
  followSymlinks : bool;
  pattern : option (string -> bool);
  kind : option Kind
}.

Definition no_options : Options := mkOptions false false None None.

(** [{ kind: k, ...options }] at the types of [getFile] and
    [getDirectory], whose [options] have no [kind]. *)
Definition with_kind (k : Kind) (o : Options) : Options :=
  mkOptions (recursive o) (followSymlinks o) (pattern o) (Some k).

(** [content?: FileSystemResolver["getContent"] | string]. *)
Inductive Content :=
| content_string (s : string)
| content_function (f : string -> option string)
| content_undefined.

(** [target: string | VirtualFile | VirtualDirectory]. *)
Inductive Target :=
| target_path (s : string)
| target_entry (e : ref).

(** The methods that are invoked through a call; the first argument is
    [this] (for [findTarget], the file system). *)
Inductive Method : Type -> Type :=
| makeReadOnly (this : ref) : Method unit
| getOwnEntries (this : ref) : Method (list ref)
| getEntries (this : ref) (options : Options) : Method (list ref)
| getEntry (this : ref) (path : string) (options : Options) : Method (option ref)
| addDirectory (this : ref) (path : string) (resolver : option FileSystemResolver) : Method (option ref)
| addFile (this : ref) (path : string) (content : Content) : Method (option ref)
| addSymlink (this : ref) (path : string) (target : Target) : Method (option ref)
| removeDirectory (this : ref) (path : string) : Method bool
| removeFile (this : ref) (path : string) : Method bool
| getContent (this : ref) : Method (option string)
| setContent (this : ref) (value : option string) : Method unit
| findTarget (vfs : ref) (target : string) (set : option (list ref)) : Method (option ref)
| listener (h : Handler) (entry : ref) : Method unit.

Inductive Prog (A : Type) : Type :=
| Ret (a : A)
| Throw (e : Error)
| Do {B : Type} (p : Prim B) (k : B -> Prog A)
| Call {B : Type} (m : Method B) (k : B -> Prog A).
Arguments Ret {A} a.
Arguments Throw {A} e.
Arguments Do {A B} p k.
Arguments Call {A B} m k.

Fixpoint bind {A B} (p : Prog A) (f : A -> Prog B) : Prog B :=
  match p with
  | Ret a => f a
  | Throw e => Throw e
  | Do q k => Do q (fun b => bind (k b) f)
  | Call m k => Call m (fun b => bind (k b) f)
  end.

Declare Scope prog_scope.
Delimit Scope prog_scope with prog.
Bind Scope prog_scope with Prog.
Notation "x <- p ;; q" := (bind p (fun x => q))
  (at level 100, p at next level, right associativity) : prog_scope.
Notation "p ;; q" := (bind p (fun _ => q))
  (at level 100, right associativity) : prog_scope.
Local Open Scope prog_scope.

Definition get (r : ref) : Prog Obj := Do (read r) Ret.
Definition new (mk : ref -> Obj) : Prog ref := Do (alloc mk) Ret.
Definition put (r : ref) (u : Update) : Prog unit := Do (assign r u) Ret.
Definition ask (c : Consulted) : Prog unit := Do (consult c) Ret.
Definition call {B} (m : Method B) : Prog B := Call m Ret.

(** [for (const x of l) body(x)]. *)
Fixpoint for_of {X} (l : list X) (body : X -> Prog unit) : Prog unit :=
  match l with
  | [] => Ret tt
  | x :: l' => body x ;; for_of l' body
  end.

(** [l.map(f)] with an effectful [f]. *)
Fixpoint map_of {X Y} (l : list X) (f : X -> Prog Y) : Prog (list Y) :=
  match l with
  | [] => Ret []
  | x :: l' => y <- f x ;; ys <- map_of l' f ;; Ret (y :: ys)
  end.

(** [l.filter(f)] where [f] reads the store. *)
Fixpoint filter_of {X} (l : list X) (f : X -> Prog bool) : Prog (list X) :=
  match l with
  | [] => Ret []
  | x :: l' => b <- f x ;; xs <- filter_of l' f ;; Ret (if b : bool then x :: xs else xs)
  end.

Arguments bind : simpl never.
Arguments get : simpl never.
Arguments new : simpl never.
Arguments put : simpl never.
Arguments ask : simpl never.
Arguments call : simpl never.

(** Running a program: [interp] folds a program over the store, given
    the meaning of calls. *)
Fixpoint interp (run_call : forall B, Method B -> State -> State * Outcome B)
    {A} (p : Prog A) (s : State) : State * Outcome A :=
  match p with
  | Ret a => (s, Returned a)
  | Throw e => (s, Thrown e)
  | Do q k =>
      match prim_step q s with
      | (s', Returned b) => interp run_call (k b) s'
      | (s', Thrown e) => (s', Thrown e)
      | (s', OutOfFuel) => (s', OutOfFuel)
      end
  | Call m k =>
      match run_call _ m s with
      | (s', Returned b) => interp run_call (k b) s'
      | (s', Thrown e) => (s', Thrown e)
      | (s', OutOfFuel) => (s', OutOfFuel)
      end
  end.

(** ** Constructors *)

Definition blank (c : Class) (fs par : ref) (nm pth : string) : Obj :=
  mkObj c false fs par nm pth [] [] None false "" None None None "" None [] None None None.

(** [currentDirectory.replace(/\\/g, "/")]. *)
Fixpoint forward_slashes (s : string) : string :=
  match s with
  | EmptyString => EmptyString
  | String c s' =>
      String (if Ascii.eqb c "\"%char then "/"%char else c) (forward_slashes s')
  end.

(** A JavaScript string is falsy iff it is empty. *)
Definition truthy (s : string) : bool := negb (String.eqb s "").

Definition Kind_eqb (a b : option Kind) : bool :=
  match a, b with
  | None, None => true
  | Some kind_file, Some kind_file => true
  | Some kind_directory, Some kind_directory => true
  | _, _ => false
  end.

(** [function isMatch(entry, options)]. *)
Definition isMatch (entry : Obj) (options : Options) : bool :=
  match pattern options with None => true | Some test => test (name entry) end
  && negb (Kind_eqb (kind options)
             (Some (if instanceof_VirtualFile (class entry) then kind_directory else kind_file))).

Section vfs.
Context {env : Env}.

(** [compareStrings] of utils.ts, at strings. *)
Definition compareStrings (a b : string) (ignoreCase : bool) : Z :=
  if String.eqb a b then 0%Z
  else
    match (if ignoreCase then caseInsensitiveCollator else caseSensitiveCollator) with
    | Some collator => collator a b
    | None =>
        let a' := if ignoreCase then toUpperCase a else a in
        let b' := if ignoreCase then toUpperCase b else b in
        if String.ltb a' b' then (-1)%Z else if String.ltb b' a' then 1%Z else 0%Z
    end.

(** [VirtualFileSystem.sameName], given the file system object. *)
Definition sameName (fs : Obj) (a b : string) : bool :=
  Z.eqb (compareStrings a b (negb (_useCaseSensitiveFileNames fs))) 0.

(** [constructor] of [VirtualFileSystemEntry] for everything but a file
    system: a child of the root directory is attached to the file system
    itself. *)
Definition new_entry (c : Class) (parent : ref) (name : string) (init : Obj -> Obj) : Prog ref :=
  p <- get parent ;;
  let owner := if class p is VirtualDirectoryRoot then fileSystem p else parent in
  po <- get owner ;;
  new (fun _ => init (blank c (fileSystem p) owner name (vpath_combine (path po) name))).

Definition new_VirtualFileSystem (currentDirectory : string) (useCaseSensitiveFileNames : bool)
  : Prog ref :=
  new (fun this =>
    mkObj VirtualFileSystem false this this "" "" [] []
      None useCaseSensitiveFileNames (forward_slashes currentDirectory)
      None None None "" None [] None None None).

Definition new_VirtualDirectory (parent : ref) (name : string)
    (resolver : option FileSystemResolver) : Prog ref :=
  new_entry VirtualDirectory parent name (with_dir None resolver None).

Definition new_VirtualDirectoryRoot (parent : ref) : Prog ref :=
  new_entry VirtualDirectoryRoot parent "" (with_dir None None None).

Definition new_VirtualDirectorySymlink (parent : ref) (name target : string) : Prog ref :=
  new_entry VirtualDirectorySymlink parent name
    (fun o => with_link target None [] None (with_dir None None None o)).

Definition new_VirtualFile (parent : ref) (name : string) (content : Content) : Prog ref :=
  new_entry VirtualFile parent name
    (with_file (if content is content_string s then Some s else None)
               (if content is content_function f then Some f else None)).

Definition new_VirtualFileSymlink (parent : ref) (name target : string) : Prog ref :=
  new_entry VirtualFileSymlink parent name
    (fun o => with_link target None [] None (with_file None None o)).

(** ** VirtualFileSystemEntry *)

Definition isReadOnly (this : ref) : Prog bool :=
  o <- get this ;; Ret (_readOnly o).

Definition writePreamble (this : ref) : Prog unit :=
  o <- get this ;;
  if _readOnly o then Throw FrozenEntry else Ret tt.

(** [EventEmitter.emit]: the listeners registered at the time of the
    emit are called in order. *)
Definition listeners (ev : EventName) (o : Obj) : list Handler :=
  match ev with
  | childAdded => listeners_childAdded o
  | childRemoved => listeners_childRemoved o
  end.

Definition emit (this : ref) (ev : EventName) (entry : ref) : Prog unit :=
  o <- get this ;;
  for_of (listeners ev o) (fun h => call (listener h entry)).

(** ** VirtualFileSystem *)

(** [private get root()]. *)
Definition root (this : ref) : Prog ref :=
  o <- get this ;;
  match _root o with
  | Some r => Ret r
  | None =>
      r <- new_VirtualDirectoryRoot this ;;
      put this (set_root r) ;;
      ro <- isReadOnly this ;;
      (if ro : bool then call (makeReadOnly r) else Ret tt) ;;
      Ret r
  end.

Definition changeDirectory (this : ref) (path : string) : Prog unit :=
  writePreamble this ;;
  if truthy path then
    o <- get this ;;
    put this (set_currentDirectory (vpath_resolve (_currentDirectory o) path))
  else Ret tt.

Definition VirtualFileSystem_addDirectory (this : ref) (path : string)
    (resolver : option FileSystemResolver) : Prog (option ref) :=
  r <- root this ;;
  o <- get this ;;
  call (addDirectory r (vpath_resolve (_currentDirectory o) path) resolver).

Definition VirtualFileSystem_addFile (this : ref) (path : string) (content : Content)
  : Prog (option ref) :=
  r <- root this ;;
  o <- get this ;;
  call (addFile r (vpath_resolve (_currentDirectory o) path) content).

Definition VirtualFileSystem_addSymlink (this : ref) (path : string) (target : Target)
  : Prog (option ref) :=
  o <- get this ;;
  let target :=
    if target is target_path t then target_path (vpath_resolve (_currentDirectory o) t)
    else target in
  r <- root this ;;
  call (addSymlink r (vpath_resolve (_currentDirectory o) path) target).

Definition VirtualFileSystem_removeDirectory (this : ref) (path : string) : Prog bool :=
  r <- root this ;;
  o <- get this ;;
  call (removeDirectory r (vpath_resolve (_currentDirectory o) path)).

Definition VirtualFileSystem_removeFile (this : ref) (path : string) : Prog bool :=
  r <- root this ;;
  o <- get this ;;
  call (removeFile r (vpath_resolve (_currentDirectory o) path)).

Definition VirtualFileSystem_getEntry (this : ref) (path : string) (options : Options)
  : Prog (option ref) :=
  r <- root this ;;
  o <- get this ;;
  call (getEntry r (vpath_resolve (_currentDirectory o) path) options).

Definition VirtualFileSystem_getOwnEntries (this : ref) : Prog (list ref) :=
  r <- root this ;;
  call (getEntries r no_options).

(** [getRealEntry(entry)]. *)
Definition getRealEntry (this : ref) (entry : ref) : Prog (option ref) :=
  e <- get entry ;;
  if instanceof_VirtualSymlink (class e)
  then call (findTarget this (_targetPath e) None)
  else Ret (Some entry).

(** ** VirtualFileSystemContainer *)

Definition Container_getEntries (this : ref) (options : Options) : Prog (list ref) :=
  if recursive options then
    own <- call (getOwnEntries this) ;;
    results <- map_of own (fun entry =>
      e <- get entry ;;
      if instanceof_VirtualFile (class e) then
        Ret (if isMatch e options then [entry] else [])
      else if instanceof_VirtualDirectory (class e) then
        children <- call (getEntries entry options) ;;
        Ret ((if isMatch e options then [entry] else []) ++ children)
      else Ret []) ;;
    Ret (concat results)
  else
    own <- call (getOwnEntries this) ;;
    filter_of own (fun entry => e <- get entry ;; Ret (isMatch e options)).

(** [getFile] and [getDirectory], on a container and as overridden by
    the file system. *)
Definition getEntry_of_kind (k : Kind) (this : ref) (path : string) (options : Options)
  : Prog (option ref) :=
  o <- get this ;;
  if class o is VirtualFileSystem then
    r <- root this ;;
    call (getEntry r (vpath_resolve (_currentDirectory o) path) (with_kind k options))
  else call (getEntry this path (with_kind k options)).

Definition getDirectory := getEntry_of_kind kind_directory.
Definition getFile := getEntry_of_kind kind_file.

(** The loop of [getEntry] over [this.getEntries()]. *)
Fixpoint getEntry_scan (this_fileSystem : ref) (basename : string) (options : Options)
    (entries : list ref) : Prog (option ref) :=
  match entries with
  | [] => Ret None
  | entry :: rest =>
      e <- get entry ;;
      fs <- get this_fileSystem ;;
      if sameName fs (name e) basename then
        if negb (isMatch e options) then Ret None
        else if followSymlinks options then getRealEntry this_fileSystem entry
        else Ret (Some entry)
      else getEntry_scan this_fileSystem basename options rest
  end.

Definition Container_getEntry (this : ref) (path : string) (options : Options)
  : Prog (option ref) :=
  let basename := vpath_basename path in
  if negb (truthy basename) then Ret None else
  let dirname := vpath_dirname path in
  if truthy dirname then
    directory <- getDirectory this dirname no_options ;;
    match directory with
    | Some directory => call (getEntry directory basename options)
    | None => Ret None
    end
  else
    entries <- call (getEntries this no_options) ;;
    o <- get this ;;
    getEntry_scan (fileSystem o) basename options entries.

(** ** VirtualDirectory *)

(** [this.getOwnEntries().push(entry)] and [entries.splice(i, 1)] on the
    array [getOwnEntries] returned: it is [_entries] of a directory and
    [_symEntries] of a directory symlink. *)
Definition push_own (this : ref) (entry : ref) : Prog unit :=
  call (getOwnEntries this) ;;
  o <- get this ;;
  put this (if class o is VirtualDirectorySymlink
            then push_symEntries entry else push_entries entry).

Definition splice_own (this : ref) (i : nat) : Prog unit :=
  o <- get this ;;
  put this (if class o is VirtualDirectorySymlink
            then splice_symEntries i else splice_entries i).

(** The loop of [ensureDirectory], from [components[1]] on. *)
Fixpoint ensureDirectory_loop (directory : ref) (components : list string)
  : Prog (option ref) :=
  match components with
  | [] => Ret (Some directory)
  | component :: rest =>
      d <- call (addDirectory directory component None) ;;
      match d with
      | Some d => ensureDirectory_loop d rest
      | None => Ret None
      end
  end.

Definition ensureDirectory (this : ref) (path : string) : Prog (option ref) :=
  let components := vpath_parse path in
  if (length components <=? 1)
     || truthy (nth 0 components "")
     || String.eqb (nth 1 components "") "..."
  then Ret None
  else ensureDirectory_loop this (drop 1 components).

Definition VirtualDirectory_addDirectory (this : ref) (path : string)
    (resolver : option FileSystemResolver) : Prog (option ref) :=
  writePreamble this ;;
  let basename := vpath_basename path in
  if negb (truthy basename) then Ret None else
  let dirname := vpath_dirname path in
  if truthy dirname then
    directory <- ensureDirectory this dirname ;;
    match directory with
    | Some directory => call (addDirectory directory basename resolver)
    | None => Ret None
    end
  else
    found <- call (getEntry this basename no_options) ;;
    entry <- match found with
             | Some entry => Ret entry
             | None =>
                 entry <- new_VirtualDirectory this basename resolver ;;
                 push_own this entry ;;
                 emit this childAdded entry ;;
                 Ret entry
             end ;;
    e <- get entry ;;
    Ret (if instanceof_VirtualDirectory (class e) then Some entry else None).

Definition VirtualDirectory_addFile (this : ref) (path : string) (content : Content)
  : Prog (option ref) :=
  writePreamble this ;;
  let basename := vpath_basename path in
  if negb (truthy basename) then Ret None else
  let dirname := vpath_dirname path in
  if truthy dirname then
    directory <- ensureDirectory this dirname ;;
    match directory with
    | Some directory => call (addFile directory basename content)
    | None => Ret None
    end
  else
    found <- call (getEntry this basename no_options) ;;
    entry <- match found with
             | Some entry => Ret entry
             | None =>
                 entry <- new_VirtualFile this basename content ;;
                 push_own this entry ;;
                 emit this childAdded entry ;;
                 Ret entry
             end ;;
    e <- get entry ;;
    Ret (if instanceof_VirtualFile (class e) then Some entry else None).

Definition VirtualDirectory_addSymlink (this : ref) (path : string) (target : Target)
  : Prog (option ref) :=
  writePreamble this ;;
  let basename := vpath_basename path in
  if negb (truthy basename) then Ret None else
  o <- get this ;;
  targetEntry <- match target with
                 | target_path t =>
                     call (getEntry (fileSystem o) (vpath_resolve (path_of o) t) no_options)
                 | target_entry e => Ret (Some e)
                 end ;;
  match targetEntry with
  | None => Ret None
  | Some targetEntry =>
      let dirname := vpath_dirname path in
      if truthy dirname then
        directory <- ensureDirectory this dirname ;;
        match directory with
        | Some directory => call (addSymlink directory basename (target_entry targetEntry))
        | None => Ret None
        end
      else
        found <- call (getEntry this path no_options) ;;
        t <- get targetEntry ;;
        created <- match found with
                   | Some entry => Ret (Some entry)
                   | None =>
                       if instanceof_VirtualFile (class t) then
                         entry <- new_VirtualFileSymlink this path (path_of t) ;;
                         push_own this entry ;;
                         emit this childAdded entry ;;
                         Ret (Some entry)
                       else if instanceof_VirtualDirectory (class t) then
                         entry <- new_VirtualDirectorySymlink this path (path_of t) ;;
                         push_own this entry ;;
                         emit this childAdded entry ;;
                         Ret (Some entry)
                       else Ret None
                   end ;;
        match created with
        | None => Ret None
        | Some entry =>
            e <- get entry ;;
            match target with
            | target_entry _ =>
                if instanceof_VirtualFile (class t) then
                  Ret (if class e is VirtualFileSymlink then Some entry else None)
                else if instanceof_VirtualDirectory (class t) then
                  Ret (if class e is VirtualDirectorySymlink then Some entry else None)
                else Ret (if instanceof_VirtualSymlink (class e) then Some entry else None)
            | target_path _ =>
                Ret (if instanceof_VirtualSymlink (class e) then Some entry else None)
            end
        end
  end.

(** The loop of [removeDirectory] and [removeFile] over
    [this.getOwnEntries()]. *)
Fixpoint remove_scan (this : ref) (wanted : Class -> bool) (path : string)
    (entries : list ref) (i : nat) : Prog bool :=
  match entries with
  | [] => Ret false
  | entry :: rest =>
      e <- get entry ;;
      o <- get this ;;
      fs <- get (fileSystem o) ;;
      if sameName fs path (name e) && wanted (class e) then
        splice_own this i ;;
        emit this childRemoved entry ;;
        Ret true
      else remove_scan this wanted path rest (S i)
  end.

Definition VirtualDirectory_removeDirectory (this : ref) (path : string) : Prog bool :=
  writePreamble this ;;
  let basename := vpath_basename path in
  if negb (truthy basename) then Ret false else
  let dirname := vpath_dirname path in
  if truthy dirname then
    directory <- getDirectory this dirname no_options ;;
    match directory with
    | Some directory => call (removeDirectory directory basename)
    | None => Ret false
    end
  else
    entries <- call (getOwnEntries this) ;;
    remove_scan this instanceof_VirtualDirectory path entries 0.

Definition VirtualDirectory_removeFile (this : ref) (path : string) : Prog bool :=
  writePreamble this ;;
  let basename := vpath_basename path in
  if negb (truthy basename) then Ret false else
  let dirname := vpath_dirname path in
  if truthy dirname then
    directory <- getDirectory this dirname no_options ;;
    match directory with
    | Some directory => call (removeFile directory basename)
    | None => Ret false
    end
  else
    entries <- call (getOwnEntries this) ;;
    remove_scan this instanceof_VirtualFile path entries 0.

(** [clone(parent)] of the four entry classes.  A clone starts out with
    the constructor's [_readOnly = false]. *)
Definition VirtualDirectory_clone (this parent : ref) : Prog ref :=
  o <- get this ;;
  clone <- new_VirtualDirectory parent (name o) None ;;
  put clone (set_shadowRoot (Some this)) ;;
  Ret clone.

Definition VirtualFile_clone (this parent : ref) : Prog ref :=
  o <- get this ;;
  clone <- new_VirtualFile parent (name o) content_undefined ;;
  put clone (set_shadowRoot (Some this)) ;;
  Ret clone.

Definition VirtualDirectorySymlink_clone (this parent : ref) : Prog ref :=
  o <- get this ;;
  new_VirtualDirectorySymlink parent (name o) (_targetPath o).

Definition VirtualFileSymlink_clone (this parent : ref) : Prog ref :=
  o <- get this ;;
  new_VirtualFileSymlink parent (name o) (_targetPath o).

(** [VirtualFileSystem.clone()]. *)
Definition VirtualFileSystem_clone (this : ref) : Prog ref :=
  o <- get this ;;
  fs <- new_VirtualFileSystem (_currentDirectory o) (_useCaseSensitiveFileNames o) ;;
  r <- root this ;;
  c <- VirtualDirectory_clone r fs ;;
  put fs (set_root c) ;;
  Ret fs.

Definition clone (this parent : ref) : Prog ref :=
  o <- get this ;;
  match class o with
  | VirtualFileSystem => VirtualFileSystem_clone this
  | VirtualDirectory | VirtualDirectoryRoot => VirtualDirectory_clone this parent
  | VirtualDirectorySymlink => VirtualDirectorySymlink_clone this parent
  | VirtualFile => VirtualFile_clone this parent
  | VirtualFileSymlink => VirtualFileSymlink_clone this parent
  end.

Definition makeReadOnly_if_readOnly (this fresh : ref) : Prog unit :=
  ro <- isReadOnly this ;;
  if ro : bool then call (makeReadOnly fresh) else Ret tt.

Definition VirtualDirectory_getOwnEntries (this : ref) : Prog (list ref) :=
  o <- get this ;;
  match _entries o with
  | Some entries => Ret entries
  | None =>
      let resolver := _resolver o in
      let shadowRoot := _shadowRoot o in
      put this set_entries_empty ;;
      put this clear_resolver ;;
      put this (set_shadowRoot None) ;;
      match resolver, shadowRoot with
      | Some resolver, _ =>
          ask (asked_getEntries (path o)) ;;
          let '(files, directories) := resolver_getEntries resolver (path o) in
          for_of directories (fun dir =>
            vdir <- new_VirtualDirectory this dir (Some resolver) ;;
            makeReadOnly_if_readOnly this vdir ;;
            put this (push_entries vdir)) ;;
          for_of files (fun file =>
            vfile <- new_VirtualFile this file
                       (content_function (resolver_getContent resolver)) ;;
            makeReadOnly_if_readOnly this vfile ;;
            put this (push_entries vfile))
      | None, Some shadowRoot =>
          entries <- call (getOwnEntries shadowRoot) ;;
          for_of entries (fun entry =>
            clone <- clone entry this ;;
            makeReadOnly_if_readOnly this clone ;;
            put this (push_entries clone))
      | None, None => Ret tt
      end ;;
      o' <- get this ;;
      Ret (default [] (_entries o'))
  end.

(** ** VirtualDirectorySymlink *)

Definition invalidateTarget (this : ref) : Prog unit :=
  o <- get this ;;
  match _target o with
  | None => Ret tt
  | Some target =>
      t <- get target ;;
      put (parent t) (remove_listener childRemoved (onTargetParentChildRemoved this)) ;;
      put target (remove_listener childAdded (onTargetChildAdded this)) ;;
      put target (remove_listener childRemoved (onTargetChildRemoved this)) ;;
      put this (set_target None) ;;
      put this symLinks_clear ;;
      put this (set_symEntries None)
  end.


Definition resolveTarget (this : ref) : Prog unit :=
  o <- get this ;;
  match _target o with
  | Some _ => Ret tt
  | None =>
      entry <- call (findTarget (fileSystem o) (_targetPath o) None) ;;
      match entry with
      | None => Ret tt
      | Some entry =>
          e <- get entry ;;
          if instanceof_VirtualDirectory (class e) then
            put this (set_target (Some entry)) ;;
            put (parent e) (add_listener childRemoved (onTargetParentChildRemoved this)) ;;
            put entry (add_listener childAdded (onTargetChildAdded this)) ;;
            put entry (add_listener childRemoved (onTargetChildRemoved this))
          else Ret tt
      end
  end.

Definition getRealDirectory (this : ref) : Prog (option ref) :=
  resolveTarget this ;;
  o <- get this ;;
  Ret (_target o).

Definition VirtualDirectorySymlink_isBroken (this : ref) : Prog bool :=
  target <- getRealDirectory this ;;
  Ret (if target is None then true else false).

Definition VirtualDirectorySymlink_addDirectory (this : ref) (path : string)
    (resolver : option FileSystemResolver) : Prog (option ref) :=
  target <- getRealDirectory this ;;
  match target with
  | Some target => call (addDirectory target path resolver)
  | None => Ret None
  end.

Definition VirtualDirectorySymlink_addFile (this : ref) (path : string) (content : Content)
  : Prog (option ref) :=
  target <- getRealDirectory this ;;
  match target with
  | Some target => call (addFile target path content)
  | None => Ret None
  end.

Definition VirtualDirectorySymlink_removeDirectory (this : ref) (path : string) : Prog bool :=
  target <- getRealDirectory this ;;
  match target with
  | Some target => call (removeDirectory target path)
  | None => Ret false
  end.

Definition VirtualDirectorySymlink_removeFile (this : ref) (path : string) : Prog bool :=
  target <- getRealDirectory this ;;
  match target with
  | Some target => call (removeFile target path)
  | None => Ret false
  end.

Definition getWrappedEntry (this : ref) (entry : ref) : Prog ref :=
  o <- get this ;;
  e <- get entry ;;
  let symlink := map_get entry (_symLinks o) in
  known <- match symlink with
           | Some symlink => s <- get symlink ;; Ret (Some (symlink, class s))
           | None => Ret None
           end ;;
  if instanceof_VirtualFile (class e) then
    match known with
    | Some (symlink, VirtualFileSymlink) => Ret symlink
    | _ =>
        symlink <- new_VirtualFileSymlink this (name e) (path e) ;;
        put this (symLinks_set entry symlink) ;;
        Ret symlink
    end
  else
    match known with
    | Some (symlink, VirtualDirectorySymlink) => Ret symlink
    | _ =>
        symlink <- new_VirtualDirectorySymlink this (name e) (path e) ;;
        put this (symLinks_set entry symlink) ;;
        Ret symlink
    end.

Definition VirtualDirectorySymlink_getOwnEntries (this : ref) : Prog (list ref) :=
  o <- get this ;;
  match _symEntries o with
  | Some symEntries => Ret symEntries
  | None =>
      target <- getRealDirectory this ;;
      symEntries <- match target with
                    | Some target =>
                        entries <- call (getEntries target no_options) ;;
                        map_of entries (getWrappedEntry this)
                    | None => Ret []
                    end ;;
      put this (set_symEntries (Some symEntries)) ;;
      Ret symEntries
  end.

(** [entries.indexOf(x)], [None] for [-1]. *)
Fixpoint indexOf (x : ref) (l : list ref) : option nat :=
  match l with
  | [] => None
  | y :: l' => if Nat.eqb x y then Some 0 else S <$> indexOf x l'
  end.

Definition VirtualDirectorySymlink_onTargetParentChildRemoved (this entry : ref) : Prog unit :=
  o <- get this ;;
  if bool_decide (_target o = Some entry) then invalidateTarget this else Ret tt.

Definition VirtualDirectorySymlink_onTargetChildAdded (this entry : ref) : Prog unit :=
  wrapped <- getWrappedEntry this entry ;;
  push_own this wrapped ;;
  emit this childAdded wrapped.

Definition VirtualDirectorySymlink_onTargetChildRemoved (this entry : ref) : Prog unit :=
  wrapped <- getWrappedEntry this entry ;;
  entries <- call (getOwnEntries this) ;;
  match indexOf wrapped entries with
  | Some index => splice_own this index
  | None => Ret tt
  end ;;
  put this (symLinks_delete entry) ;;
  emit this childRemoved wrapped.

(** ** VirtualFile *)

Definition VirtualFile_getContent (this : ref) : Prog (option string) :=
  o <- get this ;;
  match _content o with
  | Some content => Ret (Some content)
  | None =>
      let resolver := _contentResolver o in
      let shadowRoot := _shadowRoot o in
      put this clear_contentResolver ;;
      put this (set_shadowRoot None) ;;
      match resolver, shadowRoot with
      | Some resolver, _ =>
          ask (asked_getContent (path o)) ;;
          put this (set_content (resolver (path o)))
      | None, Some shadowRoot =>
          content <- call (getContent shadowRoot) ;;
          put this (set_content content)
      | None, None => Ret tt
      end ;;
      o' <- get this ;;
      Ret (_content o')
  end.

Definition VirtualFile_setContent (this : ref) (value : option string) : Prog unit :=
  writePreamble this ;;
  put this clear_contentResolver ;;
  put this (set_content value).

(** ** VirtualFileSymlink *)


Definition getRealFile (this : ref) : Prog (option ref) :=
  o <- get this ;;
  entry <- call (findTarget (fileSystem o) (_targetPath o) None) ;;
  match entry with
  | Some entry =>
      e <- get entry ;;
      Ret (if instanceof_VirtualFile (class e) then Some entry else None)
  | None => Ret None
  end.


Definition VirtualFileSymlink_getContent (this : ref) : Prog (option string) :=
  target <- getRealFile this ;;
  match target with
  | Some target => call (getContent target)
  | None => Ret None
  end.

Definition VirtualFileSymlink_setContent (this : ref) (value : option string) : Prog unit :=
  target <- getRealFile this ;;
  match target with
  | Some target => call (setContent target value)
  | None => Ret tt
  end.

(** [function findTarget(vfs, target, set?)]; the set holds symlink
    objects. *)
Definition findTarget_body (vfs : ref) (target : string) (set : option (list ref))
  : Prog (option ref) :=
  entry <- call (getEntry vfs target no_options) ;;
  match entry with
  | None => Ret None
  | Some entry =>
      e <- get entry ;;
      if instanceof_VirtualSymlink (class e) then
        let set := default [] set in
        if bool_decide (entry ∈ set) then Ret None
        else call (findTarget vfs (_targetPath e) (Some (set ++ [entry])))
      else Ret (Some entry)
  end.

(** ** Dispatch *)

(** [makeReadOnly] with the [makeReadOnlyCore] of the class. *)
Definition makeReadOnlyCore (this : ref) : Prog unit :=
  o <- get this ;;
  match class o with
  | VirtualFileSystem =>
      r <- root this ;;
      call (makeReadOnly r)
  | VirtualDirectory | VirtualDirectoryRoot | VirtualDirectorySymlink =>
      match _entries o with
      | Some entries => for_of entries (fun entry => call (makeReadOnly entry))
      | None => Ret tt
      end
  | VirtualFile | VirtualFileSymlink => Ret tt
  end.

Definition Entry_makeReadOnly (this : ref) : Prog unit :=
  makeReadOnlyCore this ;;
  put this set_readOnly_true.

(** The class of [this] selects the method body; a method the class does
    not have is the runtime's [TypeError]. *)
Definition dispatch {B} (this : ref) (impl : Class -> option (Prog B)) : Prog B :=
  o <- get this ;;
  match impl (class o) with
  | Some p => p
  | None => Throw TypeError
  end.

Definition body {B} (m : Method B) : Prog B :=
  match m in Method B return Prog B with
  | makeReadOnly this => Entry_makeReadOnly this
  | getOwnEntries this =>
      dispatch this (fun c =>
        match c with
        | VirtualFileSystem => Some (VirtualFileSystem_getOwnEntries this)
        | VirtualDirectory | VirtualDirectoryRoot => Some (VirtualDirectory_getOwnEntries this)
        | VirtualDirectorySymlink => Some (VirtualDirectorySymlink_getOwnEntries this)
        | _ => None
        end)
  | getEntries this options =>
      dispatch this (fun c =>
        if instanceof_VirtualFile c then None else Some (Container_getEntries this options))
  | getEntry this path options =>
      dispatch this (fun c =>
        match c with
        | VirtualFileSystem => Some (VirtualFileSystem_getEntry this path options)
        | VirtualDirectory | VirtualDirectoryRoot | VirtualDirectorySymlink =>
            Some (Container_getEntry this path options)
        | _ => None
        end)
  | addDirectory this path resolver =>
      dispatch this (fun c =>
        match c with
        | VirtualFileSystem => Some (VirtualFileSystem_addDirectory this path resolver)
        | VirtualDirectory | VirtualDirectoryRoot =>
            Some (VirtualDirectory_addDirectory this path resolver)
        | VirtualDirectorySymlink => Some (VirtualDirectorySymlink_addDirectory this path resolver)
        | _ => None
        end)
  | addFile this path content =>
      dispatch this (fun c =>
        match c with
        | VirtualFileSystem => Some (VirtualFileSystem_addFile this path content)
        | VirtualDirectory | VirtualDirectoryRoot =>
            Some (VirtualDirectory_addFile this path content)
        | VirtualDirectorySymlink => Some (VirtualDirectorySymlink_addFile this path content)
        | _ => None
        end)
  | addSymlink this path target =>
      dispatch this (fun c =>
        match c with
        | VirtualFileSystem => Some (VirtualFileSystem_addSymlink this path target)
        | VirtualDirectory | VirtualDirectoryRoot | VirtualDirectorySymlink =>
            Some (VirtualDirectory_addSymlink this path target)
        | _ => None
        end)
  | removeDirectory this path =>
      dispatch this (fun c =>
        match c with
        | VirtualFileSystem => Some (VirtualFileSystem_removeDirectory this path)
        | VirtualDirectory | VirtualDirectoryRoot =>
            Some (VirtualDirectory_removeDirectory this path)
        | VirtualDirectorySymlink => Some (VirtualDirectorySymlink_removeDirectory this path)
        | _ => None
        end)
  | removeFile this path =>
      dispatch this (fun c =>
        match c with
        | VirtualFileSystem => Some (VirtualFileSystem_removeFile this path)
        | VirtualDirectory | VirtualDirectoryRoot =>
            Some (VirtualDirectory_removeFile this path)
        | VirtualDirectorySymlink => Some (VirtualDirectorySymlink_removeFile this path)
        | _ => None
        end)
  | getContent this =>
      dispatch this (fun c =>
        match c with
        | VirtualFile => Some (VirtualFile_getContent this)
        | VirtualFileSymlink => Some (VirtualFileSymlink_getContent this)
        | _ => None
        end)
  | setContent this value =>
      dispatch this (fun c =>
        match c with
        | VirtualFile => Some (VirtualFile_setContent this value)
        | VirtualFileSymlink => Some (VirtualFileSymlink_setContent this value)
        | _ => None
        end)
  | findTarget vfs target set => findTarget_body vfs target set
  | listener (onTargetParentChildRemoved link) entry =>
      VirtualDirectorySymlink_onTargetParentChildRemoved link entry
  | listener (onTargetChildRemoved link) entry =>
      VirtualDirectorySymlink_onTargetChildRemoved link entry
  | listener (onTargetChildAdded link) entry =>
      VirtualDirectorySymlink_onTargetChildAdded link entry
  end.

(** [invoke n m]: the call [m] with room for [n] nested calls. *)
Fixpoint invoke (n : nat) {B} (m : Method B) (s : State) : State * Outcome B :=
  match n with
  | 0 => (s, OutOfFuel)
  | S n' => interp (@invoke n') (body m) s
  end.

(** A program run from the outside, its calls having [n] levels. *)
Definition run (n : nat) {A} (p : Prog A) (s : State) : State * Outcome A :=
  interp (@invoke n) p s.

End vfs.

(** ** A reference environment

    Modelled from the spec: the path utilities ([combine], [resolve],
    [basename], [dirname], and [parse] of ./vpath) are missing from the
    sources; the spec only says that they operate on
    forward-slash-normalized strings.  The instance below is the plainest
    reading: a path is its segments joined by "/", [basename] is the last
    segment, [dirname] what precedes the last "/", [combine] joins unless
    the second path is rooted, and [resolve] is [combine] ("." and ".."
    segments are not interpreted).  There is no [Intl] collator, so
    [compareStrings] takes its own fallback branch.  The instance is used
    to run the code on concrete trees; general statements are made for
    every environment. *)

Fixpoint split_slash (s : string) (segment : string) : list string :=
  match s with
  | EmptyString => [segment]
  | String c s' =>
      if Ascii.eqb c "/"%char then segment :: split_slash s' ""
      else split_slash s' (segment +:+ String c "")
  end.

Definition join_slash (l : list string) : string :=
  match l with
  | [] => ""
  | x :: l' => fold_left (fun acc y => acc +:+ "/" +:+ y) l' x
  end.

Definition ref_basename (p : string) : string :=
  List.last (split_slash p "") "".

Definition ref_dirname (p : string) : string :=
  join_slash (removelast (split_slash p "")).

Definition starts_with_slash (p : string) : bool :=
  match p with
  | String c _ => Ascii.eqb c "/"%char
  | EmptyString => false
  end.

Definition ends_with_slash (p : string) : bool :=
  String.eqb (List.last (split_slash p "") "x") "".

Definition ref_combine (a b : string) : string :=
  if String.eqb b "" then a
  else if String.eqb a "" || starts_with_slash b then b
  else if ends_with_slash a then a +:+ b
  else a +:+ "/" +:+ b.

Definition ascii_upper (c : ascii) : ascii :=
  let n := nat_of_ascii c in
  if (97 <=? n) && (n <=? 122) then ascii_of_nat (n - 32) else c.

Fixpoint ref_toUpperCase (s : string) : string :=
  match s with
  | EmptyString => EmptyString
  | String c s' => String (ascii_upper c) (ref_toUpperCase s')
  end.

Definition reference_env : Env := {|
  vpath_basename := ref_basename;
  vpath_dirname := ref_dirname;
  vpath_combine := ref_combine;
  vpath_resolve := ref_combine;
  vpath_parse := fun p => split_slash p "";
  caseInsensitiveCollator := None;
  caseSensitiveCollator := None;
  toUpperCase := ref_toUpperCase
|}.

(** ** Relations between stores *)

(** What never changes about an object once it is constructed, and the
    one direction in which [_readOnly] may move. *)
Definition stable (o o' : Obj) : Prop :=
  class o' = class o /\ fileSystem o' = fileSystem o /\ parent o' = parent o
  /\ name o' = name o /\ path o' = path o
  /\ _useCaseSensitiveFileNames o' = _useCaseSensitiveFileNames o
  /\ (_readOnly o = true -> _readOnly o' = true)
  /\ (is_Some (_entries o) -> is_Some (_entries o')).

Definition extends (s s' : State) : Prop :=
  forall r o, heap s !! r = Some o -> exists o', heap s' !! r = Some o' /\ stable o o'.

(** ** Concrete trees, built through the API on the reference environment *)

Definition empty_state : State := mkState [] [].

(** A directory symlink resolves to its target before it is listed;
    then a file is added to the target and removed again.  The result
    holds the listing of the link after the addition and after the
    removal. *)
Definition mirror_after_resolve {env : Env} : Prog (list ref * list ref) :=
  fs <- new_VirtualFileSystem "" true ;;
  d <- call (addDirectory fs "d" None) ;;
  s <- call (addSymlink fs "s" (target_entry (default 0 d))) ;;
  VirtualDirectorySymlink_isBroken (default 0 s) ;;
  call (addFile (default 0 d) "f" (content_string "x")) ;;
  after_add <- call (getEntries (default 0 s) no_options) ;;
  call (removeFile (default 0 d) "f") ;;
  after_remove <- call (getEntries (default 0 s) no_options) ;;
  Ret (after_add, after_remove).

(** The same, the link having been listed before the file is added. *)
Definition mirror_after_listing {env : Env} : Prog (list ref * list ref) :=
  fs <- new_VirtualFileSystem "" true ;;
  d <- call (addDirectory fs "d" None) ;;
  s <- call (addSymlink fs "s" (target_entry (default 0 d))) ;;
  call (getEntries (default 0 s) no_options) ;;
  call (addFile (default 0 d) "f" (content_string "x")) ;;
  after_add <- call (getEntries (default 0 s) no_options) ;;
  call (removeFile (default 0 d) "f") ;;
  after_remove <- call (getEntries (default 0 s) no_options) ;;
  Ret (after_add, after_remove).

(** A file "a" with content "x" (object 2) is cloned along with its file
    system; the clone of the file (object 5) has been looked up, not
    read. *)
Definition clone_not_read {env : Env} : Prog unit :=
  fs <- new_VirtualFileSystem "" true ;;
  call (addFile fs "a" (content_string "x")) ;;
  fs' <- VirtualFileSystem_clone fs ;;
  getFile fs' "a" no_options ;;
  Ret tt.


(** ** Reading the store *)

Definition class_at (s : State) (r : ref) : option Class := class <$> heap s !! r.
Definition readOnly_at (s : State) (r : ref) : option bool := _readOnly <$> heap s !! r.
Definition name_at (s : State) (r : ref) : option string := name <$> heap s !! r.

(** The store after an assignment to an object that is there. *)
Definition assigned (r : ref) (o' : Obj) (s : State) : State :=
  mkState (<[r:=o']> (heap s)) (asked s).

(** ** Specifications of runs *)

(** [returns n p s Q]: with [n] levels of calls, [p] returns from [s],
    and the final store and the result satisfy [Q]. *)
Definition returns {env : Env} (n : nat) {A} (p : Prog A) (s : State)
    (Q : State -> A -> Prop) : Prop :=
  exists s' a, run n p s = (s', Returned a) /\ Q s' a.

(** The store after a [new]. *)
Definition allocated (o : Obj) (s : State) : State :=
  mkState (heap s ++ [o]) (asked s).

(** The object a constructor of an entry class builds. *)
Definition constructed {env : Env} (c : Class) (p po : Obj) (parent : ref)
    (nm : string) (init : Obj -> Obj) : Obj :=
  init (blank c (fileSystem p)
          (if class p is VirtualDirectoryRoot then fileSystem p else parent)
          nm (vpath_combine (path po) nm)).

(** The object [this.parent] will be for an entry constructed under
    [parent]. *)
Definition owner_of (p : Obj) (parent : ref) : ref :=
  if class p is VirtualDirectoryRoot then fileSystem p else parent.

(** The object [clone(parent)] builds from the entry [this] (object [o]):
    a directory or file clone remembers [this] as its shadow root, a
    symlink clone copies the target path. *)
Definition cloned {env : Env} (this : ref) (o : Obj) (p po : Obj) (parent : ref) : Obj :=
  match class o with
  | VirtualDirectorySymlink =>
      constructed VirtualDirectorySymlink p po parent (name o)
        (fun x => with_link (_targetPath o) None [] None (with_dir None None None x))
  | VirtualFile =>
      constructed VirtualFile p po parent (name o) (with_file None None ∘ with_dir None None (Some this))
  | VirtualFileSymlink =>
      constructed VirtualFileSymlink p po parent (name o)
        (fun x => with_link (_targetPath o) None [] None (with_file None None x))
  | _ =>
      constructed VirtualDirectory p po parent (name o) (with_dir None None (Some this))
  end.

(** The object at a reference of a concrete store. *)
Definition object_at (s : State) (r : ref) : Obj :=
  default (blank VirtualFile 0 0 "" "") (heap s !! r).





Definition listing : FileSystemResolver :=
  {| resolver_getEntries := fun _ => (["a.ts"; "b.ts"], ["sub"]);
     resolver_getContent := fun _ => Some "text" |}.

(** A directory [lib] (object 2) backed by a resolver, not yet listed. *)
Definition directory_with_resolver {env : Env} : Prog unit :=
  fs <- new_VirtualFileSystem "" true ;;
  call (addDirectory fs "lib" (Some listing)) ;;
  Ret tt.


(** A frozen file system with a file [a] and a directory [d]. *)
Definition frozen_file_system {env : Env} : Prog unit :=
  fs <- new_VirtualFileSystem "" true ;;
  call (addFile fs "a" (content_string "x")) ;;
  call (addDirectory fs "d" None) ;;
  call (makeReadOnly fs).


Definition state_after {env : Env} (p : Prog unit) : State :=
  fst (run 12 p empty_state).

(** [after n p s Q]: however the run of [p] from [s] ends, the final
    store and the outcome satisfy [Q]. *)
Definition after {env : Env} (n : nat) {A} (p : Prog A) (s : State)
    (Q : State -> Outcome A -> Prop) : Prop :=
  Q (fst (run n p s)) (snd (run n p s)).

(** ** Well-formed stores *)

Definition fs_at (s : State) (r : ref) : option ref := fileSystem <$> heap s !! r.

(** [r] is an object of file system [F]. *)
Definition in_fs (s : State) (F : ref) (r : ref) : Prop := fs_at s r = Some F.

Definition link_of (h : Handler) : ref :=
  match h with
  | onTargetParentChildRemoved link | onTargetChildRemoved link | onTargetChildAdded link => link
  end.

(** [r] is an entry of file system [F]: an object of [F] other than a
    file system. *)
Definition is_entry (s : State) (F : ref) (r : ref) : Prop :=
  in_fs s F r /\ class_at s r <> Some VirtualFileSystem.

(** Every reference an object holds, other than its shadow root, is to
    an object of its own file system, and its children are entries; the
    file system of an object is a [VirtualFileSystem] that is its own
    file system; a listener belongs to a directory symlink; the shadow
    root is an object of the store. *)
Definition well_formed_object (s : State) (r : ref) (o : Obj) : Prop :=
  in_fs s (fileSystem o) (fileSystem o)
  /\ class_at s (fileSystem o) = Some VirtualFileSystem
  /\ (class o = VirtualFileSystem -> fileSystem o = r)
  /\ in_fs s (fileSystem o) (parent o)
  /\ from_option (in_fs s (fileSystem o)) True (_root o)
  /\ Forall (is_entry s (fileSystem o)) (default [] (_entries o))
  /\ from_option (in_fs s (fileSystem o)) True (_target o)
  /\ Forall (is_entry s (fileSystem o)) (default [] (_symEntries o))
  /\ Forall (fun kv => in_fs s (fileSystem o) kv.2) (_symLinks o)
  /\ Forall (fun h => in_fs s (fileSystem o) (link_of h)
                      /\ class_at s (link_of h) = Some VirtualDirectorySymlink)
        (listeners_childAdded o ++ listeners_childRemoved o)
  /\ from_option (fun x => is_Some (heap s !! x)) True (_shadowRoot o).

Definition well_formed (s : State) : Prop :=
  forall r o, heap s !! r = Some o -> well_formed_object s r o.

(** ** What an operation leaves alone *)

(** The parts of an object that the code fills in once and for all: the
    child collection of a directory, the content of a file, the root
    directory of a file system; and the current directory, which no
    method assigns. *)
Inductive Part := the_entries | the_content | the_root | the_currentDirectory.

Global Instance Part_eq_dec : EqDecision Part.
Proof. solve_decision. Defined.

(** The object has the part. *)
Definition holds (p : Part) (o : Obj) : Prop :=
  match p with
  | the_entries => is_Some (_entries o)
  | the_content => is_Some (_content o)
  | the_root => is_Some (_root o)
  | the_currentDirectory => True
  end.

(** The part is the same in both objects. *)
Definition same (p : Part) (o o' : Obj) : Prop :=
  match p with
  | the_entries => _entries o' = _entries o
  | the_content => _content o' = _content o
  | the_root => _root o' = _root o
  | the_currentDirectory => _currentDirectory o' = _currentDirectory o
  end.

(** The materialized state of an object is kept: every part it has is
    the same afterwards. *)
Definition kept (o o' : Obj) : Prop := forall p, holds p o -> same p o o'.

(** [only_touches G s s']: from [s] to [s'] every object is still there
    and, unless it belongs to file system [G], has kept its materialized
    state. *)
Definition only_touches (G : option ref) (s s' : State) : Prop :=
  forall r o, heap s !! r = Some o ->
    exists o', heap s' !! r = Some o' /\ stable o o'
               /\ (G = Some (fileSystem o) \/ kept o o').

(** [keeps n p s P R]: however the run of [p] from [s] ends, the final
    store satisfies [P]; and when [p] returns, the final store and the
    result satisfy [R]. *)
Definition keeps {env : Env} (n : nat) {A} (p : Prog A) (s : State)
    (P : State -> Prop) (R : State -> A -> Prop) : Prop :=
  after n p s (fun s' out =>
    P s' /\ match out with Returned a => R s' a | _ => True end).

(** The references an assignment stores must be of the file system [F]
    of the object assigned to; a listener must be a directory symlink. *)
Definition update_ok (s : State) (F : ref) (u : Update) : Prop :=
  match u with
  | set_root x | set_target (Some x) | symLinks_set _ x => in_fs s F x
  | push_entries x | push_symEntries x => is_entry s F x
  | set_symEntries (Some l) => Forall (is_entry s F) l
  | add_listener _ h =>
      in_fs s F (link_of h) /\ class_at s (link_of h) = Some VirtualDirectorySymlink
  | set_shadowRoot (Some x) => is_Some (heap s !! x)
  | _ => True
  end.

(** The part an assignment writes. *)
Definition update_kind (u : Update) : option Part :=
  match u with
  | set_entries_empty | push_entries _ | splice_entries _ => Some the_entries
  | set_content _ => Some the_content
  | set_root _ => Some the_root
  | set_currentDirectory _ => Some the_currentDirectory
  | _ => None
  end.

(** Such an assignment to [r] is harmless with respect to the store
    [s0] if [r] did not have that part in [s0], or was not there. *)
Definition unmaterialized_in (s0 : State) (r : ref) (u : Update) : Prop :=
  match update_kind u with
  | Some p => forall o0, heap s0 !! r = Some o0 -> ~ holds p o0
  | None => True
  end.

(** The state of a method in progress: the store is well formed and
    differs from the store [s0] at entry only as [only_touches G]
    allows. *)
Definition good (G : option ref) (s0 s : State) : Prop :=
  well_formed s /\ only_touches G s0 s.

(** ** What every method guarantees *)

Definition this_of {B} (m : Method B) : ref :=
  match m with
  | makeReadOnly this | getOwnEntries this | getEntries this _ | getEntry this _ _
  | addDirectory this _ _ | addFile this _ _ | addSymlink this _ _
  | removeDirectory this _ | removeFile this _ | getContent this | setContent this _
  | findTarget this _ _ => this
  | listener h _ => link_of h
  end.

(** The methods that add, remove or overwrite. *)
Definition mutates {B} (m : Method B) : bool :=
  match m with
  | addDirectory _ _ _ | addFile _ _ _ | addSymlink _ _ _
  | removeDirectory _ _ | removeFile _ _ | setContent _ _ => true
  | _ => false
  end.

(** The entries a method hands back. *)
Definition result_refs {B} (m : Method B) : B -> list ref :=
  match m in Method B return B -> list ref with
  | getOwnEntries _ | getEntries _ _ => fun l => l
  | getEntry _ _ _ | addDirectory _ _ _ | addFile _ _ _ | addSymlink _ _ _
  | findTarget _ _ _ => fun r => option_list r
  | _ => fun _ => []
  end.

(** The file system a method may change: that of [this] for a mutating
    method, none otherwise. *)
Definition scope {B} (m : Method B) (s : State) : option ref :=
  if mutates m then fs_at s (this_of m) else None.

Definition expects {B} (m : Method B) (s : State) : Prop :=
  well_formed s
  /\ match m with
     | listener h _ => class_at s (link_of h) = Some VirtualDirectorySymlink
     | _ => True
     end.

Definition ensures {B} (m : Method B) (s : State) (r : State * Outcome B) : Prop :=
  good (scope m s) s r.1
  /\ match r.2 with
     | Returned b =>
         forall F, in_fs s F (this_of m) -> Forall (is_entry r.1 F) (result_refs m b)
     | _ => True
     end.

(** An object that holds no reference to another yet. *)
Definition bare (o : Obj) : Prop :=
  _root o = None /\ _entries o = None /\ _target o = None /\ _symEntries o = None
  /\ _symLinks o = [] /\ listeners_childAdded o = [] /\ listeners_childRemoved o = []
  /\ _shadowRoot o = None.

(** What the initialisation of a constructor may do to the blank
    object. *)
Definition plain_init (init : Obj -> Obj) : Prop :=
  forall b, bare b ->
    bare (init b) /\ fileSystem (init b) = fileSystem b
    /\ parent (init b) = parent b /\ class (init b) = class b.


(** ** A client of the API *)





(** The store in which [addFile] announces the file it has made in
    directory [d]: the file is allocated, with its content, and is the
    last child of [d]. *)
Definition file_pushed {env : Env} (s : State) (d : ref) (od po : Obj) (l : list ref)
    (nm c : string) : State :=
  assigned d (with_dir (Some (l ++ [length (heap s)])) (_resolver od) (_shadowRoot od) od)
    (allocated (constructed VirtualFile od po d nm (with_file (Some c) None)) s).

(** ** Freezing *)







(** ** Checking a concrete store *)

Global Instance Class_eq_dec : EqDecision Class.
Proof. solve_decision. Defined.

Global Instance from_option_dec {A} (P : A -> Prop) (Q : Prop)
    `{forall x, Decision (P x)} `{Decision Q} (mx : option A) :
  Decision (from_option P Q mx).
Proof. destruct mx; simpl; apply _. Defined.

(** A property of every object of a store, object by object. *)
Definition every_object (P : ref -> Obj -> Prop) (s : State) : Prop :=
  Forall (fun ro => P ro.1 ro.2) (imap pair (heap s)).

Global Instance well_formed_object_dec s r o : Decision (well_formed_object s r o).
Proof. unfold well_formed_object, is_entry, in_fs. apply _. Defined.

(** A file system with a file "a" (object 2, content "x") and a
    directory "d" (object 3) that holds a file "f" (object 4, content
    "y"); object 0 is the file system and object 1 its root
    directory. *)
Definition small_tree {env : Env} : Prog unit :=
  fs <- new_VirtualFileSystem "" true ;;
  call (addFile fs "a" (content_string "x")) ;;
  d <- call (addDirectory fs "d" None) ;;
  call (addFile (default 0 d) "f" (content_string "y")) ;;
  Ret tt.



(** ** Auxiliary predicates *)

(** The run did not stop for want of fuel. *)
Definition finished {A} (r : State * Outcome A) : Prop := snd r <> OutOfFuel.

(** The state of a population loop of directory [d] (object [od] in the
    store [s0] it started from, [log] what the resolvers have been asked
    by then): the children made so far
    carry the names handed out so far, in order; they are new objects,
    as frozen as [d]; and no other object that was there has changed. *)
Definition populating (s0 : State) (d : ref) (od : Obj) (log : list Consulted)
    (refs : list ref) (done : list string) (s : State) : Prop :=
  exists o,
    heap s !! d = Some o /\ _entries o = Some refs
    /\ _resolver o = None /\ _shadowRoot o = None
    /\ class o = class od /\ fileSystem o = fileSystem od /\ path o = path od
    /\ name o = name od /\ _readOnly o = _readOnly od
    /\ Forall2 (fun e nm => length (heap s0) <= e
                              /\ exists oe, heap s !! e = Some oe /\ name oe = nm
                                   /\ _readOnly oe = _readOnly od
                                   /\ fileSystem oe = fileSystem od) refs done
    /\ NoDup refs
    /\ length (heap s0) <= length (heap s)
    /\ (forall r, r < length (heap s0) -> r <> d -> heap s !! r = heap s0 !! r)
    /\ asked s = log.




(** * The rest of vfs.ts *)

Section vfs_more.
Context {env : Env}.

(** [getDirectories(options)] and [getFiles(options)] of a container:
    [this.getEntries({ kind, ...options })], the [options] having no
    [kind] of their own. *)
Definition getDirectories (this : ref) (options : Options) : Prog (list ref) :=
  call (getEntries this (with_kind kind_directory options)).

Definition getFiles (this : ref) (options : Options) : Prog (list ref) :=
  call (getEntries this (with_kind kind_file options)).

(** [directoryExists(path)] and [fileExists(path)] of the file system:
    [this.getEntry(path) instanceof C]. *)
Definition directoryExists (this : ref) (path : string) : Prog bool :=
  entry <- call (getEntry this path no_options) ;;
  match entry with
  | Some entry => e <- get entry ;; Ret (instanceof_VirtualDirectory (class e))
  | None => Ret false
  end.

Definition fileExists (this : ref) (path : string) : Prog bool :=
  entry <- call (getEntry this path no_options) ;;
  match entry with
  | Some entry => e <- get entry ;; Ret (instanceof_VirtualFile (class e))
  | None => Ret false
  end.

(** [l.map(x => x.name)]. *)
Definition names_of (l : list ref) : Prog (list string) :=
  map_of l (fun x => o <- get x ;; Ret (name o)).

(** [getAccessibleFileSystemEntries(path)] of the file system; the
    result is the pair of [files] and [directories]. *)
Definition getAccessibleFileSystemEntries (this : ref) (path : string)
  : Prog (list string * list string) :=
  entry <- call (getEntry this path no_options) ;;
  match entry with
  | Some entry =>
      e <- get entry ;;
      if instanceof_VirtualDirectory (class e) then
        files <- getFiles entry no_options ;;
        files <- names_of files ;;
        directories <- getDirectories entry no_options ;;
        directories <- names_of directories ;;
        Ret (files, directories)
      else Ret ([], [])
  | None => Ret ([], [])
  end.

End vfs_more.

(** The child [e] is a file (or a file symlink) in store [s]. *)
Definition is_file_at (s : State) (e : ref) : bool :=
  from_option (fun o => instanceof_VirtualFile (class o)) false (heap s !! e).

(** The child [e] passes the [pattern] of the options in store [s]. *)
Definition passes_at (s : State) (options : Options) (e : ref) : bool :=
  match pattern options with
  | Some test => from_option (fun o => test (name o)) false (heap s !! e)
  | None => true
  end.

(** A directory that announces to nobody: no listener is registered on
    it. *)
Definition silent (o : Obj) : Prop :=
  listeners_childAdded o = [] /\ listeners_childRemoved o = [].

(** A file "r" (object 2) whose content is whatever the resolver
    [listing] reports, not read yet. *)
Definition file_with_resolver {env : Env} : Prog unit :=
  fs <- new_VirtualFileSystem "" true ;;
  call (addFile fs "r" (content_function (resolver_getContent listing))) ;;
  Ret tt.

(** What a lookup that asks for kind [k] keeps of the entry the same
    lookup finds without a kind: [isMatch] takes whatever is not a file
    for a directory. *)
Definition of_kind (k : Kind) (s : State) (found : option ref) : option ref :=
  match found with
  | Some e =>
      if Kind_eqb (Some k) (Some (if is_file_at s e then kind_directory else kind_file))
      then None else Some e
  | None => None
  end.

Definition narrowed (k : Kind) (r : State * Outcome (option ref))
  : State * Outcome (option ref) :=
  match r with
  | (s', Returned found) => (s', Returned (of_kind k s' found))
  | _ => r
  end.

(** The answer of [x !== undefined] to the outcome of a lookup. *)
Definition is_found (r : State * Outcome (option ref)) : State * Outcome bool :=
  match r with
  | (s', Returned found) => (s', Returned (if found is Some _ then true else false))
  | (s', Thrown e) => (s', Thrown e)
  | (s', OutOfFuel) => (s', OutOfFuel)
  end.

(** The classes of the objects [refs], one by one. *)
Definition classes_at (s : State) (refs : list ref) (cs : list Class) : Prop :=
  Forall2 (fun e c => class_at s e = Some c) refs cs.

(** The names of the objects [refs], one by one. *)
Definition names_at (s : State) (refs : list ref) (names : list string) : Prop :=
  Forall2 (fun e nm => exists oe, heap s !! e = Some oe /\ name oe = nm) refs names.

(** [small_tree] with a clone of its file system (object 5; the root
    directory of the clone is object 6), nothing of which has been
    listed. *)
Definition small_tree_cloned {env : Env} : Prog unit :=
  small_tree ;;
  VirtualFileSystem_clone 0 ;;
  Ret tt.

(** The store after an addition in directory [d] (object [od], children
    [l]) has constructed its entry and pushed it, [po] being the object
    that stands as parent of what is constructed under [d]. *)
Definition entry_attached {env : Env} (s : State) (d : ref) (od po : Obj) (l : list ref)
    (c : Class) (nm : string) (init : Obj -> Obj) : State :=
  assigned d (with_dir (Some (l ++ [length (heap s)])) (_resolver od) (_shadowRoot od) od)
    (allocated (constructed c od po d nm init) s).

(** A directory as its constructor leaves it when it is given no
    resolver: nothing listed, nothing to list from. *)
Definition fresh_directory (o : Obj) : Prop :=
  class o = VirtualDirectory /\ _entries o = None /\ _resolver o = None
  /\ _shadowRoot o = None.

(** The link [w] that a directory symlink [this] makes to stand for the
    child [oe] of its target. *)
Definition wrapper_of (this : ref) (oe w : Obj) : Prop :=
  name w = name oe /\ _targetPath w = path oe /\ parent w = this
  /\ class w = (if instanceof_VirtualFile (class oe)
                then VirtualFileSymlink else VirtualDirectorySymlink).

(** The state of the listing of a directory symlink [this] (object [o]
    in the store [s0] it started from): the links made so far stand for
    the children seen so far, in order; they are new objects; and no
    other object that was there has changed. *)
Definition mirroring (s0 : State) (this : ref) (o : Obj) (seen done : list ref)
    (s : State) : Prop :=
  exists o',
    heap s !! this = Some o' /\ stable o o' /\ _symEntries o' = _symEntries o
    /\ (forall e, e ∉ seen -> map_get e (_symLinks o) = None ->
                  map_get e (_symLinks o') = None)
    /\ Forall2 (fun e' e => length (heap s0) <= e'
                  /\ exists oe w, heap s0 !! e = Some oe /\ heap s !! e' = Some w
                                  /\ wrapper_of this oe w) done seen
    /\ NoDup done
    /\ length (heap s0) <= length (heap s)
    /\ (forall r, r < length (heap s0) -> r <> this -> heap s !! r = heap s0 !! r)
    /\ asked s = asked s0.

(** [small_tree] with a directory symlink "s" (object 5) to its
    directory "d" (object 3); the link has been resolved by a call of
    [isBroken], and not listed. *)
Definition small_tree_with_link {env : Env} : Prog unit :=
  small_tree ;;
  s <- call (addSymlink 0 "s" (target_entry 3)) ;;
  VirtualDirectorySymlink_isBroken (default 0 s) ;;
  Ret tt.

(** [small_tree] with a directory symlink "s" (object 5) to its
    directory "d" (object 3) that has been listed: object 6 is the
    symlink that stands for the file "f" (object 4) in it. *)
Definition small_tree_with_listed_link {env : Env} : Prog unit :=
  small_tree ;;
  s <- call (addSymlink 0 "s" (target_entry 3)) ;;
  call (getEntries (default 0 s) no_options) ;;
  Ret tt.

(** [small_tree] with a directory "e" (object 5) in its directory "d"
    (object 3) and a directory symlink "s" (object 6) in the root
    directory that points at "e"; the link has been resolved by a call
    of [isBroken]. *)
Definition link_to_a_nested_directory {env : Env} : Prog unit :=
  small_tree ;;
  e <- call (addDirectory 3 "e" None) ;;
  s <- call (addSymlink 0 "s" (target_entry (default 0 e))) ;;
  VirtualDirectorySymlink_isBroken (default 0 s) ;;
  Ret tt.

(** [small_tree] with a directory symlink "s" (object 5) to its
    directory "d" (object 3), not resolved yet. *)
Definition small_tree_with_new_link {env : Env} : Prog unit :=
  small_tree ;;
  call (addSymlink 0 "s" (target_entry 3)) ;;
  Ret tt.

(** * utils.ts

    Strings are sequences of code units; [length], [+], [endsWith] and
    [substring] are those of the host language. *)

(** [s.endsWith(t)]. *)
Definition endsWith (s t : string) : bool :=
  bool_decide (String.list_ascii_of_string t `suffix_of` String.list_ascii_of_string s).

Definition isTypeScriptFile (path : string) : bool :=
  endsWith path ".ts" || endsWith path ".tsx".

Definition isJavaScriptFile (path : string) : bool :=
  endsWith path ".js" || endsWith path ".jsx".

Definition isDeclarationFile (path : string) : bool :=
  endsWith path ".d.ts".

Definition isSourceMapFile (path : string) : bool :=
  endsWith path ".map".

Definition isJsonFile (path : string) : bool :=
  endsWith path ".json".

(** A [while] loop over a state, with room for [fuel] turns: [None] when
    they do not suffice. *)
Fixpoint while_loop {X} (fuel : nat) (cond : X -> bool) (step : X -> X) (x : X)
  : option X :=
  if cond x then
    match fuel with
    | 0 => None
    | S fuel' => while_loop fuel' cond step (step x)
    end
  else Some x.

(** [padLeft(text, size, ch)] and [padRight(text, size, ch)]; [size] is
    an integer. *)
Definition padLeft (fuel : nat) (text : string) (size : Z) (ch : string) : option string :=
  while_loop fuel (fun text => (Z.of_nat (String.length text) <? size)%Z)
    (fun text => ch +:+ text) text.

Definition padRight (fuel : nat) (text : string) (size : Z) (ch : string) : option string :=
  while_loop fuel (fun text => (Z.of_nat (String.length text) <? size)%Z)
    (fun text => text +:+ ch) text.

(** [repeatString(text, count)]: the loop over [i] from 0 while
    [i < count], for an integer [count]. *)
Definition repeatString (fuel : nat) (text : string) (count : Z) : option string :=
  snd <$> while_loop fuel (fun st : Z * string => (fst st <? count)%Z)
            (fun st => ((fst st + 1)%Z, snd st +:+ text)) (0%Z, "").

(** [k] copies of [text], one after the other. *)
Fixpoint copies (text : string) (k : nat) : string :=
  match k with
  | 0 => ""
  | S k' => copies text k' +:+ text
  end.

(** [compareValues(a, b)] at integers, [None] for [undefined]. *)
Definition compareValues (a b : option Z) : Z :=
  if bool_decide (a = b) then 0
  else match a, b with
       | None, _ => -1
       | _, None => 1
       | Some x, Some y => if (x <? y)%Z then -1 else if (y <? x)%Z then 1 else 0
       end.

(** [a || b] at numbers: [b] where [a] is 0. *)
Definition or_else (a b : Z) : Z := if (a =? 0)%Z then b else a.

(** What the language asks of a comparer handed to [sort]: it orders
    the values as a total preorder does. *)
Definition consistent {X} (cmp : X -> X -> Z) : Prop :=
  (forall a, cmp a a = 0%Z)
  /\ (forall a b, (cmp a b < 0)%Z <-> (0 < cmp b a)%Z)
  /\ (forall a b c, (cmp a b <= 0)%Z -> (cmp b c <= 0)%Z -> (cmp a c <= 0)%Z).

(** Every element of the list stands in [R] to all that come after
    it. *)
Fixpoint ordered {X} (R : X -> X -> Prop) (l : list X) : Prop :=
  match l with
  | [] => True
  | x :: l' => Forall (R x) l' /\ ordered R l'
  end.

(** What the language promises of [array.sort(cmp)] for a consistent
    comparer: the elements rearranged so that none comes before one
    that [cmp] puts first.  Among elements that [cmp] takes for equal
    the arrangement is left to the host. *)
Definition sorts (sort : (nat -> nat -> Z) -> list nat -> list nat) : Prop :=
  forall cmp l,
    consistent cmp ->
    sort cmp l ≡ₚ l /\ ordered (fun x y => (cmp x y <= 0)%Z) (sort cmp l).

Section sorting.
Context {T : Type}.
Variable sort : (nat -> nat -> Z) -> list nat -> list nat.
Variable undefined : T.

(** [stableSort(array, comparer)], over the [sort] of the host;
    [undefined] is what [array[i]] gives out of range. *)
Definition stableSort (array : list T) (comparer : T -> T -> Z) : list T :=
  let indices := imap (fun i _ => i) array in
  let sorted :=
    sort (fun x y => or_else (comparer (nth x array undefined) (nth y array undefined))
                       (compareValues (Some (Z.of_nat x)) (Some (Z.of_nat y))))
      indices in
  map (fun i => nth i array undefined) sorted.

End sorting.

(** A [sort] of the kind the language allows: insertion from the right
    end, which puts an element behind the ones it compares equal to. *)
Fixpoint inserted (cmp : nat -> nat -> Z) (x : nat) (l : list nat) : list nat :=
  match l with
  | [] => [x]
  | y :: l' => if (cmp x y <? 0)%Z then x :: l else y :: inserted cmp x l'
  end.

Definition insertion_sort (cmp : nat -> nat -> Z) (l : list nat) : list nat :=
  fold_right (inserted cmp) [] l.

(** The order of two pairs by their numbers. *)
Definition by_number (u v : Z * string) : Z := compareValues (Some u.1) (Some v.1).

(** * documents.ts *)

#[local] Unset Elimination Schemes.
Inductive TextDocument := mkTextDocument {
  meta : list (string * string);
  parent_document : option TextDocument;
  file : string;
  text : string;
  pos : Z;
  end_ : Z
}.
#[local] Set Elimination Schemes.

Record TextFragment := mkTextFragment {
  fragment_parent : TextDocument;
  fragment_pos : Z;
  fragment_end : Z
}.

(** [s.substring(start, end)]: both indices are clamped to the string
    and swapped if out of order. *)
Definition js_substring (s : string) (start stop : Z) : string :=
  let clamp x := Z.to_nat (Z.min (Z.max x 0) (Z.of_nat (String.length s))) in
  let a := clamp start in
  let b := clamp stop in
  String.substring (Nat.min a b) (Nat.max a b - Nat.min a b) s.

(** [new TextDocument(file, content, meta?)]. *)
Definition new_TextDocument (file : string) (content : string + TextFragment)
    (meta : option (list (string * string))) : TextDocument :=
  match content with
  | inl content =>
      mkTextDocument (default [] meta) None file content 0 (Z.of_nat (String.length content))
  | inr content =>
      let parent := fragment_parent content in
      let this_pos := (pos parent + fragment_pos content)%Z in
      let this_end := (pos parent + fragment_end content)%Z in
      mkTextDocument (default [] meta) (Some parent) file
        (js_substring (text parent) this_pos this_end) this_pos this_end
  end.

Definition isTypeScriptDocument (document : TextDocument) : bool :=
  isTypeScriptFile (file document).
Definition isJavaScriptDocument (document : TextDocument) : bool :=
  isJavaScriptFile (file document).
Definition isDeclarationDocument (document : TextDocument) : bool :=
  isDeclarationFile (file document).
Definition isSourceMapDocument (document : TextDocument) : bool :=
  isSourceMapFile (file document).
Definition isJsonDocument (document : TextDocument) : bool :=
  isJsonFile (file document).

(** * compiler.ts: the host the compiler is given *)

(** The byte order mark that [writeFile] puts in front; a string of one
    character in the source, whatever code units stand for it here. *)
Definition byteOrderMark : string :=
  String (ascii_of_nat 239) (String (ascii_of_nat 187) (String (ascii_of_nat 191) "")).

(** [array.findIndex(f)], [None] for [-1]. *)
Fixpoint findIndex {A} (f : A -> bool) (l : list A) : option nat :=
  match l with
  | [] => None
  | x :: l' => if f x then Some 0 else S <$> findIndex f l'
  end.

Section compiler.
Context {env : Env}.
Variables TypeScript SourceFile : Type.

(** [class CompilerHost]; the compiler ([ts]) and the source files it
    has parsed are of types the harness only passes around. *)
Record CompilerHost := mkCompilerHost {
  _setParentNodes : bool;
  _sourceFiles : list (string * SourceFile);
  _newLine : string;
  ts : TypeScript;
  vfs : ref;
  defaultLibLocation : string;
  outputs : list TextDocument;
  traces : list string
}.

Inductive NewLine := crlf | lf.

Definition new_CompilerHost (ts : TypeScript) (vfs : ref) (defaultLibLocation : string)
    (newLine : NewLine) (setParentNodes : bool) : CompilerHost :=
  mkCompilerHost setParentNodes []
    (match newLine with
     | crlf => String (ascii_of_nat 13) (String (ascii_of_nat 10) "")
     | lf => String (ascii_of_nat 10) ""
     end)
    ts vfs defaultLibLocation [] [].

Definition with_outputs (l : list TextDocument) (this : CompilerHost) : CompilerHost :=
  mkCompilerHost (_setParentNodes this) (_sourceFiles this) (_newLine this) (ts this)
    (vfs this) (defaultLibLocation this) l (traces this).

Definition CompilerHost_getCurrentDirectory (this : CompilerHost) : Prog string :=
  fs <- get (vfs this) ;; Ret (_currentDirectory fs).

Definition CompilerHost_useCaseSensitiveFileNames (this : CompilerHost) : Prog bool :=
  fs <- get (vfs this) ;; Ret (_useCaseSensitiveFileNames fs).

Definition CompilerHost_fileExists (this : CompilerHost) (fileName : string) : Prog bool :=
  fileExists (vfs this) fileName.

Definition CompilerHost_directoryExists (this : CompilerHost) (directoryName : string)
  : Prog bool :=
  directoryExists (vfs this) directoryName.

(** [readFile(path)]: [entry && entry.getContent()]. *)
Definition CompilerHost_readFile (this : CompilerHost) (path : string)
  : Prog (option string) :=
  entry <- getFile (vfs this) path no_options ;;
  match entry with
  | Some entry => call (getContent entry)
  | None => Ret None
  end.

(** [writeFile(fileName, content, writeByteOrderMark)]; the host with
    its [outputs] brought up to date is handed back. *)
Definition CompilerHost_writeFile (this : CompilerHost) (fileName content : string)
    (writeByteOrderMark : bool) : Prog CompilerHost :=
  let content := if writeByteOrderMark then byteOrderMark +:+ content else content in
  entry <- call (addFile (vfs this) fileName content_undefined) ;;
  match entry with
  | Some entry =>
      call (setContent entry (Some content)) ;;
      e <- get entry ;;
      let document := new_TextDocument (path e) (inl content) None in
      fs <- get (vfs this) ;;
      match findIndex (fun doc => sameName fs (file document) (file doc)) (outputs this) with
      | None => Ret (with_outputs (outputs this ++ [document]) this)
      | Some index => Ret (with_outputs (<[index:=document]> (outputs this)) this)
      end
  | None => Ret this
  end.

(** [realpath(path)]: [entry && entry.path || path]. *)
Definition CompilerHost_realpath (this : CompilerHost) (path : string) : Prog string :=
  entry <- call (getEntry (vfs this) path (mkOptions false true None None)) ;;
  match entry with
  | Some entry =>
      e <- get entry ;;
      Ret (if truthy (path_of e) then path_of e else path)
  | None => Ret path
  end.

(** [class ParseConfigHost]. *)
Record ParseConfigHost := mkParseConfigHost {
  ParseConfigHost_ts : TypeScript;
  ParseConfigHost_vfs : ref
}.

Definition ParseConfigHost_fileExists (this : ParseConfigHost) (path : string) : Prog bool :=
  fileExists (ParseConfigHost_vfs this) path.

Definition ParseConfigHost_readFile (this : ParseConfigHost) (path : string)
  : Prog (option string) :=
  entry <- getFile (ParseConfigHost_vfs this) path no_options ;;
  match entry with
  | Some entry => call (getContent entry)
  | None => Ret None
  end.

End compiler.

(** The store in which [addFile] announces the file it has made in
    directory [d], for whatever content was given. *)
Definition file_attached {env : Env} (s : State) (d : ref) (od po : Obj) (l : list ref)
    (nm : string) (content : Content) : State :=
  assigned d (with_dir (Some (l ++ [length (heap s)])) (_resolver od) (_shadowRoot od) od)
    (allocated
       (constructed VirtualFile od po d nm
          (with_file (if content is content_string c then Some c else None)
                     (if content is content_function f then Some f else None))) s).

(** A host over the file system that is object 0, the compiler and its
    source files left out. *)
Definition host_of_object_0 : CompilerHost unit unit :=
  new_CompilerHost unit unit tt 0 "built/local" crlf false.

(** [small_tree] with a file symlink "k" (object 5) in its root
    directory that points at the file "a" (object 2). *)
Definition small_tree_with_file_link {env : Env} : Prog unit :=
  small_tree ;;
  call (addSymlink 0 "k" (target_entry 2)) ;;
  Ret tt.
(** * Properties *)

(** ** Running programs *)

Section running.
Context {env : Env}.


Lemma interp_bind (rc : forall B, Method B -> State -> State * Outcome B)
    {A B} (p : Prog A) (f : A -> Prog B) s :
  interp rc (bind p f) s =
  match interp rc p s with
  | (s', Returned a) => interp rc (f a) s'
  | (s', Thrown e) => (s', Thrown e)
  | (s', OutOfFuel) => (s', OutOfFuel)
  end.
Proof.
  revert s. induction p as [a|e|X q k IH|X m k IH]; intros s; simpl; auto.
  - destruct (prim_step q s) as [s' [b|e|]]; auto.
  - destruct (rc X m s) as [s' [b|e|]]; auto.
Qed.

Lemma run_bind n {A B} (p : Prog A) (f : A -> Prog B) s :
  run n (bind p f) s =
  match run n p s with
  | (s', Returned a) => run n (f a) s'
  | (s', Thrown e) => (s', Thrown e)
  | (s', OutOfFuel) => (s', OutOfFuel)
  end.
Proof. apply interp_bind. Qed.

Lemma for_of_cons {X} (x : X) l (f : X -> Prog unit) :
  for_of (x :: l) f = (f x ;; for_of l f).
Proof. reflexivity. Qed.

Lemma map_of_cons {X Y} (x : X) l (f : X -> Prog Y) :
  map_of (x :: l) f = (y <- f x ;; ys <- map_of l f ;; Ret (y :: ys)).
Proof. reflexivity. Qed.

Lemma filter_of_cons {X} (x : X) l (f : X -> Prog bool) :
  filter_of (x :: l) f
  = (b <- f x ;; xs <- filter_of l f ;; Ret (if b : bool then x :: xs else xs)).
Proof. reflexivity. Qed.

Lemma run_ret n {A} (a : A) s : run n (Ret a) s = (s, Returned a).
Proof. reflexivity. Qed.

Lemma run_throw n {A} e s : run n (@Throw A e) s = (s, Thrown e).
Proof. reflexivity. Qed.

Lemma run_call n {B} (m : Method B) s : run (S n) (call m) s = run n (body m) s.
Proof.
  unfold run, call. simpl.
  destruct (interp (@invoke env n) (body m) s) as [s' [b|e|]]; reflexivity.
Qed.

Lemma run_call_0 {B} (m : Method B) s : run 0 (call m) s = (s, OutOfFuel).
Proof. reflexivity. Qed.

Lemma invoke_S n {B} (m : Method B) s : invoke (S n) m s = run n (body m) s.
Proof. reflexivity. Qed.

Lemma run_call_invoke n {B} (m : Method B) s : run n (call m) s = invoke n m s.
Proof.
  unfold run, call. simpl. destruct (invoke n m s) as [s' [b|e|]]; reflexivity.
Qed.

Lemma run_get n r o s : heap s !! r = Some o -> run n (get r) s = (s, Returned o).
Proof. intros H. unfold run, get. simpl. rewrite H. reflexivity. Qed.

Lemma run_get_None n r s : heap s !! r = None -> run n (get r) s = (s, Thrown TypeError).
Proof. intros H. unfold run, get. simpl. rewrite H. reflexivity. Qed.

Lemma run_put n r u o o' s :
  heap s !! r = Some o -> apply_update u o = Some o' ->
  run n (put r u) s = (mkState (<[r:=o']> (heap s)) (asked s), Returned tt).
Proof. intros H H'. unfold run, put. simpl. rewrite H, H'. reflexivity. Qed.

Lemma run_new n mk s :
  run n (new mk) s
  = (mkState (heap s ++ [mk (length (heap s))]) (asked s), Returned (length (heap s))).
Proof. reflexivity. Qed.

Lemma run_ask n c s :
  run n (ask c) s = (mkState (heap s) (asked s ++ [c]), Returned tt).
Proof. reflexivity. Qed.

(** More fuel never changes a run that finished. *)
Lemma interp_more (rc rc' : forall B, Method B -> State -> State * Outcome B) :
  (forall B (m : Method B) s, finished (rc B m s) -> rc' B m s = rc B m s) ->
  forall A (p : Prog A) s, finished (interp rc p s) -> interp rc' p s = interp rc p s.
Proof.
  intros Hrc A p. induction p as [a|e|X q k IH|X m k IH]; intros s; simpl; auto.
  - destruct (prim_step q s) as [s' [b|e|]]; auto.
  - intros Hfin.
    destruct (rc X m s) as [s' [b|e|]] eqn:E.
    + rewrite (Hrc X m s); rewrite E; [|unfold finished; simpl; congruence].
      apply IH, Hfin.
    + rewrite (Hrc X m s); rewrite E; [reflexivity|unfold finished; simpl; congruence].
    + exfalso. apply Hfin. reflexivity.
Qed.

Lemma invoke_S_more n :
  forall B (m : Method B) s, finished (invoke n m s) -> invoke (S n) m s = invoke n m s.
Proof.
  induction n as [|n IH]; intros B m s Hfin.
  - exfalso. apply Hfin. reflexivity.
  - change (interp (@invoke env (S n)) (body m) s = interp (@invoke env n) (body m) s).
    apply interp_more; [exact IH|exact Hfin].
Qed.

Lemma invoke_more n k {B} (m : Method B) s :
  finished (invoke n m s) -> invoke (n + k) m s = invoke n m s.
Proof.
  intros Hfin. induction k as [|k IH].
  - rewrite Nat.add_0_r. reflexivity.
  - rewrite Nat.add_succ_r. rewrite invoke_S_more; rewrite IH; auto.
Qed.

Lemma run_more n k {A} (p : Prog A) s :
  finished (run n p s) -> run (n + k) p s = run n p s.
Proof.
  intros Hfin. unfold run. apply interp_more; [|exact Hfin].
  intros B m s' H. apply invoke_more, H.
Qed.

Lemma run_more_le n n' {A} (p : Prog A) s r :
  run n p s = r -> snd r <> OutOfFuel -> n <= n' -> run n' p s = r.
Proof.
  intros <- Hfin Hle. replace n' with (n + (n' - n)) by lia.
  apply run_more, Hfin.
Qed.


End running.

(** ** What no program can undo *)

Section monotone.
Context {env : Env}.

Lemma stable_refl o : stable o o.
Proof. unfold stable. tauto. Qed.

Lemma stable_trans o1 o2 o3 : stable o1 o2 -> stable o2 o3 -> stable o1 o3.
Proof.
  unfold stable. intros (?&?&?&?&?&?&?&?) (?&?&?&?&?&?&?&?).
  split_and!; try congruence; auto.
Qed.

Lemma extends_refl s : extends s s.
Proof. intros r o H. exists o. split; [exact H|apply stable_refl]. Qed.

Lemma extends_trans s1 s2 s3 : extends s1 s2 -> extends s2 s3 -> extends s1 s3.
Proof.
  intros H12 H23 r o H. destruct (H12 r o H) as (o2 & H2 & S2).
  destruct (H23 r o2 H2) as (o3 & H3 & S3).
  exists o3. split; [exact H3|eapply stable_trans; eauto].
Qed.

Lemma apply_update_stable u o o' : apply_update u o = Some o' -> stable o o'.
Proof.
  unfold stable.
  destruct u as [| | | | | | | | | | | | | | | | | |[] ?|[] ?]; simpl;
    repeat match goal with |- context [match ?x with _ => _ end] => destruct x end;
    intros [= <-]; simpl; split_and!; eauto.
Qed.

Lemma prim_step_extends {B} (p : Prim B) s : extends s (fst (prim_step p s)).
Proof.
  destruct p as [mk|r|r u|c]; simpl.
  - intros r o H. exists o. split; [|apply stable_refl].
    simpl. apply lookup_app_l_Some. exact H.
  - destruct (heap s !! r); apply extends_refl.
  - destruct (heap s !! r) as [o|] eqn:E; [|apply extends_refl].
    destruct (apply_update u o) as [o'|] eqn:E'; [|apply extends_refl].
    intros r' o0 H. simpl. destruct (decide (r = r')) as [->|Hne].
    + exists o'. split.
      * apply list_lookup_insert_eq. apply lookup_lt_Some in E. exact E.
      * assert (o0 = o) as -> by congruence. eapply apply_update_stable; eauto.
    + exists o0. split; [|apply stable_refl].
      rewrite list_lookup_insert_ne; auto.
  - intros r o H. exists o. split; [exact H|apply stable_refl].
Qed.

Lemma interp_extends (rc : forall B, Method B -> State -> State * Outcome B) :
  (forall B (m : Method B) s, extends s (fst (rc B m s))) ->
  forall A (p : Prog A) s, extends s (fst (interp rc p s)).
Proof.
  intros Hrc A p. induction p as [a|e|X q k IH|X m k IH]; intros s; simpl.
  - apply extends_refl.
  - apply extends_refl.
  - pose proof (prim_step_extends q s) as H.
    destruct (prim_step q s) as [s' [b|e|]]; simpl in *; auto.
    eapply extends_trans; [exact H|apply IH].
  - pose proof (Hrc X m s) as H.
    destruct (rc X m s) as [s' [b|e|]]; simpl in *; auto.
    eapply extends_trans; [exact H|apply IH].
Qed.

Lemma invoke_extends n : forall B (m : Method B) s, extends s (fst (invoke n m s)).
Proof.
  induction n as [|n IH]; intros B m s; simpl.
  - apply extends_refl.
  - apply interp_extends, IH.
Qed.

Lemma run_extends n {A} (p : Prog A) s : extends s (fst (run n p s)).
Proof. apply interp_extends, invoke_extends. Qed.

End monotone.

(** ** Dispatch and the write guard *)

Section guard.
Context {env : Env}.

Lemma run_dispatch n {B} r o (impl : Class -> option (Prog B)) s :
  heap s !! r = Some o ->
  run n (dispatch r impl) s =
  match impl (class o) with Some p => run n p s | None => (s, Thrown TypeError) end.
Proof.
  intros H. unfold dispatch. rewrite run_bind, (run_get _ _ _ _ H).
  destruct (impl (class o)); reflexivity.
Qed.


Lemma run_writePreamble_mutable n r o s :
  heap s !! r = Some o -> _readOnly o = false ->
  run n (writePreamble r) s = (s, Returned tt).
Proof.
  intros H Hro. unfold writePreamble. rewrite run_bind, (run_get _ _ _ _ H), Hro.
  reflexivity.
Qed.

Lemma class_at_Some s r c :
  class_at s r = Some c -> exists o, heap s !! r = Some o /\ class o = c.
Proof.
  unfold class_at. destruct (heap s !! r) as [o|]; simpl; [|discriminate].
  intros [= <-]. eauto.
Qed.


Lemma run_put_assigned n r u o o' s :
  heap s !! r = Some o -> apply_update u o = Some o' ->
  run n (put r u) s = (assigned r o' s, Returned tt).
Proof. apply run_put. Qed.

Lemma assigned_lookup_eq r o o' s :
  heap s !! r = Some o -> heap (assigned r o' s) !! r = Some o'.
Proof.
  intros H. simpl. apply list_lookup_insert_eq. eapply lookup_lt_Some, H.
Qed.

Lemma assigned_lookup_ne r r' o' s :
  r <> r' -> heap (assigned r o' s) !! r' = heap s !! r'.
Proof. intros H. simpl. apply list_lookup_insert_ne, H. Qed.

Lemma assigned_assigned r o1 o2 s :
  assigned r o2 (assigned r o1 s) = assigned r o2 s.
Proof. unfold assigned. simpl. rewrite list_insert_insert_eq. reflexivity. Qed.

Lemma run_VirtualFile_setContent n t o value s :
  heap s !! t = Some o -> _readOnly o = false ->
  run n (VirtualFile_setContent t value) s
  = (assigned t (with_file value None o) s, Returned tt).
Proof.
  intros H Hro. unfold VirtualFile_setContent.
  rewrite run_bind, (run_writePreamble_mutable _ _ _ _ H Hro).
  rewrite run_bind.
  erewrite run_put_assigned; [|exact H|reflexivity].
  erewrite run_put_assigned; [|eapply assigned_lookup_eq, H|reflexivity].
  rewrite assigned_assigned. reflexivity.
Qed.

End guard.

(** ** Operations through a broken link *)

Section broken.
Context {env : Env}.




End broken.

(** ** Operations through a read-only link *)

Section through.
Context {env : Env}.


End through.

(** ** Content written and read back *)

Section content.
Context {env : Env}.

(** C7 (the code as it stands).  [setContent(v)] on a mutable file
    stores [v] and drops the content resolver, but not the shadow root.
    A [getContent()] that follows returns [v] when [v] is a string, and
    the absent value when [v] is absent and the file has no shadow root,
    in both cases without consulting a resolver.  When [v] is absent and
    the file is a clone that has not read its content yet, it returns
    the content of the file it shadows instead of the absent value. *)
Theorem setContent_then_getContent n s f o v :
  heap s !! f = Some o -> class o = VirtualFile -> _readOnly o = false ->
  invoke (S n) (setContent f v) s = (assigned f (with_file v None o) s, Returned tt)
  /\ (forall c, v = Some c ->
        invoke (S n) (getContent f) (assigned f (with_file v None o) s)
        = (assigned f (with_file v None o) s, Returned (Some c)))
  /\ (v = None -> _shadowRoot o = None ->
        exists s2,
          invoke (S n) (getContent f) (assigned f (with_file v None o) s)
          = (s2, Returned None)
          /\ asked s2 = asked s)
  /\ (v = None ->
      forall shadow oshadow c,
        _shadowRoot o = Some shadow -> shadow <> f ->
        heap s !! shadow = Some oshadow -> class oshadow = VirtualFile ->
        _content oshadow = Some c ->
        exists s2,
          invoke (S (S n)) (getContent f) (assigned f (with_file v None o) s)
          = (s2, Returned (Some c))).
Proof.
  intros Ho Hc Hro.
  set (s1 := assigned f (with_file v None o) s).
  assert (H1 : heap s1 !! f = Some (with_file v None o)) by (eapply assigned_lookup_eq, Ho).
  split; [|split; [|split]].
  - rewrite invoke_S. simpl body. rewrite (run_dispatch _ _ _ _ _ Ho), Hc.
    apply run_VirtualFile_setContent; assumption.
  - intros c ->. rewrite invoke_S. simpl body. rewrite (run_dispatch _ _ _ _ _ H1).
    simpl. rewrite Hc. unfold VirtualFile_getContent.
    rewrite run_bind, (run_get _ _ _ _ H1). reflexivity.
  - intros -> Hsh. rewrite invoke_S. simpl body. rewrite (run_dispatch _ _ _ _ _ H1).
    simpl. rewrite Hc. unfold VirtualFile_getContent.
    rewrite run_bind, (run_get _ _ _ _ H1). simpl. rewrite Hsh.
    eexists. split.
    + rewrite run_bind.
      erewrite run_put_assigned; [|exact H1|reflexivity].
      rewrite run_bind.
      erewrite run_put_assigned; [|eapply assigned_lookup_eq, H1|reflexivity].
      rewrite run_bind, run_ret, run_bind.
      erewrite run_get; [|eapply assigned_lookup_eq, assigned_lookup_eq, H1].
      reflexivity.
    + reflexivity.
  - intros -> shadow oshadow c Hsh Hne Hos Hcs Hcontent.
    rewrite invoke_S. simpl body. rewrite (run_dispatch _ _ _ _ _ H1).
    simpl. rewrite Hc. unfold VirtualFile_getContent at 1.
    rewrite run_bind, (run_get _ _ _ _ H1). simpl. rewrite Hsh.
    eexists.
    rewrite run_bind.
    erewrite run_put_assigned; [|exact H1|reflexivity].
    rewrite run_bind.
    erewrite run_put_assigned; [|eapply assigned_lookup_eq, H1|reflexivity].
    match goal with |- context [run _ _ ?st] => set (s2 := st) end.
    assert (H2 : heap s2 !! shadow = Some oshadow).
    { unfold s2, s1. rewrite !assigned_lookup_ne by congruence. exact Hos. }
    assert (Ecall : run (S n) (call (getContent shadow)) s2 = (s2, Returned (Some c))).
    { rewrite run_call. simpl body. rewrite (run_dispatch _ _ _ _ _ H2), Hcs.
      unfold VirtualFile_getContent. rewrite run_bind, (run_get _ _ _ _ H2), Hcontent.
      reflexivity. }
    rewrite run_bind, run_bind, Ecall.
    erewrite run_put_assigned;
      [|unfold s2; eapply assigned_lookup_eq, assigned_lookup_eq, H1|reflexivity].
    rewrite run_bind.
    erewrite run_get; [|eapply assigned_lookup_eq; unfold s2;
                        eapply assigned_lookup_eq, assigned_lookup_eq, H1].
    reflexivity.
Qed.

End content.

(** ** Rules for [returns] *)

Section returns_rules.
Context {env : Env}.

Lemma returns_ret n {A} (a : A) s Q : Q s a -> returns n (Ret a) s Q.
Proof. intros H. exists s, a. split; [reflexivity|exact H]. Qed.

Lemma returns_bind n {A B} (p : Prog A) (f : A -> Prog B) s Q :
  returns n p s (fun s' a => returns n (f a) s' Q) -> returns n (bind p f) s Q.
Proof.
  intros (s1 & a & Hp & s2 & b & Hf & HQ). exists s2, b. split; [|exact HQ].
  rewrite run_bind, Hp. exact Hf.
Qed.

Lemma returns_get n r o s Q :
  heap s !! r = Some o -> Q s o -> returns n (get r) s Q.
Proof. intros H HQ. exists s, o. split; [apply run_get, H|exact HQ]. Qed.

Lemma returns_put n r u o o' s Q :
  heap s !! r = Some o -> apply_update u o = Some o' ->
  Q (assigned r o' s) tt -> returns n (put r u) s Q.
Proof.
  intros H Hu HQ. exists (assigned r o' s), tt.
  split; [eapply run_put_assigned; eauto|exact HQ].
Qed.

Lemma returns_new n mk s Q :
  Q (mkState (heap s ++ [mk (length (heap s))]) (asked s)) (length (heap s)) ->
  returns n (new mk) s Q.
Proof. intros HQ. eexists _, _. split; [apply run_new|exact HQ]. Qed.

Lemma returns_ask n c s Q :
  Q (mkState (heap s) (asked s ++ [c])) tt -> returns n (ask c) s Q.
Proof. intros HQ. eexists _, _. split; [apply run_ask|exact HQ]. Qed.

Lemma returns_call n {B} (m : Method B) s Q :
  returns n (body m) s Q -> returns (S n) (call m) s Q.
Proof.
  intros (s' & b & H & HQ). exists s', b. split; [|exact HQ].
  rewrite run_call. exact H.
Qed.

Lemma returns_consequence n {A} (p : Prog A) s (Q Q' : State -> A -> Prop) :
  returns n p s Q -> (forall s' a, Q s' a -> Q' s' a) -> returns n p s Q'.
Proof. intros (s' & a & H & HQ) HQQ. exists s', a. split; auto. Qed.

Lemma returns_more n n' {A} (p : Prog A) s Q :
  returns n p s Q -> n <= n' -> returns n' p s Q.
Proof.
  intros (s' & a & H & HQ) Hle. exists s', a. split; [|exact HQ].
  eapply run_more_le; [exact H|simpl; congruence|exact Hle].
Qed.

Lemma returns_run n {A} (p : Prog A) s s' a Q :
  run n p s = (s', Returned a) -> Q s' a -> returns n p s Q.
Proof. intros H HQ. exists s', a. split; assumption. Qed.

Lemma returns_dispatch n {B} r o (impl : Class -> option (Prog B)) p s Q :
  heap s !! r = Some o -> impl (class o) = Some p ->
  returns n p s Q -> returns n (dispatch r impl) s Q.
Proof.
  intros H Hi (s' & b & Hp & HQ). exists s', b. split; [|exact HQ].
  rewrite (run_dispatch _ _ _ _ _ H), Hi. exact Hp.
Qed.

(** A loop with an invariant over the elements still to be visited. *)
Lemma returns_for_of n {X} (I : list X -> State -> Prop) (l : list X)
    (f : X -> Prog unit) s Q :
  (forall x rest s, I (x :: rest) s -> returns n (f x) s (fun s' _ => I rest s')) ->
  (forall s', I [] s' -> Q s' tt) ->
  I l s ->
  returns n (for_of l f) s Q.
Proof.
  intros Hstep Hend. revert s.
  induction l as [|x rest IH]; intros s HI; simpl.
  - apply returns_ret. auto.
  - apply returns_bind. eapply returns_consequence; [apply Hstep, HI|].
    intros s' u HI'. apply IH, HI'.
Qed.

Lemma returns_map_of n {X Y} (I : list X -> list Y -> State -> Prop) (l : list X)
    (f : X -> Prog Y) s Q :
  (forall x rest done s, I (x :: rest) done s ->
     returns n (f x) s (fun s' y => I rest (done ++ [y]) s')) ->
  (forall done s', I [] done s' -> Q s' done) ->
  I l [] s ->
  returns n (map_of l f) s Q.
Proof.
  intros Hstep Hend.
  assert (G : forall l done s (Q' : State -> list Y -> Prop),
             (forall ys s', I [] (done ++ ys) s' -> Q' s' ys) ->
             I l done s -> returns n (map_of l f) s Q').
  { clear l s Q Hend. induction l as [|x rest IH]; intros done s Q' HQ HI; simpl.
    - apply returns_ret. apply HQ. rewrite app_nil_r. exact HI.
    - apply returns_bind. eapply returns_consequence; [apply Hstep, HI|].
      intros s' y HI'. simpl. apply returns_bind.
      eapply IH; [|exact HI']. intros ys s2 H2.
      apply returns_ret. apply HQ. rewrite <- app_assoc in H2. exact H2. }
  intros HI. eapply G; [|exact HI]. intros ys s' H. apply Hend. exact H.
Qed.

End returns_rules.

(** ** Constructors and freezing of fresh objects *)

Section construct.
Context {env : Env}.

Lemma allocated_lookup_old o s r x :
  heap s !! r = Some x -> heap (allocated o s) !! r = Some x.
Proof. intros H. simpl. apply lookup_app_l_Some, H. Qed.

Lemma allocated_lookup_new o s : heap (allocated o s) !! length (heap s) = Some o.
Proof. simpl. apply list_lookup_middle. reflexivity. Qed.

Lemma allocated_length o s : length (heap (allocated o s)) = S (length (heap s)).
Proof. simpl. rewrite length_app. simpl. lia. Qed.

Lemma assigned_length r o s : length (heap (assigned r o s)) = length (heap s).
Proof. simpl. apply length_insert. Qed.

Lemma assigned_lookup_other r r' o' s x :
  heap s !! r' = Some x -> r <> r' -> heap (assigned r o' s) !! r' = Some x.
Proof. intros H Hne. rewrite assigned_lookup_ne; assumption. Qed.

Lemma run_new_entry n c parent nm init p po s :
  heap s !! parent = Some p ->
  heap s !! owner_of p parent = Some po ->
  run n (new_entry c parent nm init) s
  = (allocated (constructed c p po parent nm init) s, Returned (length (heap s))).
Proof.
  intros Hp Hpo. unfold new_entry.
  rewrite run_bind, (run_get _ _ _ _ Hp).
  rewrite run_bind. unfold owner_of in Hpo. rewrite (run_get _ _ _ _ Hpo).
  rewrite run_new. reflexivity.
Qed.

Lemma run_isReadOnly n r o s :
  heap s !! r = Some o -> run n (isReadOnly r) s = (s, Returned (_readOnly o)).
Proof.
  intros H. unfold isReadOnly. rewrite run_bind, (run_get _ _ _ _ H). reflexivity.
Qed.

(** [makeReadOnly] of an object that has no materialized children: a
    file, or a directory not yet populated. *)
Lemma run_makeReadOnly_leaf n r o s :
  heap s !! r = Some o ->
  class o <> VirtualFileSystem ->
  _entries o = None ->
  run (S n) (call (makeReadOnly r)) s = (assigned r (with_readOnly true o) s, Returned tt).
Proof.
  intros H Hc He. rewrite run_call. simpl body. unfold Entry_makeReadOnly.
  rewrite run_bind. unfold makeReadOnlyCore at 1.
  rewrite run_bind, (run_get _ _ _ _ H).
  destruct (class o) eqn:Ec; try congruence; rewrite ?He, ?run_ret;
    (erewrite run_put_assigned; [reflexivity|exact H|reflexivity]).
Qed.

Lemma run_makeReadOnly_if_readOnly_leaf n this fresh ot o s :
  heap s !! this = Some ot ->
  heap s !! fresh = Some o ->
  class o <> VirtualFileSystem ->
  _entries o = None ->
  run (S n) (makeReadOnly_if_readOnly this fresh) s
  = (assigned fresh (with_readOnly (_readOnly ot || _readOnly o) o) s, Returned tt).
Proof.
  intros Ht H Hc He. unfold makeReadOnly_if_readOnly.
  rewrite run_bind, (run_isReadOnly _ _ _ _ Ht).
  destruct (_readOnly ot); simpl.
  - apply run_makeReadOnly_leaf; assumption.
  - rewrite run_ret. unfold assigned. f_equal. destruct s as [h a]. simpl. f_equal.
    symmetry. apply list_insert_id. simpl in H. rewrite H. f_equal.
    destruct o; reflexivity.
Qed.

End construct.

(** ** Cloning *)

Section cloning.
Context {env : Env}.

Lemma assigned_allocated o o' s :
  assigned (length (heap s)) o' (allocated o s) = allocated o' s.
Proof.
  unfold assigned, allocated. simpl. f_equal.
  replace (length (heap s)) with (length (heap s) + 0) by lia.
  rewrite insert_app_r. reflexivity.
Qed.

Lemma run_clone n this parent o p po s :
  heap s !! this = Some o ->
  class o <> VirtualFileSystem ->
  heap s !! parent = Some p ->
  heap s !! owner_of p parent = Some po ->
  run n (clone this parent) s
  = (allocated (cloned this o p po parent) s, Returned (length (heap s))).
Proof.
  intros Ho Hc Hp Hpo. unfold clone. rewrite run_bind, (run_get _ _ _ _ Ho).
  unfold cloned.
  destruct (class o) eqn:Ec; try congruence.
  - unfold VirtualDirectory_clone. rewrite run_bind, (run_get _ _ _ _ Ho).
    unfold new_VirtualDirectory. rewrite run_bind, (run_new_entry _ _ _ _ _ _ _ _ Hp Hpo).
    rewrite run_bind.
    erewrite run_put_assigned; [|apply allocated_lookup_new|reflexivity].
    rewrite assigned_allocated, run_ret. reflexivity.
  - unfold VirtualDirectory_clone. rewrite run_bind, (run_get _ _ _ _ Ho).
    unfold new_VirtualDirectory. rewrite run_bind, (run_new_entry _ _ _ _ _ _ _ _ Hp Hpo).
    rewrite run_bind.
    erewrite run_put_assigned; [|apply allocated_lookup_new|reflexivity].
    rewrite assigned_allocated, run_ret. reflexivity.
  - unfold VirtualDirectorySymlink_clone. rewrite run_bind, (run_get _ _ _ _ Ho).
    unfold new_VirtualDirectorySymlink. rewrite (run_new_entry _ _ _ _ _ _ _ _ Hp Hpo).
    reflexivity.
  - unfold VirtualFile_clone. rewrite run_bind, (run_get _ _ _ _ Ho).
    unfold new_VirtualFile. rewrite run_bind, (run_new_entry _ _ _ _ _ _ _ _ Hp Hpo).
    rewrite run_bind.
    erewrite run_put_assigned; [|apply allocated_lookup_new|reflexivity].
    rewrite assigned_allocated, run_ret. reflexivity.
  - unfold VirtualFileSymlink_clone. rewrite run_bind, (run_get _ _ _ _ Ho).
    unfold new_VirtualFileSymlink. rewrite (run_new_entry _ _ _ _ _ _ _ _ Hp Hpo).
    reflexivity.
Qed.

Lemma cloned_readOnly this o p po parent : _readOnly (cloned this o p po parent) = false.
Proof. unfold cloned, constructed. destruct (class o); reflexivity. Qed.

Lemma cloned_name this o p po parent : name (cloned this o p po parent) = name o.
Proof. unfold cloned, constructed. destruct (class o); reflexivity. Qed.

Lemma cloned_entries this o p po parent : _entries (cloned this o p po parent) = None.
Proof. unfold cloned, constructed. destruct (class o); reflexivity. Qed.

Lemma cloned_not_fs this o p po parent :
  class (cloned this o p po parent) <> VirtualFileSystem.
Proof. unfold cloned, constructed. destruct (class o); simpl; congruence. Qed.

Lemma cloned_fileSystem this o p po parent :
  fileSystem (cloned this o p po parent) = fileSystem p.
Proof. unfold cloned, constructed. destruct (class o); reflexivity. Qed.

End cloning.

(** ** Lazy population from a resolver *)

Section populate.
Context {env : Env}.

Lemma isMatch_no_options e : isMatch e no_options = true.
Proof. unfold isMatch. simpl. destruct (instanceof_VirtualFile (class e)); reflexivity. Qed.

Lemma run_filter_all n (l : list ref) s :
  Forall (fun e => is_Some (heap s !! e)) l ->
  run n (filter_of l (fun entry => e <- get entry ;; Ret (isMatch e no_options))) s
  = (s, Returned l).
Proof.
  induction 1 as [|e l [oe He] _ IH].
  - reflexivity.
  - rewrite filter_of_cons, run_bind, run_bind, (run_get _ _ _ _ He), run_ret.
    rewrite run_bind, IH, run_ret, isMatch_no_options. reflexivity.
Qed.

(** Listing a directory whose children are materialized. *)
Lemma run_getEntries_materialized n d o refs s :
  heap s !! d = Some o ->
  class o = VirtualDirectory \/ class o = VirtualDirectoryRoot ->
  _entries o = Some refs ->
  Forall (fun e => is_Some (heap s !! e)) refs ->
  invoke (S (S n)) (getEntries d no_options) s = (s, Returned refs).
Proof.
  intros H Hc He Hall. rewrite invoke_S. simpl body.
  rewrite (run_dispatch _ _ _ _ _ H).
  replace (instanceof_VirtualFile (class o)) with false by (destruct Hc as [-> | ->]; reflexivity).
  unfold Container_getEntries. simpl recursive. cbv iota.
  rewrite run_bind, run_call. simpl body. rewrite (run_dispatch _ _ _ _ _ H).
  assert (E : run n (VirtualDirectory_getOwnEntries d) s = (s, Returned refs)).
  { unfold VirtualDirectory_getOwnEntries. rewrite run_bind, (run_get _ _ _ _ H), He.
    reflexivity. }
  destruct Hc as [-> | ->]; rewrite E; apply run_filter_all; assumption.
Qed.

Section one_directory.
Variables (s0 : State) (d : ref) (od : Obj) (log : list Consulted).
Hypothesis Hd : heap s0 !! d = Some od.
Hypothesis Howner : is_Some (heap s0 !! owner_of od d).

Lemma populating_start o s :
  heap s0 !! d = Some od ->
  s = mkState (<[d:=o]> (heap s0)) log ->
  _entries o = Some [] -> _resolver o = None -> _shadowRoot o = None ->
  stable od o -> _readOnly o = _readOnly od ->
  populating s0 d od log [] [] s.
Proof.
  intros _ -> He Hr Hs (Hc & Hfs & Hp & Hn & Hpa & _) Hro.
  assert (Hd_lt : d < length (heap s0)) by (eapply lookup_lt_Some, Hd).
  exists o. simpl. split_and!; auto.
  - apply list_lookup_insert_eq. exact Hd_lt.
  - constructor.
  - rewrite length_insert. lia.
  - intros r _ Hne. apply list_lookup_insert_ne. congruence.
Qed.

Lemma populating_step n done nm (make : Prog ref) refs s :
  populating s0 d od log refs done s ->
  (exists obj,
      run (S n) make s = (allocated obj s, Returned (length (heap s)))
      /\ name obj = nm /\ _readOnly obj = false /\ _entries obj = None
      /\ class obj <> VirtualFileSystem /\ fileSystem obj = fileSystem od) ->
  returns (S n)
    (fresh <- make ;;
     makeReadOnly_if_readOnly d fresh ;;
     put d (push_entries fresh)) s
    (fun s' _ => populating s0 d od log (refs ++ [length (heap s)]) (done ++ [nm]) s').
Proof.
  intros (o & Ho & He & Hr & Hs & Hc' & Hfs & Hp & Hnm & Hro' & Hall & Hnd & Hlen & Hframe & Hask)
    (oe & Hmake & Hname & Hro & Hent & Hcl & Hfso).
  assert (Hd_lt : d < length (heap s0)) by (eapply lookup_lt_Some, Hd).
  apply returns_bind. eapply returns_run; [exact Hmake|].
  set (fresh := length (heap s)).
  apply returns_bind. eapply returns_run.
  { eapply run_makeReadOnly_if_readOnly_leaf with (ot := o) (o := oe).
    - apply allocated_lookup_old, Ho.
    - apply allocated_lookup_new.
    - exact Hcl.
    - exact Hent. }
  set (oe' := with_readOnly (_readOnly o || _readOnly oe) oe).
  assert (Hne : fresh <> d) by (unfold fresh; lia).
  eapply returns_put.
  { apply assigned_lookup_other; [apply allocated_lookup_old, Ho|exact Hne]. }
  { simpl. rewrite He. reflexivity. }
  exists (with_dir (Some (refs ++ [fresh])) (_resolver o) (_shadowRoot o) o).
  assert (Hfresh : forall e, e ∈ refs -> e <> fresh).
  { intros e Hin. clear -Hall Hin. unfold fresh.
    induction Hall as [|e' nm' l names (_ & x & Hx & _) _ IH].
    - inversion Hin.
    - apply elem_of_cons in Hin as [-> | Hin]; [|auto].
      apply lookup_lt_Some in Hx. lia. }
  assert (Hlen' : length (<[d:=with_dir (Some (refs ++ [fresh])) (_resolver o) (_shadowRoot o) o]>
                            (<[fresh:=oe']> (heap s ++ [oe]))) = S (length (heap s))).
  { rewrite !length_insert, length_app. simpl. lia. }
  assert (Hkeep : forall e, e < length (heap s) -> e <> d ->
            <[d:=with_dir (Some (refs ++ [fresh])) (_resolver o) (_shadowRoot o) o]>
              (<[fresh:=oe']> (heap s ++ [oe])) !! e = heap s !! e).
  { intros e Hlt Hned. rewrite list_lookup_insert_ne by congruence.
    rewrite list_lookup_insert_ne by (unfold fresh; lia).
    apply lookup_app_l. exact Hlt. }
  split_and!; simpl; auto.
  - apply list_lookup_insert_eq. rewrite length_insert, length_app. simpl. lia.
  - apply Forall2_app.
    + eapply Forall2_impl; [exact Hall|]. intros e nm' (Hge & x & Hx & Hnm' & Hrx).
      split; [exact Hge|]. exists x. repeat split; try tauto.
      rewrite Hkeep; [exact Hx| |lia]. eapply lookup_lt_Some, Hx.
    + constructor; [|constructor]. split; [exact Hlen|]. exists oe'. repeat split.
      * rewrite list_lookup_insert_ne by congruence.
        apply list_lookup_insert_eq. rewrite length_app. simpl. unfold fresh. lia.
      * unfold oe'. simpl. exact Hname.
      * unfold oe'. simpl. rewrite Hro, orb_false_r. exact Hro'.
      * unfold oe'. simpl. exact Hfso.
  - apply NoDup_app. repeat split; [exact Hnd| |apply NoDup_singleton].
    intros e Hin Hin'. apply list_elem_of_singleton in Hin'. apply (Hfresh e Hin Hin').
  - rewrite Hlen'. lia.
  - intros r Hr0 Hned. rewrite Hkeep; [auto|lia|exact Hned].
Qed.

Lemma populating_owner refs done s :
  populating s0 d od log refs done s -> is_Some (heap s !! owner_of od d).
Proof.
  intros (o & Ho & _ & _ & _ & _ & _ & _ & _ & _ & _ & _ & Hlen & Hframe & _).
  destruct (decide (owner_of od d = d)) as [-> | Hne]; [eauto|].
  rewrite Hframe; [exact Howner| |exact Hne].
  apply lookup_lt_is_Some. exact Howner.
Qed.


Lemma populating_clone n refs done s e oe :
  populating s0 d od log refs done s ->
  heap s !! e = Some oe ->
  class oe <> VirtualFileSystem ->
  exists obj,
    run (S n) (clone e d) s = (allocated obj s, Returned (length (heap s)))
    /\ name obj = name oe /\ _readOnly obj = false /\ _entries obj = None
    /\ class obj <> VirtualFileSystem /\ fileSystem obj = fileSystem od.
Proof.
  intros Hpop He Hc.
  destruct (populating_owner _ _ _ Hpop) as [po Hpo].
  destruct Hpop as (o & Ho & _ & _ & _ & Hc' & Hfs & _).
  assert (Hown : owner_of o d = owner_of od d).
  { unfold owner_of. rewrite Hc', Hfs. reflexivity. }
  exists (cloned e oe o po d). split.
  { apply run_clone; [exact He|exact Hc|exact Ho|rewrite Hown; exact Hpo]. }
  rewrite cloned_name, cloned_readOnly, cloned_entries, cloned_fileSystem.
  repeat split; auto. apply cloned_not_fs.
Qed.

End one_directory.


(** Population of a clone from a shadow root whose children are
    materialized. *)
Lemma returns_populate_shadow n s0 d od src osrc l :
  heap s0 !! d = Some od ->
  is_Some (heap s0 !! owner_of od d) ->
  _entries od = None ->
  _resolver od = None ->
  _shadowRoot od = Some src ->
  heap s0 !! src = Some osrc ->
  class osrc = VirtualDirectory \/ class osrc = VirtualDirectoryRoot ->
  _entries osrc = Some l ->
  src <> d ->
  Forall (fun e => exists oe, heap s0 !! e = Some oe /\ class oe <> VirtualFileSystem) l ->
  returns (S n) (VirtualDirectory_getOwnEntries d) s0
    (fun s' l' =>
       populating s0 d od (asked s0) l'
         (map (fun e => default "" (name_at s0 e)) l) s').
Proof.
  intros Hd Howner Hentries Hresolver Hshadow Hsrc Hcsrc Hesrc Hne Hall.
  unfold VirtualDirectory_getOwnEntries.
  apply returns_bind. eapply returns_get; [exact Hd|].
  rewrite Hentries, Hresolver, Hshadow.
  apply returns_bind. eapply returns_put; [exact Hd|reflexivity|].
  apply returns_bind. eapply returns_put; [eapply assigned_lookup_eq, Hd|reflexivity|].
  rewrite assigned_assigned.
  apply returns_bind. eapply returns_put; [eapply assigned_lookup_eq, Hd|reflexivity|].
  rewrite assigned_assigned.
  match goal with |- returns _ _ (assigned d ?o s0) _ => set (o1 := o) end.
  match goal with |- returns _ _ ?st _ => set (s1 := st) end.
  assert (Hstart : populating s0 d od (asked s0) [] [] s1).
  { apply populating_start with (o := o1); auto.
    unfold o1, stable. simpl. split_and!; eauto. }
  assert (Hsrc1 : heap s1 !! src = Some osrc).
  { unfold s1. rewrite assigned_lookup_ne by congruence. exact Hsrc. }
  clearbody s1. clear o1.
  apply returns_bind. apply returns_bind. apply returns_call. simpl body.
  eapply returns_dispatch with (p := VirtualDirectory_getOwnEntries src);
    [exact Hsrc1|destruct Hcsrc as [-> | ->]; reflexivity|].
  unfold VirtualDirectory_getOwnEntries at 1.
  apply returns_bind. eapply returns_get; [exact Hsrc1|]. rewrite Hesrc.
  apply returns_ret.
  apply returns_for_of with
    (I := fun rest s => exists refs done,
            l = done ++ rest
            /\ populating s0 d od (asked s0) refs
                 (map (fun e => default "" (name_at s0 e)) done) s).
  - intros e rest s (refs & done & Hl & Hpop).
    assert (Hin : e ∈ l).
    { rewrite Hl. apply elem_of_app. right. apply elem_of_cons. left. reflexivity. }
    rewrite Forall_forall in Hall. destruct (Hall e Hin) as (oe & Hoe & Hcoe).
    assert (Hname0 : default "" (name_at s0 e) = name oe).
    { unfold name_at. rewrite Hoe. reflexivity. }
    assert (He : exists oe', heap s !! e = Some oe' /\ name oe' = name oe
                             /\ class oe' <> VirtualFileSystem).
    { destruct Hpop as (o & Ho & _ & _ & _ & Hc' & _ & _ & Hnm & _ & _ & _ & _ & Hframe & _).
      destruct (decide (e = d)) as [-> | Hned].
      - exists o. rewrite Hd in Hoe. injection Hoe as <-.
        split; [exact Ho|]. split; [exact Hnm|]. rewrite Hc'. exact Hcoe.
      - exists oe. rewrite Hframe; [auto| |exact Hned]. eapply lookup_lt_Some, Hoe. }
    destruct He as (oe' & Hoe' & Hnm' & Hcoe').
    eapply returns_consequence.
    + eapply populating_step; [exact Hd|exact Hpop|].
      eapply populating_clone; eauto.
    + intros s' u Hpop'. eexists _, (done ++ [e]). split.
      * rewrite Hl, <- app_assoc. reflexivity.
      * rewrite map_app. simpl. rewrite Hname0, <- Hnm'. exact Hpop'.
  - intros s3 (refs & done & Hdone & Hpop). rewrite app_nil_r in Hdone. subst done.
    destruct Hpop as (o3 & Ho3 & He3 & Hrest).
    apply returns_bind. eapply returns_get; [exact Ho3|]. apply returns_ret.
    rewrite He3. simpl. exists o3. split; [exact Ho3|]. split; [exact He3|exact Hrest].
  - exists [], []. split; [reflexivity|exact Hstart].
Qed.


End populate.

(** ** Cloning a file system *)

Section clone_fs.
Context {env : Env}.

(** [clone()] of a file system whose root directory exists: the store
    grows by the new file system and by the clone of the root. *)
Lemma run_VirtualFileSystem_clone n fs ofs r or s :
  heap s !! fs = Some ofs ->
  _root ofs = Some r ->
  heap s !! r = Some or ->
  exists ofs' or',
    run n (VirtualFileSystem_clone fs) s
    = (allocated or' (allocated ofs' s), Returned (length (heap s)))
    /\ class ofs' = VirtualFileSystem /\ _readOnly ofs' = false
    /\ fileSystem ofs' = length (heap s)
    /\ _root ofs' = Some (S (length (heap s)))
    /\ _currentDirectory ofs' = forward_slashes (_currentDirectory ofs)
    /\ class or' = VirtualDirectory /\ _readOnly or' = false
    /\ _entries or' = None /\ _resolver or' = None /\ _shadowRoot or' = Some r
    /\ fileSystem or' = length (heap s) /\ parent or' = length (heap s)
    /\ name or' = name or.
Proof.
  intros Hfs Hroot Hr.
  unfold VirtualFileSystem_clone.
  rewrite run_bind, (run_get _ _ _ _ Hfs).
  unfold new_VirtualFileSystem. rewrite run_bind, run_new.
  match goal with |- context [mkState (heap s ++ [?o]) (asked s)] =>
    set (o1 := o); change (mkState (heap s ++ [o1]) (asked s)) with (allocated o1 s) end.
  rewrite run_bind. unfold root. rewrite run_bind.
  rewrite (run_get _ _ _ _ (allocated_lookup_old o1 _ _ _ Hfs)), Hroot, run_ret.
  rewrite run_bind.
  assert (E : run n (VirtualDirectory_clone r (length (heap s))) (allocated o1 s)
              = (allocated (constructed VirtualDirectory o1 o1 (length (heap s)) (name or)
                              (with_dir None None (Some r)))
                   (allocated o1 s), Returned (S (length (heap s))))).
  { unfold VirtualDirectory_clone.
    rewrite run_bind, (run_get _ _ _ _ (allocated_lookup_old o1 _ _ _ Hr)).
    unfold new_VirtualDirectory. rewrite run_bind.
    rewrite (run_new_entry _ _ _ _ _ o1 o1).
    - rewrite run_bind.
      erewrite run_put_assigned; [|apply allocated_lookup_new|reflexivity].
      rewrite assigned_allocated, run_ret, allocated_length. reflexivity.
    - apply allocated_lookup_new.
    - apply allocated_lookup_new. }
  rewrite E. rewrite run_bind.
  erewrite run_put_assigned;
    [|apply allocated_lookup_old, allocated_lookup_new|reflexivity].
  rewrite run_ret.
  eexists _, _. split.
  { f_equal. unfold assigned, allocated. simpl. f_equal.
    rewrite <- (Nat.add_0_r (length (heap s))) at 1.
    rewrite <- app_assoc. rewrite insert_app_r. simpl. rewrite <- app_assoc. reflexivity. }
  simpl. unfold constructed. simpl. repeat split; reflexivity.
Qed.

(** C9.  [clone()] does not copy [_readOnly].  Whatever the flags of a
    file system (in particular after [makeReadOnly()], which leaves its
    root directory in place), its clone is a new file system that is not
    read-only, with a root directory that is not read-only; the objects
    of the original are untouched by the cloning; [changeDirectory] on
    the clone returns; when the clone's root is populated from the
    materialized children of the original root, it gets one child per
    original child, under the same name, none of them read-only, and the
    original objects are still untouched; and the clone of any entry is
    not read-only. *)
Theorem clone_of_file_system_is_mutable n s fs ofs r or :
  heap s !! fs = Some ofs ->
  class ofs = VirtualFileSystem ->
  _root ofs = Some r ->
  heap s !! r = Some or ->
  exists s1 fs' r',
    run n (VirtualFileSystem_clone fs) s = (s1, Returned fs')
    /\ class_at s1 fs' = Some VirtualFileSystem
    /\ readOnly_at s1 fs' = Some false
    /\ _root <$> heap s1 !! fs' = Some (Some r')
    /\ readOnly_at s1 r' = Some false
    /\ (forall x, x < length (heap s) -> heap s1 !! x = heap s !! x)
    /\ (forall path, exists s2, run n (changeDirectory fs' path) s1 = (s2, Returned tt))
    /\ (forall l,
          class or = VirtualDirectory \/ class or = VirtualDirectoryRoot ->
          _entries or = Some l ->
          Forall (fun e => exists oe, heap s !! e = Some oe /\ class oe <> VirtualFileSystem) l ->
          exists s2 l',
            invoke (S (S n)) (getOwnEntries r') s1 = (s2, Returned l')
            /\ map (name_at s2) l' = map (name_at s) l
            /\ Forall (fun e' => readOnly_at s2 e' = Some false) l'
            /\ forall x, x < length (heap s) -> heap s2 !! x = heap s !! x)
    /\ (forall k st e oe parent p po,
          heap st !! e = Some oe -> class oe <> VirtualFileSystem ->
          heap st !! parent = Some p -> heap st !! owner_of p parent = Some po ->
          exists st' e',
            run k (clone e parent) st = (st', Returned e')
            /\ readOnly_at st' e' = Some false).
Proof.
  intros Hfs Hc Hroot Hr.
  destruct (run_VirtualFileSystem_clone n fs ofs r or s Hfs Hroot Hr)
    as (ofs' & or' & Hrun & Hc' & Hro' & Hfs' & Hroot' & Hcwd & Hcr & Hror & Her & Hrr & Hsr
        & Hfr & Hpr & Hnr).
  set (s1 := allocated or' (allocated ofs' s)) in *.
  assert (Hl1 : heap s1 !! length (heap s) = Some ofs').
  { unfold s1. apply allocated_lookup_old, allocated_lookup_new. }
  assert (Hl2 : heap s1 !! S (length (heap s)) = Some or').
  { unfold s1. rewrite <- (allocated_length ofs' s). apply allocated_lookup_new. }
  assert (Hold : forall x, x < length (heap s) -> heap s1 !! x = heap s !! x).
  { intros x Hx. unfold s1. simpl. rewrite <- app_assoc. apply lookup_app_l. exact Hx. }
  exists s1, (length (heap s)), (S (length (heap s))).
  split; [exact Hrun|].
  split; [unfold class_at; rewrite Hl1; simpl; congruence|].
  split; [unfold readOnly_at; rewrite Hl1; simpl; congruence|].
  split; [rewrite Hl1; simpl; congruence|].
  split; [unfold readOnly_at; rewrite Hl2; simpl; congruence|].
  split; [exact Hold|].
  split.
  { intros path. unfold changeDirectory. rewrite run_bind.
    rewrite (run_writePreamble_mutable _ _ _ _ Hl1 Hro').
    destruct (truthy path); [|eexists; apply run_ret].
    rewrite run_bind, (run_get _ _ _ _ Hl1).
    eexists. eapply run_put_assigned; [exact Hl1|reflexivity]. }
  split.
  { intros l Hcor Heor Hall.
    assert (Hr1 : heap s1 !! r = Some or).
    { rewrite Hold; [exact Hr|eapply lookup_lt_Some, Hr]. }
    destruct (returns_populate_shadow n s1 (S (length (heap s))) or' r or l) as
      (s2 & l' & Hrun2 & (o2 & Ho2 & He2 & _ & _ & _ & _ & _ & _ & _ & Hall2 & _ & Hlen2 & Hframe & _));
      auto.
    - unfold owner_of. rewrite Hcr. eauto.
    - apply lookup_lt_Some in Hr. lia.
    - eapply Forall_impl; [exact Hall|]. intros e (oe & Hoe & Hcoe). exists oe.
      split; [|exact Hcoe]. rewrite Hold; [exact Hoe|eapply lookup_lt_Some, Hoe].
    - exists s2, l'. split.
      { rewrite invoke_S. simpl body. rewrite (run_dispatch _ _ _ _ _ Hl2), Hcr. exact Hrun2. }
      assert (Hlen1 : length (heap s1) = S (S (length (heap s)))).
      { unfold s1. rewrite !allocated_length. reflexivity. }
      split; [|split].
      + assert (E1 : map (name_at s2) l'
                     = map Some (map (fun e => default "" (name_at s1 e)) l)).
        { clear -Hall2.
          induction Hall2 as [|e' nm l' names (_ & oe' & Hoe' & Hnm & _) _ IH]; simpl.
          - reflexivity.
          - unfold name_at at 1. rewrite Hoe'. simpl. rewrite Hnm, IH. reflexivity. }
        rewrite E1. clear -Hall Hold.
        induction Hall as [|e l (oe & Hoe & _) _ IH]; simpl; [reflexivity|].
        rewrite IH. f_equal. unfold name_at.
        rewrite Hold by (eapply lookup_lt_Some, Hoe). rewrite Hoe. reflexivity.
      + clear -Hall2 Hror. induction Hall2 as [|e' nm l' names (_ & oe' & Hoe' & _ & Hro & _) _ IH];
          constructor; auto.
        unfold readOnly_at. rewrite Hoe'. simpl. congruence.
      + intros x Hx. rewrite Hframe; [apply Hold, Hx|lia|lia]. }
  intros k st e oe parent p po Hoe Hcoe Hp Hpo.
  eexists _, _. split; [apply run_clone; eauto|].
  unfold readOnly_at. rewrite allocated_lookup_new. simpl. rewrite cloned_readOnly. reflexivity.
Qed.

End clone_fs.

(** ** Resolution of links that point at each other *)

Section cycle.
Context {env : Env}.


Lemma run_isBroken_unresolved k link o s :
  heap s !! link = Some o ->
  _target o = None ->
  invoke k (findTarget (fileSystem o) (_targetPath o) None) s = (s, Returned None) ->
  run k (VirtualDirectorySymlink_isBroken link) s = (s, Returned true).
Proof.
  intros Ho Ht Hfind.
  assert (E : run k (resolveTarget link) s = (s, Returned tt)).
  { unfold resolveTarget. rewrite run_bind, (run_get _ _ _ _ Ho), Ht.
    rewrite run_bind, run_call_invoke, Hfind. reflexivity. }
  unfold VirtualDirectorySymlink_isBroken, getRealDirectory.
  rewrite run_bind, run_bind, E, run_bind, (run_get _ _ _ _ Ho), run_ret, Ht.
  reflexivity.
Qed.


End cycle.

(** ** Rules for [after] and [keeps] *)

Section after_rules.
Context {env : Env}.

Lemma keeps_intro n {A} (p : Prog A) s (P : State -> Prop) (R : State -> A -> Prop) :
  (forall s' out, run n p s = (s', out) ->
     P s' /\ match out with Returned a => R s' a | _ => True end) ->
  keeps n p s P R.
Proof. intros H. unfold keeps, after. apply H. destruct (run n p s); reflexivity. Qed.

Lemma keeps_elim n {A} (p : Prog A) s P R s' out :
  keeps n p s P R -> run n p s = (s', out) ->
  P s' /\ match out with Returned a => R s' a | _ => True end.
Proof. unfold keeps, after. intros H E. rewrite E in H. exact H. Qed.

Lemma keeps_ret n {A} (a : A) s (P : State -> Prop) (R : State -> A -> Prop) :
  P s -> R s a -> keeps n (Ret a) s P R.
Proof. intros HP HR. split; assumption. Qed.

Lemma keeps_throw n {A} e s (P : State -> Prop) (R : State -> A -> Prop) :
  P s -> keeps n (Throw e) s P R.
Proof. intros HP. split; [assumption|exact I]. Qed.

Lemma keeps_bind n {A B} (p : Prog A) (f : A -> Prog B) s
    (P : State -> Prop) (R1 : State -> A -> Prop) (R : State -> B -> Prop) :
  keeps n p s P R1 ->
  (forall s1 a, P s1 -> R1 s1 a -> keeps n (f a) s1 P R) ->
  keeps n (bind p f) s P R.
Proof.
  unfold keeps, after. intros H1 H2. rewrite run_bind.
  destruct (run n p s) as [s1 [a|e|]]; simpl in *.
  - destruct H1 as [HP HR]. apply (H2 s1 a HP HR).
  - exact H1.
  - exact H1.
Qed.

Lemma keeps_consequence n {A} (p : Prog A) s (P : State -> Prop)
    (R R' : State -> A -> Prop) :
  keeps n p s P R -> (forall s' a, P s' -> R s' a -> R' s' a) -> keeps n p s P R'.
Proof.
  unfold keeps, after. intros [HP HR] H.
  split; [exact HP|]. destruct (snd (run n p s)); auto.
Qed.

Lemma keeps_get n r s (P : State -> Prop) (R : State -> Obj -> Prop) :
  P s -> (forall o, heap s !! r = Some o -> R s o) -> keeps n (get r) s P R.
Proof.
  intros HP HR. unfold keeps, after.
  destruct (heap s !! r) as [o|] eqn:E.
  - rewrite (run_get _ _ _ _ E). split; [exact HP|apply HR; reflexivity].
  - rewrite (run_get_None _ _ _ E). split; [exact HP|exact I].
Qed.

Lemma keeps_put n r u s (P : State -> Prop) (R : State -> unit -> Prop) :
  P s ->
  (forall o o', heap s !! r = Some o -> apply_update u o = Some o' ->
     P (assigned r o' s) /\ R (assigned r o' s) tt) ->
  keeps n (put r u) s P R.
Proof.
  intros HP H. unfold keeps, after, run, put. simpl.
  destruct (heap s !! r) as [o|] eqn:E; [|split; [exact HP|exact I]].
  destruct (apply_update u o) as [o'|] eqn:E'; [|split; [exact HP|exact I]].
  apply (H o o'); auto.
Qed.

Lemma keeps_new n mk s (P : State -> Prop) (R : State -> ref -> Prop) :
  P (allocated (mk (length (heap s))) s) ->
  R (allocated (mk (length (heap s))) s) (length (heap s)) ->
  keeps n (new mk) s P R.
Proof. intros HP HR. split; assumption. Qed.

Lemma keeps_ask n c s (P : State -> Prop) (R : State -> unit -> Prop) :
  P (mkState (heap s) (asked s ++ [c])) ->
  R (mkState (heap s) (asked s ++ [c])) tt ->
  keeps n (ask c) s P R.
Proof. intros HP HR. split; assumption. Qed.

Lemma keeps_call n {B} (m : Method B) s (P : State -> Prop) (R : State -> B -> Prop) :
  (P (fst (invoke n m s))
   /\ match snd (invoke n m s) with Returned b => R (fst (invoke n m s)) b | _ => True end) ->
  keeps n (call m) s P R.
Proof. unfold keeps, after. rewrite run_call_invoke. auto. Qed.

Lemma keeps_for_of n {X} (l : list X) (f : X -> Prog unit) s
    (P : State -> Prop) (I : State -> Prop) (R : State -> unit -> Prop) :
  P s -> I s ->
  (forall x s1, x ∈ l -> P s1 -> I s1 -> keeps n (f x) s1 P (fun s2 _ => I s2)) ->
  (forall s', P s' -> I s' -> R s' tt) ->
  keeps n (for_of l f) s P R.
Proof.
  intros HP HI Hstep Hend. revert s HP HI.
  induction l as [|x l IH]; intros s HP HI.
  - apply keeps_ret; auto.
  - rewrite for_of_cons. eapply keeps_bind.
    + apply Hstep; auto. apply elem_of_cons. left. reflexivity.
    + intros s1 u HP1 HI1. apply IH; auto.
      intros y s2 Hy. apply Hstep. apply elem_of_cons. right. exact Hy.
Qed.

Lemma keeps_map_of n {X Y} (l : list X) (f : X -> Prog Y) s
    (P : State -> Prop) (I : State -> list Y -> Prop) (R : State -> list Y -> Prop) :
  P s -> I s [] ->
  (forall x s1 done, x ∈ l -> P s1 -> I s1 done ->
     keeps n (f x) s1 P (fun s2 y => I s2 (done ++ [y]))) ->
  (forall s' ys, P s' -> I s' ys -> R s' ys) ->
  keeps n (map_of l f) s P R.
Proof.
  intros HP HI Hstep Hend.
  assert (G : forall l' done s (R' : State -> list Y -> Prop),
             (forall x, x ∈ l' -> x ∈ l) -> P s -> I s done ->
             (forall s' ys, P s' -> I s' (done ++ ys) -> R' s' ys) ->
             keeps n (map_of l' f) s P R').
  { clear s HP HI R Hend. induction l' as [|x l' IH]; intros done s R' Hsub HP HI HR.
    - apply keeps_ret; auto. apply HR; auto. rewrite app_nil_r. exact HI.
    - rewrite map_of_cons. eapply keeps_bind.
      + apply (Hstep x s done); auto. apply Hsub, elem_of_cons. left. reflexivity.
      + intros s1 y HP1 HI1. eapply keeps_bind.
        * apply (IH (done ++ [y]) s1 (fun s' ys => I s' ((done ++ [y]) ++ ys))); auto.
          intros z Hz. apply Hsub, elem_of_cons. right. exact Hz.
        * intros s2 ys HP2 HI2. cbv beta in HI2. apply keeps_ret; auto. apply HR; auto.
          rewrite <- app_assoc in HI2. exact HI2. }
  apply (G l [] s R); auto.
Qed.

Lemma keeps_filter_of n {X} (l : list X) (f : X -> Prog bool) s
    (P : State -> Prop) (I : State -> Prop) (R : State -> list X -> Prop) :
  P s -> I s ->
  (forall x s1, x ∈ l -> P s1 -> I s1 -> keeps n (f x) s1 P (fun s2 _ => I s2)) ->
  (forall s' xs, P s' -> I s' -> (forall x, x ∈ xs -> x ∈ l) -> R s' xs) ->
  keeps n (filter_of l f) s P R.
Proof.
  intros HP HI Hstep Hend.
  assert (G : forall l' s (R' : State -> list X -> Prop),
             (forall x, x ∈ l' -> x ∈ l) -> P s -> I s ->
             (forall s' xs, P s' -> I s' -> (forall x, x ∈ xs -> x ∈ l') -> R' s' xs) ->
             keeps n (filter_of l' f) s P R').
  { clear s HP HI R Hend. induction l' as [|x l' IH]; intros s R' Hsub HP HI HR.
    - apply keeps_ret; auto.
    - rewrite filter_of_cons. eapply keeps_bind.
      + apply (Hstep x s); auto. apply Hsub, elem_of_cons. left. reflexivity.
      + intros s1 b HP1 HI1. eapply keeps_bind.
        * apply (IH s1 (fun s' xs => I s' /\ forall z, z ∈ xs -> z ∈ l')); auto.
          intros z Hz. apply Hsub, elem_of_cons. right. exact Hz.
        * intros s2 xs HP2 [HI2 Hxs]. apply keeps_ret; auto. apply HR; auto.
          intros z Hz. destruct b.
          -- apply elem_of_cons in Hz as [-> | Hz];
               apply elem_of_cons; [left|right]; auto.
          -- apply elem_of_cons. right. auto. }
  apply (G l s R); auto.
Qed.

End after_rules.

(** ** Well-formed stores and what operations leave alone *)

Section frames.
Context {env : Env}.

Lemma in_fs_extends s s' F x : extends s s' -> in_fs s F x -> in_fs s' F x.
Proof.
  unfold in_fs, fs_at. intros He H.
  destruct (heap s !! x) as [o|] eqn:E; [|discriminate].
  destruct (He x o E) as (o' & -> & _ & Hfs & _). simpl in *. congruence.
Qed.

Lemma class_at_extends s s' x c : extends s s' -> class_at s x = Some c -> class_at s' x = Some c.
Proof.
  unfold class_at. intros He H.
  destruct (heap s !! x) as [o|] eqn:E; [|discriminate].
  destruct (He x o E) as (o' & -> & Hc & _). simpl in *. congruence.
Qed.

Lemma is_entry_extends s s' F x : extends s s' -> is_entry s F x -> is_entry s' F x.
Proof.
  intros He [H1 H2]. split; [eapply in_fs_extends; eauto|].
  unfold in_fs, fs_at, class_at in *.
  destruct (heap s !! x) as [o|] eqn:E; [|discriminate].
  destruct (He x o E) as (o' & -> & Hc & _). simpl in *. congruence.
Qed.

Lemma extends_allocated o s : extends s (allocated o s).
Proof.
  intros r x H. exists x. split; [apply allocated_lookup_old, H|apply stable_refl].
Qed.

Lemma extends_assigned r o o' s :
  heap s !! r = Some o -> stable o o' -> extends s (assigned r o' s).
Proof.
  intros H Hst x ox Hx. destruct (decide (r = x)) as [<- | Hne].
  - exists o'. split; [eapply assigned_lookup_eq, H|]. congruence.
  - exists ox. split; [rewrite assigned_lookup_ne; auto|apply stable_refl].
Qed.

Lemma extends_asked c s : extends s (mkState (heap s) (asked s ++ [c])).
Proof. intros r o H. exists o. split; [exact H|apply stable_refl]. Qed.


Lemma same_refl p o : same p o o.
Proof. destruct p; reflexivity. Qed.

Lemma same_trans p o1 o2 o3 : same p o1 o2 -> same p o2 o3 -> same p o1 o3.
Proof. destruct p; simpl; congruence. Qed.

Lemma holds_same p o o' : same p o o' -> holds p o -> holds p o'.
Proof. destruct p; simpl; try congruence; auto. Qed.

Lemma kept_refl o : kept o o.
Proof. intros p _. apply same_refl. Qed.

Lemma kept_trans o1 o2 o3 : kept o1 o2 -> kept o2 o3 -> kept o1 o3.
Proof.
  intros K1 K2 p Hp. eapply same_trans; [apply K1, Hp|].
  apply K2. eapply holds_same; [apply K1, Hp|exact Hp].
Qed.




Lemma kept_currentDirectory o o' : kept o o' -> _currentDirectory o' = _currentDirectory o.
Proof. intros K. apply (K the_currentDirectory). exact I. Qed.

Lemma only_touches_refl G s : only_touches G s s.
Proof.
  intros r o H. exists o. split; [exact H|]. split; [apply stable_refl|].
  right. apply kept_refl.
Qed.

Lemma only_touches_trans G s1 s2 s3 :
  only_touches G s1 s2 -> only_touches G s2 s3 -> only_touches G s1 s3.
Proof.
  intros H12 H23 r o H.
  destruct (H12 r o H) as (o2 & H2 & S2 & K2).
  destruct (H23 r o2 H2) as (o3 & H3 & S3 & K3).
  exists o3. split; [exact H3|]. split; [eapply stable_trans; eauto|].
  destruct K2 as [-> | K2]; [left; reflexivity|].
  destruct K3 as [-> | K3].
  - left. f_equal. destruct S2 as (_ & ? & _). congruence.
  - right. eapply kept_trans; eauto.
Qed.

Lemma only_touches_weaken G s s' : only_touches None s s' -> only_touches G s s'.
Proof.
  intros H r o Hr. destruct (H r o Hr) as (o' & ? & ? & [K|K]); [discriminate|].
  exists o'. auto.
Qed.

Lemma only_touches_allocated G o s : only_touches G s (allocated o s).
Proof.
  intros r x H. exists x. split; [apply allocated_lookup_old, H|].
  split; [apply stable_refl|right; apply kept_refl].
Qed.

Lemma only_touches_asked G c s : only_touches G s (mkState (heap s) (asked s ++ [c])).
Proof.
  intros r x H. exists x. split; [exact H|].
  split; [apply stable_refl|right; apply kept_refl].
Qed.

(** An assignment, seen from an earlier store [s0]. *)
Lemma only_touches_assigned G s0 s r o o' :
  only_touches G s0 s ->
  heap s !! r = Some o -> stable o o' ->
  (forall o0, heap s0 !! r = Some o0 ->
     G = Some (fileSystem o0) \/ (kept o0 o -> kept o0 o')) ->
  only_touches G s0 (assigned r o' s).
Proof.
  intros H Hr Hst Hk x ox Hx. destruct (H x ox Hx) as (o1 & H1 & S1 & K1).
  destruct (decide (r = x)) as [<- | Hne].
  - exists o'. split; [eapply assigned_lookup_eq, Hr|].
    assert (o1 = o) as -> by congruence.
    split; [eapply stable_trans; eauto|].
    destruct K1 as [K1|K1]; [left; exact K1|].
    destruct (Hk ox Hx) as [A|A]; [left; exact A|right; auto].
  - exists o1. split; [rewrite assigned_lookup_ne; auto|]. auto.
Qed.

(** An assignment leaves the parts it does not write as they are. *)
Lemma update_other_parts u o o' p :
  apply_update u o = Some o' -> update_kind u <> Some p -> same p o o'.
Proof.
  destruct u as [| | | | | | | | | | | | | | | | | |[] ?|[] ?]; simpl;
    repeat match goal with |- context [match ?x with _ => _ end] => destruct x end;
    intros [= <-] Hk; destruct p; simpl; try reflexivity; congruence.
Qed.

Lemma only_touches_put G s0 s r u o o' :
  only_touches G s0 s ->
  heap s !! r = Some o -> apply_update u o = Some o' ->
  G = Some (fileSystem o) \/ unmaterialized_in s0 r u ->
  only_touches G s0 (assigned r o' s).
Proof.
  intros H Hr Hu Hcase.
  assert (Hst := apply_update_stable _ _ _ Hu).
  eapply only_touches_assigned; eauto.
  intros o0 H0.
  destruct (H r o0 H0) as (o1 & H1 & S1 & _).
  assert (o1 = o) as -> by congruence.
  destruct Hcase as [-> | Hun].
  { left. f_equal. destruct S1 as (_ & ? & _). congruence. }
  right. intros K p Hp. unfold unmaterialized_in in Hun.
  eapply same_trans; [apply K, Hp|]. eapply update_other_parts; [exact Hu|].
  intros Ek. rewrite Ek in Hun. exact (Hun o0 H0 Hp).
Qed.

(** A part that an object does not have now, it did not have before,
    unless the object belongs to the file system in scope. *)
Lemma part_not_held_before G s0 s r o p :
  only_touches G s0 s -> heap s !! r = Some o -> ~ holds p o ->
  G = Some (fileSystem o) \/ forall o0, heap s0 !! r = Some o0 -> ~ holds p o0.
Proof.
  intros Hot Ho Hno.
  destruct (heap s0 !! r) as [o0|] eqn:E0; [|right; intros o0 [=]].
  destruct (Hot r o0 E0) as (o' & Ho' & Hst & [HG | K]).
  - left. rewrite HG. f_equal. destruct Hst as (_ & ? & _). congruence.
  - right. intros o0' [= <-] Hh. apply Hno.
    assert (o' = o) as -> by congruence.
    eapply holds_same; [apply K, Hh|exact Hh].
Qed.


(** *** Well-formedness *)

Lemma well_formed_extends s s' r o :
  extends s s' -> well_formed_object s r o -> well_formed_object s' r o.
Proof.
  intros He (H1 & H2 & H3 & H4 & H5 & H6 & H7 & H8 & H9 & H10 & H11).
  assert (Hfs : forall F x, in_fs s F x -> in_fs s' F x)
    by (intros F x; apply in_fs_extends, He).
  assert (Hc : forall x c, class_at s x = Some c -> class_at s' x = Some c)
    by (intros x c; apply class_at_extends, He).
  assert (Hen : forall F x, is_entry s F x -> is_entry s' F x)
    by (intros F x; apply is_entry_extends, He).
  unfold well_formed_object. split_and!; auto.
  - destruct (_root o); simpl in *; auto.
  - eapply Forall_impl; [exact H6|]. auto.
  - destruct (_target o); simpl in *; auto.
  - eapply Forall_impl; [exact H8|]. auto.
  - eapply Forall_impl; [exact H9|]. simpl. auto.
  - eapply Forall_impl; [exact H10|]. simpl. intros h [? ?]. auto.
  - destruct (_shadowRoot o) as [x|]; simpl in *; auto.
    destruct H11 as [ox Hx]. destruct (He x ox Hx) as (ox' & -> & _). eauto.
Qed.

Lemma well_formed_allocated o s :
  well_formed s ->
  well_formed_object (allocated o s) (length (heap s)) o ->
  well_formed (allocated o s).
Proof.
  intros Hwf Ho r x Hx. simpl in Hx.
  apply lookup_app_Some in Hx as [Hx | [Hlen Hx]].
  - eapply well_formed_extends; [apply extends_allocated|]. apply Hwf, Hx.
  - destruct (r - length (heap s)) as [|k] eqn:E; simpl in Hx; [|discriminate].
    injection Hx as <-. replace r with (length (heap s)) by lia. exact Ho.
Qed.

Lemma well_formed_assigned r o o' s :
  well_formed s -> heap s !! r = Some o -> stable o o' ->
  well_formed_object s r o' ->
  well_formed (assigned r o' s).
Proof.
  intros Hwf Hr Hst Ho x ox Hx.
  eapply well_formed_extends; [eapply extends_assigned; eauto|].
  destruct (decide (r = x)) as [<- | Hne].
  - rewrite (assigned_lookup_eq _ _ _ _ Hr) in Hx. injection Hx as <-. exact Ho.
  - rewrite assigned_lookup_ne in Hx by exact Hne. apply Hwf, Hx.
Qed.

Lemma well_formed_asked c s : well_formed s -> well_formed (mkState (heap s) (asked s ++ [c])).
Proof. intros H r o Hr. apply (H r o Hr). Qed.

Lemma Forall_splice {A} (P : A -> Prop) i l : Forall P l -> Forall P (splice i l).
Proof.
  intros H. unfold splice. apply Forall_app. split; [apply Forall_take|apply Forall_drop]; auto.
Qed.

Lemma Forall_remove_last (P : Handler -> Prop) h l : Forall P l -> Forall P (remove_last h l).
Proof.
  induction 1 as [|x l Hx Hl IH]; simpl; [constructor|].
  destruct (bool_decide (h ∈ l)); [constructor; auto|].
  destruct (bool_decide (x = h)); [auto|constructor; auto].
Qed.

Lemma Forall_map_set (P : nat * nat -> Prop) k v m :
  P (k, v) -> Forall P m -> Forall P (map_set k v m).
Proof.
  intros Hkv. induction 1 as [|[k' v'] m Hx Hm IH]; simpl.
  - constructor; auto.
  - destruct (k =? k'); constructor; auto.
Qed.

Lemma Forall_map_delete (P : nat * nat -> Prop) k m : Forall P m -> Forall P (map_delete k m).
Proof.
  intros H. unfold map_delete. apply Forall_forall. intros x Hx.
  apply list_elem_of_filter in Hx as [_ Hx]. rewrite Forall_forall in H. auto.
Qed.

Lemma well_formed_update s r u o o' :
  well_formed_object s r o ->
  apply_update u o = Some o' ->
  update_ok s (fileSystem o) u ->
  well_formed_object s r o'.
Proof.
  intros (H1 & H2 & H3 & H4 & H5 & H6 & H7 & H8 & H9 & H10 & H11) Hu Hok.
  apply Forall_app in H10 as [H10a H10r].
  destruct u as [| | | | | | |[?|]|?|[?|]| | | |[?|]| | | | |[] ?|[] ?]; simpl in Hu, Hok;
    repeat match type of Hu with match ?x with _ => _ end = _ => destruct x eqn:? end;
    try discriminate;
    injection Hu as <-; unfold well_formed_object; simpl;
    split_and!; auto;
    try (apply Forall_app; split; auto);
    simpl in *;
    try match goal with H : _ = Some _ |- _ => rewrite H in *; simpl in * end;
    auto using Forall_splice, Forall_remove_last, Forall_map_delete.
  all: try (apply Forall_app; split; auto).
  all: try (apply Forall_map_set; auto).
  all: try (constructor; auto).
  all: try (destruct Hok; constructor; auto).
  all: try (apply Forall_take; assumption).
  all: try (apply Forall_drop; assumption).
Qed.

(** *** The two together *)

Lemma good_refl G s : well_formed s -> good G s s.
Proof. intros H. split; [exact H|apply only_touches_refl]. Qed.

Lemma good_put G s0 s r u o o' :
  good G s0 s ->
  heap s !! r = Some o -> apply_update u o = Some o' ->
  update_ok s (fileSystem o) u ->
  G = Some (fileSystem o) \/ unmaterialized_in s0 r u ->
  good G s0 (assigned r o' s).
Proof.
  intros [Hwf Hot] Hr Hu Hok Hcase. split.
  - eapply well_formed_assigned; eauto using apply_update_stable.
    eapply well_formed_update; eauto.
  - eapply only_touches_put; eauto.
Qed.

Lemma good_new G s0 s o :
  good G s0 s ->
  well_formed_object (allocated o s) (length (heap s)) o ->
  good G s0 (allocated o s).
Proof.
  intros [Hwf Hot] Ho. split.
  - apply well_formed_allocated; auto.
  - eapply only_touches_trans; [exact Hot|apply only_touches_allocated].
Qed.

Lemma good_asked G s0 s c : good G s0 s -> good G s0 (mkState (heap s) (asked s ++ [c])).
Proof.
  intros [Hwf Hot]. split.
  - apply well_formed_asked, Hwf.
  - eapply only_touches_trans; [exact Hot|apply only_touches_asked].
Qed.

Lemma good_step G G' s0 s s1 :
  good G s0 s -> good G' s s1 -> G' = None \/ G' = G -> good G s0 s1.
Proof.
  intros [_ Hot] [Hwf1 Hot1] Hcase. split; [exact Hwf1|].
  eapply only_touches_trans; [exact Hot|].
  destruct Hcase as [-> | ->]; [apply only_touches_weaken|]; exact Hot1.
Qed.

End frames.

(** ** Every method keeps the store well formed and within its scope *)

Section methods.
Context {env : Env}.

Lemma keeps_bind_ext n {A B} (p : Prog A) (f : A -> Prog B) s
    (P : State -> Prop) (R1 : State -> A -> Prop) (R : State -> B -> Prop) :
  keeps n p s P R1 ->
  (forall s1 a, P s1 -> R1 s1 a -> extends s s1 -> keeps n (f a) s1 P R) ->
  keeps n (bind p f) s P R.
Proof.
  unfold keeps, after. intros H1 H2. rewrite run_bind.
  pose proof (run_extends n p s) as He.
  destruct (run n p s) as [s1 [a|e|]]; simpl in *.
  - destruct H1 as [HP HR]. apply (H2 s1 a HP HR He).
  - exact H1.
  - exact H1.
Qed.

(** The fuel [n], and the statement for calls at that fuel. *)
Variable n : nat.
Hypothesis IH : forall B (m : Method B) s, expects m s -> ensures m s (invoke n m s).

Lemma good_ret G s0 {A} (a : A) s (R : State -> A -> Prop) :
  good G s0 s -> R s a -> keeps n (Ret a) s (good G s0) R.
Proof. apply keeps_ret. Qed.

Lemma good_get G s0 r s :
  good G s0 s ->
  keeps n (get r) s (good G s0)
    (fun s1 o => s1 = s /\ heap s !! r = Some o /\ well_formed_object s r o).
Proof.
  intros Hg. apply keeps_get; [exact Hg|].
  intros o Ho. split_and!; auto. destruct Hg as [Hwf _]. apply Hwf, Ho.
Qed.

Lemma good_put_spec G s0 r u s :
  good G s0 s ->
  (forall o, heap s !! r = Some o ->
     update_ok s (fileSystem o) u
     /\ (G = Some (fileSystem o) \/ unmaterialized_in s0 r u)) ->
  keeps n (put r u) s (good G s0) (fun _ _ => True).
Proof.
  intros Hg H. apply keeps_put; [exact Hg|].
  intros o o' Ho Hu. split; [|exact I].
  destruct (H o Ho) as [Hok Hcase]. eapply good_put; eauto.
Qed.

Lemma good_ask_spec G s0 c s :
  good G s0 s -> keeps n (ask c) s (good G s0) (fun _ _ => True).
Proof. intros Hg. apply keeps_ask; [apply good_asked, Hg|exact I]. Qed.

Lemma good_call G s0 {B} (m : Method B) s :
  good G s0 s ->
  expects m s ->
  scope m s = None \/ scope m s = G ->
  keeps n (call m) s (good G s0)
    (fun s1 b => forall F, in_fs s F (this_of m) -> Forall (is_entry s1 F) (result_refs m b)).
Proof.
  intros Hg Hex Hsc. apply keeps_call.
  destruct (IH B m s Hex) as [Hg1 Hres]. split.
  - eapply good_step; eauto.
  - exact Hres.
Qed.

Lemma class_at_lookup s r o : heap s !! r = Some o -> class_at s r = Some (class o).
Proof. unfold class_at. intros ->. reflexivity. Qed.

Lemma in_fs_lookup s r o : heap s !! r = Some o -> in_fs s (fileSystem o) r.
Proof. unfold in_fs, fs_at. intros ->. reflexivity. Qed.

Lemma in_fs_inv s F r o : in_fs s F r -> heap s !! r = Some o -> fileSystem o = F.
Proof. unfold in_fs, fs_at. intros H Ho. rewrite Ho in H. simpl in H. congruence. Qed.

Lemma class_at_inv s c r o : class_at s r = Some c -> heap s !! r = Some o -> class o = c.
Proof. unfold class_at. intros H Ho. rewrite Ho in H. simpl in H. congruence. Qed.

Lemma good_new_entry G s0 c parent nm init F s :
  good G s0 s ->
  in_fs s F parent ->
  c <> VirtualFileSystem ->
  plain_init init ->
  keeps n (new_entry c parent nm init) s (good G s0)
    (fun s1 r => is_entry s1 F r /\ class_at s1 r = Some c).
Proof.
  intros Hg Hp Hc Hinit. unfold new_entry.
  eapply keeps_bind_ext; [apply good_get, Hg|].
  intros s1 p _ (-> & Hpo & Hwp) _.
  eapply keeps_bind_ext; [apply good_get, Hg|].
  intros s1 po _ (-> & Hpoo & _) _.
  assert (HF : fileSystem p = F) by (eapply in_fs_inv; eauto).
  set (o := init _).
  assert (Hb : bare (blank c (fileSystem p)
                       (if class p is VirtualDirectoryRoot then fileSystem p else parent)
                       nm (vpath_combine (path po) nm))).
  { unfold bare. simpl. tauto. }
  destruct (Hinit _ Hb) as ((B1 & B2 & B3 & B4 & B5 & B6 & B7 & B8) & I1 & I2 & I3).
  fold o in B1, B2, B3, B4, B5, B6, B7, B8, I1, I2, I3. simpl in I1, I2, I3.
  destruct Hwp as (W1 & W2 & _ & _).
  assert (Hnew : heap (allocated o s) !! length (heap s) = Some o)
    by apply allocated_lookup_new.
  assert (Hwo : well_formed_object (allocated o s) (length (heap s)) o).
  { unfold well_formed_object. rewrite I1, I2, I3, B1, B2, B3, B4, B5, B6, B7, B8. simpl.
    split_and!; auto.
    - eapply in_fs_extends; [apply extends_allocated|exact W1].
    - eapply class_at_extends; [apply extends_allocated|exact W2].
    - intros ->. congruence.
    - eapply in_fs_extends; [apply extends_allocated|].
      destruct (class p); auto; rewrite HF; exact Hp. }
  apply keeps_new.
  - apply good_new; auto.
  - split; [split|].
    + unfold in_fs, fs_at. rewrite Hnew. simpl. congruence.
    + rewrite (class_at_lookup _ _ _ Hnew), I3. congruence.
    + rewrite (class_at_lookup _ _ _ Hnew), I3. reflexivity.
Qed.

Lemma keeps_ext {A} (p : Prog A) s (P : State -> Prop) (R : State -> A -> Prop) :
  keeps n p s P (fun s' a => extends s s' -> R s' a) -> keeps n p s P R.
Proof.
  unfold keeps, after. pose proof (run_extends n p s) as He.
  destruct (run n p s) as [s1 [a|e|]]; simpl in *; intros [HP HR]; auto.
Qed.

Lemma plain_init_dir r : plain_init (with_dir None r None).
Proof. intros b (?&?&?&?&?&?&?&?). unfold bare. simpl. tauto. Qed.

Lemma plain_init_file c r : plain_init (with_file c r).
Proof. intros b (?&?&?&?&?&?&?&?). unfold bare. simpl. tauto. Qed.

Lemma plain_init_dir_link t :
  plain_init (fun o => with_link t None [] None (with_dir None None None o)).
Proof. intros b (?&?&?&?&?&?&?&?). unfold bare. simpl. tauto. Qed.

Lemma plain_init_file_link t :
  plain_init (fun o => with_link t None [] None (with_file None None o)).
Proof. intros b (?&?&?&?&?&?&?&?). unfold bare. simpl. tauto. Qed.

Ltac side :=
  first [ congruence
        | apply plain_init_dir | apply plain_init_file
        | apply plain_init_dir_link | apply plain_init_file_link
        | exact I
        | left; reflexivity
        | match goal with H : good _ _ ?s |- expects _ ?s => split; [apply H|exact I] end ].

Ltac with_spec lem :=
  eapply keeps_bind_ext; [eapply lem; eauto; try solve [side]|].

Ltac read_object := 
  eapply keeps_bind_ext; [apply good_get; eassumption|];
  let s1 := fresh "s" in let o := fresh "o" in
  let Ho := fresh "Ho" in let Hw := fresh "Hw" in
  intros s1 o _ (-> & Ho & Hw) _.

Lemma good_skip G s0 {A} (a : A) s :
  good G s0 s -> keeps n (Ret a) s (good G s0) (fun s1 _ => s1 = s).
Proof. intros Hg. apply keeps_ret; auto. Qed.

Lemma good_writePreamble G s0 this s :
  good G s0 s ->
  keeps n (writePreamble this) s (good G s0) (fun s1 _ => s1 = s).
Proof.
  intros Hg. unfold writePreamble. read_object.
  destruct (_readOnly o); [apply keeps_throw|apply keeps_ret]; auto.
Qed.

Lemma good_isReadOnly G s0 this s :
  good G s0 s ->
  keeps n (isReadOnly this) s (good G s0) (fun s1 _ => s1 = s).
Proof.
  intros Hg. unfold isReadOnly. read_object. apply keeps_ret; auto.
Qed.

Lemma good_emit G s0 this ev entry s :
  good G s0 s ->
  keeps n (emit this ev entry) s (good G s0) (fun _ _ => True).
Proof.
  intros Hg. unfold emit. read_object.
  destruct Hw as (_ & _ & _ & _ & _ & _ & _ & _ & _ & Hl & _).
  apply Forall_app in Hl as [Hla Hlr].
  assert (Hls : Forall (fun h => class_at s (link_of h) = Some VirtualDirectorySymlink)
                  (listeners ev o)).
  { destruct ev; simpl; [eapply Forall_impl; [exact Hla|]|eapply Forall_impl; [exact Hlr|]];
      simpl; tauto. }
  apply keeps_for_of with (I := fun s1 => extends s s1); auto using extends_refl.
  intros h s1 Hh Hg1 He1. apply keeps_ext.
  eapply keeps_consequence.
  - apply good_call; [exact Hg1| |left; reflexivity].
    split; [apply Hg1|]. simpl. eapply class_at_extends; [exact He1|].
    rewrite Forall_forall in Hls. apply Hls, Hh.
  - intros s2 _ _ _ He2. eapply extends_trans; eauto.
Qed.

Lemma good_root G s0 this F s :
  good G s0 s ->
  in_fs s F this ->
  keeps n (root this) s (good G s0) (fun s1 r => in_fs s1 F r).
Proof.
  intros Hg HF. unfold root. read_object.
  assert (HFo : fileSystem o = F) by (eapply in_fs_inv; eauto).
  destruct (_root o) as [r|] eqn:Er.
  - apply keeps_ret; auto.
    destruct Hw as (_ & _ & _ & _ & Hr & _). rewrite Er in Hr. simpl in Hr.
    rewrite <- HFo. exact Hr.
  - with_spec good_new_entry.
    intros s1 r Hg1 [[Hr _] _] He1.
    with_spec good_put_spec.
    { intros o1 Ho1.
      assert (HF1 : in_fs s1 F this) by (eapply in_fs_extends; eauto).
      rewrite (in_fs_inv _ _ _ _ HF1 Ho1). split; [exact Hr|].
      rewrite <- HFo. apply (part_not_held_before G s0 s this o the_root);
        [apply Hg|exact Ho|]. simpl. rewrite Er. intros [x Hx]. discriminate. }
    intros s2 _ Hg2 _ He2.
    with_spec good_isReadOnly. intros s3 ro _ -> _.
    assert (Hr2 : in_fs s2 F r) by (eapply in_fs_extends; eauto).
    destruct ro.
    + with_spec good_call.
      intros s3 _ Hg3 _ He3. apply keeps_ret; auto. eapply in_fs_extends; eauto.
    + with_spec good_skip.
      intros s3 _ Hg3 -> He3. apply keeps_ret; auto.
Qed.

Lemma Forall_option_list {A} (P : A -> Prop) (x : option A) :
  Forall P (option_list x) <-> from_option P True x.
Proof.
  destruct x; simpl; [|split; auto].
  split; [intros H; inversion H; auto|intros; constructor; auto].
Qed.

Lemma good_getRealEntry G s0 this entry F s :
  good G s0 s ->
  in_fs s F this -> is_entry s F entry ->
  keeps n (getRealEntry this entry) s (good G s0)
    (fun s1 r => Forall (is_entry s1 F) (option_list r)).
Proof.
  intros Hg HF He. unfold getRealEntry. read_object.
  destruct (instanceof_VirtualSymlink (class o)).
  - eapply keeps_consequence.
    + apply good_call; [exact Hg|split; [apply Hg|exact I]|left; reflexivity].
    + intros s1 r _ Hr. apply Hr. exact HF.
  - apply keeps_ret; [auto|simpl; constructor; auto].
Qed.

Lemma good_getEntry_of_kind G s0 k this path options F s :
  good G s0 s ->
  in_fs s F this ->
  keeps n (getEntry_of_kind k this path options) s (good G s0)
    (fun s1 r => Forall (is_entry s1 F) (option_list r)).
Proof.
  intros Hg HF. unfold getEntry_of_kind. read_object.
  destruct (class o).
  1: { with_spec good_root. intros s1 r Hg1 Hr He1.
       eapply keeps_consequence.
       - apply good_call; [exact Hg1|split; [apply Hg1|exact I]|left; reflexivity].
       - intros s2 x _ Hx. apply Hx. exact Hr. }
  all: eapply keeps_consequence;
    [apply good_call; [exact Hg|split; [apply Hg|exact I]|left; reflexivity]
    |intros s2 x _ Hx; apply Hx; exact HF].
Qed.

Lemma good_getEntry_scan G s0 fsr basename options entries F s :
  good G s0 s ->
  in_fs s F fsr -> Forall (is_entry s F) entries ->
  keeps n (getEntry_scan fsr basename options entries) s (good G s0)
    (fun s1 r => Forall (is_entry s1 F) (option_list r)).
Proof.
  intros Hg HF Hall. induction Hall as [|entry rest He Hrest IHl]; simpl.
  - apply keeps_ret; [auto|simpl; constructor].
  - read_object. read_object.
    destruct (sameName o0 (name o) basename); [|exact IHl].
    destruct (negb (isMatch o options)); [apply keeps_ret; [auto|constructor]|].
    destruct (followSymlinks options).
    + eapply good_getRealEntry; eauto.
    + apply keeps_ret; [auto|simpl; constructor; auto].
Qed.

Lemma good_Container_getEntry G s0 this path options F s :
  good G s0 s ->
  in_fs s F this ->
  keeps n (Container_getEntry this path options) s (good G s0)
    (fun s1 r => Forall (is_entry s1 F) (option_list r)).
Proof.
  intros Hg HF. unfold Container_getEntry.
  destruct (negb (truthy (vpath_basename path))); [apply keeps_ret; [auto|constructor]|].
  destruct (truthy (vpath_dirname path)).
  - with_spec good_getEntry_of_kind. intros s1 [d|] Hg1 Hd He1.
    + inversion Hd as [|? ? [Hd1 _] _]; subst.
      eapply keeps_consequence.
      * apply good_call; [exact Hg1|split; [apply Hg1|exact I]|left; reflexivity].
      * intros s2 x _ Hx. apply Hx. exact Hd1.
    + apply keeps_ret; [auto|constructor].
  - with_spec good_call.
    intros s1 entries Hg1 Hentries He1. simpl in Hentries.
    read_object.
    assert (HF1 : in_fs s1 F this) by (eapply in_fs_extends; eauto).
    assert (fileSystem o = F) as Hfo by (eapply in_fs_inv; eauto).
    destruct Hw as (W1 & _). rewrite Hfo in *.
    eapply good_getEntry_scan; eauto.
Qed.

Lemma good_Container_getEntries G s0 this options F s :
  good G s0 s ->
  in_fs s F this ->
  keeps n (Container_getEntries this options) s (good G s0)
    (fun s1 l => Forall (is_entry s1 F) l).
Proof.
  intros Hg HF. unfold Container_getEntries. destruct (recursive options).
  - with_spec good_call.
    intros s1 own Hg1 Hown He1. simpl in Hown. specialize (Hown F HF).
    eapply keeps_bind_ext.
    + apply keeps_map_of with
        (I := fun s2 done => extends s1 s2 /\ Forall (Forall (is_entry s2 F)) done).
      * exact Hg1.
      * split; [apply extends_refl|constructor].
      * intros entry s2 done Hin Hg2 [He2 Hdone]. apply keeps_ext.
        assert (Hentry : is_entry s2 F entry).
        { eapply is_entry_extends; [exact He2|]. rewrite Forall_forall in Hown. auto. }
        assert (Hkeep : forall s3 x, extends s2 s3 -> Forall (is_entry s3 F) x ->
                  extends s1 s3 /\ Forall (Forall (is_entry s3 F)) (done ++ [x])).
        { intros s3 x He3 Hx. split; [eapply extends_trans; eauto|].
          apply Forall_app. split.
          - eapply Forall_impl; [exact Hdone|]. intros l Hl.
            eapply Forall_impl; [exact Hl|]. intros y. apply is_entry_extends, He3.
          - constructor; [exact Hx|constructor]. }
        read_object.
        destruct (instanceof_VirtualFile (class o)).
        { apply keeps_ret; auto. intros He3. apply Hkeep; auto.
          destruct (isMatch o options); [constructor; [exact Hentry|constructor]|constructor]. }
        destruct (instanceof_VirtualDirectory (class o)).
        { with_spec good_call.
          intros s3 children Hg3 Hch He3. simpl in Hch.
          apply keeps_ret; auto. intros _. apply Hkeep; auto.
          apply Forall_app. split.
          - destruct (isMatch o options); [|constructor].
            constructor; [|constructor]. eapply is_entry_extends; eauto.
          - apply Hch. apply Hentry. }
        apply keeps_ret; auto.
      * intros s2 ys Hg2 [He2 Hys]. exact Hys.
    + intros s2 results Hg2 Hres He2. apply keeps_ret; auto.
      cbv beta in Hres. clear -Hres.
      induction Hres as [|l ls Hl _ IHls]; simpl; [constructor|].
      apply Forall_app. split; assumption.
  - with_spec good_call.
    intros s1 own Hg1 Hown He1. simpl in Hown. specialize (Hown F HF).
    apply keeps_filter_of with (I := fun s2 => s2 = s1); auto.
    + intros entry s2 Hin Hg2 ->. read_object. apply keeps_ret; auto.
    + intros s2 xs Hg2 -> Hsub. apply Forall_forall. intros x Hx.
      rewrite Forall_forall in Hown. auto.
Qed.

Lemma scope_mutating {B} (m : Method B) s F :
  in_fs s F (this_of m) -> scope m s = None \/ scope m s = Some F.
Proof. intros H. unfold scope. destruct (mutates m); auto. Qed.

Ltac side ::=
  first [ congruence
        | apply plain_init_dir | apply plain_init_file
        | apply plain_init_dir_link | apply plain_init_file_link
        | exact I
        | left; reflexivity
        | match goal with H : good _ _ ?s |- expects _ ?s => split; [apply H|exact I] end
        | apply scope_mutating; simpl; assumption ].

(** The file system forwards to its root directory. *)
Ltac forward_to_root Hg HF :=
  let s1 := fresh "s" in let r := fresh "r" in
  let Hg1 := fresh "Hg" in let Hr := fresh "Hr" in let He1 := fresh "He" in
  eapply keeps_bind_ext; [eapply good_root; [exact Hg|exact HF]|];
  intros s1 r Hg1 Hr He1;
  read_object;
  eapply keeps_consequence;
  [ apply good_call;
    [ exact Hg1
    | split; [apply Hg1|exact I]
    | first [left; reflexivity | right; unfold scope; simpl; rewrite Hr; congruence] ]
  | let Hx := fresh "Hx" in intros ? ? _ Hx; apply Hx; exact Hr ].

Lemma good_VirtualFileSystem_getEntry G s0 this path options F s :
  good G s0 s -> in_fs s F this ->
  keeps n (VirtualFileSystem_getEntry this path options) s (good G s0)
    (fun s1 r => Forall (is_entry s1 F) (option_list r)).
Proof. intros Hg HF. unfold VirtualFileSystem_getEntry. forward_to_root Hg HF. Qed.

Lemma good_VirtualFileSystem_getOwnEntries G s0 this F s :
  good G s0 s -> in_fs s F this ->
  keeps n (VirtualFileSystem_getOwnEntries this) s (good G s0)
    (fun s1 l => Forall (is_entry s1 F) l).
Proof.
  intros Hg HF. unfold VirtualFileSystem_getOwnEntries.
  with_spec good_root. intros s1 r Hg1 Hr He1.
  eapply keeps_consequence.
  - apply good_call; [exact Hg1|split; [apply Hg1|exact I]|left; reflexivity].
  - intros s2 l _ Hl. apply Hl. exact Hr.
Qed.

Lemma good_VirtualFileSystem_addDirectory s0 this path resolver F s :
  good (Some F) s0 s -> in_fs s F this ->
  keeps n (VirtualFileSystem_addDirectory this path resolver) s (good (Some F) s0)
    (fun s1 r => Forall (is_entry s1 F) (option_list r)).
Proof. intros Hg HF. unfold VirtualFileSystem_addDirectory. forward_to_root Hg HF. Qed.

Lemma good_VirtualFileSystem_addFile s0 this path content F s :
  good (Some F) s0 s -> in_fs s F this ->
  keeps n (VirtualFileSystem_addFile this path content) s (good (Some F) s0)
    (fun s1 r => Forall (is_entry s1 F) (option_list r)).
Proof. intros Hg HF. unfold VirtualFileSystem_addFile. forward_to_root Hg HF. Qed.

Lemma good_VirtualFileSystem_removeDirectory s0 this path F s :
  good (Some F) s0 s -> in_fs s F this ->
  keeps n (VirtualFileSystem_removeDirectory this path) s (good (Some F) s0)
    (fun _ _ => True).
Proof.
  intros Hg HF. unfold VirtualFileSystem_removeDirectory.
  with_spec good_root. intros s1 r Hg1 Hr He1. read_object.
  eapply keeps_consequence.
  - apply good_call; [exact Hg1|split; [apply Hg1|exact I]|].
    right; unfold scope; simpl; rewrite Hr; congruence.
  - auto.
Qed.

Lemma good_VirtualFileSystem_removeFile s0 this path F s :
  good (Some F) s0 s -> in_fs s F this ->
  keeps n (VirtualFileSystem_removeFile this path) s (good (Some F) s0)
    (fun _ _ => True).
Proof.
  intros Hg HF. unfold VirtualFileSystem_removeFile.
  with_spec good_root. intros s1 r Hg1 Hr He1. read_object.
  eapply keeps_consequence.
  - apply good_call; [exact Hg1|split; [apply Hg1|exact I]|].
    right; unfold scope; simpl; rewrite Hr; congruence.
  - auto.
Qed.

Lemma good_VirtualFileSystem_addSymlink s0 this path target F s :
  good (Some F) s0 s -> in_fs s F this ->
  keeps n (VirtualFileSystem_addSymlink this path target) s (good (Some F) s0)
    (fun s1 r => Forall (is_entry s1 F) (option_list r)).
Proof.
  intros Hg HF. unfold VirtualFileSystem_addSymlink. read_object.
  with_spec good_root. intros s1 r Hg1 Hr He1.
  eapply keeps_consequence.
  - apply good_call; [exact Hg1|split; [apply Hg1|exact I]|].
    right; unfold scope; simpl; rewrite Hr; congruence.
  - intros s2 x _ Hx. apply Hx. exact Hr.
Qed.


(** *** Directories *)

Lemma good_call_in G s0 {B} (m : Method B) F s :
  good G s0 s -> expects m s -> in_fs s F (this_of m) ->
  scope m s = None \/ scope m s = G ->
  keeps n (call m) s (good G s0) (fun s1 b => Forall (is_entry s1 F) (result_refs m b)).
Proof.
  intros Hg Hex HF Hsc. eapply keeps_consequence; [apply good_call; auto|].
  intros s1 b _ Hb. apply Hb, HF.
Qed.

Lemma good_ret_eq G s0 {A} (a : A) s :
  good G s0 s -> keeps n (Ret a) s (good G s0) (fun s1 b => s1 = s /\ b = a).
Proof. intros Hg. apply keeps_ret; auto. Qed.

Lemma good_for_of G s0 {X} (l : list X) (f : X -> Prog unit) s :
  good G s0 s ->
  (forall x s1, x ∈ l -> good G s0 s1 -> extends s s1 ->
     keeps n (f x) s1 (good G s0) (fun _ _ => True)) ->
  keeps n (for_of l f) s (good G s0) (fun _ _ => True).
Proof.
  intros Hg Hstep.
  apply keeps_for_of with (I := fun s1 => extends s s1); auto using extends_refl.
  intros x s1 Hx Hg1 He1. apply keeps_ext.
  eapply keeps_consequence; [apply Hstep; auto|].
  intros s2 _ _ _ He2. eapply extends_trans; eauto.
Qed.

Lemma good_put_this G s0 this u F s :
  good G s0 s -> in_fs s F this -> update_ok s F u ->
  G = Some F \/ unmaterialized_in s0 this u ->
  keeps n (put this u) s (good G s0) (fun _ _ => True).
Proof.
  intros Hg HF Hok Hcase. apply good_put_spec; [exact Hg|].
  intros o Ho. rewrite (in_fs_inv _ _ _ _ HF Ho). auto.
Qed.

Lemma good_push_own G s0 this entry F s :
  good G s0 s -> in_fs s F this -> is_entry s F entry ->
  G = Some F \/ class_at s this = Some VirtualDirectorySymlink ->
  keeps n (push_own this entry) s (good G s0) (fun _ _ => True).
Proof.
  intros Hg HF He Hcase. unfold push_own.
  eapply keeps_bind_ext;
    [apply (good_call_in G s0 (getOwnEntries this) F);
       [exact Hg|side|exact HF|left; reflexivity]|].
  intros s1 l Hg1 _ He1. read_object.
  assert (HF1 : in_fs s1 F this) by (eapply in_fs_extends; eauto).
  assert (He' : is_entry s1 F entry) by (eapply is_entry_extends; eauto).
  apply (good_put_this G s0 this _ F); auto.
  - destruct (class o); exact He'.
  - destruct Hcase as [-> | Hc]; [left; reflexivity|right].
    assert (class o = VirtualDirectorySymlink) as ->.
    { eapply class_at_inv; [eapply class_at_extends; eauto|eauto]. }
    exact I.
Qed.

Lemma good_splice_own G s0 this i F s :
  good G s0 s -> in_fs s F this ->
  G = Some F \/ class_at s this = Some VirtualDirectorySymlink ->
  keeps n (splice_own this i) s (good G s0) (fun _ _ => True).
Proof.
  intros Hg HF Hcase. unfold splice_own. read_object.
  apply (good_put_this G s0 this _ F); auto.
  - destruct (class o); exact I.
  - destruct Hcase as [-> | Hc]; [left; reflexivity|right].
    assert (class o = VirtualDirectorySymlink) as -> by (eapply class_at_inv; eauto).
    exact I.
Qed.

Lemma good_ensureDirectory_loop s0 F components : forall directory s,
  good (Some F) s0 s -> is_entry s F directory ->
  keeps n (ensureDirectory_loop directory components) s (good (Some F) s0)
    (fun s1 r => Forall (is_entry s1 F) (option_list r)).
Proof.
  induction components as [|component rest IHrest]; intros directory s Hg He; simpl.
  - apply keeps_ret; [auto|constructor; auto].
  - eapply keeps_bind_ext;
      [apply (good_call_in _ s0 (addDirectory directory component None) F);
         [exact Hg|side|apply He|apply scope_mutating, He]|].
    intros s1 [d|] Hg1 Hd _.
    + apply IHrest; auto. inversion Hd; auto.
    + apply keeps_ret; [auto|constructor].
Qed.

Lemma good_ensureDirectory s0 this path F s :
  good (Some F) s0 s -> is_entry s F this ->
  keeps n (ensureDirectory this path) s (good (Some F) s0)
    (fun s1 r => Forall (is_entry s1 F) (option_list r)).
Proof.
  intros Hg He. unfold ensureDirectory.
  destruct (_ || _); [apply keeps_ret; [auto|constructor]|].
  apply good_ensureDirectory_loop; auto.
Qed.

(** A new child is constructed, pushed and announced. *)
Lemma good_attach s0 this c nm init F s {A} (k : ref -> A) :
  good (Some F) s0 s -> in_fs s F this -> c <> VirtualFileSystem -> plain_init init ->
  keeps n (entry <- new_entry c this nm init ;;
           push_own this entry ;;
           emit this childAdded entry ;;
           Ret (k entry)) s (good (Some F) s0)
    (fun s1 r => exists e, r = k e /\ is_entry s1 F e).
Proof.
  intros Hg HF Hc Hinit.
  eapply keeps_bind_ext; [apply (good_new_entry _ _ c this nm init F); auto|].
  intros s1 entry Hg1 [Hent _] He1.
  assert (HF1 : in_fs s1 F this) by (eapply in_fs_extends; eauto).
  eapply keeps_bind_ext; [apply (good_push_own _ _ this entry F); auto|].
  intros s2 _ Hg2 _ He2.
  eapply keeps_bind_ext; [apply good_emit; exact Hg2|].
  intros s3 _ Hg3 _ He3.
  apply keeps_ret; [exact Hg3|]. exists entry. split; [reflexivity|].
  eapply is_entry_extends; [exact He3|]. eapply is_entry_extends; eauto.
Qed.

Lemma good_VirtualDirectory_addDirectory s0 this path resolver F s :
  good (Some F) s0 s -> is_entry s F this ->
  keeps n (VirtualDirectory_addDirectory this path resolver) s (good (Some F) s0)
    (fun s1 r => Forall (is_entry s1 F) (option_list r)).
Proof.
  intros Hg He. unfold VirtualDirectory_addDirectory.
  eapply keeps_bind_ext; [apply good_writePreamble, Hg|]. intros s1 _ _ -> _.
  destruct (negb (truthy (vpath_basename path))); [apply keeps_ret; [auto|constructor]|].
  destruct (truthy (vpath_dirname path)).
  - eapply keeps_bind_ext; [apply good_ensureDirectory; eauto|].
    intros s1 [d|] Hg1 Hd _; [|apply keeps_ret; [auto|constructor]].
    inversion Hd as [|? ? Hd1 _]; subst.
    apply (good_call_in _ _ (addDirectory d _ _) F);
      [exact Hg1|side|apply Hd1|apply scope_mutating, Hd1].
  - eapply keeps_bind_ext;
      [apply (good_call_in _ _ (getEntry this _ _) F);
         [exact Hg|side|apply He|left; reflexivity]|].
    intros s1 found Hg1 Hfound He1. simpl in Hfound.
    eapply keeps_bind_ext with (R1 := fun s2 entry => is_entry s2 F entry).
    + destruct found as [entry|].
      * apply keeps_ret; [auto|]. inversion Hfound; auto.
      * eapply keeps_consequence.
        -- apply (good_attach s0 this VirtualDirectory _ _ F s1 (fun e => e));
             [exact Hg1|eapply in_fs_extends; [exact He1|apply He]
             |discriminate|apply plain_init_dir].
        -- intros s2 entry _ (e & -> & Hent). exact Hent.
    + intros s2 entry Hg2 Hent _. read_object.
      apply keeps_ret; [auto|].
      destruct (instanceof_VirtualDirectory (class o)); constructor; auto.
Qed.

Lemma good_VirtualDirectory_addFile s0 this path content F s :
  good (Some F) s0 s -> is_entry s F this ->
  keeps n (VirtualDirectory_addFile this path content) s (good (Some F) s0)
    (fun s1 r => Forall (is_entry s1 F) (option_list r)).
Proof.
  intros Hg He. unfold VirtualDirectory_addFile.
  eapply keeps_bind_ext; [apply good_writePreamble, Hg|]. intros s1 _ _ -> _.
  destruct (negb (truthy (vpath_basename path))); [apply keeps_ret; [auto|constructor]|].
  destruct (truthy (vpath_dirname path)).
  - eapply keeps_bind_ext; [apply good_ensureDirectory; eauto|].
    intros s1 [d|] Hg1 Hd _; [|apply keeps_ret; [auto|constructor]].
    inversion Hd as [|? ? Hd1 _]; subst.
    apply (good_call_in _ _ (addFile d _ _) F);
      [exact Hg1|side|apply Hd1|apply scope_mutating, Hd1].
  - eapply keeps_bind_ext;
      [apply (good_call_in _ _ (getEntry this _ _) F);
         [exact Hg|side|apply He|left; reflexivity]|].
    intros s1 found Hg1 Hfound He1. simpl in Hfound.
    eapply keeps_bind_ext with (R1 := fun s2 entry => is_entry s2 F entry).
    + destruct found as [entry|].
      * apply keeps_ret; [auto|]. inversion Hfound; auto.
      * eapply keeps_consequence.
        -- apply (good_attach s0 this VirtualFile _ _ F s1 (fun e => e));
             [exact Hg1|eapply in_fs_extends; [exact He1|apply He]
             |discriminate|apply plain_init_file].
        -- intros s2 entry _ (e & -> & Hent). exact Hent.
    + intros s2 entry Hg2 Hent _. read_object.
      apply keeps_ret; [auto|].
      destruct (instanceof_VirtualFile (class o)); constructor; auto.
Qed.

Lemma good_VirtualDirectory_addSymlink s0 this path target F s :
  good (Some F) s0 s -> is_entry s F this ->
  keeps n (VirtualDirectory_addSymlink this path target) s (good (Some F) s0)
    (fun s1 r => Forall (is_entry s1 F) (option_list r)).
Proof.
  intros Hg He. unfold VirtualDirectory_addSymlink.
  eapply keeps_bind_ext; [apply good_writePreamble, Hg|]. intros s1 _ _ -> _.
  destruct (negb (truthy (vpath_basename path))); [apply keeps_ret; [auto|constructor]|].
  read_object.
  eapply keeps_bind_ext with (R1 := fun _ _ => True).
  { destruct target as [t|e].
    - eapply keeps_consequence;
        [apply good_call; [exact Hg|side|left; reflexivity]|auto].
    - apply keeps_ret; auto. }
  intros s1 [targetEntry|] Hg1 _ He1; [|apply keeps_ret; [auto|constructor]].
  assert (He' : is_entry s1 F this) by (eapply is_entry_extends; eauto).
  destruct (truthy (vpath_dirname path)).
  - eapply keeps_bind_ext; [apply good_ensureDirectory; eauto|].
    intros s2 [d|] Hg2 Hd _; [|apply keeps_ret; [auto|constructor]].
    inversion Hd as [|? ? Hd1 _]; subst.
    apply (good_call_in _ _ (addSymlink d _ _) F);
      [exact Hg2|side|apply Hd1|apply scope_mutating, Hd1].
  - eapply keeps_bind_ext;
      [apply (good_call_in _ _ (getEntry this _ _) F);
         [exact Hg1|side|apply He'|left; reflexivity]|].
    intros s2 found Hg2 Hfound He2. simpl in Hfound.
    assert (HF2 : in_fs s2 F this) by (eapply in_fs_extends; [exact He2|apply He']).
    read_object.
    eapply keeps_bind_ext with
      (R1 := fun s3 created => Forall (is_entry s3 F) (option_list created)).
    + destruct found as [entry|]; [apply keeps_ret; auto|].
      destruct (instanceof_VirtualFile (class o0)).
      { eapply keeps_consequence.
        - apply (good_attach s0 this VirtualFileSymlink _ _ F s2 Some);
            [exact Hg2|exact HF2|discriminate|apply plain_init_file_link].
        - intros s3 r _ (e & -> & Hent). constructor; [exact Hent|constructor]. }
      destruct (instanceof_VirtualDirectory (class o0)).
      { eapply keeps_consequence.
        - apply (good_attach s0 this VirtualDirectorySymlink _ _ F s2 Some);
            [exact Hg2|exact HF2|discriminate|apply plain_init_dir_link].
        - intros s3 r _ (e & -> & Hent). constructor; [exact Hent|constructor]. }
      apply keeps_ret; [auto|constructor].
    + intros s3 [entry|] Hg3 Hent _; [|apply keeps_ret; [auto|constructor]].
      read_object.
      assert (Hres : forall b : bool,
                 Forall (is_entry s3 F) (option_list (if b then Some entry else None))).
      { intros []; [exact Hent|constructor]. }
      destruct target as [t|e].
      * apply keeps_ret; [auto|apply Hres].
      * destruct (instanceof_VirtualFile (class o0));
          [|destruct (instanceof_VirtualDirectory (class o0))];
          (apply keeps_ret; [auto|]); try apply Hres;
          destruct (class o1); first [exact Hent|constructor].
Qed.

Lemma good_remove_scan s0 this wanted path F entries : forall i s,
  good (Some F) s0 s -> in_fs s F this ->
  keeps n (remove_scan this wanted path entries i) s (good (Some F) s0) (fun _ _ => True).
Proof.
  induction entries as [|entry rest IHrest]; intros i s Hg HF; simpl.
  - apply keeps_ret; auto.
  - read_object. read_object. read_object.
    destruct (_ && _); [|apply IHrest; auto].
    eapply keeps_bind_ext; [apply (good_splice_own _ _ this i F); auto|].
    intros s1 _ Hg1 _ _.
    eapply keeps_bind_ext; [apply good_emit; exact Hg1|].
    intros s2 _ Hg2 _ _. apply keeps_ret; auto.
Qed.

Lemma good_remove s0 this wanted path F s (m : ref -> string -> Method bool) :
  (forall d p, this_of (m d p) = d) -> (forall d p, mutates (m d p) = true) ->
  (forall d p s, well_formed s -> expects (m d p) s) ->
  good (Some F) s0 s -> in_fs s F this ->
  keeps n (writePreamble this ;;
           let basename := vpath_basename path in
           if negb (truthy basename) then Ret false else
           let dirname := vpath_dirname path in
           if truthy dirname then
             directory <- getDirectory this dirname no_options ;;
             match directory with
             | Some directory => call (m directory basename)
             | None => Ret false
             end
           else
             entries <- call (getOwnEntries this) ;;
             remove_scan this wanted path entries 0) s (good (Some F) s0) (fun _ _ => True).
Proof.
  intros Hthis Hmut Hex Hg HF.
  eapply keeps_bind_ext; [apply good_writePreamble, Hg|]. intros s1 _ _ -> _.
  cbv zeta.
  destruct (negb (truthy (vpath_basename path))); [apply keeps_ret; auto|].
  destruct (truthy (vpath_dirname path)).
  - eapply keeps_bind_ext; [apply (good_getEntry_of_kind _ _ _ this _ _ F); auto|].
    intros s1 [d|] Hg1 Hd _; [|apply keeps_ret; auto].
    inversion Hd as [|? ? [Hd1 _] _]; subst.
    eapply keeps_consequence; [apply good_call|auto].
    + exact Hg1.
    + apply Hex, Hg1.
    + right. unfold scope. rewrite Hmut, Hthis. exact Hd1.
  - eapply keeps_bind_ext;
      [apply (good_call_in _ _ (getOwnEntries this) F);
         [exact Hg|side|exact HF|left; reflexivity]|].
    intros s1 entries Hg1 _ He1.
    apply good_remove_scan; auto. eapply in_fs_extends; eauto.
Qed.

Lemma good_VirtualDirectory_removeDirectory s0 this path F s :
  good (Some F) s0 s -> in_fs s F this ->
  keeps n (VirtualDirectory_removeDirectory this path) s (good (Some F) s0)
    (fun _ _ => True).
Proof.
  intros Hg HF. apply (good_remove s0 this _ path F s removeDirectory); auto.
  intros d p s1 H. split; [exact H|exact I].
Qed.

Lemma good_VirtualDirectory_removeFile s0 this path F s :
  good (Some F) s0 s -> in_fs s F this ->
  keeps n (VirtualDirectory_removeFile this path) s (good (Some F) s0)
    (fun _ _ => True).
Proof.
  intros Hg HF. apply (good_remove s0 this _ path F s removeFile); auto.
  intros d p s1 H. split; [exact H|exact I].
Qed.

Lemma good_clone G s0 this parent F F' s :
  good G s0 s -> in_fs s F parent -> is_entry s F' this ->
  keeps n (clone this parent) s (good G s0) (fun s1 r => is_entry s1 F r).
Proof.
  intros Hg HF [_ Hc]. unfold clone. read_object.
  rewrite (class_at_lookup _ _ _ Ho) in Hc.
  assert (Hshadow : forall c init,
    c <> VirtualFileSystem -> plain_init init ->
    keeps n (clone <- new_entry c parent (name o) init ;;
             put clone (set_shadowRoot (Some this)) ;;
             Ret clone) s (good G s0) (fun s1 r => is_entry s1 F r)).
  { intros c init Hne Hinit.
    eapply keeps_bind_ext; [apply (good_new_entry _ _ c parent _ init F); auto|].
    intros s1 r Hg1 [Hr _] He1.
    eapply keeps_bind_ext.
    - apply good_put_spec; [exact Hg1|]. intros o1 _. split; [|right; exact I].
      simpl. destruct (He1 _ _ Ho) as (o' & -> & _). eauto.
    - intros s2 _ Hg2 _ He2. apply keeps_ret; auto. eapply is_entry_extends; eauto. }
  destruct (class o); [congruence| | | | |].
  - unfold VirtualDirectory_clone. read_object.
    replace o0 with o by congruence.
    apply Hshadow; [discriminate|apply plain_init_dir].
  - unfold VirtualDirectory_clone. read_object.
    replace o0 with o by congruence.
    apply Hshadow; [discriminate|apply plain_init_dir].
  - unfold VirtualDirectorySymlink_clone. read_object.
    eapply keeps_consequence;
      [apply (good_new_entry _ _ _ parent _ _ F);
         [exact Hg|exact HF|discriminate|apply plain_init_dir_link]|].
    intros s1 r _ [Hr _]. exact Hr.
  - unfold VirtualFile_clone. read_object.
    replace o0 with o by congruence.
    apply Hshadow; [discriminate|apply plain_init_file].
  - unfold VirtualFileSymlink_clone. read_object.
    eapply keeps_consequence;
      [apply (good_new_entry _ _ _ parent _ _ F);
         [exact Hg|exact HF|discriminate|apply plain_init_file_link]|].
    intros s1 r _ [Hr _]. exact Hr.
Qed.

Lemma good_makeReadOnly_if_readOnly G s0 this fresh s :
  good G s0 s ->
  keeps n (makeReadOnly_if_readOnly this fresh) s (good G s0) (fun _ _ => True).
Proof.
  intros Hg. unfold makeReadOnly_if_readOnly.
  eapply keeps_bind_ext; [apply good_isReadOnly, Hg|]. intros s1 ro _ -> _.
  destruct ro; [|apply keeps_ret; auto].
  eapply keeps_consequence; [apply good_call; [exact Hg|side|left; reflexivity]|auto].
Qed.

(** A child made while the directory is populated: constructed, frozen
    if the directory is, and pushed. *)
Lemma good_adopt G s0 this F s (mk : Prog ref) :
  good G s0 s -> in_fs s F this ->
  G = Some F \/ (forall o0, heap s0 !! this = Some o0 -> ~ holds the_entries o0) ->
  keeps n mk s (good G s0) (fun s1 r => is_entry s1 F r) ->
  keeps n (x <- mk ;; makeReadOnly_if_readOnly this x ;; put this (push_entries x)) s
    (good G s0) (fun _ _ => True).
Proof.
  intros Hg HF Hcase Hmk.
  eapply keeps_bind_ext; [exact Hmk|]. intros s1 x Hg1 Hx He1.
  eapply keeps_bind_ext; [apply good_makeReadOnly_if_readOnly, Hg1|].
  intros s2 _ Hg2 _ He2.
  apply (good_put_this G s0 this _ F); auto.
  - eapply in_fs_extends; [exact He2|]. eapply in_fs_extends; eauto.
  - simpl. eapply is_entry_extends; eauto.
Qed.

Lemma good_VirtualDirectory_getOwnEntries G this F s :
  well_formed s -> in_fs s F this ->
  keeps n (VirtualDirectory_getOwnEntries this) s (good G s)
    (fun s1 l => Forall (is_entry s1 F) l).
Proof.
  intros Hwf HF. assert (Hg : good G s s) by (apply good_refl, Hwf).
  unfold VirtualDirectory_getOwnEntries. read_object.
  assert (HFo : fileSystem o = F) by (eapply in_fs_inv; eauto).
  destruct (_entries o) as [entries|] eqn:Een.
  { apply keeps_ret; [auto|].
    destruct Hw as (_ & _ & _ & _ & _ & W6 & _). rewrite Een, HFo in W6. exact W6. }
  assert (Hun : G = Some F \/ forall o0, heap s !! this = Some o0 -> ~ holds the_entries o0).
  { right. intros o0 Ho0 [x Hx]. congruence. }
  assert (Hput : forall u s1, good G s s1 -> extends s s1 ->
            update_ok s1 F u ->
            update_kind u = None \/ update_kind u = Some the_entries ->
            keeps n (put this u) s1 (good G s) (fun _ _ => True)).
  { intros u s1 Hg1 He1 Hok Hk. apply (good_put_this G s this u F); auto.
    - eapply in_fs_extends; eauto.
    - right. unfold unmaterialized_in. destruct Hk as [-> | ->]; [exact I|].
      intros o0 Ho0 [x Hx]. congruence. }
  eapply keeps_bind_ext; [apply Hput; [exact Hg|apply extends_refl|exact I|right; reflexivity]|].
  intros s1 _ Hg1 _ He1.
  eapply keeps_bind_ext; [apply Hput; [exact Hg1|exact He1|exact I|left; reflexivity]|].
  intros s2 _ Hg2 _ He2.
  assert (He02 : extends s s2) by (eapply extends_trans; eauto).
  eapply keeps_bind_ext; [apply Hput; [exact Hg2|exact He02|exact I|left; reflexivity]|].
  intros s3 _ Hg3 _ He3.
  assert (He03 : extends s s3) by (eapply extends_trans; eauto).
  assert (HF3 : in_fs s3 F this) by (eapply in_fs_extends; eauto).
  clear He3 He02 He2 Hg2 He1 Hg1.
  eapply keeps_bind_ext with (R1 := fun _ _ => True).
  - destruct (_resolver o) as [resolver|]; [|destruct (_shadowRoot o) as [shadowRoot|] eqn:Esh].
    + eapply keeps_bind_ext; [apply good_ask_spec, Hg3|].
      intros s4 _ Hg4 _ He4.
      assert (HF4 : in_fs s4 F this) by (eapply in_fs_extends; eauto).
      destruct (resolver_getEntries resolver (path o)) as [files directories].
      eapply keeps_bind_ext.
      * apply good_for_of; [exact Hg4|]. intros dir s5 _ Hg5 He5.
        assert (HF5 : in_fs s5 F this) by (eapply in_fs_extends; eauto).
        apply (good_adopt G s this F); auto.
        eapply keeps_consequence;
          [apply (good_new_entry _ _ _ this _ _ F);
             [exact Hg5|exact HF5|discriminate|apply plain_init_dir]|].
        intros s6 r _ [Hr _]. exact Hr.
      * intros s5 _ Hg5 _ He5.
        assert (HF5 : in_fs s5 F this) by (eapply in_fs_extends; eauto).
        apply good_for_of; [exact Hg5|]. intros file s6 _ Hg6 He6.
        assert (HF6 : in_fs s6 F this) by (eapply in_fs_extends; eauto).
        apply (good_adopt G s this F); auto.
        eapply keeps_consequence;
          [apply (good_new_entry _ _ _ this _ _ F);
             [exact Hg6|exact HF6|discriminate|apply plain_init_file]|].
        intros s7 r _ [Hr _]. exact Hr.
    + destruct Hw as (_ & _ & _ & _ & _ & _ & _ & _ & _ & _ & W11).
      rewrite Esh in W11. simpl in W11. destruct W11 as [so Hso].
      destruct (He03 _ _ Hso) as (so3 & Hso3 & _).
      eapply keeps_bind_ext;
        [apply (good_call_in _ _ (getOwnEntries shadowRoot) (fileSystem so3));
           [exact Hg3|side|apply in_fs_lookup, Hso3|left; reflexivity]|].
      intros s4 entries Hg4 Hentries He4. simpl in Hentries.
      apply good_for_of; [exact Hg4|]. intros entry s5 Hin Hg5 He5.
      assert (HF5 : in_fs s5 F this).
      { eapply in_fs_extends; [exact He5|]. eapply in_fs_extends; eauto. }
      apply (good_adopt G s this F); auto.
      apply (good_clone G s entry this F (fileSystem so3)); auto.
      eapply is_entry_extends; [exact He5|].
      rewrite Forall_forall in Hentries. apply Hentries, Hin.
    + apply keeps_ret; auto.
  - intros s4 _ Hg4 _ He4. read_object.
    apply keeps_ret; [auto|].
    assert (HF4 : in_fs s4 F this) by (eapply in_fs_extends; eauto).
    destruct Hw0 as (_ & _ & _ & _ & _ & W6 & _).
    rewrite (in_fs_inv _ _ _ _ HF4 Ho0) in W6. exact W6.
Qed.

(** *** Symbolic links and files *)

Lemma good_put_plain G s0 r u s :
  good G s0 s -> update_kind u = None -> (forall F, update_ok s F u) ->
  keeps n (put r u) s (good G s0) (fun _ _ => True).
Proof.
  intros Hg Hk Hok. apply good_put_spec; [exact Hg|].
  intros o _. split; [apply Hok|right]. unfold unmaterialized_in. rewrite Hk. exact I.
Qed.

Lemma good_invalidateTarget G s0 this s :
  good G s0 s -> keeps n (invalidateTarget this) s (good G s0) (fun _ _ => True).
Proof.
  intros Hg. unfold invalidateTarget. read_object.
  destruct (_target o) as [target|]; [|apply keeps_ret; auto].
  read_object.
  eapply keeps_bind_ext;
    [apply good_put_plain; [exact Hg|reflexivity|intros F; exact I]|].
  intros s1 _ Hg1 _ _.
  eapply keeps_bind_ext;
    [apply good_put_plain; [exact Hg1|reflexivity|intros F; exact I]|].
  intros s2 _ Hg2 _ _.
  eapply keeps_bind_ext;
    [apply good_put_plain; [exact Hg2|reflexivity|intros F; exact I]|].
  intros s3 _ Hg3 _ _.
  eapply keeps_bind_ext;
    [apply good_put_plain; [exact Hg3|reflexivity|intros F; exact I]|].
  intros s4 _ Hg4 _ _.
  eapply keeps_bind_ext;
    [apply good_put_plain; [exact Hg4|reflexivity|intros F; exact I]|].
  intros s5 _ Hg5 _ _.
  apply good_put_plain; [exact Hg5|reflexivity|intros F; exact I].
Qed.

Lemma good_resolveTarget G s0 this s :
  good G s0 s -> class_at s this = Some VirtualDirectorySymlink ->
  keeps n (resolveTarget this) s (good G s0) (fun _ _ => True).
Proof.
  intros Hg Hc. unfold resolveTarget. read_object.
  destruct (_target o) as [target|]; [apply keeps_ret; auto|].
  set (F := fileSystem o).
  assert (HF : in_fs s F this) by (apply in_fs_lookup, Ho).
  eapply keeps_bind_ext;
    [apply (good_call_in _ _ (findTarget F _ _) F);
       [exact Hg|side|apply Hw|left; reflexivity]|].
  intros s1 [entry|] Hg1 Hentry He1; [|apply keeps_ret; auto].
  simpl in Hentry. inversion Hentry as [|? ? [Hent _] _]; subst.
  read_object.
  destruct (instanceof_VirtualDirectory (class o0)); [|apply keeps_ret; auto].
  assert (Hlink : forall s2, extends s1 s2 ->
            forall ev h, link_of h = this -> update_ok s2 F (add_listener ev h)).
  { intros s2 He2 ev h <-. simpl. split.
    - eapply in_fs_extends; [exact He2|]. eapply in_fs_extends; eauto.
    - eapply class_at_extends; [exact He2|]. eapply class_at_extends; eauto. }
  assert (HFe : fileSystem o0 = F) by (eapply in_fs_inv; eauto).
  assert (Hpar : in_fs s1 F (parent o0)).
  { destruct Hw0 as (_ & _ & _ & W4 & _). rewrite HFe in W4. exact W4. }
  eapply keeps_bind_ext.
  { apply (good_put_this G s0 this _ F); [exact Hg1| |exact Hent|right; exact I].
    eapply in_fs_extends; eauto. }
  intros s2 _ Hg2 _ He2.
  eapply keeps_bind_ext.
  { apply (good_put_this G s0 (parent o0) _ F); [exact Hg2| | |right; exact I].
    - eapply in_fs_extends; eauto.
    - apply Hlink; auto. }
  intros s3 _ Hg3 _ He3.
  assert (He13 : extends s1 s3) by (eapply extends_trans; eauto).
  eapply keeps_bind_ext.
  { apply (good_put_this G s0 entry _ F); [exact Hg3| | |right; exact I].
    - eapply in_fs_extends; eauto.
    - apply Hlink; auto. }
  intros s4 _ Hg4 _ He4.
  apply (good_put_this G s0 entry _ F); [exact Hg4| | |right; exact I].
  - eapply in_fs_extends; [exact He4|]. eapply in_fs_extends; eauto.
  - apply Hlink; auto. eapply extends_trans; eauto.
Qed.

Lemma good_getRealDirectory G s0 this F s :
  good G s0 s -> class_at s this = Some VirtualDirectorySymlink -> in_fs s F this ->
  keeps n (getRealDirectory this) s (good G s0)
    (fun s1 r => from_option (in_fs s1 F) True r).
Proof.
  intros Hg Hc HF. unfold getRealDirectory.
  eapply keeps_bind_ext; [apply good_resolveTarget; eauto|].
  intros s1 _ Hg1 _ He1. read_object. apply keeps_ret; [auto|].
  destruct Hw as (_ & _ & _ & _ & _ & _ & W7 & _).
  rewrite (in_fs_inv s1 F this o) in W7; auto. eapply in_fs_extends; eauto.
Qed.

(** The four operations a directory symlink hands to its target. *)
Lemma good_through_link s0 this F s {B} (m : ref -> Method B) (none : B)
    (refs : B -> list ref) :
  (forall d, this_of (m d) = d) -> (forall d, mutates (m d) = true) ->
  (forall d s, well_formed s -> expects (m d) s) ->
  (forall d, result_refs (m d) = refs) -> refs none = [] ->
  good (Some F) s0 s -> class_at s this = Some VirtualDirectorySymlink -> in_fs s F this ->
  keeps n (target <- getRealDirectory this ;;
           match target with
           | Some target => call (m target)
           | None => Ret none
           end) s (good (Some F) s0)
    (fun s1 b => Forall (is_entry s1 F) (refs b)).
Proof.
  intros Hthis Hmut Hex Hrefs Hnone Hg Hc HF.
  eapply keeps_bind_ext; [apply (good_getRealDirectory _ _ this F); auto|].
  intros s1 [target|] Hg1 Htarget _.
  2: { apply keeps_ret; [auto|]. rewrite Hnone. constructor. }
  simpl in Htarget.
  eapply keeps_consequence; [apply good_call|].
  - exact Hg1.
  - apply Hex, Hg1.
  - right. unfold scope. rewrite Hmut, Hthis. exact Htarget.
  - intros s2 b _ Hb. rewrite Hthis, Hrefs in Hb. apply Hb, Htarget.
Qed.

Lemma good_VirtualDirectorySymlink_addDirectory s0 this path resolver F s :
  good (Some F) s0 s -> class_at s this = Some VirtualDirectorySymlink -> in_fs s F this ->
  keeps n (VirtualDirectorySymlink_addDirectory this path resolver) s (good (Some F) s0)
    (fun s1 r => Forall (is_entry s1 F) (option_list r)).
Proof.
  apply (good_through_link s0 this F s (fun d => addDirectory d path resolver) None
           option_list); auto.
  intros d s1 H. split; [exact H|exact I].
Qed.

Lemma good_VirtualDirectorySymlink_addFile s0 this path content F s :
  good (Some F) s0 s -> class_at s this = Some VirtualDirectorySymlink -> in_fs s F this ->
  keeps n (VirtualDirectorySymlink_addFile this path content) s (good (Some F) s0)
    (fun s1 r => Forall (is_entry s1 F) (option_list r)).
Proof.
  apply (good_through_link s0 this F s (fun d => addFile d path content) None
           option_list); auto.
  intros d s1 H. split; [exact H|exact I].
Qed.

Lemma good_VirtualDirectorySymlink_removeDirectory s0 this path F s :
  good (Some F) s0 s -> class_at s this = Some VirtualDirectorySymlink -> in_fs s F this ->
  keeps n (VirtualDirectorySymlink_removeDirectory this path) s (good (Some F) s0)
    (fun _ _ => True).
Proof.
  intros Hg Hc HF. eapply keeps_consequence.
  - apply (good_through_link s0 this F s (fun d => removeDirectory d path) false
             (fun _ => [])); auto.
    intros d s1 H. split; [exact H|exact I].
  - auto.
Qed.

Lemma good_VirtualDirectorySymlink_removeFile s0 this path F s :
  good (Some F) s0 s -> class_at s this = Some VirtualDirectorySymlink -> in_fs s F this ->
  keeps n (VirtualDirectorySymlink_removeFile this path) s (good (Some F) s0)
    (fun _ _ => True).
Proof.
  intros Hg Hc HF. eapply keeps_consequence.
  - apply (good_through_link s0 this F s (fun d => removeFile d path) false
             (fun _ => [])); auto.
    intros d s1 H. split; [exact H|exact I].
  - auto.
Qed.

Lemma map_get_Some k v (m : list (ref * ref)) : map_get k m = Some v -> (k, v) ∈ m.
Proof.
  induction m as [|[k' v'] m IHm]; simpl; [discriminate|].
  destruct (k =? k') eqn:E.
  - apply Nat.eqb_eq in E as <-. intros [= ->]. apply elem_of_cons. left. reflexivity.
  - intros H. apply elem_of_cons. right. auto.
Qed.

Lemma good_getWrappedEntry G s0 this entry F s :
  good G s0 s -> in_fs s F this ->
  keeps n (getWrappedEntry this entry) s (good G s0) (fun s1 r => is_entry s1 F r).
Proof.
  intros Hg HF. unfold getWrappedEntry. read_object. read_object.
  assert (HFo : fileSystem o = F) by (eapply in_fs_inv; eauto).
  eapply keeps_bind_ext with
    (R1 := fun s1 known => s1 = s /\
       from_option (fun lc => in_fs s F lc.1 /\ class_at s lc.1 = Some lc.2) True known).
  { destruct (map_get entry (_symLinks o)) as [symlink|] eqn:Eget.
    - read_object. apply keeps_ret; [auto|]. split; [reflexivity|]. simpl. split.
      + destruct Hw as (_ & _ & _ & _ & _ & _ & _ & _ & W9 & _).
        rewrite Forall_forall in W9. apply map_get_Some in Eget.
        specialize (W9 _ Eget). simpl in W9. rewrite <- HFo. exact W9.
      + apply class_at_lookup. assumption.
    - apply keeps_ret; simpl; auto. }
  intros s1 known _ [-> Hknown] _.
  assert (Hfresh : forall c nm init,
    c <> VirtualFileSystem -> plain_init init ->
    keeps n (symlink <- new_entry c this nm init ;;
             put this (symLinks_set entry symlink) ;;
             Ret symlink) s (good G s0) (fun s1 r => is_entry s1 F r)).
  { intros c nm init Hne Hinit.
    eapply keeps_bind_ext; [apply (good_new_entry _ _ c this _ init F); auto|].
    intros s1 r Hg1 [Hr _] He1.
    eapply keeps_bind_ext.
    - apply (good_put_this G s0 this _ F); [exact Hg1| |apply Hr|right; exact I].
      eapply in_fs_extends; eauto.
    - intros s2 _ Hg2 _ He2. apply keeps_ret; auto. eapply is_entry_extends; eauto. }
  assert (Hold : forall l c, known = Some (l, c) -> c <> VirtualFileSystem ->
            keeps n (Ret l) s (good G s0) (fun s1 r => is_entry s1 F r)).
  { intros l c -> Hne. simpl in Hknown. destruct Hknown as [H1 H2].
    apply keeps_ret; [auto|]. split; [exact H1|]. rewrite H2. congruence. }
  destruct (instanceof_VirtualFile (class o0)).
  - destruct known as [[l []]|];
      first [ eapply Hold; [reflexivity|discriminate]
            | apply Hfresh; [discriminate|apply plain_init_file_link] ].
  - destruct known as [[l []]|];
      first [ eapply Hold; [reflexivity|discriminate]
            | apply Hfresh; [discriminate|apply plain_init_dir_link] ].
Qed.

Lemma good_VirtualDirectorySymlink_getOwnEntries G s0 this F s :
  good G s0 s -> class_at s this = Some VirtualDirectorySymlink -> in_fs s F this ->
  keeps n (VirtualDirectorySymlink_getOwnEntries this) s (good G s0)
    (fun s1 l => Forall (is_entry s1 F) l).
Proof.
  intros Hg Hc HF. unfold VirtualDirectorySymlink_getOwnEntries. read_object.
  assert (HFo : fileSystem o = F) by (eapply in_fs_inv; eauto).
  destruct (_symEntries o) as [symEntries|] eqn:Esym.
  { apply keeps_ret; [auto|].
    destruct Hw as (_ & _ & _ & _ & _ & _ & _ & W8 & _). rewrite Esym, HFo in W8. exact W8. }
  eapply keeps_bind_ext; [apply (good_getRealDirectory _ _ this F); auto|].
  intros s1 target Hg1 Htarget He1.
  assert (HF1 : in_fs s1 F this) by (eapply in_fs_extends; eauto).
  eapply keeps_bind_ext with (R1 := fun s2 l => Forall (is_entry s2 F) l).
  - destruct target as [target|]; [|apply keeps_ret; [auto|constructor]].
    simpl in Htarget.
    eapply keeps_bind_ext;
      [apply (good_call_in _ _ (getEntries target no_options) F);
         [exact Hg1|side|exact Htarget|left; reflexivity]|].
    intros s2 entries Hg2 _ He2.
    apply keeps_map_of with
      (I := fun s3 done => extends s2 s3 /\ Forall (is_entry s3 F) done).
    + exact Hg2.
    + split; [apply extends_refl|constructor].
    + intros entry s3 done _ Hg3 [He3 Hdone]. apply keeps_ext.
      eapply keeps_consequence.
      * apply (good_getWrappedEntry _ _ this entry F); [exact Hg3|].
        eapply in_fs_extends; [exact He3|]. eapply in_fs_extends; eauto.
      * intros s4 y _ Hy He4. split; [eapply extends_trans; eauto|].
        apply Forall_app. split; [|constructor; [exact Hy|constructor]].
        eapply Forall_impl; [exact Hdone|]. intros x. apply is_entry_extends, He4.
    + intros s3 ys _ [_ Hys]. exact Hys.
  - intros s2 symEntries Hg2 Hsym He2.
    eapply keeps_bind_ext.
    + apply (good_put_this G s0 this _ F); [exact Hg2| |exact Hsym|right; exact I].
      eapply in_fs_extends; eauto.
    + intros s3 _ Hg3 _ He3. apply keeps_ret; [auto|].
      eapply Forall_impl; [exact Hsym|]. intros x. apply is_entry_extends, He3.
Qed.

Lemma good_onTargetParentChildRemoved G s0 this entry s :
  good G s0 s ->
  keeps n (VirtualDirectorySymlink_onTargetParentChildRemoved this entry) s (good G s0)
    (fun _ _ => True).
Proof.
  intros Hg. unfold VirtualDirectorySymlink_onTargetParentChildRemoved. read_object.
  destruct (bool_decide _); [apply good_invalidateTarget, Hg|apply keeps_ret; auto].
Qed.

Lemma good_onTargetChildAdded G s0 this entry F s :
  good G s0 s -> class_at s this = Some VirtualDirectorySymlink -> in_fs s F this ->
  keeps n (VirtualDirectorySymlink_onTargetChildAdded this entry) s (good G s0)
    (fun _ _ => True).
Proof.
  intros Hg Hc HF. unfold VirtualDirectorySymlink_onTargetChildAdded.
  eapply keeps_bind_ext; [apply (good_getWrappedEntry _ _ this entry F); auto|].
  intros s1 wrapped Hg1 Hwrapped He1.
  eapply keeps_bind_ext.
  - apply (good_push_own _ _ this wrapped F); [exact Hg1| |exact Hwrapped|right].
    + eapply in_fs_extends; eauto.
    + eapply class_at_extends; eauto.
  - intros s2 _ Hg2 _ _. apply good_emit, Hg2.
Qed.

Lemma good_onTargetChildRemoved G s0 this entry F s :
  good G s0 s -> class_at s this = Some VirtualDirectorySymlink -> in_fs s F this ->
  keeps n (VirtualDirectorySymlink_onTargetChildRemoved this entry) s (good G s0)
    (fun _ _ => True).
Proof.
  intros Hg Hc HF. unfold VirtualDirectorySymlink_onTargetChildRemoved.
  eapply keeps_bind_ext; [apply (good_getWrappedEntry _ _ this entry F); auto|].
  intros s1 wrapped Hg1 Hwrapped He1.
  assert (HF1 : in_fs s1 F this) by (eapply in_fs_extends; eauto).
  assert (Hc1 : class_at s1 this = Some VirtualDirectorySymlink)
    by (eapply class_at_extends; eauto).
  eapply keeps_bind_ext;
    [apply (good_call_in _ _ (getOwnEntries this) F);
       [exact Hg1|side|exact HF1|left; reflexivity]|].
  intros s2 entries Hg2 _ He2.
  eapply keeps_bind_ext with (R1 := fun _ _ => True).
  - destruct (indexOf wrapped entries) as [index|]; [|apply keeps_ret; auto].
    apply (good_splice_own _ _ this index F); [exact Hg2| |right].
    + eapply in_fs_extends; eauto.
    + eapply class_at_extends; eauto.
  - intros s3 _ Hg3 _ _.
    eapply keeps_bind_ext;
      [apply good_put_plain; [exact Hg3|reflexivity|intros F'; exact I]|].
    intros s4 _ Hg4 _ _. apply good_emit, Hg4.
Qed.

Lemma good_VirtualFile_getContent G this s :
  well_formed s ->
  keeps n (VirtualFile_getContent this) s (good G s) (fun _ _ => True).
Proof.
  intros Hwf. assert (Hg : good G s s) by (apply good_refl, Hwf).
  unfold VirtualFile_getContent. read_object.
  destruct (_content o) as [content|] eqn:Ec; [apply keeps_ret; auto|].
  assert (Hset : forall v s1, good G s s1 ->
            keeps n (put this (set_content v)) s1 (good G s) (fun _ _ => True)).
  { intros v s1 Hg1. apply good_put_spec; [exact Hg1|].
    intros o1 _. split; [exact I|right]. intros o0 Ho0 [x Hx]. congruence. }
  eapply keeps_bind_ext;
    [apply good_put_plain; [exact Hg|reflexivity|intros F; exact I]|].
  intros s1 _ Hg1 _ _.
  eapply keeps_bind_ext;
    [apply good_put_plain; [exact Hg1|reflexivity|intros F; exact I]|].
  intros s2 _ Hg2 _ _.
  eapply keeps_bind_ext with (R1 := fun _ _ => True).
  - destruct (_contentResolver o) as [resolver|]; [|destruct (_shadowRoot o) as [shadowRoot|]].
    + eapply keeps_bind_ext; [apply good_ask_spec, Hg2|].
      intros s3 _ Hg3 _ _. apply Hset, Hg3.
    + eapply keeps_bind_ext;
        [apply good_call; [exact Hg2|side|left; reflexivity]|].
      intros s3 content Hg3 _ _. apply Hset, Hg3.
    + apply keeps_ret; auto.
  - intros s3 _ Hg3 _ _. read_object. apply keeps_ret; auto.
Qed.

Lemma good_VirtualFile_setContent s0 this value F s :
  good (Some F) s0 s -> in_fs s F this ->
  keeps n (VirtualFile_setContent this value) s (good (Some F) s0) (fun _ _ => True).
Proof.
  intros Hg HF. unfold VirtualFile_setContent.
  eapply keeps_bind_ext; [apply good_writePreamble, Hg|]. intros s1 _ _ -> _.
  eapply keeps_bind_ext;
    [apply good_put_plain; [exact Hg|reflexivity|intros F'; exact I]|].
  intros s1 _ Hg1 _ He1.
  apply (good_put_this _ _ this _ F); [exact Hg1| |exact I|left; reflexivity].
  eapply in_fs_extends; eauto.
Qed.

Lemma good_getRealFile G s0 this F s :
  good G s0 s -> in_fs s F this ->
  keeps n (getRealFile this) s (good G s0)
    (fun s1 r => from_option (in_fs s1 F) True r).
Proof.
  intros Hg HF. unfold getRealFile. read_object.
  assert (HFo : fileSystem o = F) by (eapply in_fs_inv; eauto).
  eapply keeps_bind_ext;
    [apply (good_call_in _ _ (findTarget (fileSystem o) _ _) F);
       [exact Hg|side|rewrite <- HFo; apply Hw|left; reflexivity]|].
  intros s1 [entry|] Hg1 Hentry _; [|apply keeps_ret; simpl; auto].
  simpl in Hentry. inversion Hentry as [|? ? [Hent _] _]; subst.
  read_object. apply keeps_ret; [auto|].
  destruct (instanceof_VirtualFile (class o0)); simpl; auto.
Qed.

Lemma good_VirtualFileSymlink_getContent G s0 this F s :
  good G s0 s -> in_fs s F this ->
  keeps n (VirtualFileSymlink_getContent this) s (good G s0) (fun _ _ => True).
Proof.
  intros Hg HF. unfold VirtualFileSymlink_getContent.
  eapply keeps_bind_ext; [apply (good_getRealFile _ _ this F); auto|].
  intros s1 [target|] Hg1 _ _; [|apply keeps_ret; auto].
  eapply keeps_consequence; [apply good_call; [exact Hg1|side|left; reflexivity]|auto].
Qed.

Lemma good_VirtualFileSymlink_setContent s0 this value F s :
  good (Some F) s0 s -> in_fs s F this ->
  keeps n (VirtualFileSymlink_setContent this value) s (good (Some F) s0) (fun _ _ => True).
Proof.
  intros Hg HF. unfold VirtualFileSymlink_setContent.
  eapply keeps_bind_ext; [apply (good_getRealFile _ _ this F); auto|].
  intros s1 [target|] Hg1 Htarget _; [|apply keeps_ret; auto].
  simpl in Htarget.
  eapply keeps_consequence;
    [apply good_call; [exact Hg1|side|right; exact Htarget]|auto].
Qed.

Lemma good_findTarget_body G s0 vfs target set s :
  good G s0 s ->
  keeps n (findTarget_body vfs target set) s (good G s0)
    (fun s1 r => forall F, in_fs s F vfs -> Forall (is_entry s1 F) (option_list r)).
Proof.
  intros Hg. unfold findTarget_body.
  eapply keeps_bind_ext; [apply good_call; [exact Hg|side|left; reflexivity]|].
  intros s1 [entry|] Hg1 Hentry He1; [|apply keeps_ret; [auto|constructor]].
  simpl in Hentry. read_object.
  destruct (instanceof_VirtualSymlink (class o)).
  - destruct (bool_decide _); [apply keeps_ret; [auto|constructor]|].
    eapply keeps_consequence; [apply good_call; [exact Hg1|side|left; reflexivity]|].
    intros s2 r _ Hr F HF. apply Hr. simpl. eapply in_fs_extends; eauto.
  - apply keeps_ret; [auto|]. intros F HF. apply Hentry, HF.
Qed.

Lemma good_Entry_makeReadOnly G s0 this s :
  good G s0 s ->
  keeps n (Entry_makeReadOnly this) s (good G s0) (fun _ _ => True).
Proof.
  intros Hg. unfold Entry_makeReadOnly.
  eapply keeps_bind_ext with (R1 := fun _ _ => True).
  - unfold makeReadOnlyCore. read_object.
    assert (Hall : forall l, keeps n (for_of l (fun entry => call (makeReadOnly entry))) s
                     (good G s0) (fun _ _ => True)).
    { intros l. apply good_for_of; [exact Hg|]. intros x s1 _ Hg1 _.
      eapply keeps_consequence; [apply good_call; [exact Hg1|side|left; reflexivity]|auto]. }
    destruct (class o).
    + eapply keeps_bind_ext; [apply (good_root _ _ this (fileSystem o)); auto|].
      * apply in_fs_lookup, Ho.
      * intros s1 r Hg1 _ _.
        eapply keeps_consequence;
          [apply good_call; [exact Hg1|side|left; reflexivity]|auto].
    + destruct (_entries o); [apply Hall|apply keeps_ret; auto].
    + destruct (_entries o); [apply Hall|apply keeps_ret; auto].
    + destruct (_entries o); [apply Hall|apply keeps_ret; auto].
    + apply keeps_ret; auto.
    + apply keeps_ret; auto.
  - intros s1 _ Hg1 _ _.
    apply good_put_plain; [exact Hg1|reflexivity|intros F; exact I].
Qed.

Lemma good_dispatch G s0 {B} this (impl : Class -> option (Prog B)) s
    (R : State -> B -> Prop) :
  good G s0 s ->
  (forall o p, heap s !! this = Some o -> well_formed_object s this o ->
     impl (class o) = Some p -> keeps n p s (good G s0) R) ->
  keeps n (dispatch this impl) s (good G s0) R.
Proof.
  intros Hg H. unfold dispatch. read_object.
  destruct (impl (class o)) as [p|] eqn:E; [eauto|apply keeps_throw; auto].
Qed.

(** *** Every method body, given the calls it makes *)

Lemma scope_lookup {B} (m : Method B) s o :
  mutates m = true -> heap s !! this_of m = Some o -> scope m s = Some (fileSystem o).
Proof. intros Hm Ho. unfold scope, fs_at. rewrite Hm, Ho. reflexivity. Qed.

Lemma scope_pure {B} (m : Method B) s : mutates m = false -> scope m s = None.
Proof. intros Hm. unfold scope. rewrite Hm. reflexivity. Qed.

Ltac by_class Hwf :=
  apply good_dispatch; [apply good_refl, Hwf|];
  let o := fresh "o" in let p := fresh "p" in
  let Ho := fresh "Ho" in let Hw := fresh "Hw" in
  let Himpl := fresh "Himpl" in let Ec := fresh "Ec" in
  intros o p Ho Hw Himpl; destruct (class o) eqn:Ec; simpl in Himpl;
  try discriminate; injection Himpl as <-.

Ltac contract Hwf lem :=
  match goal with
  | Ho : heap ?s !! ?this = Some ?o, Ec : class ?o = _ |- _ =>
      eapply keeps_consequence;
      [ eapply lem;
        first [ exact Hwf | apply good_refl, Hwf | apply in_fs_lookup, Ho
              | split; [apply in_fs_lookup, Ho
                       |rewrite (class_at_lookup _ _ _ Ho), Ec; discriminate]
              | rewrite (class_at_lookup _ _ _ Ho), Ec; reflexivity ]
      | let Hb := fresh "Hb" in let F := fresh "F" in let HF := fresh "HF" in
        intros ? ? _ Hb F HF; simpl;
        first [ constructor | rewrite <- (in_fs_inv _ _ _ _ HF Ho); exact Hb ] ]
  end.

Lemma good_body {B} (m : Method B) s :
  expects m s ->
  keeps n (body m) s (good (scope m s) s)
    (fun s1 b => forall F, in_fs s F (this_of m) -> Forall (is_entry s1 F) (result_refs m b)).
Proof.
  intros [Hwf Hex]. destruct m; simpl body.
  - rewrite scope_pure by reflexivity.
    eapply keeps_consequence; [apply good_Entry_makeReadOnly, good_refl, Hwf|].
    intros; constructor.
  - rewrite scope_pure by reflexivity. by_class Hwf.
    + contract Hwf good_VirtualFileSystem_getOwnEntries.
    + contract Hwf good_VirtualDirectory_getOwnEntries.
    + contract Hwf good_VirtualDirectory_getOwnEntries.
    + contract Hwf good_VirtualDirectorySymlink_getOwnEntries.
  - rewrite scope_pure by reflexivity. by_class Hwf;
      contract Hwf good_Container_getEntries.
  - rewrite scope_pure by reflexivity. by_class Hwf.
    + contract Hwf good_VirtualFileSystem_getEntry.
    + contract Hwf good_Container_getEntry.
    + contract Hwf good_Container_getEntry.
    + contract Hwf good_Container_getEntry.
  - by_class Hwf; rewrite (scope_lookup _ s o) by (reflexivity || exact Ho).
    + contract Hwf good_VirtualFileSystem_addDirectory.
    + contract Hwf good_VirtualDirectory_addDirectory.
    + contract Hwf good_VirtualDirectory_addDirectory.
    + contract Hwf good_VirtualDirectorySymlink_addDirectory.
  - by_class Hwf; rewrite (scope_lookup _ s o) by (reflexivity || exact Ho).
    + contract Hwf good_VirtualFileSystem_addFile.
    + contract Hwf good_VirtualDirectory_addFile.
    + contract Hwf good_VirtualDirectory_addFile.
    + contract Hwf good_VirtualDirectorySymlink_addFile.
  - by_class Hwf; rewrite (scope_lookup _ s o) by (reflexivity || exact Ho).
    + contract Hwf good_VirtualFileSystem_addSymlink.
    + contract Hwf good_VirtualDirectory_addSymlink.
    + contract Hwf good_VirtualDirectory_addSymlink.
    + contract Hwf good_VirtualDirectory_addSymlink.
  - by_class Hwf; rewrite (scope_lookup _ s o) by (reflexivity || exact Ho).
    + contract Hwf good_VirtualFileSystem_removeDirectory.
    + contract Hwf good_VirtualDirectory_removeDirectory.
    + contract Hwf good_VirtualDirectory_removeDirectory.
    + contract Hwf good_VirtualDirectorySymlink_removeDirectory.
  - by_class Hwf; rewrite (scope_lookup _ s o) by (reflexivity || exact Ho).
    + contract Hwf good_VirtualFileSystem_removeFile.
    + contract Hwf good_VirtualDirectory_removeFile.
    + contract Hwf good_VirtualDirectory_removeFile.
    + contract Hwf good_VirtualDirectorySymlink_removeFile.
  - rewrite scope_pure by reflexivity. by_class Hwf.
    + contract Hwf good_VirtualFile_getContent.
    + contract Hwf good_VirtualFileSymlink_getContent.
  - by_class Hwf; rewrite (scope_lookup _ s o) by (reflexivity || exact Ho).
    + contract Hwf good_VirtualFile_setContent.
    + contract Hwf good_VirtualFileSymlink_setContent.
  - rewrite scope_pure by reflexivity.
    apply good_findTarget_body, good_refl, Hwf.
  - rewrite scope_pure by reflexivity.
    apply class_at_Some in Hex as (o & Ho & Ec).
    assert (Hc : class_at s (link_of h) = Some VirtualDirectorySymlink)
      by (rewrite (class_at_lookup _ _ _ Ho), Ec; reflexivity).
    assert (Hg : good None s s) by apply good_refl, Hwf.
    destruct h as [link|link|link]; simpl in *;
      (eapply keeps_consequence; [|intros; constructor]).
    + apply good_onTargetParentChildRemoved, Hg.
    + eapply good_onTargetChildRemoved; eauto. apply in_fs_lookup, Ho.
    + eapply good_onTargetChildAdded; eauto. apply in_fs_lookup, Ho.
Qed.



End methods.

(** ** The contract of every method, at every depth of calls *)

Section contract.
Context {env : Env}.

Lemma methods_keep_their_contract n : forall B (m : Method B) s,
  expects m s -> ensures m s (invoke n m s).
Proof.
  induction n as [|n IHn]; intros B m s Hex.
  - simpl. split; [apply good_refl, Hex|exact I].
  - pose proof (good_body n IHn m s Hex) as H.
    unfold keeps, after, run in H. simpl invoke. exact H.
Qed.

End contract.

(** ** A clone and its original *)

Section independence.
Context {env : Env}.






End independence.

(** ** A file added under a new name is found, with its content *)

Section add_then_get.
Context {env : Env}.

Lemma sameName_refl fs a : sameName fs a a = true.
Proof. unfold sameName, compareStrings. rewrite String.eqb_refl. reflexivity. Qed.

Lemma sameName_stable fs fs' a b :
  _useCaseSensitiveFileNames fs' = _useCaseSensitiveFileNames fs ->
  sameName fs' a b = sameName fs a b.
Proof. unfold sameName. intros ->. reflexivity. Qed.

Lemma run_getEntry_scan_miss n fs ofs b options l rest s :
  heap s !! fs = Some ofs ->
  Forall (fun e => exists oe, heap s !! e = Some oe /\ sameName ofs (name oe) b = false) l ->
  run n (getEntry_scan fs b options (l ++ rest)) s
  = run n (getEntry_scan fs b options rest) s.
Proof.
  intros Hfs. induction 1 as [|e l (oe & He & Hne) _ IH]; [reflexivity|].
  rewrite <- app_comm_cons. cbn [getEntry_scan].
  rewrite run_bind, (run_get _ _ _ _ He), run_bind, (run_get _ _ _ _ Hfs), Hne.
  exact IH.
Qed.

Lemma run_getOwnEntries_materialized n d o refs s :
  heap s !! d = Some o ->
  class o = VirtualDirectory \/ class o = VirtualDirectoryRoot ->
  _entries o = Some refs ->
  invoke (S n) (getOwnEntries d) s = (s, Returned refs).
Proof.
  intros H Hc He. rewrite invoke_S. simpl body. rewrite (run_dispatch _ _ _ _ _ H).
  assert (E : run n (VirtualDirectory_getOwnEntries d) s = (s, Returned refs)).
  { unfold VirtualDirectory_getOwnEntries. rewrite run_bind, (run_get _ _ _ _ H), He.
    reflexivity. }
  destruct Hc as [-> | ->]; exact E.
Qed.

(** [getEntry] of a plain name in a directory whose children are
    materialized is the scan of the children. *)
Lemma run_getEntry_plain n d od l p options s :
  heap s !! d = Some od ->
  class od = VirtualDirectory \/ class od = VirtualDirectoryRoot ->
  _entries od = Some l ->
  Forall (fun e => is_Some (heap s !! e)) l ->
  truthy (vpath_basename p) = true -> truthy (vpath_dirname p) = false ->
  invoke (S (S (S n))) (getEntry d p options) s
  = run (S (S n)) (getEntry_scan (fileSystem od) (vpath_basename p) options l) s.
Proof.
  intros Hd Hc He Hall Hb Hdir. rewrite invoke_S. simpl body.
  rewrite (run_dispatch _ _ _ _ _ Hd).
  assert (E : run (S (S n)) (Container_getEntry d p options) s
              = run (S (S n)) (getEntry_scan (fileSystem od) (vpath_basename p) options l) s).
  { unfold Container_getEntry. cbv zeta. rewrite Hb, Hdir. simpl negb. cbv iota.
    rewrite run_bind, run_call_invoke.
    rewrite (run_getEntries_materialized n d od l s Hd Hc He Hall).
    rewrite run_bind, (run_get _ _ _ _ Hd). reflexivity. }
  destruct Hc as [-> | ->]; exact E.
Qed.

(** A mutable directory [d] (object [od]) of a well formed store [s],
    with its materialized children [l], its file system (object [ofs])
    and the object [po] that stands as parent of what is constructed
    under [d] (the file system for the root directory, [d] itself
    otherwise); and a name [p] without a directory part that none of the
    children bears. *)
Section one_new_file.
Variables (n : nat) (s : State) (d : ref) (od ofs po : Obj) (l : list ref) (p c : string).
Hypothesis Hwf : well_formed s.
Hypothesis Hd : heap s !! d = Some od.
Hypothesis Hclass : class od = VirtualDirectory \/ class od = VirtualDirectoryRoot.
Hypothesis Hmutable : _readOnly od = false.
Hypothesis Hentries : _entries od = Some l.
Hypothesis Hfs : heap s !! fileSystem od = Some ofs.
Hypothesis Hpo : heap s !! owner_of od d = Some po.
Hypothesis Hplain : vpath_basename p = p.
Hypothesis Htruthy : truthy p = true.
Hypothesis Hnodir : truthy (vpath_dirname p) = false.
Hypothesis Hnew :
  forall e oe, e ∈ l -> heap s !! e = Some oe -> sameName ofs (name oe) p = false.



Lemma d_is_not_new : d <> length (heap s).
Proof. apply lookup_lt_Some in Hd. lia. Qed.


(** The body of [addFile] up to the announcement. *)
Lemma run_attach_file s3 :
  run (S (S (S n))) (emit d childAdded (length (heap s))) (file_pushed s d od po l p c)
  = (s3, Returned tt) ->
  run (S (S (S n)))
    (entry <- new_VirtualFile d p (content_string c) ;;
     push_own d entry ;;
     emit d childAdded entry ;;
     Ret entry) s
  = (s3, Returned (length (heap s))).
Proof.
  intros Hemit. unfold new_VirtualFile.
  rewrite run_bind, (run_new_entry _ _ _ _ _ od po s Hd Hpo).
  set (s1 := allocated _ s).
  assert (Hd1 : heap s1 !! d = Some od) by apply allocated_lookup_old, Hd.
  assert (EP : run (S (S (S n))) (push_own d (length (heap s))) s1
               = (file_pushed s d od po l p c, Returned tt)).
  { unfold push_own. rewrite run_bind, run_call_invoke.
    rewrite (run_getOwnEntries_materialized _ d od l s1 Hd1 Hclass Hentries).
    rewrite run_bind, (run_get _ _ _ _ Hd1).
    assert (Eu : (if class od is VirtualDirectorySymlink
                  then push_symEntries (length (heap s)) else push_entries (length (heap s)))
                 = push_entries (length (heap s))).
    { destruct Hclass as [-> | ->]; reflexivity. }
    rewrite Eu. erewrite run_put_assigned; [reflexivity|exact Hd1|].
    simpl. rewrite Hentries. reflexivity. }
  rewrite run_bind, EP, run_bind, Hemit. reflexivity.
Qed.

Lemma pushed_lookup_d :
  heap (file_pushed s d od po l p c) !! d
  = Some (with_dir (Some (l ++ [length (heap s)])) (_resolver od) (_shadowRoot od) od).
Proof.
  unfold file_pushed. eapply assigned_lookup_eq. apply allocated_lookup_old, Hd.
Qed.

Lemma pushed_lookup_f :
  heap (file_pushed s d od po l p c) !! length (heap s)
  = Some (constructed VirtualFile od po d p (with_file (Some c) None)).
Proof.
  unfold file_pushed. rewrite assigned_lookup_ne by apply d_is_not_new.
  apply allocated_lookup_new.
Qed.

Lemma pushed_lookup_old r o :
  heap s !! r = Some o -> r <> d -> heap (file_pushed s d od po l p c) !! r = Some o.
Proof.
  intros H Hne. unfold file_pushed. rewrite assigned_lookup_ne by congruence.
  apply allocated_lookup_old, H.
Qed.




End one_new_file.
End add_then_get.

(** ** Freezing a file system *)

Section freezing.
Context {env : Env}.




















End freezing.

(** ** Checking a concrete store *)

Lemma every_object_lookup (P : ref -> Obj -> Prop) s :
  every_object P s -> forall r o, heap s !! r = Some o -> P r o.
Proof.
  unfold every_object. rewrite Forall_lookup. intros H r o Hr.
  apply (H r (r, o)). rewrite list_lookup_imap, Hr. reflexivity.
Qed.

Lemma well_formed_checked s : every_object (well_formed_object s) s -> well_formed s.
Proof. intros H r o Hr. exact (every_object_lookup _ s H r o Hr). Qed.


(** * The code on concrete trees *)

Section concrete.
Existing Instance reference_env.

(** C4 (the code as it stands).  A directory symlink that has resolved
    its target but has not been listed yet: after a file is added to the
    target, the listing of the link holds the mirror of that file twice;
    after the file is removed from the target, the mirror is still
    listed once.  Had the link been listed before the file was added,
    its listing would hold the mirror once, and not at all after the
    removal. *)
Theorem mirror_is_listed_twice_after_resolution :
  (exists mirror,
     snd (run 12 mirror_after_resolve empty_state)
     = Returned ([mirror; mirror], [mirror]))
  /\ (exists mirror,
        snd (run 12 mirror_after_listing empty_state) = Returned ([mirror], [])).
Proof. split; eexists; vm_compute; reflexivity. Qed.





(** Witnesses: the general statements at concrete trees. *)




Lemma clone_of_file_system_is_mutable_witness :
  readOnly_at (state_after frozen_file_system) 0 = Some true
  /\ exists s1 fs',
       run 0 (VirtualFileSystem_clone 0) (state_after frozen_file_system) = (s1, Returned fs')
       /\ readOnly_at s1 fs' = Some false.
Proof.
  split; [vm_compute; reflexivity|].
  destruct (clone_of_file_system_is_mutable 0 (state_after frozen_file_system) 0 (object_at (state_after frozen_file_system) 0) 1 (object_at (state_after frozen_file_system) 1))
    as (s1 & fs' & r' & H1 & _ & H3 & _); [vm_compute; reflexivity..|].
  exists s1, fs'. split; [exact H1|exact H3].
Defined.


Lemma setContent_then_getContent_witness :
  invoke 1 (setContent 5 None) (state_after clone_not_read)
  = (assigned 5 (with_file None None (object_at (state_after clone_not_read) 5))
       (state_after clone_not_read), Returned tt)
  /\ exists s2,
       invoke 2 (getContent 5)
         (assigned 5 (with_file None None (object_at (state_after clone_not_read) 5))
            (state_after clone_not_read))
       = (s2, Returned (Some "x")).
Proof.
  destruct (setContent_then_getContent 0 (state_after clone_not_read) 5
              (object_at (state_after clone_not_read) 5) None)
    as (H1 & _ & _ & H4); [vm_compute; reflexivity..|].
  split; [exact H1|].
  apply (H4 eq_refl 2 (object_at (state_after clone_not_read) 2) "x");
    first [vm_compute; reflexivity|discriminate].
Defined.

Lemma small_tree_well_formed : well_formed (state_after small_tree).
Proof. apply well_formed_checked. apply (bool_decide_unpack _). vm_compute. exact I. Qed.




End concrete.

(** * Lookups, additions and removals in a materialized directory *)

Section scans.
Context {env : Env}.

(** The scan of [getEntry] stops at the first child of that name. *)
Lemma run_getEntry_scan_hit n fs ofs b options e oe rest s :
  heap s !! fs = Some ofs ->
  heap s !! e = Some oe ->
  sameName ofs (name oe) b = true ->
  followSymlinks options = false ->
  run n (getEntry_scan fs b options (e :: rest)) s
  = (s, Returned (if isMatch oe options then Some e else None)).
Proof.
  intros Hfs He Hsame Hfollow. cbn [getEntry_scan].
  rewrite run_bind, (run_get _ _ _ _ He), run_bind, (run_get _ _ _ _ Hfs), Hsame, Hfollow.
  destruct (isMatch oe options); reflexivity.
Qed.

(** The scan of [removeFile] and [removeDirectory] passes over the
    children that are not wanted. *)
Lemma run_remove_scan_miss n this o ofs wanted p rest s : forall l i,
  heap s !! this = Some o ->
  heap s !! fileSystem o = Some ofs ->
  Forall (fun e => exists oe, heap s !! e = Some oe
                     /\ sameName ofs p (name oe) && wanted (class oe) = false) l ->
  run n (remove_scan this wanted p (l ++ rest) i) s
  = run n (remove_scan this wanted p rest (length l + i)) s.
Proof.
  intros l i Ho Hfs H. revert i. induction H as [|e l (oe & He & Hne) _ IH]; intros i.
  - reflexivity.
  - rewrite <- app_comm_cons. cbn [remove_scan].
    rewrite run_bind, (run_get _ _ _ _ He), run_bind, (run_get _ _ _ _ Ho).
    rewrite run_bind, (run_get _ _ _ _ Hfs), Hne, IH.
    simpl length. replace (length l + S i) with (S (length l + i)) by lia. reflexivity.
Qed.

Lemma run_emit_silent n d od ev entry s :
  heap s !! d = Some od -> listeners ev od = [] ->
  run n (emit d ev entry) s = (s, Returned tt).
Proof.
  intros Hd Hl. unfold emit. rewrite run_bind, (run_get _ _ _ _ Hd), Hl. reflexivity.
Qed.

Lemma run_filter_of_kind n options (l : list ref) s :
  Forall (fun e => is_Some (heap s !! e)) l ->
  run n (filter_of l (fun entry => e <- get entry ;; Ret (isMatch e options))) s
  = (s, Returned
          (List.filter
             (fun e => passes_at s options e
                       && negb (Kind_eqb (kind options)
                                  (Some (if is_file_at s e then kind_directory else kind_file))))
             l)).
Proof.
  induction 1 as [|e l [oe He] _ IH].
  - reflexivity.
  - rewrite filter_of_cons, run_bind, run_bind, (run_get _ _ _ _ He), run_ret.
    rewrite run_bind, IH, run_ret. cbn [List.filter].
    unfold passes_at, is_file_at, isMatch. rewrite He. simpl from_option.
    destruct (pattern options); reflexivity.
Qed.

End scans.

Section materialized.
Context {env : Env}.
Variables (n : nat) (s : State) (d : ref) (od ofs : Obj) (l : list ref).
Hypothesis Hd : heap s !! d = Some od.
Hypothesis Hclass : class od = VirtualDirectory \/ class od = VirtualDirectoryRoot.
Hypothesis Hentries : _entries od = Some l.
Hypothesis Hfs : heap s !! fileSystem od = Some ofs.
Hypothesis Hchildren : Forall (fun e => is_Some (heap s !! e)) l.

Lemma run_getEntries_kind options :
  recursive options = false ->
  invoke (S (S n)) (getEntries d options) s
  = (s, Returned
          (List.filter
             (fun e => passes_at s options e
                       && negb (Kind_eqb (kind options)
                                  (Some (if is_file_at s e then kind_directory else kind_file))))
             l)).
Proof.
  intros Hrec. rewrite invoke_S. simpl body. rewrite (run_dispatch _ _ _ _ _ Hd).
  replace (instanceof_VirtualFile (class od)) with false
    by (destruct Hclass as [-> | ->]; reflexivity).
  unfold Container_getEntries. rewrite Hrec.
  rewrite run_bind, run_call_invoke.
  rewrite (run_getOwnEntries_materialized n d od l s Hd Hclass Hentries).
  apply run_filter_of_kind, Hchildren.
Qed.


Lemma run_remove_scan_none k wanted p i :
  Forall (fun e => exists oe, heap s !! e = Some oe
                     /\ sameName ofs p (name oe) && wanted (class oe) = false) l ->
  run k (remove_scan d wanted p l i) s = (s, Returned false).
Proof.
  intros H. pose proof (run_remove_scan_miss k d od ofs wanted p [] s l i Hd Hfs H) as E.
  rewrite app_nil_r in E. rewrite E. reflexivity.
Qed.

Lemma run_remove_none (wanted : Class -> bool) p :
  _readOnly od = false ->
  truthy (vpath_dirname p) = false ->
  Forall (fun e => exists oe, heap s !! e = Some oe
            /\ (sameName ofs p (name oe) = true -> wanted (class oe) = false)) l ->
  run (S n)
    (writePreamble d ;;
     let basename := vpath_basename p in
     if negb (truthy basename) then Ret false else
     let dirname := vpath_dirname p in
     if truthy dirname then
       directory <- getDirectory d dirname no_options ;;
       match directory with
       | Some directory => call (removeFile directory basename)
       | None => Ret false
       end
     else
       entries <- call (getOwnEntries d) ;;
       remove_scan d wanted p entries 0) s
  = (s, Returned false).
Proof.
  intros Hmutable Hnodir Hnone.
  rewrite run_bind, (run_writePreamble_mutable _ _ _ _ Hd Hmutable). cbv zeta.
  destruct (truthy (vpath_basename p)); simpl negb; cbv iota; [|reflexivity].
  rewrite Hnodir, run_bind, run_call_invoke.
  rewrite (run_getOwnEntries_materialized n d od l s Hd Hclass Hentries).
  apply run_remove_scan_none.
  eapply Forall_impl; [exact Hnone|]. intros e (oe & He & Himp). exists oe. split; [exact He|].
  destruct (sameName ofs p (name oe)); [simpl; auto|reflexivity].
Qed.

(** X2.  In a mutable directory whose children are materialized,
    [removeFile(p)] for a name [p] (a path without a directory part)
    that no file among the children bears returns false and leaves the
    store as it is, also when a directory of that name is there; and
    likewise [removeDirectory(p)] when no directory bears the name. *)
Theorem remove_without_a_match_changes_nothing p :
  _readOnly od = false ->
  truthy (vpath_dirname p) = false ->
  (Forall (fun e => exists oe, heap s !! e = Some oe
             /\ (sameName ofs p (name oe) = true -> instanceof_VirtualFile (class oe) = false)) l ->
   invoke (S (S n)) (removeFile d p) s = (s, Returned false))
  /\ (Forall (fun e => exists oe, heap s !! e = Some oe
                /\ (sameName ofs p (name oe) = true
                    -> instanceof_VirtualDirectory (class oe) = false)) l ->
      invoke (S (S n)) (removeDirectory d p) s = (s, Returned false)).
Proof.
  intros Hmutable Hnodir. split; intros Hnone.
  - rewrite invoke_S. simpl body. rewrite (run_dispatch _ _ _ _ _ Hd).
    pose proof (run_remove_none instanceof_VirtualFile p Hmutable Hnodir Hnone) as E.
    destruct Hclass as [-> | ->]; exact E.
  - rewrite invoke_S. simpl body. rewrite (run_dispatch _ _ _ _ _ Hd).
    assert (E : run (S n) (VirtualDirectory_removeDirectory d p) s = (s, Returned false)).
    { unfold VirtualDirectory_removeDirectory.
      rewrite run_bind, (run_writePreamble_mutable _ _ _ _ Hd Hmutable). cbv zeta.
      destruct (truthy (vpath_basename p)); simpl negb; cbv iota; [|reflexivity].
      rewrite Hnodir, run_bind, run_call_invoke.
      rewrite (run_getOwnEntries_materialized n d od l s Hd Hclass Hentries).
      apply run_remove_scan_none.
      eapply Forall_impl; [exact Hnone|]. intros e (oe & He & Himp). exists oe.
      split; [exact He|].
      destruct (sameName ofs p (name oe)); [simpl; auto|reflexivity]. }
    destruct Hclass as [-> | ->]; exact E.
Qed.

(** The lookup that [addFile], [addDirectory] and [getFile] make for a
    name that the child [e] is the first to bear. *)
Lemma run_getEntry_first_match p options l1 e oe l2 :
  vpath_basename p = p -> truthy p = true -> truthy (vpath_dirname p) = false ->
  followSymlinks options = false ->
  l = l1 ++ e :: l2 ->
  Forall (fun x => exists ox, heap s !! x = Some ox /\ sameName ofs (name ox) p = false) l1 ->
  heap s !! e = Some oe ->
  sameName ofs (name oe) p = true ->
  invoke (S (S (S n))) (getEntry d p options) s
  = (s, Returned (if isMatch oe options then Some e else None)).
Proof.
  intros Hplain Htruthy Hnodir Hfollow Hl Hmiss He Hsame.
  rewrite (run_getEntry_plain n d od l p options s Hd Hclass Hentries Hchildren);
    [|rewrite Hplain; exact Htruthy|exact Hnodir].
  rewrite Hplain, Hl.
  rewrite (run_getEntry_scan_miss _ _ ofs _ _ _ _ _ Hfs Hmiss).
  apply (run_getEntry_scan_hit _ _ ofs); assumption.
Qed.

(** X3.  In a mutable directory whose children are materialized,
    adding under a name [p] that a child already bears creates nothing
    and leaves the store as it is, whatever content or resolver is
    given: [addFile(p, content)] returns the first child of that name
    if it is a file or a file symlink and nothing otherwise, and
    [addDirectory(p, resolver)] returns it if it is a directory or a
    directory symlink and nothing otherwise. *)
Theorem add_under_an_existing_name_creates_nothing p l1 e oe l2 content resolver :
  _readOnly od = false ->
  vpath_basename p = p -> truthy p = true -> truthy (vpath_dirname p) = false ->
  l = l1 ++ e :: l2 ->
  Forall (fun x => exists ox, heap s !! x = Some ox /\ sameName ofs (name ox) p = false) l1 ->
  heap s !! e = Some oe ->
  sameName ofs (name oe) p = true ->
  invoke (S (S (S (S n)))) (addFile d p content) s
  = (s, Returned (if instanceof_VirtualFile (class oe) then Some e else None))
  /\ invoke (S (S (S (S n)))) (addDirectory d p resolver) s
     = (s, Returned (if instanceof_VirtualDirectory (class oe) then Some e else None)).
Proof.
  intros Hmutable Hplain Htruthy Hnodir Hl Hmiss He Hsame.
  pose proof (run_getEntry_first_match p no_options l1 e oe l2 Hplain Htruthy Hnodir
                eq_refl Hl Hmiss He Hsame) as Eget.
  rewrite isMatch_no_options in Eget.
  split.
  - rewrite invoke_S. simpl body. rewrite (run_dispatch _ _ _ _ _ Hd).
    assert (E : run (S (S (S n))) (VirtualDirectory_addFile d p content) s
                = (s, Returned (if instanceof_VirtualFile (class oe) then Some e else None))).
    { unfold VirtualDirectory_addFile.
      rewrite run_bind, (run_writePreamble_mutable _ _ _ _ Hd Hmutable).
      cbv zeta. rewrite Hplain, Htruthy, Hnodir. simpl negb. cbv iota.
      rewrite run_bind, run_call_invoke, Eget.
      rewrite run_bind, run_ret, run_bind, (run_get _ _ _ _ He). reflexivity. }
    destruct Hclass as [-> | ->]; exact E.
  - rewrite invoke_S. simpl body. rewrite (run_dispatch _ _ _ _ _ Hd).
    assert (E : run (S (S (S n))) (VirtualDirectory_addDirectory d p resolver) s
                = (s, Returned (if instanceof_VirtualDirectory (class oe)
                                then Some e else None))).
    { unfold VirtualDirectory_addDirectory.
      rewrite run_bind, (run_writePreamble_mutable _ _ _ _ Hd Hmutable).
      cbv zeta. rewrite Hplain, Htruthy, Hnodir. simpl negb. cbv iota.
      rewrite run_bind, run_call_invoke, Eget.
      rewrite run_bind, run_ret, run_bind, (run_get _ _ _ _ He). reflexivity. }
    destruct Hclass as [-> | ->]; exact E.
Qed.

Lemma splice_last {A} (l0 : list A) x : splice (length l0) (l0 ++ [x]) = l0.
Proof.
  unfold splice. rewrite take_app_length, drop_ge, app_nil_r; [reflexivity|].
  rewrite length_app. simpl. lia.
Qed.

(** X4.  In a mutable directory whose children are materialized and on
    which nobody listens, [addFile(p, c)] under a new name [p] followed
    by [removeFile(p)] returns the new file and then true, and leaves
    every object that was there exactly as it was: the store is the one
    before the addition, with the detached file object at its end.  A
    [getFile(p)] that follows finds nothing. *)
Theorem addFile_then_removeFile_restores_the_directory p c po :
  _readOnly od = false ->
  silent od ->
  heap s !! owner_of od d = Some po ->
  vpath_basename p = p -> truthy p = true -> truthy (vpath_dirname p) = false ->
  Forall (fun e => exists oe, heap s !! e = Some oe
            /\ sameName ofs (name oe) p = false /\ sameName ofs p (name oe) = false) l ->
  exists s2 file,
    invoke (S (S (S (S n)))) (addFile d p (content_string c)) s
    = (s2, Returned (Some (length (heap s))))
    /\ invoke (S (S n)) (removeFile d p) s2 = (allocated file s, Returned true)
    /\ class file = VirtualFile /\ name file = p /\ _content file = Some c
    /\ run (S (S (S (S n)))) (getFile d p no_options) (allocated file s)
       = (allocated file s, Returned None).
Proof.
  intros Hmutable [Hsa Hsr] Hpo Hplain Htruthy Hnodir Hnew.
  set (file := constructed VirtualFile od po d p (with_file (Some c) None)).
  set (s2 := file_pushed s d od po l p c).
  set (od2 := with_dir (Some (l ++ [length (heap s)])) (_resolver od) (_shadowRoot od) od).
  assert (Hd2 : heap s2 !! d = Some od2) by (apply pushed_lookup_d, Hd).
  assert (Hf2 : heap s2 !! length (heap s) = Some file) by (apply pushed_lookup_f, Hd).
  assert (Hclass2 : class od2 = VirtualDirectory \/ class od2 = VirtualDirectoryRoot)
    by exact Hclass.
  assert (Hold : forall r o, heap s !! r = Some o ->
            exists o2, heap s2 !! r = Some o2 /\ name o2 = name o /\ class o2 = class o
                       /\ _useCaseSensitiveFileNames o2 = _useCaseSensitiveFileNames o).
  { intros r o Hr. destruct (decide (r = d)) as [-> | Hne].
    - exists od2. rewrite Hd in Hr. injection Hr as <-. auto.
    - exists o. split; [apply pushed_lookup_old; assumption|auto]. }
  destruct (Hold _ _ Hfs) as (ofs2 & Hfs2 & _ & _ & Hcase).
  exists s2, file.
  assert (Hemit : run (S (S (S n))) (emit d childAdded (length (heap s))) s2
                  = (s2, Returned tt)).
  { apply (run_emit_silent _ _ od2); [exact Hd2|exact Hsa]. }
  assert (Hmiss : Forall (fun e => exists oe, heap s !! e = Some oe
                            /\ sameName ofs (name oe) p = false) l).
  { eapply Forall_impl; [exact Hnew|]. intros e (oe & He & H1 & _). eauto. }
  split; [|split; [|split; [reflexivity|split; [reflexivity|split; [reflexivity|]]]]].
  - rewrite invoke_S. simpl body. rewrite (run_dispatch _ _ _ _ _ Hd).
    assert (E : run (S (S (S n))) (VirtualDirectory_addFile d p (content_string c)) s
                = (s2, Returned (Some (length (heap s))))).
    { unfold VirtualDirectory_addFile.
      rewrite run_bind, (run_writePreamble_mutable _ _ _ _ Hd Hmutable).
      cbv zeta. rewrite Hplain, Htruthy, Hnodir. simpl negb. cbv iota.
      rewrite run_bind, run_call_invoke.
      rewrite (run_getEntry_plain n d od l p no_options s Hd Hclass Hentries Hchildren);
        [|rewrite Hplain; exact Htruthy|exact Hnodir].
      rewrite Hplain, <- (app_nil_r l) at 1.
      rewrite (run_getEntry_scan_miss _ _ ofs _ _ _ _ _ Hfs Hmiss).
      cbn [getEntry_scan]. rewrite run_ret.
      rewrite run_bind, (run_attach_file n s d od po l p c Hd Hclass Hentries Hpo s2 Hemit).
      rewrite run_bind, (run_get _ _ _ _ Hf2). reflexivity. }
    destruct Hclass as [-> | ->]; exact E.
  - rewrite invoke_S. simpl body. rewrite (run_dispatch _ _ _ _ _ Hd2).
    assert (E : run (S n) (VirtualDirectory_removeFile d p) s2
                = (allocated file s, Returned true)).
    { unfold VirtualDirectory_removeFile.
      rewrite run_bind, (run_writePreamble_mutable _ _ _ _ Hd2 Hmutable).
      cbv zeta. rewrite Hplain, Htruthy, Hnodir. simpl negb. cbv iota.
      rewrite run_bind, run_call_invoke.
      rewrite (run_getOwnEntries_materialized n d od2 _ s2 Hd2 Hclass2 eq_refl).
      rewrite (run_remove_scan_miss (S n) d od2 ofs2 instanceof_VirtualFile p
                 [length (heap s)] s2 l 0 Hd2 Hfs2).
      2:{ eapply Forall_impl; [exact Hnew|]. intros e (oe & He & _ & H2).
          destruct (Hold _ _ He) as (oe2 & Hoe2 & Hname & _). exists oe2.
          split; [exact Hoe2|]. rewrite Hname, (sameName_stable ofs ofs2 _ _ Hcase), H2.
          reflexivity. }
      cbn [remove_scan].
      rewrite run_bind, (run_get _ _ _ _ Hf2), run_bind, (run_get _ _ _ _ Hd2).
      rewrite run_bind, (run_get _ _ _ _ Hfs2).
      replace (sameName ofs2 p (name file)) with true
        by (symmetry; apply sameName_refl).
      simpl andb. cbv iota.
      assert (Esplice : run (S n) (splice_own d (length l + 0)) s2
                        = (allocated file s, Returned tt)).
      { unfold splice_own. rewrite run_bind, (run_get _ _ _ _ Hd2).
        assert (Eu : (if class od2 is VirtualDirectorySymlink
                      then splice_symEntries (length l + 0) else splice_entries (length l + 0))
                     = splice_entries (length l + 0)).
        { destruct Hclass2 as [-> | ->]; reflexivity. }
        rewrite Eu. erewrite run_put_assigned; [|exact Hd2|reflexivity].
        f_equal. unfold s2, file_pushed. rewrite assigned_assigned.
        unfold assigned, allocated. simpl. f_equal.
        apply list_insert_id. rewrite lookup_app_l by (eapply lookup_lt_Some, Hd).
        rewrite Hd. f_equal. rewrite Nat.add_0_r, splice_last.
        clear -Hentries. destruct od. simpl in *. subst. reflexivity. }
      rewrite run_bind, Esplice.
      rewrite run_bind, (run_emit_silent _ _ od); [reflexivity| |exact Hsr].
      apply allocated_lookup_old, Hd. }
    destruct Hclass2 as [-> | ->]; exact E.
  - assert (Hd4 : heap (allocated file s) !! d = Some od) by apply allocated_lookup_old, Hd.
    unfold getFile, getEntry_of_kind. rewrite run_bind, (run_get _ _ _ _ Hd4).
    assert (E : run (S (S (S (S n))))
                  (call (getEntry d p (with_kind kind_file no_options))) (allocated file s)
                = (allocated file s, Returned None)).
    { rewrite run_call_invoke.
      rewrite (run_getEntry_plain (S n) d od l p _ _ Hd4 Hclass Hentries);
        [| |rewrite Hplain; exact Htruthy|exact Hnodir].
      - rewrite Hplain, <- (app_nil_r l).
        rewrite (run_getEntry_scan_miss _ _ ofs).
        + reflexivity.
        + apply allocated_lookup_old, Hfs.
        + eapply Forall_impl; [exact Hmiss|]. intros e (oe & He & H1). exists oe.
          split; [apply allocated_lookup_old, He|exact H1].
      - eapply Forall_impl; [exact Hchildren|]. intros e [oe He]. exists oe.
        apply allocated_lookup_old, He. }
    destruct Hclass as [-> | ->]; exact E.
Qed.

End materialized.

(** * Lazy content *)

Section lazy_content.
Context {env : Env}.

Lemma assigned_same r o s : heap s !! r = Some o -> assigned r o s = s.
Proof.
  intros H. destruct s as [h a]. unfold assigned. simpl in *. f_equal.
  apply list_insert_id, H.
Qed.

(** What [getContent()] does to a file that has no content yet. *)
Lemma run_getContent_unread n f o s :
  heap s !! f = Some o -> _content o = None ->
  run n (VirtualFile_getContent f) s
  = run n
      (match _contentResolver o, _shadowRoot o with
       | Some resolver, _ =>
           ask (asked_getContent (path o)) ;;
           put f (set_content (resolver (path o)))
       | None, Some shadowRoot =>
           content <- call (getContent shadowRoot) ;;
           put f (set_content content)
       | None, None => Ret tt
       end ;;
       o' <- get f ;;
       Ret (_content o'))
      (assigned f (with_dir (_entries o) (_resolver o) None (with_file None None o)) s).
Proof.
  intros Ho Hc. unfold VirtualFile_getContent. rewrite run_bind, (run_get _ _ _ _ Ho), Hc.
  rewrite run_bind. erewrite run_put_assigned; [|exact Ho|reflexivity].
  rewrite run_bind.
  erewrite run_put_assigned; [|eapply assigned_lookup_eq, Ho|reflexivity].
  rewrite assigned_assigned. simpl. rewrite Hc. reflexivity.
Qed.

(** X5.  A file that was given a content resolver and has not been read
    asks the resolver at its first [getContent()], once and for its own
    path, and returns what the resolver answers; no other object
    changes.  Every later [getContent()] returns the same answer
    without asking again and leaves the store as it is, also when the
    answer was the absent value. *)
Theorem content_is_resolved_at_the_first_read_only n s f o resolver :
  heap s !! f = Some o ->
  class o = VirtualFile ->
  _content o = None ->
  _contentResolver o = Some resolver ->
  exists s',
    invoke (S n) (getContent f) s = (s', Returned (resolver (path o)))
    /\ asked s' = asked s ++ [asked_getContent (path o)]
    /\ (forall r, r <> f -> heap s' !! r = heap s !! r)
    /\ forall k, invoke (S k) (getContent f) s' = (s', Returned (resolver (path o))).
Proof.
  intros Ho Hc Hcontent Hresolver.
  set (o1 := with_dir (_entries o) (_resolver o) None (with_file None None o)).
  set (o2 := with_file (resolver (path o)) None o1).
  set (s' := assigned f o2 (mkState (heap (assigned f o1 s)) (asked s ++ [asked_getContent (path o)]))).
  assert (H1 : heap (assigned f o1 s) !! f = Some o1) by (eapply assigned_lookup_eq, Ho).
  assert (H2 : heap s' !! f = Some o2).
  { unfold s'. eapply assigned_lookup_eq. exact H1. }
  exists s'. split; [|split; [|split]].
  - rewrite invoke_S. simpl body. rewrite (run_dispatch _ _ _ _ _ Ho), Hc.
    rewrite (run_getContent_unread _ _ _ _ Ho Hcontent), Hresolver. fold o1.
    rewrite run_bind, run_bind, run_ask.
    erewrite run_put_assigned; [|exact H1|reflexivity]. fold o2. fold s'.
    rewrite run_bind, (run_get _ _ _ _ H2). reflexivity.
  - reflexivity.
  - intros r Hne. unfold s'. rewrite assigned_lookup_ne by congruence. simpl.
    apply list_lookup_insert_ne. congruence.
  - intros k. rewrite invoke_S. simpl body. rewrite (run_dispatch _ _ _ _ _ H2).
    change (class o2) with (class o). rewrite Hc.
    destruct (resolver (path o)) as [c|] eqn:Er.
    + unfold VirtualFile_getContent. rewrite run_bind, (run_get _ _ _ _ H2).
      unfold o2. simpl. rewrite ?Er. reflexivity.
    + rewrite (run_getContent_unread _ _ _ _ H2); [|unfold o2; simpl; rewrite ?Er; reflexivity].
      assert (E : with_dir (_entries o2) (_resolver o2) None (with_file None None o2) = o2).
      { unfold o2, o1. rewrite ?Er. reflexivity. }
      rewrite E, (assigned_same _ _ _ H2).
      change (_contentResolver o2) with (@None (string -> option string)).
      change (_shadowRoot o2) with (@None nat).
      rewrite run_bind, run_ret, run_bind, (run_get _ _ _ _ H2).
      unfold o2. simpl. rewrite ?Er. reflexivity.
Qed.

(** X6.  The clone of a file copies nothing when it is made: it takes
    the content of the original at its own first [getContent()].  A
    [setContent] on the original between the cloning and that first
    read is what the clone returns; from the first read on the clone
    holds its own copy, which later writes to the original do not
    change. *)
Theorem clone_of_a_file_reads_the_original_lazily n s f o parent p po c2 c3 :
  heap s !! f = Some o ->
  class o = VirtualFile ->
  _readOnly o = false ->
  heap s !! parent = Some p ->
  heap s !! owner_of p parent = Some po ->
  exists f' s0 s1 s2 s3,
    run n (clone f parent) s = (s0, Returned f')
    /\ invoke (S n) (setContent f (Some c2)) s0 = (s1, Returned tt)
    /\ invoke (S (S n)) (getContent f') s1 = (s2, Returned (Some c2))
    /\ invoke (S n) (setContent f (Some c3)) s2 = (s3, Returned tt)
    /\ invoke (S n) (getContent f') s3 = (s3, Returned (Some c2)).
Proof.
  intros Ho Hc Hro Hp Hpo.
  assert (Hnfs : class o <> VirtualFileSystem) by (rewrite Hc; discriminate).
  set (f' := length (heap s)).
  assert (Hne : f <> f') by (apply lookup_lt_Some in Ho; unfold f'; lia).
  set (oc := cloned f o p po parent).
  assert (Hoc : oc = constructed VirtualFile p po parent (name o)
                       (with_file None None ∘ with_dir None None (Some f))).
  { unfold oc, cloned. rewrite Hc. reflexivity. }
  set (s0 := allocated oc s).
  assert (H0f : heap s0 !! f = Some o) by (apply allocated_lookup_old, Ho).
  assert (H0c : heap s0 !! f' = Some oc) by apply allocated_lookup_new.
  set (o1 := with_file (Some c2) None o).
  set (s1 := assigned f o1 s0).
  assert (H1f : heap s1 !! f = Some o1) by (eapply assigned_lookup_eq, H0f).
  assert (H1c : heap s1 !! f' = Some oc).
  { unfold s1. rewrite assigned_lookup_ne by exact Hne. exact H0c. }
  set (oc1 := with_dir (_entries oc) (_resolver oc) None (with_file None None oc)).
  set (oc2 := with_file (Some c2) None oc1).
  set (s2 := assigned f' oc2 s1).
  assert (H2c : heap s2 !! f' = Some oc2) by (eapply assigned_lookup_eq, H1c).
  assert (H2f : heap s2 !! f = Some o1).
  { unfold s2. rewrite assigned_lookup_ne by congruence. exact H1f. }
  set (s3 := assigned f (with_file (Some c3) None o1) s2).
  assert (H3c : heap s3 !! f' = Some oc2).
  { unfold s3. rewrite assigned_lookup_ne by exact Hne. exact H2c. }
  exists f', s0, s1, s2, s3. split; [|split; [|split; [|split]]].
  - apply run_clone; assumption.
  - rewrite invoke_S. simpl body. rewrite (run_dispatch _ _ _ _ _ H0f), Hc.
    apply run_VirtualFile_setContent; assumption.
  - rewrite invoke_S. simpl body. rewrite (run_dispatch _ _ _ _ _ H1c).
    replace (class oc) with VirtualFile by (rewrite Hoc; reflexivity).
    rewrite (run_getContent_unread _ _ _ _ H1c); [|rewrite Hoc; reflexivity].
    replace (_contentResolver oc) with (@None (string -> option string))
      by (rewrite Hoc; reflexivity).
    replace (_shadowRoot oc) with (Some f) by (rewrite Hoc; reflexivity).
    fold oc1.
    assert (H1f' : heap (assigned f' oc1 s1) !! f = Some o1).
    { rewrite assigned_lookup_ne by congruence. exact H1f. }
    assert (Ecall : run (S n) (call (getContent f)) (assigned f' oc1 s1)
                    = (assigned f' oc1 s1, Returned (Some c2))).
    { rewrite run_call. simpl body. rewrite (run_dispatch _ _ _ _ _ H1f').
      change (class o1) with (class o). rewrite Hc.
      unfold VirtualFile_getContent. rewrite run_bind, (run_get _ _ _ _ H1f').
      reflexivity. }
    rewrite run_bind, run_bind, Ecall.
    erewrite run_put_assigned; [|eapply assigned_lookup_eq, H1c|reflexivity].
    rewrite assigned_assigned. fold oc2. fold s2.
    rewrite run_bind, (run_get _ _ _ _ H2c). reflexivity.
  - rewrite invoke_S. simpl body. rewrite (run_dispatch _ _ _ _ _ H2f).
    change (class o1) with (class o). rewrite Hc.
    apply run_VirtualFile_setContent; [exact H2f|exact Hro].
  - rewrite invoke_S. simpl body. rewrite (run_dispatch _ _ _ _ _ H3c).
    replace (class oc2) with VirtualFile by (unfold oc2, oc1; rewrite Hoc; reflexivity).
    unfold VirtualFile_getContent. rewrite run_bind, (run_get _ _ _ _ H3c).
    reflexivity.
Qed.

End lazy_content.

(** * Lookups by kind *)

Section by_kind.
Context {env : Env}.

Lemma run_get_cases n r s :
  (exists o, heap s !! r = Some o /\ run n (get r) s = (s, Returned o))
  \/ (heap s !! r = None /\ run n (get r) s = (s, Thrown TypeError)).
Proof.
  destruct (heap s !! r) as [o|] eqn:E.
  - left. exists o. split; [reflexivity|apply run_get, E].
  - right. split; [reflexivity|apply run_get_None, E].
Qed.

Lemma run_getEntry_scan_kind n k fs b options : forall l s,
  followSymlinks options = false -> kind options = None ->
  run n (getEntry_scan fs b (with_kind k options) l) s
  = narrowed k (run n (getEntry_scan fs b options l) s).
Proof.
  intros l s Hfollow Hkind. induction l as [|entry l IH]; [reflexivity|].
  cbn [getEntry_scan]. rewrite !run_bind.
  destruct (run_get_cases n entry s) as [(e & He & ->)|[_ ->]]; [|reflexivity].
  rewrite !run_bind.
  destruct (run_get_cases n fs s) as [(ofs & _ & ->)|[_ ->]]; [|reflexivity].
  destruct (sameName ofs (name e) b); [|exact IH].
  unfold isMatch. simpl. rewrite Hfollow, Hkind.
  unfold narrowed, of_kind, is_file_at.
  destruct (match pattern options with Some test => test (name e) | None => true end),
    k, (instanceof_VirtualFile (class e)) eqn:Ef; simpl; rewrite ?run_ret, ?He; simpl;
    rewrite ?Ef; reflexivity.
Qed.

(** A lookup that asks for a kind walks the path as the lookup without
    a kind does, and keeps what that one finds if it is of the kind. *)
Lemma invoke_getEntry_kind k options :
  followSymlinks options = false -> kind options = None ->
  forall n this path s,
    invoke n (getEntry this path (with_kind k options)) s
    = narrowed k (invoke n (getEntry this path options) s).
Proof.
  intros Hfollow Hkind. induction n as [|n IH]; intros this path s; [reflexivity|].
  rewrite !invoke_S. simpl body. unfold dispatch. rewrite !run_bind.
  destruct (run_get_cases n this s) as [(o & _ & ->)|[_ ->]]; [|reflexivity].
  assert (Ecall : forall r p st,
            run n (call (getEntry r p (with_kind k options))) st
            = narrowed k (run n (call (getEntry r p options)) st)).
  { intros r p st. rewrite !run_call_invoke. apply IH. }
  assert (EC : run n (Container_getEntry this path (with_kind k options)) s
               = narrowed k (run n (Container_getEntry this path options) s)).
  { unfold Container_getEntry. cbv zeta.
    destruct (negb (truthy (vpath_basename path))); [reflexivity|].
    destruct (truthy (vpath_dirname path)).
    - rewrite !run_bind.
      destruct (run n (getDirectory this (vpath_dirname path) no_options) s)
        as [s1 [[directory|]|e|]]; try reflexivity.
      apply Ecall.
    - rewrite !run_bind.
      destruct (run n (call (getEntries this no_options)) s) as [s1 [entries|e|]];
        try reflexivity.
      rewrite !run_bind.
      destruct (run_get_cases n this s1) as [(o1 & _ & ->)|[_ ->]]; [|reflexivity].
      apply run_getEntry_scan_kind; assumption. }
  destruct (class o); try exact EC; try reflexivity.
  unfold VirtualFileSystem_getEntry. rewrite !run_bind.
  destruct (run n (root this) s) as [s1 [r|e|]]; try reflexivity.
  rewrite !run_bind.
  destruct (run_get_cases n this s1) as [(o1 & _ & ->)|[_ ->]]; [|reflexivity].
  apply Ecall.
Qed.

(** X9.  [getEntry(path, { kind, ...options })] (so [getFile] and
    [getDirectory]) walks the path exactly as [getEntry(path, options)]
    does, populating and raising alike, and returns the entry that one
    finds if it is of the kind asked for, and nothing otherwise: asking
    for a kind never makes the lookup go on to a later child of the
    same name. *)
Theorem a_lookup_by_kind_is_the_plain_lookup_narrowed n k this path options s :
  followSymlinks options = false ->
  kind options = None ->
  invoke n (getEntry this path (with_kind k options)) s
  = narrowed k (invoke n (getEntry this path options) s).
Proof. intros Hfollow Hkind. apply invoke_getEntry_kind; assumption. Qed.

Lemma run_root_keeps_currentDirectory n s fs ofs s1 r :
  well_formed s -> heap s !! fs = Some ofs ->
  run n (root fs) s = (s1, Returned r) ->
  well_formed s1 /\ in_fs s1 (fileSystem ofs) r
  /\ exists o1, heap s1 !! fs = Some o1 /\ _currentDirectory o1 = _currentDirectory ofs.
Proof.
  intros Hwf Hfs Hrun.
  pose proof (good_root n (methods_keep_their_contract n) None s fs (fileSystem ofs) s
                (good_refl None s Hwf) (in_fs_lookup _ _ _ Hfs)) as K.
  eapply keeps_elim in K; [|exact Hrun]. destruct K as [[Hwf1 Hot] Hr].
  split; [exact Hwf1|]. split; [exact Hr|].
  destruct (Hot fs ofs Hfs) as (o1 & Ho1 & _ & [HG|Hk]); [discriminate|].
  exists o1. split; [exact Ho1|apply kept_currentDirectory, Hk].
Qed.

Lemma run_exists_by_kind n s fs ofs path k (test : Class -> bool) :
  well_formed s -> heap s !! fs = Some ofs -> class ofs = VirtualFileSystem ->
  (forall c, c <> VirtualFileSystem ->
     test c = negb (Kind_eqb (Some k)
                      (Some (if instanceof_VirtualFile c then kind_directory else kind_file)))) ->
  run (S n)
    (entry <- call (getEntry fs path no_options) ;;
     match entry with
     | Some entry => e <- get entry ;; Ret (test (class e))
     | None => Ret false
     end) s
  = is_found (run n (getEntry_of_kind k fs path no_options) s).
Proof.
  intros Hwf Hfs Hc Htest.
  rewrite run_bind, run_call_invoke, invoke_S. simpl body.
  rewrite (run_dispatch _ _ _ _ _ Hfs), Hc.
  unfold getEntry_of_kind, VirtualFileSystem_getEntry.
  rewrite (run_bind n (get fs)), (run_get _ _ _ _ Hfs), Hc.
  rewrite !(run_bind n (root fs)).
  destruct (run n (root fs) s) as [s1 [r|e|]] eqn:Eroot; [|reflexivity..].
  destruct (run_root_keeps_currentDirectory n s fs ofs s1 r Hwf Hfs Eroot)
    as (Hwf1 & Hr & o1 & Ho1 & Hcwd).
  rewrite run_bind, (run_get _ _ _ _ Ho1), Hcwd.
  rewrite !run_call_invoke.
  rewrite (invoke_getEntry_kind k no_options eq_refl eq_refl).
  pose proof (methods_keep_their_contract n _
                (getEntry r (vpath_resolve (_currentDirectory ofs) path) no_options) s1
                (conj Hwf1 I)) as [_ Hres].
  destruct (invoke n (getEntry r (vpath_resolve (_currentDirectory ofs) path) no_options) s1)
    as [s2 [[e|]|err|]] eqn:Eget; simpl in Hres; [|reflexivity..].
  specialize (Hres _ Hr). apply Forall_cons in Hres as [[Hin Hnfs] _].
  unfold in_fs, fs_at in Hin. unfold class_at in Hnfs.
  destruct (heap s2 !! e) as [oe|] eqn:He; [|discriminate].
  rewrite run_bind, (run_get _ _ _ _ He), run_ret. simpl.
  unfold is_file_at. rewrite He. simpl.
  rewrite Htest by (intros E; apply Hnfs; simpl; rewrite E; reflexivity).
  destruct k, (instanceof_VirtualFile (class oe)); reflexivity.
Qed.

(** X10.  On a file system of a well formed store, [fileExists(p)] is
    true exactly when [getFile(p)] returns an entry and
    [directoryExists(p)] exactly when [getDirectory(p)] does; the
    existence test and the lookup end in the same store and raise
    alike. *)
Theorem existence_agrees_with_the_lookup_by_kind n s fs ofs path :
  well_formed s ->
  heap s !! fs = Some ofs ->
  class ofs = VirtualFileSystem ->
  run (S n) (fileExists fs path) s = is_found (run n (getFile fs path no_options) s)
  /\ run (S n) (directoryExists fs path) s
     = is_found (run n (getDirectory fs path no_options) s).
Proof.
  intros Hwf Hfs Hc. split.
  - apply (run_exists_by_kind n s fs ofs path kind_file instanceof_VirtualFile Hwf Hfs Hc).
    intros c _. destruct c; reflexivity.
  - apply (run_exists_by_kind n s fs ofs path kind_directory instanceof_VirtualDirectory
             Hwf Hfs Hc).
    intros c Hne. destruct c; try reflexivity. congruence.
Qed.

End by_kind.

(** * What the compiler host writes, it reads back *)

Section host_files.
Context {env : Env}.
Variables TypeScript SourceFile : Type.
Variables (n : nat) (s : State) (d : ref) (ofs od po : Obj) (l : list ref).
Variables (host : CompilerHost TypeScript SourceFile) (fileName p : string).
Hypothesis Hfs : heap s !! vfs _ _ host = Some ofs.
Hypothesis Hcfs : class ofs = VirtualFileSystem.
Hypothesis Hroot : _root ofs = Some d.
Hypothesis Hd : heap s !! d = Some od.
Hypothesis Hclass : class od = VirtualDirectory \/ class od = VirtualDirectoryRoot.
Hypothesis Hmutable : _readOnly od = false.
Hypothesis Hentries : _entries od = Some l.
Hypothesis Hfsd : fileSystem od = vfs _ _ host.
Hypothesis Hchildren : Forall (fun e => is_Some (heap s !! e)) l.
Hypothesis Hpo : heap s !! owner_of od d = Some po.
Hypothesis Hgiven : vpath_resolve (_currentDirectory ofs) fileName = p.
Hypothesis Hplain : vpath_basename p = p.
Hypothesis Htruthy : truthy p = true.
Hypothesis Hnodir : truthy (vpath_dirname p) = false.

Lemma root_is_not_the_file_system : d <> vfs _ _ host.
Proof.
  intros E. rewrite E, Hfs in Hd. injection Hd as <-.
  destruct Hclass; congruence.
Qed.

Lemma run_root_there k st o :
  heap st !! vfs _ _ host = Some o -> _root o = Some d ->
  run k (root (vfs _ _ host)) st = (st, Returned d).
Proof. intros Ho Hr. unfold root. rewrite run_bind, (run_get _ _ _ _ Ho), Hr. reflexivity. Qed.

(** [addFile] on the file system is [addFile] on its root directory. *)
Lemma invoke_addFile_through_root k content :
  invoke (S k) (addFile (vfs _ _ host) fileName content) s = invoke k (addFile d p content) s.
Proof.
  rewrite invoke_S. simpl body. rewrite (run_dispatch _ _ _ _ _ Hfs), Hcfs.
  unfold VirtualFileSystem_addFile.
  rewrite run_bind, (run_root_there _ _ _ Hfs Hroot), run_bind, (run_get _ _ _ _ Hfs), Hgiven.
  apply run_call_invoke.
Qed.

(** The lookups of [readFile] and [fileExists] in a store [st] in which
    the file system and its root directory are as in [s], but for the
    children of the root. *)
Section lookups.
Variables (st : State) (o od' : Obj) (l' : list ref).
Hypothesis Ho : heap st !! vfs _ _ host = Some o.
Hypothesis Hco : class o = VirtualFileSystem.
Hypothesis Hro : _root o = Some d.
Hypothesis Hcwd : _currentDirectory o = _currentDirectory ofs.
Hypothesis Hcase : _useCaseSensitiveFileNames o = _useCaseSensitiveFileNames ofs.
Hypothesis Hd' : heap st !! d = Some od'.
Hypothesis Hclass' : class od' = VirtualDirectory \/ class od' = VirtualDirectoryRoot.
Hypothesis Hentries' : _entries od' = Some l'.
Hypothesis Hfsd' : fileSystem od' = vfs _ _ host.
Hypothesis Hchildren' : Forall (fun e => is_Some (heap st !! e)) l'.

Lemma run_host_lookup k f obj l1 l2 c :
  l' = l1 ++ f :: l2 ->
  Forall (fun x => exists ox, heap st !! x = Some ox /\ sameName ofs (name ox) p = false) l1 ->
  heap st !! f = Some obj ->
  sameName ofs (name obj) p = true ->
  class obj = VirtualFile ->
  _content obj = Some c ->
  run (S (S (S (S (S k))))) (CompilerHost_readFile _ _ host fileName) st
  = (st, Returned (Some c))
  /\ run (S (S (S (S (S k))))) (CompilerHost_fileExists _ _ host fileName) st
     = (st, Returned true).
Proof.
  intros Hl Hmiss Hf Hsame Hcf Hcontent.
  assert (Hmiss' : Forall (fun x => exists ox, heap st !! x = Some ox
                              /\ sameName o (name ox) p = false) l1).
  { eapply Forall_impl; [exact Hmiss|]. intros x (ox & Hx & Hne). exists ox.
    split; [exact Hx|]. rewrite (sameName_stable ofs o _ _ Hcase). exact Hne. }
  assert (Hsame' : sameName o (name obj) p = true).
  { rewrite (sameName_stable ofs o _ _ Hcase). exact Hsame. }
  assert (Eget : forall k' options,
            followSymlinks options = false ->
            invoke (S (S (S k'))) (getEntry d p options) st
            = (st, Returned (if isMatch obj options then Some f else None))).
  { intros k' options Hfollow.
    rewrite (run_getEntry_plain k' d od' l' p options st Hd' Hclass' Hentries' Hchildren');
      [|rewrite Hplain; exact Htruthy|exact Hnodir].
    rewrite Hplain, Hl, Hfsd'.
    rewrite (run_getEntry_scan_miss _ _ o _ _ _ _ _ Ho Hmiss').
    apply (run_getEntry_scan_hit _ _ o); assumption. }
  split.
  - unfold CompilerHost_readFile, getFile, getEntry_of_kind.
    rewrite run_bind, run_bind, (run_get _ _ _ _ Ho), Hco.
    rewrite run_bind, (run_root_there _ _ _ Ho Hro), Hcwd, Hgiven, run_call_invoke.
    rewrite (Eget (S (S k)) (with_kind kind_file no_options) eq_refl).
    unfold isMatch. rewrite Hcf. simpl.
    rewrite run_call_invoke, invoke_S. simpl body.
    rewrite (run_dispatch _ _ _ _ _ Hf), Hcf.
    unfold VirtualFile_getContent. rewrite run_bind, (run_get _ _ _ _ Hf), Hcontent.
    reflexivity.
  - unfold CompilerHost_fileExists, fileExists.
    rewrite run_bind, run_call_invoke, invoke_S. simpl body.
    rewrite (run_dispatch _ _ _ _ _ Ho), Hco. unfold VirtualFileSystem_getEntry.
    rewrite run_bind, (run_root_there _ _ _ Ho Hro), run_bind, (run_get _ _ _ _ Ho).
    rewrite Hcwd, Hgiven, run_call_invoke, (Eget (S k) no_options eq_refl), isMatch_no_options.
    rewrite run_bind, (run_get _ _ _ _ Hf), Hcf. reflexivity.
Qed.

End lookups.

(** [addFile] under a new name in the silent root directory, whatever
    the content given. *)
Lemma invoke_addFile_new content :
  silent od ->
  Forall (fun e => exists oe, heap s !! e = Some oe /\ sameName ofs (name oe) p = false) l ->
  invoke (S (S (S (S n)))) (addFile d p content) s
  = (file_attached s d od po l p content, Returned (Some (length (heap s)))).
Proof.
  intros [Hsa _] Hmiss.
  assert (Hfs' : heap s !! fileSystem od = Some ofs) by (rewrite Hfsd; exact Hfs).
  set (obj := constructed VirtualFile od po d p
                (with_file (if content is content_string c then Some c else None)
                           (if content is content_function f then Some f else None))).
  set (s1 := allocated obj s).
  set (s2 := file_attached s d od po l p content).
  assert (Hd1 : heap s1 !! d = Some od) by apply allocated_lookup_old, Hd.
  assert (Hd2 : heap s2 !! d
                = Some (with_dir (Some (l ++ [length (heap s)])) (_resolver od)
                          (_shadowRoot od) od)).
  { unfold s2, file_attached. eapply assigned_lookup_eq. exact Hd1. }
  assert (Hf2 : heap s2 !! length (heap s) = Some obj).
  { unfold s2, file_attached. rewrite assigned_lookup_ne.
    - apply allocated_lookup_new.
    - apply lookup_lt_Some in Hd. lia. }
  rewrite invoke_S. simpl body. rewrite (run_dispatch _ _ _ _ _ Hd).
  assert (E : run (S (S (S n))) (VirtualDirectory_addFile d p content) s
              = (s2, Returned (Some (length (heap s))))).
  { unfold VirtualDirectory_addFile.
    rewrite run_bind, (run_writePreamble_mutable _ _ _ _ Hd Hmutable).
    cbv zeta. rewrite Hplain, Htruthy, Hnodir. simpl negb. cbv iota.
    rewrite run_bind, run_call_invoke.
    rewrite (run_getEntry_plain n d od l p no_options s Hd Hclass Hentries Hchildren);
      [|rewrite Hplain; exact Htruthy|exact Hnodir].
    rewrite Hplain, <- (app_nil_r l) at 1.
    rewrite (run_getEntry_scan_miss _ _ ofs _ _ _ _ _ Hfs' Hmiss).
    cbn [getEntry_scan]. rewrite run_ret.
    unfold new_VirtualFile.
    rewrite run_bind, run_bind, (run_new_entry _ _ _ _ _ od po s Hd Hpo).
    fold obj. fold s1.
    assert (EP : run (S (S (S n))) (push_own d (length (heap s))) s1 = (s2, Returned tt)).
    { unfold push_own. rewrite run_bind, run_call_invoke.
      rewrite (run_getOwnEntries_materialized _ d od l s1 Hd1 Hclass Hentries).
      rewrite run_bind, (run_get _ _ _ _ Hd1).
      assert (Eu : (if class od is VirtualDirectorySymlink
                    then push_symEntries (length (heap s)) else push_entries (length (heap s)))
                   = push_entries (length (heap s))).
      { destruct Hclass as [-> | ->]; reflexivity. }
      rewrite Eu. erewrite run_put_assigned; [reflexivity|exact Hd1|].
      simpl. rewrite Hentries. reflexivity. }
    rewrite run_bind, EP, run_bind, (run_emit_silent _ _ _ childAdded _ _ Hd2 Hsa), run_ret.
    rewrite run_bind, (run_get _ _ _ _ Hf2). reflexivity. }
  destruct Hclass as [-> | ->]; exact E.
Qed.

(** [addFile] under the name of a file that is there. *)
Lemma invoke_addFile_old content l1 e oe l2 :
  l = l1 ++ e :: l2 ->
  Forall (fun x => exists ox, heap s !! x = Some ox /\ sameName ofs (name ox) p = false) l1 ->
  heap s !! e = Some oe ->
  sameName ofs (name oe) p = true ->
  class oe = VirtualFile ->
  invoke (S (S (S (S n)))) (addFile d p content) s = (s, Returned (Some e)).
Proof.
  intros Hl Hmiss He Hsame Hce.
  assert (Hfs' : heap s !! fileSystem od = Some ofs) by (rewrite Hfsd; exact Hfs).
  pose proof (run_getEntry_first_match n s d od ofs l Hd Hclass Hentries Hfs' Hchildren
                p no_options l1 e oe l2 Hplain Htruthy Hnodir eq_refl Hl Hmiss He Hsame)
    as Eget.
  rewrite isMatch_no_options in Eget.
  rewrite invoke_S. simpl body. rewrite (run_dispatch _ _ _ _ _ Hd).
  assert (E : run (S (S (S n))) (VirtualDirectory_addFile d p content) s
              = (s, Returned (Some e))).
  { unfold VirtualDirectory_addFile.
    rewrite run_bind, (run_writePreamble_mutable _ _ _ _ Hd Hmutable).
    cbv zeta. rewrite Hplain, Htruthy, Hnodir. simpl negb. cbv iota.
    rewrite run_bind, run_call_invoke, Eget.
    rewrite run_bind, run_ret, run_bind, (run_get _ _ _ _ He), Hce. reflexivity. }
  destruct Hclass as [-> | ->]; exact E.
Qed.

Lemma findIndex_lt {A} (f : A -> bool) l0 : forall i,
  findIndex f l0 = Some i -> i < length l0.
Proof.
  induction l0 as [|x xs IH]; intros i Ei; [discriminate|].
  simpl in Ei. destruct (f x); [injection Ei as <-; simpl; lia|].
  destruct (findIndex f xs) as [j|]; [|discriminate].
  injection Ei as <-. simpl. specialize (IH j eq_refl). lia.
Qed.

(** What [writeFile] does once [addFile] has handed it the file [f]
    (object [obj]) in the store [st]. *)
Lemma run_writeFile_after_addFile content bom st f obj o :
  invoke (S (S (S (S (S n))))) (addFile (vfs _ _ host) fileName content_undefined) s
  = (st, Returned (Some f)) ->
  heap st !! f = Some obj -> class obj = VirtualFile -> _readOnly obj = false ->
  heap st !! vfs _ _ host = Some o -> f <> vfs _ _ host ->
  exists host',
    run (S (S (S (S (S n))))) (CompilerHost_writeFile _ _ host fileName content bom) s
    = (assigned f
         (with_file (Some (if bom : bool then byteOrderMark +:+ content else content)) None obj)
         st, Returned host')
    /\ vfs _ _ host' = vfs _ _ host
    /\ new_TextDocument (path obj)
         (inl (if bom : bool then byteOrderMark +:+ content else content)) None
       ∈ outputs _ _ host'.
Proof.
  intros Hadd Hf Hcf Hro Ho Hne.
  set (written := if bom : bool then byteOrderMark +:+ content else content).
  set (st' := assigned f (with_file (Some written) None obj) st).
  assert (Hf' : heap st' !! f = Some (with_file (Some written) None obj))
    by (eapply assigned_lookup_eq, Hf).
  assert (Ho' : heap st' !! vfs _ _ host = Some o).
  { unfold st'. rewrite assigned_lookup_ne by exact Hne. exact Ho. }
  set (document := new_TextDocument (path obj) (inl written) None).
  assert (E : run (S (S (S (S (S n))))) (CompilerHost_writeFile _ _ host fileName content bom) s
              = (st', Returned
                   match findIndex (fun doc => sameName o (file document) (file doc))
                           (outputs _ _ host) with
                   | None => with_outputs _ _ (outputs _ _ host ++ [document]) host
                   | Some index =>
                       with_outputs _ _ (<[index:=document]> (outputs _ _ host)) host
                   end)).
  { unfold CompilerHost_writeFile. cbv zeta. fold written.
    rewrite run_bind, run_call_invoke, Hadd.
    rewrite run_bind, run_call_invoke, invoke_S. simpl body.
    rewrite (run_dispatch _ _ _ _ _ Hf), Hcf.
    rewrite (run_VirtualFile_setContent _ _ _ _ _ Hf Hro). fold st'.
    rewrite run_bind, (run_get _ _ _ _ Hf'), run_bind, (run_get _ _ _ _ Ho').
    change (path (with_file (Some written) None obj)) with (path obj). fold document.
    destruct (findIndex _ _); reflexivity. }
  eexists. split; [exact E|].
  destruct (findIndex _ _) as [index|] eqn:Ei; (split; [reflexivity|]); simpl.
  - apply list_elem_of_lookup. exists index. apply list_lookup_insert_eq.
    eapply findIndex_lt, Ei.
  - apply elem_of_app. right. constructor.
Qed.

(** X18.  The root directory [d] of the host's file system is mutable
    and materialized, nobody listens on it, and [fileName] resolves to
    a name [p] without a directory part that either no child bears or
    a mutable file is the first to bear.  Then
    [writeFile(fileName, content, bom)] returns, and what the host
    reads back is what it wrote: [readFile(fileName)] returns
    [content], with the byte order mark in front if one was asked for,
    also where an older file is overwritten; [fileExists(fileName)] is
    true; and the document written is among the host's outputs. *)
Theorem writeFile_then_readFile content bom :
  silent od ->
  (Forall (fun e => exists oe, heap s !! e = Some oe /\ sameName ofs (name oe) p = false) l
   \/ exists l1 e oe l2,
        l = l1 ++ e :: l2
        /\ Forall (fun x => exists ox, heap s !! x = Some ox
                              /\ sameName ofs (name ox) p = false) l1
        /\ heap s !! e = Some oe /\ sameName ofs (name oe) p = true
        /\ class oe = VirtualFile /\ _readOnly oe = false) ->
  exists s' host' document,
    run (S (S (S (S (S n))))) (CompilerHost_writeFile _ _ host fileName content bom) s
    = (s', Returned host')
    /\ run (S (S (S (S (S n))))) (CompilerHost_readFile _ _ host' fileName) s'
       = (s', Returned (Some (if bom then byteOrderMark +:+ content else content)))
    /\ run (S (S (S (S (S n))))) (CompilerHost_fileExists _ _ host' fileName) s'
       = (s', Returned true)
    /\ document ∈ outputs _ _ host'
    /\ text document = (if bom then byteOrderMark +:+ content else content).
Proof.
  intros Hsilent [Hnew | (l1 & e & oe & l2 & Hl & Hmiss & He & Hsame & Hce & Hroe)].
  - set (f := length (heap s)).
    set (obj := constructed VirtualFile od po d p (with_file None None)).
    set (st := file_attached s d od po l p content_undefined).
    set (od' := with_dir (Some (l ++ [f])) (_resolver od) (_shadowRoot od) od).
    assert (Hadd : invoke (S (S (S (S (S n))))) (addFile (vfs _ _ host) fileName content_undefined) s
                   = (st, Returned (Some f))).
    { rewrite invoke_addFile_through_root. apply invoke_addFile_new; assumption. }
    assert (Hdlt : d < length (heap s)) by (eapply lookup_lt_Some, Hd).
    assert (Hflt : vfs _ _ host < length (heap s)) by (eapply lookup_lt_Some, Hfs).
    assert (Hf : heap st !! f = Some obj).
    { unfold st, file_attached. rewrite assigned_lookup_ne by (unfold f; lia).
      apply allocated_lookup_new. }
    assert (Ho : heap st !! vfs _ _ host = Some ofs).
    { unfold st, file_attached.
      rewrite assigned_lookup_ne by apply root_is_not_the_file_system.
      apply allocated_lookup_old, Hfs. }
    destruct (run_writeFile_after_addFile content bom st f obj ofs Hadd Hf eq_refl eq_refl Ho
                ltac:(unfold f; lia)) as (host' & Hwrite & Hvfs & Hdoc).
    set (written := if bom then byteOrderMark +:+ content else content) in *.
    set (s' := assigned f (with_file (Some written) None obj) st) in *.
    assert (Hold : forall r o, heap s !! r = Some o -> r <> d -> heap s' !! r = Some o).
    { intros r o Hr Hne. unfold s'. rewrite assigned_lookup_ne
        by (apply lookup_lt_Some in Hr; unfold f; lia).
      unfold st, file_attached. rewrite assigned_lookup_ne by congruence.
      apply allocated_lookup_old, Hr. }
    assert (Hd' : heap s' !! d = Some od').
    { unfold s'. rewrite assigned_lookup_ne by (unfold f; lia).
      unfold st, file_attached. eapply assigned_lookup_eq. apply allocated_lookup_old, Hd. }
    assert (Hf' : heap s' !! f = Some (with_file (Some written) None obj)).
    { unfold s'. eapply assigned_lookup_eq, Hf. }
    assert (Hsee : forall x ox, heap s !! x = Some ox ->
              exists ox', heap s' !! x = Some ox' /\ name ox' = name ox).
    { intros x ox Hx. destruct (decide (x = d)) as [-> | Hne].
      - exists od'. split; [exact Hd'|]. rewrite Hd in Hx. injection Hx as <-. reflexivity.
      - exists ox. split; [apply Hold; assumption|reflexivity]. }
    exists s', host', (new_TextDocument (path obj) (inl written) None).
    split; [exact Hwrite|].
    destruct (run_host_lookup s' ofs od' (l ++ [f])
                (Hold _ _ Hfs (not_eq_sym root_is_not_the_file_system))
                Hcfs Hroot eq_refl eq_refl Hd' Hclass eq_refl Hfsd) with
      (k := n) (f := f) (obj := with_file (Some written) None obj) (l1 := l) (l2 := @nil nat)
      (c := written) as [Hread Hexists].
    + apply Forall_app. split.
      * eapply Forall_impl; [exact Hchildren|]. intros x [ox Hx].
        destruct (Hsee x ox Hx) as (ox' & Hx' & _). eauto.
      * constructor; [eauto|constructor].
    + reflexivity.
    + eapply Forall_impl; [exact Hnew|]. intros x (ox & Hx & Hne).
      destruct (Hsee x ox Hx) as (ox' & Hx' & Hname). exists ox'.
      split; [exact Hx'|rewrite Hname; exact Hne].
    + exact Hf'.
    + apply sameName_refl.
    + reflexivity.
    + reflexivity.
    + unfold CompilerHost_readFile, CompilerHost_fileExists in *. rewrite Hvfs.
      split; [exact Hread|]. split; [exact Hexists|]. split; [exact Hdoc|reflexivity].
  - assert (Hadd : invoke (S (S (S (S (S n))))) (addFile (vfs _ _ host) fileName content_undefined) s
                   = (s, Returned (Some e))).
    { rewrite invoke_addFile_through_root. eapply invoke_addFile_old; eassumption. }
    assert (Hne_fs : e <> vfs _ _ host).
    { intros E. rewrite E, Hfs in He. injection He as <-. congruence. }
    assert (Hne_d : e <> d).
    { intros E. rewrite E, Hd in He. injection He as <-. destruct Hclass; congruence. }
    destruct (run_writeFile_after_addFile content bom s e oe ofs Hadd He Hce Hroe Hfs Hne_fs)
      as (host' & Hwrite & Hvfs & Hdoc).
    set (written := if bom then byteOrderMark +:+ content else content) in *.
    set (s' := assigned e (with_file (Some written) None oe) s) in *.
    assert (He' : heap s' !! e = Some (with_file (Some written) None oe)).
    { unfold s'. eapply assigned_lookup_eq, He. }
    assert (Hsee : forall x ox, heap s !! x = Some ox ->
              exists ox', heap s' !! x = Some ox' /\ name ox' = name ox).
    { intros x ox Hx. destruct (decide (x = e)) as [-> | Hne].
      - eexists. split; [exact He'|]. rewrite He in Hx. injection Hx as <-. reflexivity.
      - exists ox. split; [|reflexivity]. unfold s'.
        rewrite assigned_lookup_ne by congruence. exact Hx. }
    exists s', host', (new_TextDocument (path oe) (inl written) None).
    split; [exact Hwrite|].
    destruct (run_host_lookup s' ofs od l) with
      (k := n) (f := e) (obj := with_file (Some written) None oe) (l1 := l1) (l2 := l2)
      (c := written) as [Hread Hexists];
      try reflexivity; try assumption.
    + unfold s'. rewrite assigned_lookup_ne by exact Hne_fs. exact Hfs.
    + unfold s'. rewrite assigned_lookup_ne by exact Hne_d. exact Hd.
    + eapply Forall_impl; [exact Hchildren|]. intros x [ox Hx].
      destruct (Hsee x ox Hx) as (ox' & Hx' & _). eauto.
    + eapply Forall_impl; [exact Hmiss|]. intros x (ox & Hx & Hne).
      destruct (Hsee x ox Hx) as (ox' & Hx' & Hname). exists ox'.
      split; [exact Hx'|rewrite Hname; exact Hne].
    + unfold CompilerHost_readFile, CompilerHost_fileExists in *. rewrite Hvfs.
      split; [exact Hread|]. split; [exact Hexists|]. split; [exact Hdoc|reflexivity].
Qed.

End host_files.

(** * What every call keeps *)

Section every_call.
Context {env : Env}.




End every_call.

(** * What the file system shows of a resolver's listing *)

Section listing_kinds.
Context {env : Env}.

Lemma populating_new_entry_class n s0 d od log refs done s c nm init :
  is_Some (heap s0 !! owner_of od d) ->
  populating s0 d od log refs done s ->
  (forall o, name (init o) = name o) ->
  (forall o, _readOnly (init o) = _readOnly o) ->
  (forall o, class (init o) = class o) ->
  (forall o, fileSystem (init o) = fileSystem o) ->
  (forall o, _entries o = None -> _entries (init o) = None) ->
  c <> VirtualFileSystem ->
  exists obj,
    (run (S n) (new_entry c d nm init) s = (allocated obj s, Returned (length (heap s)))
     /\ name obj = nm /\ _readOnly obj = false /\ _entries obj = None
     /\ class obj <> VirtualFileSystem /\ fileSystem obj = fileSystem od)
    /\ class obj = c.
Proof.
  intros Howner Hpop Hname Hro Hcl Hfsi Hent Hc.
  destruct (populating_owner s0 d od log Howner _ _ _ Hpop) as [po Hpo].
  destruct Hpop as (o & Ho & _ & _ & _ & Hc' & Hfs & _).
  assert (Hown : owner_of o d = owner_of od d).
  { unfold owner_of. rewrite Hc', Hfs. reflexivity. }
  exists (constructed c o po d nm init). split; [split|].
  { apply run_new_entry; [exact Ho|rewrite Hown; exact Hpo]. }
  all: unfold constructed; rewrite ?Hname, ?Hro, ?Hcl, ?Hfsi; simpl.
  - repeat split; auto.
  - reflexivity.
Qed.

(** One turn of the population loop, with the class of the child it
    makes. *)
Lemma populating_step_class n s0 d od log done nm (make : Prog ref) refs cs c s :
  heap s0 !! d = Some od ->
  populating s0 d od log refs done s ->
  classes_at s refs cs ->
  (exists obj,
      (run (S n) make s = (allocated obj s, Returned (length (heap s)))
       /\ name obj = nm /\ _readOnly obj = false /\ _entries obj = None
       /\ class obj <> VirtualFileSystem /\ fileSystem obj = fileSystem od)
      /\ class obj = c) ->
  returns (S n)
    (fresh <- make ;;
     makeReadOnly_if_readOnly d fresh ;;
     put d (push_entries fresh)) s
    (fun s' _ => populating s0 d od log (refs ++ [length (heap s)]) (done ++ [nm]) s'
                 /\ classes_at s' (refs ++ [length (heap s)]) (cs ++ [c])).
Proof.
  intros Hd Hpop Hcs (obj & Hmake & Hclass).
  destruct (populating_step s0 d od log Hd n done nm make refs s Hpop
              (ex_intro _ obj Hmake)) as (s' & u & Hrun & Hpop').
  exists s', u. split; [exact Hrun|]. split; [exact Hpop'|].
  destruct Hmake as (Hmake & _).
  pose proof (run_extends (S n)
                (fresh <- make ;;
                 makeReadOnly_if_readOnly d fresh ;;
                 put d (push_entries fresh)) s) as Hext.
  rewrite Hrun in Hext. simpl in Hext.
  rewrite run_bind, Hmake in Hrun.
  pose proof (run_extends (S n)
                (makeReadOnly_if_readOnly d (length (heap s)) ;;
                 put d (push_entries (length (heap s)))) (allocated obj s)) as Hext'.
  rewrite Hrun in Hext'. simpl in Hext'.
  apply Forall2_app.
  - eapply Forall2_impl; [exact Hcs|]. intros e k. apply class_at_extends, Hext.
  - constructor; [|constructor].
    apply (class_at_extends _ _ _ _ Hext'). unfold class_at.
    rewrite allocated_lookup_new. simpl. rewrite Hclass. reflexivity.
Qed.

(** Population from a resolver makes directories of the directory names
    and files of the file names. *)
Lemma returns_populate_kinds n s0 d od resolver :
  heap s0 !! d = Some od ->
  is_Some (heap s0 !! owner_of od d) ->
  _entries od = None ->
  _resolver od = Some resolver ->
  returns (S n) (VirtualDirectory_getOwnEntries d) s0
    (fun s' l =>
       populating s0 d od (asked s0 ++ [asked_getEntries (path od)]) l
         ((resolver_getEntries resolver (path od)).2
          ++ (resolver_getEntries resolver (path od)).1) s'
       /\ classes_at s' l
            (map (fun _ => VirtualDirectory) (resolver_getEntries resolver (path od)).2
             ++ map (fun _ => VirtualFile) (resolver_getEntries resolver (path od)).1)).
Proof.
  intros Hd Howner Hentries Hresolver.
  unfold VirtualDirectory_getOwnEntries.
  apply returns_bind. eapply returns_get; [exact Hd|]. rewrite Hentries, Hresolver.
  apply returns_bind. eapply returns_put; [exact Hd|reflexivity|].
  apply returns_bind. eapply returns_put; [eapply assigned_lookup_eq, Hd|reflexivity|].
  rewrite assigned_assigned.
  apply returns_bind. eapply returns_put; [eapply assigned_lookup_eq, Hd|reflexivity|].
  rewrite assigned_assigned.
  match goal with |- returns _ _ (assigned d ?o s0) _ => set (o1 := o) end.
  destruct (resolver_getEntries resolver (path od)) as [files directories].
  cbn [fst snd].
  apply returns_bind. apply returns_bind. apply returns_ask.
  match goal with |- returns _ _ ?st _ => set (s1 := st) end.
  set (log := asked s0 ++ [asked_getEntries (path od)]).
  assert (Hstart : populating s0 d od log [] [] s1).
  { apply populating_start with (o := o1); auto.
    unfold o1, stable. simpl. split_and!; eauto. }
  clearbody s1. clear o1.
  apply returns_bind.
  apply returns_for_of with
    (I := fun rest s => exists refs done,
            directories = done ++ rest
            /\ populating s0 d od log refs done s
            /\ classes_at s refs (map (fun _ => VirtualDirectory) done)).
  - intros dir rest s (refs & done & -> & Hpop & Hcs).
    eapply returns_consequence.
    + eapply (populating_step_class n s0 d od log done dir _ refs _ VirtualDirectory);
        [exact Hd|exact Hpop|exact Hcs|].
      eapply populating_new_entry_class; eauto; try reflexivity; congruence.
    + intros s' u [Hpop' Hcs']. eexists _, (done ++ [dir]). split; [|split].
      * rewrite <- app_assoc. reflexivity.
      * exact Hpop'.
      * rewrite map_app. exact Hcs'.
  - intros s2 (refs & done & Hdone & Hpop & Hcs). rewrite app_nil_r in Hdone. subst done.
    apply returns_for_of with
      (I := fun rest s => exists refs done,
              files = done ++ rest
              /\ populating s0 d od log refs (directories ++ done) s
              /\ classes_at s refs (map (fun _ => VirtualDirectory) directories
                                    ++ map (fun _ => VirtualFile) done)).
    + intros file rest s (refs' & done & -> & Hpop' & Hcs').
      eapply returns_consequence.
      * eapply (populating_step_class n s0 d od log _ file _ refs' _ VirtualFile);
          [exact Hd|exact Hpop'|exact Hcs'|].
        eapply populating_new_entry_class; eauto; try reflexivity; congruence.
      * intros s' u [Hpop'' Hcs'']. eexists _, (done ++ [file]). split; [|split].
        -- rewrite <- app_assoc. reflexivity.
        -- rewrite app_assoc. exact Hpop''.
        -- rewrite map_app, app_assoc. exact Hcs''.
    + intros s3 (refs' & done & Hdone & Hpop' & Hcs'). rewrite app_nil_r in Hdone.
      subst done.
      destruct Hpop' as (o3 & Ho3 & He3 & Hrest).
      apply returns_bind. eapply returns_get; [exact Ho3|]. apply returns_ret.
      rewrite He3. simpl. split; [|exact Hcs'].
      exists o3. split; [exact Ho3|]. split; [exact He3|exact Hrest].
    + exists refs, []. rewrite !app_nil_r. split; [reflexivity|]. split; [exact Hpop|].
      simpl. rewrite ?app_nil_r. exact Hcs.
  - exists [], []. split; [reflexivity|]. split; [exact Hstart|constructor].
Qed.

Lemma run_names_of n l names s :
  names_at s l names -> run n (names_of l) s = (s, Returned names).
Proof.
  unfold names_of. induction 1 as [|e nm l names (oe & He & Hnm) _ IH]; [reflexivity|].
  rewrite map_of_cons, run_bind, run_bind, (run_get _ _ _ _ He), run_ret.
  rewrite run_bind, IH, run_ret, Hnm. reflexivity.
Qed.

Lemma filter_all {A} (f : A -> bool) l :
  Forall (fun x => f x = true) l -> List.filter f l = l.
Proof. induction 1 as [|x l Hx _ IH]; simpl; [reflexivity|]. rewrite Hx, IH. reflexivity. Qed.

Lemma filter_none {A} (f : A -> bool) l :
  Forall (fun x => f x = false) l -> List.filter f l = [].
Proof. induction 1 as [|x l Hx _ IH]; simpl; [reflexivity|]. rewrite Hx, IH. reflexivity. Qed.

Lemma classes_at_constant {X} s l c (names : list X) :
  classes_at s l (map (fun _ => c) names) ->
  Forall (fun e => is_file_at s e = instanceof_VirtualFile c) l.
Proof.
  unfold classes_at. rewrite Forall2_fmap_r. intros H.
  induction H as [|e nm l names He _ IH]; constructor; [|exact IH].
  unfold is_file_at. unfold class_at in He.
  destruct (heap s !! e) as [oe|]; [|discriminate]. simpl in *. congruence.
Qed.

(** [getEntries] of a directory is the filter of its own entries. *)
Lemma invoke_getEntries_directory k d od options s :
  heap s !! d = Some od ->
  class od = VirtualDirectory \/ class od = VirtualDirectoryRoot ->
  recursive options = false ->
  invoke (S (S k)) (getEntries d options) s
  = match run k (VirtualDirectory_getOwnEntries d) s with
    | (s', Returned own) =>
        run (S k) (filter_of own (fun entry => e <- get entry ;; Ret (isMatch e options))) s'
    | (s', Thrown e) => (s', Thrown e)
    | (s', OutOfFuel) => (s', OutOfFuel)
    end.
Proof.
  intros Hd Hc Hrec. rewrite invoke_S. simpl body. rewrite (run_dispatch _ _ _ _ _ Hd).
  replace (instanceof_VirtualFile (class od)) with false
    by (destruct Hc as [-> | ->]; reflexivity).
  unfold Container_getEntries. rewrite Hrec.
  rewrite run_bind, run_call. simpl body. rewrite (run_dispatch _ _ _ _ _ Hd).
  destruct Hc as [-> | ->]; reflexivity.
Qed.

(** X11.  Where [getEntry(p)] of the file system finds a directory
    that still holds its resolver, [getAccessibleFileSystemEntries(p)]
    returns the very lists of file names and of directory names that
    the resolver reports for the path of that directory, in the
    resolver's order, having asked the resolver once. *)
Theorem the_listing_of_a_resolver_is_shown_as_it_is n s fs p s1 d od resolver :
  invoke (S (S (S n))) (getEntry fs p no_options) s = (s1, Returned (Some d)) ->
  heap s1 !! d = Some od ->
  class od = VirtualDirectory \/ class od = VirtualDirectoryRoot ->
  is_Some (heap s1 !! fileSystem od) ->
  _entries od = None ->
  _resolver od = Some resolver ->
  exists s',
    run (S (S (S n))) (getAccessibleFileSystemEntries fs p) s
    = (s', Returned (resolver_getEntries resolver (path od)))
    /\ asked s' = asked s1 ++ [asked_getEntries (path od)].
Proof.
  intros Hget Hd Hclass Hfs Hentries Hresolver.
  assert (Howner : is_Some (heap s1 !! owner_of od d)).
  { unfold owner_of. destruct Hclass as [-> | ->]; [eauto|exact Hfs]. }
  destruct (returns_populate_kinds n s1 d od resolver Hd Howner Hentries Hresolver)
    as (s2 & l & Hrun & Hpop & Hcs).
  destruct (resolver_getEntries resolver (path od)) as [files directories] eqn:Er.
  cbn [fst snd] in *.
  apply Forall2_app_inv_r in Hcs as (ld & lf & Hcd & Hcf & ->).
  pose proof Hpop as (o2 & Ho2 & He2 & _ & _ & Hc2 & _ & _ & _ & _ & Hall & _ & _ & _ & Hask).
  assert (Hnames : names_at s2 (ld ++ lf) (directories ++ files)).
  { eapply Forall2_impl; [exact Hall|]. intros e nm (_ & oe & Hoe & Hnm & _). eauto. }
  assert (Hlen : length ld = length directories).
  { apply Forall2_length in Hcd. rewrite length_map in Hcd. exact Hcd. }
  apply Forall2_app_inv in Hnames as [Hnd Hnf]; [|exact Hlen].
  assert (Hchildren : Forall (fun e => is_Some (heap s2 !! e)) (ld ++ lf)).
  { clear -Hall. induction Hall as [|e nm l names (_ & oe & Hoe & _) _ IH]; constructor; eauto. }
  assert (Hclass2 : class o2 = VirtualDirectory \/ class o2 = VirtualDirectoryRoot)
    by (rewrite Hc2; exact Hclass).
  apply classes_at_constant in Hcd, Hcf. simpl in Hcd, Hcf.
  assert (Efiles : List.filter
                     (fun e => passes_at s2 (with_kind kind_file no_options) e
                               && negb (Kind_eqb (Some kind_file)
                                          (Some (if is_file_at s2 e
                                                 then kind_directory else kind_file))))
                     (ld ++ lf) = lf).
  { rewrite List.filter_app, filter_none, filter_all; [reflexivity| |].
    - eapply Forall_impl; [exact Hcf|]. intros e ->. reflexivity.
    - eapply Forall_impl; [exact Hcd|]. intros e ->. reflexivity. }
  assert (Edirs : List.filter
                    (fun e => passes_at s2 (with_kind kind_directory no_options) e
                              && negb (Kind_eqb (Some kind_directory)
                                         (Some (if is_file_at s2 e
                                                then kind_directory else kind_file))))
                    (ld ++ lf) = ld).
  { rewrite List.filter_app, filter_all, filter_none; [apply app_nil_r| |].
    - eapply Forall_impl; [exact Hcf|]. intros e ->. reflexivity.
    - eapply Forall_impl; [exact Hcd|]. intros e ->. reflexivity. }
  exists s2. split; [|exact Hask].
  unfold getAccessibleFileSystemEntries.
  rewrite run_bind, run_call_invoke, Hget, run_bind, (run_get _ _ _ _ Hd).
  replace (instanceof_VirtualDirectory (class od)) with true
    by (destruct Hclass as [-> | ->]; reflexivity).
  unfold getFiles. rewrite run_bind, run_call_invoke.
  rewrite (invoke_getEntries_directory _ d od (with_kind kind_file no_options) s1 Hd Hclass
             eq_refl), Hrun.
  rewrite (run_filter_of_kind _ _ _ _ Hchildren).
  change (kind (with_kind kind_file no_options)) with (Some kind_file).
  rewrite Efiles.
  rewrite run_bind, (run_names_of _ _ _ _ Hnf).
  unfold getDirectories. rewrite run_bind, run_call_invoke.
  rewrite (run_getEntries_kind (S n) s2 d o2 (ld ++ lf) Ho2 Hclass2 He2 Hchildren
             (with_kind kind_directory no_options) eq_refl).
  change (kind (with_kind kind_directory no_options)) with (Some kind_directory).
  rewrite Edirs.
  rewrite run_bind, (run_names_of _ _ _ _ Hnd). reflexivity.
Qed.

End listing_kinds.

(** * Additions below a directory that is not there yet *)

Section attach.
Context {env : Env}.

(** An addition from the construction of its entry to the announcement,
    in a directory on which nobody listens. *)
Lemma run_attach_entry k s d od po l c nm init :
  heap s !! d = Some od ->
  class od = VirtualDirectory \/ class od = VirtualDirectoryRoot ->
  _entries od = Some l ->
  heap s !! owner_of od d = Some po ->
  listeners_childAdded od = [] ->
  run (S k)
    (entry <- new_entry c d nm init ;;
     push_own d entry ;;
     emit d childAdded entry ;;
     Ret entry) s
  = (entry_attached s d od po l c nm init, Returned (length (heap s))).
Proof.
  intros Hd Hclass Hentries Hpo Hsilent.
  set (obj := constructed c od po d nm init).
  set (s1 := allocated obj s).
  set (s2 := entry_attached s d od po l c nm init).
  assert (Hd1 : heap s1 !! d = Some od) by apply allocated_lookup_old, Hd.
  assert (Hd2 : heap s2 !! d
                = Some (with_dir (Some (l ++ [length (heap s)])) (_resolver od)
                          (_shadowRoot od) od)).
  { unfold s2, entry_attached. eapply assigned_lookup_eq. exact Hd1. }
  rewrite run_bind, (run_new_entry _ _ _ _ _ od po s Hd Hpo). fold obj. fold s1.
  assert (EP : run (S k) (push_own d (length (heap s))) s1 = (s2, Returned tt)).
  { unfold push_own. rewrite run_bind, run_call_invoke.
    rewrite (run_getOwnEntries_materialized _ d od l s1 Hd1 Hclass Hentries).
    rewrite run_bind, (run_get _ _ _ _ Hd1).
    assert (Eu : (if class od is VirtualDirectorySymlink
                  then push_symEntries (length (heap s)) else push_entries (length (heap s)))
                 = push_entries (length (heap s))).
    { destruct Hclass as [-> | ->]; reflexivity. }
    rewrite Eu. erewrite run_put_assigned; [reflexivity|exact Hd1|].
    simpl. rewrite Hentries. reflexivity. }
  rewrite run_bind, EP, run_bind, (run_emit_silent _ _ _ childAdded _ _ Hd2 Hsilent), run_ret.
  reflexivity.
Qed.


(** The same where listeners are called: [s3] is the store in which
    they leave off. *)
Lemma run_attach_entry_heard k s d od po l c nm init s3 :
  heap s !! d = Some od ->
  class od = VirtualDirectory \/ class od = VirtualDirectoryRoot ->
  _entries od = Some l ->
  heap s !! owner_of od d = Some po ->
  run (S k) (emit d childAdded (length (heap s))) (entry_attached s d od po l c nm init)
  = (s3, Returned tt) ->
  run (S k)
    (entry <- new_entry c d nm init ;;
     push_own d entry ;;
     emit d childAdded entry ;;
     Ret entry) s
  = (s3, Returned (length (heap s))).
Proof.
  intros Hd Hclass Hentries Hpo Hemit.
  set (obj := constructed c od po d nm init).
  set (s1 := allocated obj s).
  assert (Hd1 : heap s1 !! d = Some od) by apply allocated_lookup_old, Hd.
  rewrite run_bind, (run_new_entry _ _ _ _ _ od po s Hd Hpo). fold obj. fold s1.
  assert (EP : run (S k) (push_own d (length (heap s))) s1
               = (entry_attached s d od po l c nm init, Returned tt)).
  { unfold push_own. rewrite run_bind, run_call_invoke.
    rewrite (run_getOwnEntries_materialized _ d od l s1 Hd1 Hclass Hentries).
    rewrite run_bind, (run_get _ _ _ _ Hd1).
    assert (Eu : (if class od is VirtualDirectorySymlink
                  then push_symEntries (length (heap s)) else push_entries (length (heap s)))
                 = push_entries (length (heap s))).
    { destruct Hclass as [-> | ->]; reflexivity. }
    rewrite Eu. erewrite run_put_assigned; [reflexivity|exact Hd1|].
    simpl. rewrite Hentries. reflexivity. }
  rewrite run_bind, EP, run_bind, Hemit, run_ret. reflexivity.
Qed.

(** The first listing of a fresh directory. *)
Lemma run_getOwnEntries_fresh k s x ox :
  heap s !! x = Some ox -> fresh_directory ox ->
  run k (VirtualDirectory_getOwnEntries x) s
  = (assigned x (with_dir (Some []) None None ox) s, Returned []).
Proof.
  intros Hx (Hc & He & Hr & Hs). unfold VirtualDirectory_getOwnEntries.
  rewrite run_bind, (run_get _ _ _ _ Hx), He, Hr, Hs.
  rewrite run_bind. erewrite run_put_assigned; [|exact Hx|reflexivity].
  rewrite run_bind.
  erewrite run_put_assigned; [|eapply assigned_lookup_eq, Hx|reflexivity].
  rewrite assigned_assigned. rewrite run_bind.
  erewrite run_put_assigned; [|eapply assigned_lookup_eq, Hx|reflexivity].
  rewrite assigned_assigned. simpl. rewrite Hr, Hs.
  rewrite run_bind, run_ret, run_bind.
  erewrite run_get; [|eapply assigned_lookup_eq, Hx]. reflexivity.
Qed.

(** The lookup of a plain name in a fresh directory lists it, and finds
    nothing. *)
Lemma invoke_getEntry_fresh k s x ox b options :
  heap s !! x = Some ox -> fresh_directory ox ->
  truthy (vpath_basename b) = true -> truthy (vpath_dirname b) = false ->
  invoke (S (S (S k))) (getEntry x b options) s
  = (assigned x (with_dir (Some []) None None ox) s, Returned None).
Proof.
  intros Hx Hfresh Hb Hdir. pose proof Hfresh as (Hc & _).
  rewrite invoke_S. simpl body. rewrite (run_dispatch _ _ _ _ _ Hx), Hc.
  unfold Container_getEntry. cbv zeta. rewrite Hb, Hdir. simpl negb. cbv iota.
  rewrite run_bind, run_call_invoke.
  rewrite (invoke_getEntries_directory k x ox no_options s Hx (or_introl Hc) eq_refl).
  rewrite (run_getOwnEntries_fresh _ _ _ _ Hx Hfresh).
  cbn [filter_of]. rewrite run_ret, run_bind.
  erewrite run_get; [|eapply assigned_lookup_eq, Hx]. reflexivity.
Qed.

Lemma attached_lookup_d s d od po l c nm init :
  heap s !! d = Some od ->
  heap (entry_attached s d od po l c nm init) !! d
  = Some (with_dir (Some (l ++ [length (heap s)])) (_resolver od) (_shadowRoot od) od).
Proof.
  intros Hd. unfold entry_attached. eapply assigned_lookup_eq.
  apply allocated_lookup_old, Hd.
Qed.

Lemma attached_lookup_new s d od po l c nm init :
  heap s !! d = Some od ->
  heap (entry_attached s d od po l c nm init) !! length (heap s)
  = Some (constructed c od po d nm init).
Proof.
  intros Hd. unfold entry_attached. rewrite assigned_lookup_ne.
  - apply allocated_lookup_new.
  - apply lookup_lt_Some in Hd. lia.
Qed.

Lemma attached_lookup_old s d od po l c nm init r o :
  heap s !! r = Some o -> r <> d ->
  heap (entry_attached s d od po l c nm init) !! r = Some o.
Proof.
  intros Hr Hne. unfold entry_attached. rewrite assigned_lookup_ne by congruence.
  apply allocated_lookup_old, Hr.
Qed.

(** [addDirectory] under a new plain name in a mutable, materialized
    directory on which nobody listens. *)
Lemma invoke_addDirectory_new k s d od ofs po l a resolver :
  heap s !! d = Some od ->
  class od = VirtualDirectory \/ class od = VirtualDirectoryRoot ->
  _readOnly od = false ->
  _entries od = Some l ->
  heap s !! fileSystem od = Some ofs ->
  heap s !! owner_of od d = Some po ->
  listeners_childAdded od = [] ->
  vpath_basename a = a -> truthy a = true -> truthy (vpath_dirname a) = false ->
  Forall (fun e => exists oe, heap s !! e = Some oe /\ sameName ofs (name oe) a = false) l ->
  invoke (S (S (S (S k)))) (addDirectory d a resolver) s
  = (entry_attached s d od po l VirtualDirectory a (with_dir None resolver None),
     Returned (Some (length (heap s)))).
Proof.
  intros Hd Hclass Hmutable Hentries Hfs Hpo Hsilent Hplain Htruthy Hnodir Hmiss.
  assert (Hchildren : Forall (fun e => is_Some (heap s !! e)) l).
  { eapply Forall_impl; [exact Hmiss|]. intros e (oe & He & _). eauto. }
  rewrite invoke_S. simpl body. rewrite (run_dispatch _ _ _ _ _ Hd).
  assert (E : run (S (S (S k))) (VirtualDirectory_addDirectory d a resolver) s
              = (entry_attached s d od po l VirtualDirectory a (with_dir None resolver None),
                 Returned (Some (length (heap s))))).
  { unfold VirtualDirectory_addDirectory.
    rewrite run_bind, (run_writePreamble_mutable _ _ _ _ Hd Hmutable).
    cbv zeta. rewrite Hplain, Htruthy, Hnodir. simpl negb. cbv iota.
    rewrite run_bind, run_call_invoke.
    rewrite (run_getEntry_plain k d od l a no_options s Hd Hclass Hentries Hchildren);
      [|rewrite Hplain; exact Htruthy|exact Hnodir].
    rewrite Hplain, <- (app_nil_r l) at 1.
    rewrite (run_getEntry_scan_miss _ _ ofs _ _ _ _ _ Hfs Hmiss).
    cbn [getEntry_scan]. rewrite run_ret.
    unfold new_VirtualDirectory.
    rewrite run_bind, (run_attach_entry _ s d od po l _ _ _ Hd Hclass Hentries Hpo Hsilent).
    rewrite run_bind, (run_get _ _ _ _ (attached_lookup_new _ _ _ _ _ _ _ _ Hd)).
    reflexivity. }
  destruct Hclass as [-> | ->]; exact E.
Qed.

(** [addFile] under a plain name in a fresh directory that is mutable
    and on which nobody listens: the directory is listed, and the file
    becomes its only child. *)
Lemma invoke_addFile_fresh k s x ox b content :
  heap s !! x = Some ox ->
  fresh_directory ox ->
  _readOnly ox = false ->
  listeners_childAdded ox = [] ->
  vpath_basename b = b -> truthy b = true -> truthy (vpath_dirname b) = false ->
  invoke (S (S (S (S k)))) (addFile x b content) s
  = (entry_attached (assigned x (with_dir (Some []) None None ox) s) x
       (with_dir (Some []) None None ox) (with_dir (Some []) None None ox) []
       VirtualFile b
       (with_file (if content is content_string c then Some c else None)
                  (if content is content_function f then Some f else None)),
     Returned (Some (length (heap s)))).
Proof.
  intros Hx Hfresh Hmutable Hsilent Hplain Htruthy Hnodir.
  pose proof Hfresh as (Hc & _).
  set (ox1 := with_dir (Some []) None None ox).
  set (s1 := assigned x ox1 s).
  assert (Hx1 : heap s1 !! x = Some ox1) by (eapply assigned_lookup_eq, Hx).
  assert (Hc1 : class ox1 = VirtualDirectory) by exact Hc.
  assert (Hlen : length (heap s1) = length (heap s)) by apply assigned_length.
  rewrite invoke_S. simpl body. rewrite (run_dispatch _ _ _ _ _ Hx), Hc.
  unfold VirtualDirectory_addFile.
  rewrite run_bind, (run_writePreamble_mutable _ _ _ _ Hx Hmutable).
  cbv zeta. rewrite Hplain, Htruthy, Hnodir. simpl negb. cbv iota.
  rewrite run_bind, run_call_invoke.
  rewrite (invoke_getEntry_fresh k s x ox b no_options Hx Hfresh);
    [|rewrite Hplain; exact Htruthy|exact Hnodir].
  fold ox1. fold s1. unfold new_VirtualFile.
  rewrite run_bind.
  rewrite (run_attach_entry _ s1 x ox1 ox1 [] _ _ _ Hx1 (or_introl Hc1) eq_refl);
    [| unfold owner_of; rewrite Hc1; exact Hx1 | exact Hsilent].
  rewrite run_bind, (run_get _ _ _ _ (attached_lookup_new _ _ _ _ _ _ _ _ Hx1)).
  rewrite Hlen. reflexivity.
Qed.

End attach.

(** A mutable directory [d] (object [od]) with its materialized
    children [l], on which nobody listens, and a path whose directory
    part [dn] names one directory [a] that is not among the children
    and whose last part is [b]. *)
Section nested.
Context {env : Env}.
Variables (n : nat) (s : State) (d : ref) (od ofs po : Obj) (l : list ref).
Variables (path dn a b : string).
Hypothesis Hd : heap s !! d = Some od.
Hypothesis Hclass : class od = VirtualDirectory \/ class od = VirtualDirectoryRoot.
Hypothesis Hmutable : _readOnly od = false.
Hypothesis Hentries : _entries od = Some l.
Hypothesis Hfs : heap s !! fileSystem od = Some ofs.
Hypothesis Hpo : heap s !! owner_of od d = Some po.
Hypothesis Hsilent : listeners_childAdded od = [].
Hypothesis Hbase : vpath_basename path = b.
Hypothesis Hdir : vpath_dirname path = dn.
Hypothesis Htdn : truthy dn = true.
Hypothesis Hparse : vpath_parse dn = [""; a].
Hypothesis Hdots : a <> "...".
Hypothesis Hdn_base : vpath_basename dn = a.
Hypothesis Hdn_dir : truthy (vpath_dirname dn) = false.
Hypothesis Hplain_a : vpath_basename a = a.
Hypothesis Htruthy_a : truthy a = true.
Hypothesis Hnodir_a : truthy (vpath_dirname a) = false.
Hypothesis Hplain_b : vpath_basename b = b.
Hypothesis Htruthy_b : truthy b = true.
Hypothesis Hnodir_b : truthy (vpath_dirname b) = false.
Hypothesis Hmiss :
  Forall (fun e => exists oe, heap s !! e = Some oe /\ sameName ofs (name oe) a = false) l.

(** X20.  [addFile(path, content)] with a directory part that names one
    directory missing among the children makes that directory and the
    file in it, and returns the file: the directory is a new last child
    of [d], the file the only child of the directory, with the content
    given; every other object is as it was.  [getDirectory] of the
    directory part and [getFile(path)] then find the two. *)
Theorem addFile_makes_the_missing_directory content :
  exists s' dir file,
    invoke (S (S (S (S (S n))))) (addFile d path content) s
    = (s', Returned (Some (S (length (heap s)))))
    /\ (heap s' !! length (heap s) = Some dir
        /\ class dir = VirtualDirectory /\ name dir = a
        /\ _entries dir = Some [S (length (heap s))])
    /\ (heap s' !! S (length (heap s)) = Some file
        /\ class file = VirtualFile /\ name file = b /\ parent file = length (heap s)
        /\ _content file = (if content is content_string c then Some c else None))
    /\ (exists od', heap s' !! d = Some od' /\ _entries od' = Some (l ++ [length (heap s)]))
    /\ (forall r o, heap s !! r = Some o -> r <> d -> heap s' !! r = Some o)
    /\ run (S (S (S n))) (getDirectory d dn no_options) s'
       = (s', Returned (Some (length (heap s))))
    /\ run (S (S (S (S n)))) (getFile d path no_options) s'
       = (s', Returned (Some (S (length (heap s))))).
Proof.
  set (nd := length (heap s)).
  set (init := with_file (if content is content_string c then Some c else None)
                         (if content is content_function f then Some f else None)).
  set (ond := constructed VirtualDirectory od po d a (with_dir None None None)).
  set (sA := entry_attached s d od po l VirtualDirectory a (with_dir None None None)).
  set (od2 := with_dir (Some (l ++ [nd])) (_resolver od) (_shadowRoot od) od).
  set (ond1 := with_dir (Some []) None None ond).
  set (s1 := assigned nd ond1 sA).
  set (file := constructed VirtualFile ond1 ond1 nd b init).
  set (sB := entry_attached s1 nd ond1 ond1 [] VirtualFile b init).
  set (ond2 := with_dir (Some [S nd]) None None ond1).
  assert (Hdlt : d < nd) by (eapply lookup_lt_Some, Hd).
  assert (HAd : heap sA !! d = Some od2) by (apply attached_lookup_d, Hd).
  assert (HAn : heap sA !! nd = Some ond) by (apply attached_lookup_new, Hd).
  assert (H1n : heap s1 !! nd = Some ond1) by (eapply assigned_lookup_eq, HAn).
  assert (H1d : heap s1 !! d = Some od2).
  { unfold s1. rewrite assigned_lookup_ne by lia. exact HAd. }
  assert (Hlen1 : length (heap s1) = S nd).
  { unfold s1, sA, entry_attached. rewrite !assigned_length, allocated_length. reflexivity. }
  assert (HBn : heap sB !! nd = Some ond2).
  { unfold sB. rewrite (attached_lookup_d _ _ _ _ _ _ _ _ H1n), Hlen1. reflexivity. }
  assert (HBf : heap sB !! S nd = Some file).
  { rewrite <- Hlen1. apply attached_lookup_new, H1n. }
  assert (HBd : heap sB !! d = Some od2).
  { apply attached_lookup_old; [exact H1d|lia]. }
  assert (Hold : forall r o, heap s !! r = Some o -> r <> d -> heap sB !! r = Some o).
  { intros r o Hr Hne. pose proof (lookup_lt_Some _ _ _ Hr) as Hlt. fold nd in Hlt.
    apply attached_lookup_old; [|lia].
    unfold s1. rewrite assigned_lookup_ne by lia.
    apply attached_lookup_old; assumption. }
  assert (Hkept : forall r o, heap s !! r = Some o ->
            exists o2, heap sB !! r = Some o2 /\ name o2 = name o
                       /\ _useCaseSensitiveFileNames o2 = _useCaseSensitiveFileNames o).
  { intros r o Hr. destruct (decide (r = d)) as [-> | Hne].
    - exists od2. rewrite Hd in Hr. injection Hr as <-. auto.
    - exists o. split; [apply Hold; assumption|auto]. }
  destruct (Hkept _ _ Hfs) as (ofs2 & Hfs2 & _ & Hcase).
  assert (Hfresh : fresh_directory ond) by (repeat split).
  assert (Elookup : forall k, run (S (S (S k))) (getDirectory d dn no_options) sB
                               = (sB, Returned (Some nd))).
  { intros k. unfold getDirectory, getEntry_of_kind.
    rewrite run_bind, (run_get _ _ _ _ HBd).
    assert (E : run (S (S (S k)))
                  (call (getEntry d dn (with_kind kind_directory no_options))) sB
                = (sB, Returned (Some nd))).
    { rewrite run_call_invoke.
      rewrite (run_getEntry_plain k d od2 (l ++ [nd]) dn _ sB HBd Hclass eq_refl);
        [| | rewrite Hdn_base; exact Htruthy_a | exact Hdn_dir].
      - rewrite Hdn_base.
        rewrite (run_getEntry_scan_miss _ _ ofs2).
        + rewrite (run_getEntry_scan_hit _ _ ofs2 _ (with_kind kind_directory no_options)
                     _ ond2 _ _ Hfs2 HBn
                     (sameName_refl ofs2 a) eq_refl).
          reflexivity.
        + exact Hfs2.
        + eapply Forall_impl; [exact Hmiss|]. intros e (oe & He & Hne).
          destruct (Hkept _ _ He) as (oe2 & Hoe2 & Hname & _). exists oe2.
          split; [exact Hoe2|]. rewrite Hname, (sameName_stable ofs ofs2 _ _ Hcase).
          exact Hne.
      - apply Forall_app. split.
        + eapply Forall_impl; [exact Hmiss|]. intros e (oe & He & _).
          destruct (Hkept _ _ He) as (oe2 & Hoe2 & _). eauto.
        + repeat constructor. eauto. }
    change (class od2) with (class od). destruct Hclass as [-> | ->]; exact E. }
  exists sB, ond2, file.
  split; [|split; [|split; [|split; [|split; [|split]]]]].
  - rewrite invoke_S. simpl body. rewrite (run_dispatch _ _ _ _ _ Hd).
    assert (E : run (S (S (S (S n)))) (VirtualDirectory_addFile d path content) s
                = (sB, Returned (Some (S nd)))).
    { unfold VirtualDirectory_addFile.
      rewrite run_bind, (run_writePreamble_mutable _ _ _ _ Hd Hmutable).
      cbv zeta. rewrite Hbase, Htruthy_b, Hdir, Htdn. simpl negb. cbv iota.
      unfold ensureDirectory. cbv zeta. rewrite Hparse.
      replace (String.eqb (nth 1 [""; a] "") "...") with false
        by (symmetry; apply String.eqb_neq; exact Hdots).
      simpl orb. cbv iota. simpl drop. cbn [ensureDirectory_loop].
      rewrite !run_bind, run_call_invoke.
      rewrite (invoke_addDirectory_new n s d od ofs po l a None Hd Hclass Hmutable Hentries
                 Hfs Hpo Hsilent Hplain_a Htruthy_a Hnodir_a Hmiss).
      fold sA. fold nd. rewrite run_ret, run_call_invoke.
      rewrite (invoke_addFile_fresh n sA nd ond b content HAn Hfresh eq_refl eq_refl
                 Hplain_b Htruthy_b Hnodir_b).
      fold ond1. fold s1. fold init. fold sB.
      replace (length (heap sA)) with (S nd); [reflexivity|].
      unfold sA, entry_attached. rewrite assigned_length, allocated_length. reflexivity. }
    destruct Hclass as [-> | ->]; exact E.
  - repeat split; auto.
  - repeat split; auto.
  - exists od2. split; [exact HBd|reflexivity].
  - exact Hold.
  - apply (Elookup n).
  - unfold getFile, getEntry_of_kind. rewrite run_bind, (run_get _ _ _ _ HBd).
    assert (E : run (S (S (S (S n))))
                  (call (getEntry d path (with_kind kind_file no_options))) sB
                = (sB, Returned (Some (S nd)))).
    { rewrite run_call_invoke, invoke_S. simpl body. rewrite (run_dispatch _ _ _ _ _ HBd).
      assert (E : run (S (S (S n)))
                    (Container_getEntry d path (with_kind kind_file no_options)) sB
                  = (sB, Returned (Some (S nd)))).
      { unfold Container_getEntry. cbv zeta.
        rewrite Hbase, Htruthy_b, Hdir, Htdn. simpl negb. cbv iota.
        rewrite run_bind, (Elookup n), run_call_invoke.
        rewrite (run_getEntry_plain n nd ond2 [S nd] b _ sB HBn (or_introl eq_refl) eq_refl);
          [| repeat constructor; eauto | rewrite Hplain_b; exact Htruthy_b | exact Hnodir_b].
        rewrite Hplain_b.
        rewrite (run_getEntry_scan_hit _ _ ofs2 _ (with_kind kind_file no_options)
                   _ file _ _ Hfs2 HBf
                   (sameName_refl ofs2 b) eq_refl).
        reflexivity. }
      change (class od2) with (class od). destruct Hclass as [-> | ->]; exact E. }
    change (class od2) with (class od). destruct Hclass as [-> | ->]; exact E.
Qed.

End nested.

Section refused.
Context {env : Env}.

Lemma run_ensureDirectory_refused k s this dirname :
  length (vpath_parse dirname) <= 1
  \/ truthy (nth 0 (vpath_parse dirname) "") = true
  \/ nth 1 (vpath_parse dirname) "" = "..." ->
  run k (ensureDirectory this dirname) s = (s, Returned None).
Proof.
  intros H. unfold ensureDirectory. cbv zeta.
  replace ((length (vpath_parse dirname) <=? 1)
           || truthy (nth 0 (vpath_parse dirname) "")
           || String.eqb (nth 1 (vpath_parse dirname) "") "...") with true; [reflexivity|].
  symmetry. rewrite !orb_true_iff, Nat.leb_le, String.eqb_eq. tauto.
Qed.

(** X21.  An addition in a mutable directory under a path whose
    directory part does not parse to an unrooted path of at least one
    directory (the parsed form has no component after its root, has a
    root that is not empty, or starts with "...") makes nothing: both
    [addFile] and [addDirectory] return nothing and leave the store as
    it is, without raising. *)
Theorem an_addition_below_a_rooted_path_makes_nothing n s d od path content resolver :
  heap s !! d = Some od ->
  class od = VirtualDirectory \/ class od = VirtualDirectoryRoot ->
  _readOnly od = false ->
  truthy (vpath_basename path) = true ->
  truthy (vpath_dirname path) = true ->
  length (vpath_parse (vpath_dirname path)) <= 1
  \/ truthy (nth 0 (vpath_parse (vpath_dirname path)) "") = true
  \/ nth 1 (vpath_parse (vpath_dirname path)) "" = "..." ->
  invoke (S n) (addFile d path content) s = (s, Returned None)
  /\ invoke (S n) (addDirectory d path resolver) s = (s, Returned None).
Proof.
  intros Hd Hclass Hmutable Hb Hdn Hparse. split.
  - rewrite invoke_S. simpl body. rewrite (run_dispatch _ _ _ _ _ Hd).
    assert (E : run n (VirtualDirectory_addFile d path content) s = (s, Returned None)).
    { unfold VirtualDirectory_addFile.
      rewrite run_bind, (run_writePreamble_mutable _ _ _ _ Hd Hmutable).
      cbv zeta. rewrite Hb, Hdn. simpl negb. cbv iota.
      rewrite run_bind, (run_ensureDirectory_refused _ _ _ _ Hparse). reflexivity. }
    destruct Hclass as [-> | ->]; exact E.
  - rewrite invoke_S. simpl body. rewrite (run_dispatch _ _ _ _ _ Hd).
    assert (E : run n (VirtualDirectory_addDirectory d path resolver) s = (s, Returned None)).
    { unfold VirtualDirectory_addDirectory.
      rewrite run_bind, (run_writePreamble_mutable _ _ _ _ Hd Hmutable).
      cbv zeta. rewrite Hb, Hdn. simpl negb. cbv iota.
      rewrite run_bind, (run_ensureDirectory_refused _ _ _ _ Hparse). reflexivity. }
    destruct Hclass as [-> | ->]; exact E.
Qed.

End refused.

(** * The real path of a link *)

Section host_links.
Context {env : Env}.
Variables TypeScript SourceFile : Type.
Variables (n : nat) (s : State) (d : ref) (ofs od : Obj) (l : list ref).
Variables (host : CompilerHost TypeScript SourceFile) (fileName p : string).
Hypothesis Hfs : heap s !! vfs _ _ host = Some ofs.
Hypothesis Hcfs : class ofs = VirtualFileSystem.
Hypothesis Hroot : _root ofs = Some d.
Hypothesis Hd : heap s !! d = Some od.
Hypothesis Hclass : class od = VirtualDirectory \/ class od = VirtualDirectoryRoot.
Hypothesis Hentries : _entries od = Some l.
Hypothesis Hfsd : fileSystem od = vfs _ _ host.
Hypothesis Hchildren : Forall (fun e => is_Some (heap s !! e)) l.
Hypothesis Hgiven : vpath_resolve (_currentDirectory ofs) fileName = p.
Hypothesis Hplain : vpath_basename p = p.
Hypothesis Htruthy : truthy p = true.
Hypothesis Hnodir : truthy (vpath_dirname p) = false.

(** The lookup of [realpath] comes down to the scan of the children of
    the root directory. *)
Lemma run_realpath_scan k :
  run (S (S (S (S k)))) (CompilerHost_realpath _ _ host fileName) s
  = match run (S (S k)) (getEntry_scan (vfs _ _ host) p (mkOptions false true None None) l) s
    with
    | (s', Returned (Some entry)) =>
        run (S (S (S (S k))))
          (e <- get entry ;; Ret (if truthy (path_of e) then path_of e else fileName)) s'
    | (s', Returned None) => (s', Returned fileName)
    | (s', Thrown e) => (s', Thrown e)
    | (s', OutOfFuel) => (s', OutOfFuel)
    end.
Proof.
  unfold CompilerHost_realpath.
  rewrite run_bind, run_call_invoke, invoke_S. simpl body.
  rewrite (run_dispatch _ _ _ _ _ Hfs), Hcfs. unfold VirtualFileSystem_getEntry.
  unfold root at 1. rewrite run_bind, run_bind, (run_get _ _ _ _ Hfs), Hroot, run_ret.
  rewrite run_bind, (run_get _ _ _ _ Hfs), Hgiven, run_call_invoke.
  rewrite (run_getEntry_plain k d od l p _ s Hd Hclass Hentries Hchildren);
    [|rewrite Hplain; exact Htruthy|exact Hnodir].
  rewrite Hplain, Hfsd.
  destruct (run (S (S k)) (getEntry_scan (vfs _ _ host) p (mkOptions false true None None) l) s)
    as [s' [[entry|]|e|]]; reflexivity.
Qed.

(** X24.  [fileName] resolves to a plain name that a link is the first
    child of the root directory to bear.  Then [realpath(fileName)] is
    the path of the entry that the target path of the link leads to, if
    that is an entry which is no link itself, and [fileName] as it was
    given if the target path leads nowhere; neither raises. *)
Theorem realpath_of_a_link l1 lk olk l2 :
  l = l1 ++ lk :: l2 ->
  Forall (fun x => exists ox, heap s !! x = Some ox /\ sameName ofs (name ox) p = false) l1 ->
  heap s !! lk = Some olk ->
  sameName ofs (name olk) p = true ->
  instanceof_VirtualSymlink (class olk) = true ->
  (forall t ot,
     invoke (S n) (getEntry (vfs _ _ host) (_targetPath olk) no_options) s
     = (s, Returned (Some t)) ->
     heap s !! t = Some ot ->
     instanceof_VirtualSymlink (class ot) = false ->
     run (S (S (S (S n)))) (CompilerHost_realpath _ _ host fileName) s
     = (s, Returned (if truthy (path ot) then path ot else fileName)))
  /\ (invoke (S n) (getEntry (vfs _ _ host) (_targetPath olk) no_options) s
      = (s, Returned None) ->
      run (S (S (S (S n)))) (CompilerHost_realpath _ _ host fileName) s
      = (s, Returned fileName)).
Proof.
  intros Hl Hmiss Hlk Hsame Hlink.
  assert (Escan : run (S (S n))
                    (getEntry_scan (vfs _ _ host) p (mkOptions false true None None) l) s
                  = invoke (S (S n)) (findTarget (vfs _ _ host) (_targetPath olk) None) s).
  { rewrite Hl, (run_getEntry_scan_miss _ _ ofs _ _ _ _ _ Hfs Hmiss).
    cbn [getEntry_scan].
    rewrite run_bind, (run_get _ _ _ _ Hlk), run_bind, (run_get _ _ _ _ Hfs), Hsame.
    assert (Ematch : isMatch olk (mkOptions false true None None) = true).
    { unfold isMatch. simpl. destruct (instanceof_VirtualFile (class olk)); reflexivity. }
    rewrite Ematch. simpl negb. simpl followSymlinks. cbv iota. unfold getRealEntry.
    rewrite run_bind, (run_get _ _ _ _ Hlk), Hlink. apply run_call_invoke. }
  split.
  - intros t ot Hget Ht Hreal.
    rewrite run_realpath_scan, Escan, invoke_S. simpl body. unfold findTarget_body.
    rewrite run_bind, run_call_invoke, Hget, run_bind, (run_get _ _ _ _ Ht), Hreal, run_ret.
    rewrite run_bind, (run_get _ _ _ _ Ht). reflexivity.
  - intros Hget.
    rewrite run_realpath_scan, Escan, invoke_S. simpl body. unfold findTarget_body.
    rewrite run_bind, run_call_invoke, Hget. reflexivity.
Qed.

End host_links.

(** * What the clone of a directory lists *)

Section clone_listing.
Context {env : Env}.

Lemma cloned_class this o p po parent :
  class o <> VirtualFileSystem -> class o <> VirtualDirectoryRoot ->
  class (cloned this o p po parent) = class o.
Proof. intros H1 H2. unfold cloned. destruct (class o); congruence || reflexivity. Qed.

(** One clone made by the population loop, with its class. *)
Lemma populating_clone_class n s0 d od log refs done s e oe :
  is_Some (heap s0 !! owner_of od d) ->
  populating s0 d od log refs done s ->
  heap s !! e = Some oe ->
  class oe <> VirtualFileSystem -> class oe <> VirtualDirectoryRoot ->
  exists obj,
    (run (S n) (clone e d) s = (allocated obj s, Returned (length (heap s)))
     /\ name obj = name oe /\ _readOnly obj = false /\ _entries obj = None
     /\ class obj <> VirtualFileSystem /\ fileSystem obj = fileSystem od)
    /\ class obj = class oe.
Proof.
  intros Howner Hpop He Hc Hr.
  destruct (populating_owner s0 d od log Howner _ _ _ Hpop) as [po Hpo].
  destruct Hpop as (o & Ho & _ & _ & _ & Hc' & Hfs & _).
  assert (Hown : owner_of o d = owner_of od d).
  { unfold owner_of. rewrite Hc', Hfs. reflexivity. }
  exists (cloned e oe o po d). split; [split|].
  { apply run_clone; [exact He|exact Hc|exact Ho|rewrite Hown; exact Hpo]. }
  - rewrite cloned_name, cloned_readOnly, cloned_entries, cloned_fileSystem.
    repeat split; auto. apply cloned_not_fs.
  - apply cloned_class; assumption.
Qed.

(** Population of a clone from a shadow root whose children are
    materialized, with the classes of the children it makes. *)
Lemma returns_populate_shadow_kinds n s0 d od src osrc l :
  heap s0 !! d = Some od ->
  is_Some (heap s0 !! owner_of od d) ->
  _entries od = None ->
  _resolver od = None ->
  _shadowRoot od = Some src ->
  heap s0 !! src = Some osrc ->
  class osrc = VirtualDirectory \/ class osrc = VirtualDirectoryRoot ->
  _entries osrc = Some l ->
  Forall (fun e => exists oe, heap s0 !! e = Some oe /\ class oe <> VirtualFileSystem
                     /\ class oe <> VirtualDirectoryRoot) l ->
  returns (S n) (VirtualDirectory_getOwnEntries d) s0
    (fun s' l' =>
       populating s0 d od (asked s0) l' (map (fun e => default "" (name_at s0 e)) l) s'
       /\ classes_at s' l' (map (fun e => default VirtualFile (class_at s0 e)) l)).
Proof.
  intros Hd Howner Hentries Hresolver Hshadow Hsrc Hcsrc Hesrc Hall.
  assert (Hne : src <> d).
  { intros ->. rewrite Hd in Hsrc. injection Hsrc as ->. congruence. }
  unfold VirtualDirectory_getOwnEntries.
  apply returns_bind. eapply returns_get; [exact Hd|].
  rewrite Hentries, Hresolver, Hshadow.
  apply returns_bind. eapply returns_put; [exact Hd|reflexivity|].
  apply returns_bind. eapply returns_put; [eapply assigned_lookup_eq, Hd|reflexivity|].
  rewrite assigned_assigned.
  apply returns_bind. eapply returns_put; [eapply assigned_lookup_eq, Hd|reflexivity|].
  rewrite assigned_assigned.
  match goal with |- returns _ _ (assigned d ?o s0) _ => set (o1 := o) end.
  match goal with |- returns _ _ ?st _ => set (s1 := st) end.
  assert (Hstart : populating s0 d od (asked s0) [] [] s1).
  { apply populating_start with (o := o1); auto.
    unfold o1, stable. simpl. split_and!; eauto. }
  assert (Hsrc1 : heap s1 !! src = Some osrc).
  { unfold s1. rewrite assigned_lookup_ne by congruence. exact Hsrc. }
  clearbody s1. clear o1.
  apply returns_bind. apply returns_bind. apply returns_call. simpl body.
  eapply returns_dispatch with (p := VirtualDirectory_getOwnEntries src);
    [exact Hsrc1|destruct Hcsrc as [-> | ->]; reflexivity|].
  unfold VirtualDirectory_getOwnEntries at 1.
  apply returns_bind. eapply returns_get; [exact Hsrc1|]. rewrite Hesrc.
  apply returns_ret.
  apply returns_for_of with
    (I := fun rest s => exists refs done,
            l = done ++ rest
            /\ populating s0 d od (asked s0) refs
                 (map (fun e => default "" (name_at s0 e)) done) s
            /\ classes_at s refs (map (fun e => default VirtualFile (class_at s0 e)) done)).
  - intros e rest s (refs & done & Hl & Hpop & Hcs).
    assert (Hin : e ∈ l).
    { rewrite Hl. apply elem_of_app. right. apply elem_of_cons. left. reflexivity. }
    rewrite Forall_forall in Hall. destruct (Hall e Hin) as (oe & Hoe & Hcoe & Hroe).
    assert (Hname0 : default "" (name_at s0 e) = name oe).
    { unfold name_at. rewrite Hoe. reflexivity. }
    assert (Hclass0 : default VirtualFile (class_at s0 e) = class oe).
    { unfold class_at. rewrite Hoe. reflexivity. }
    assert (He : exists oe', heap s !! e = Some oe' /\ name oe' = name oe
                             /\ class oe' = class oe).
    { destruct Hpop as (o & Ho & _ & _ & _ & Hc' & _ & _ & Hnm & _ & _ & _ & _ & Hframe & _).
      destruct (decide (e = d)) as [-> | Hned].
      - exists o. rewrite Hd in Hoe. injection Hoe as <-. auto.
      - exists oe. rewrite Hframe; [auto| |exact Hned]. eapply lookup_lt_Some, Hoe. }
    destruct He as (oe' & Hoe' & Hnm' & Hcoe').
    eapply returns_consequence.
    + eapply (populating_step_class n s0 d od (asked s0) _ (name oe) _ refs _ (class oe));
        [exact Hd|exact Hpop|exact Hcs|].
      rewrite <- Hnm', <- Hcoe'.
      eapply populating_clone_class; eauto; congruence.
    + intros s' u [Hpop' Hcs']. eexists _, (done ++ [e]). split; [|split].
      * rewrite Hl, <- app_assoc. reflexivity.
      * rewrite map_app. simpl. rewrite Hname0. exact Hpop'.
      * rewrite map_app. simpl. rewrite Hclass0. exact Hcs'.
  - intros s3 (refs & done & Hdone & Hpop & Hcs). rewrite app_nil_r in Hdone. subst done.
    destruct Hpop as (o3 & Ho3 & He3 & Hrest).
    apply returns_bind. eapply returns_get; [exact Ho3|]. apply returns_ret.
    rewrite He3. simpl. split; [|exact Hcs].
    exists o3. split; [exact Ho3|]. split; [exact He3|exact Hrest].
  - exists [], []. split; [reflexivity|]. split; [exact Hstart|constructor].
Qed.

(** X19.  The first listing of the clone of a directory whose original
    has its children materialized returns one new entry per child of
    the original, in the original's order, each with the name and the
    class of the child it stands for; no resolver is asked and nothing
    that was there but the clone itself changes.  Every later listing
    returns the same entries and leaves the store as it is. *)
Theorem a_clone_lists_what_the_original_holds n s d od src osrc l :
  heap s !! d = Some od ->
  class od = VirtualDirectory \/ class od = VirtualDirectoryRoot ->
  is_Some (heap s !! fileSystem od) ->
  _entries od = None ->
  _resolver od = None ->
  _shadowRoot od = Some src ->
  heap s !! src = Some osrc ->
  class osrc = VirtualDirectory \/ class osrc = VirtualDirectoryRoot ->
  _entries osrc = Some l ->
  Forall (fun e => exists oe, heap s !! e = Some oe /\ class oe <> VirtualFileSystem
                     /\ class oe <> VirtualDirectoryRoot) l ->
  exists s' l',
    invoke (S (S (S n))) (getEntries d no_options) s = (s', Returned l')
    /\ Forall2 (fun e' e => length (heap s) <= e'
                             /\ is_Some (name_at s e)
                             /\ name_at s' e' = name_at s e
                             /\ class_at s' e' = class_at s e) l' l
    /\ NoDup l'
    /\ asked s' = asked s
    /\ (forall r, r < length (heap s) -> r <> d -> heap s' !! r = heap s !! r)
    /\ forall k, invoke (S (S k)) (getEntries d no_options) s' = (s', Returned l').
Proof.
  intros Hd Hclass Hfs Hentries Hresolver Hshadow Hsrc Hcsrc Hesrc Hall.
  assert (Howner : is_Some (heap s !! owner_of od d)).
  { unfold owner_of. destruct Hclass as [-> | ->]; [eauto|exact Hfs]. }
  destruct (returns_populate_shadow_kinds n s d od src osrc l Hd Howner Hentries Hresolver
              Hshadow Hsrc Hcsrc Hesrc Hall)
    as (s' & l' & Hrun & Hpop & Hcs).
  pose proof Hpop as (o & Ho & He & Hr & Hsh & Hc & _ & _ & _ & _ & Hnames & Hnd & _ & Hframe
                        & Hask).
  assert (Hexist : Forall (fun e => is_Some (heap s' !! e)) l').
  { clear -Hnames. remember (map _ l) as names eqn:E. clear E.
    induction Hnames as [|e nm l0 names (_ & oe & Hoe & _) _ IH]; constructor; eauto. }
  assert (Hclass' : class o = VirtualDirectory \/ class o = VirtualDirectoryRoot).
  { rewrite Hc. exact Hclass. }
  exists s', l'. split; [|split; [|split; [exact Hnd|split; [exact Hask|split; [exact Hframe|]]]]].
  - rewrite (invoke_getEntries_directory (S n) d od no_options s Hd Hclass eq_refl), Hrun.
    apply run_filter_all, Hexist.
  - unfold classes_at in Hcs. rewrite Forall2_fmap_r in Hnames. rewrite Forall2_fmap_r in Hcs.
    clear -Hnames Hcs Hall.
    induction Hnames as [|e' e l' l (Hge & oe' & Hoe' & Hnm & _) _ IH].
    + constructor.
    + apply Forall2_cons_1 in Hcs as [Hce Hcs]. apply Forall_cons in Hall as [(oe & Hoe & _) Hall].
      constructor; [|apply IH; assumption].
      split; [exact Hge|]. unfold name_at, class_at in *. simpl in Hce.
      rewrite Hoe in *. rewrite Hoe' in *.
      simpl in *. split; [eauto|]. split; congruence.
  - intros k. eapply run_getEntries_materialized; eauto.
Qed.

End clone_listing.

(** * Making links *)

Section making_links.
Context {env : Env}.
Variables (n : nat) (s : State) (d : ref) (od ofs po : Obj) (l : list ref) (p : string).
Hypothesis Hd : heap s !! d = Some od.
Hypothesis Hclass : class od = VirtualDirectory \/ class od = VirtualDirectoryRoot.
Hypothesis Hmutable : _readOnly od = false.
Hypothesis Hentries : _entries od = Some l.
Hypothesis Hfs : heap s !! fileSystem od = Some ofs.
Hypothesis Hpo : heap s !! owner_of od d = Some po.
Hypothesis Hsilent : listeners_childAdded od = [].
Hypothesis Hplain : vpath_basename p = p.
Hypothesis Htruthy : truthy p = true.
Hypothesis Hnodir : truthy (vpath_dirname p) = false.
Hypothesis Hmiss :
  Forall (fun e => exists oe, heap s !! e = Some oe /\ sameName ofs (name oe) p = false) l.



End making_links.

(** A file symlink [lk] of a file system whose root directory [d] has
    its children materialized; the target path of the link resolves to
    a plain name [q] that the mutable file [t] is the first child of
    the root directory to bear. *)
Section through_a_file_link.
Context {env : Env}.
Variables (n : nat) (s : State) (fs d lk t : ref) (ofs od olk ot : Obj).
Variables (l l1 l2 : list ref) (q : string).
Hypothesis Hfs : heap s !! fs = Some ofs.
Hypothesis Hcfs : class ofs = VirtualFileSystem.
Hypothesis Hroot : _root ofs = Some d.
Hypothesis Hd : heap s !! d = Some od.
Hypothesis Hclass : class od = VirtualDirectory \/ class od = VirtualDirectoryRoot.
Hypothesis Hentries : _entries od = Some l.
Hypothesis Hfsd : fileSystem od = fs.
Hypothesis Hlk : heap s !! lk = Some olk.
Hypothesis Hclk : class olk = VirtualFileSymlink.
Hypothesis Hfslk : fileSystem olk = fs.
Hypothesis Hq : vpath_resolve (_currentDirectory ofs) (_targetPath olk) = q.
Hypothesis Hplain : vpath_basename q = q.
Hypothesis Htruthy : truthy q = true.
Hypothesis Hnodir : truthy (vpath_dirname q) = false.
Hypothesis Hl : l = l1 ++ t :: l2.
Hypothesis Hmiss :
  Forall (fun x => exists ox, heap s !! x = Some ox /\ sameName ofs (name ox) q = false) l1.
Hypothesis Hrest : Forall (fun x => is_Some (heap s !! x)) l2.
Hypothesis Ht : heap s !! t = Some ot.
Hypothesis Hsame : sameName ofs (name ot) q = true.
Hypothesis Hct : class ot = VirtualFile.
Hypothesis Hmutable : _readOnly ot = false.

(** The link finds its target in every store that differs from [s] in
    the content of the target only. *)
Lemma run_getRealFile_there k c cr :
  run (S (S (S (S (S k))))) (getRealFile lk) (assigned t (with_file c cr ot) s)
  = (assigned t (with_file c cr ot) s, Returned (Some t)).
Proof.
  set (ot' := with_file c cr ot). set (st := assigned t ot' s).
  assert (Htfs : t <> fs) by (intros E; rewrite E, Hfs in Ht; congruence).
  assert (Htd : t <> d).
  { intros E. rewrite E, Hd in Ht. injection Ht as <-. destruct Hclass; congruence. }
  assert (Htlk : t <> lk) by (intros E; rewrite E, Hlk in Ht; congruence).
  assert (Hst : forall r o, heap s !! r = Some o -> r <> t -> heap st !! r = Some o).
  { intros r o Hr Hne. unfold st. rewrite assigned_lookup_ne by congruence. exact Hr. }
  assert (Hstt : heap st !! t = Some ot') by (eapply assigned_lookup_eq, Ht).
  assert (Hkept : forall r o, heap s !! r = Some o ->
            exists o', heap st !! r = Some o' /\ name o' = name o).
  { intros r o Hr. destruct (decide (r = t)) as [-> | Hne].
    - exists ot'. rewrite Ht in Hr. injection Hr as <-. auto.
    - exists o. auto. }
  assert (Hchildren : Forall (fun e => is_Some (heap st !! e)) l).
  { rewrite Hl. apply Forall_app. split; [|constructor; [eauto|]].
    - eapply Forall_impl; [exact Hmiss|]. intros x (ox & Hx & _).
      destruct (Hkept _ _ Hx) as (o' & Ho' & _). eauto.
    - eapply Forall_impl; [exact Hrest|]. intros x [ox Hx].
      destruct (Hkept _ _ Hx) as (o' & Ho' & _). eauto. }
  assert (Hfs' : heap st !! fileSystem od = Some ofs) by (rewrite Hfsd; auto).
  assert (Hmiss' : Forall (fun x => exists ox, heap st !! x = Some ox
                              /\ sameName ofs (name ox) q = false) l1).
  { eapply Forall_impl; [exact Hmiss|]. intros x (ox & Hx & Hne).
    destruct (Hkept _ _ Hx) as (o' & Ho' & Hnm). exists o'. rewrite Hnm. auto. }
  unfold getRealFile.
  rewrite run_bind, (run_get _ _ _ _ (Hst _ _ Hlk (not_eq_sym Htlk))), Hfslk.
  rewrite run_bind, run_call_invoke, invoke_S. simpl body. unfold findTarget_body.
  rewrite run_bind, run_call_invoke, invoke_S. simpl body.
  rewrite (run_dispatch _ _ _ _ _ (Hst _ _ Hfs (not_eq_sym Htfs))), Hcfs.
  unfold VirtualFileSystem_getEntry, root.
  rewrite !run_bind, (run_get _ _ _ _ (Hst _ _ Hfs (not_eq_sym Htfs))), Hroot, run_ret.
  rewrite !run_bind, (run_get _ _ _ _ (Hst _ _ Hfs (not_eq_sym Htfs))), Hq, run_call_invoke.
  rewrite (run_getEntry_first_match k st d od ofs l (Hst _ _ Hd (not_eq_sym Htd)) Hclass
             Hentries Hfs' Hchildren q no_options l1 t ot' l2 Hplain Htruthy Hnodir eq_refl
             Hl Hmiss' Hstt Hsame).
  rewrite isMatch_no_options, run_bind, (run_get _ _ _ _ Hstt).
  change (class ot') with (class ot). rewrite Hct. simpl instanceof_VirtualSymlink.
  cbv iota. rewrite run_ret, run_bind, (run_get _ _ _ _ Hstt).
  change (class ot') with (class ot). rewrite Hct. reflexivity.
Qed.

(** X29.  What is written through the link is what is read through it,
    and what the target itself then holds: [setContent] on the link
    stores the string in the target and changes no other object, and
    [getContent] on the link and on the target return it. *)
Theorem writing_through_a_file_link_is_read_back c :
  exists s',
    invoke (S (S (S (S (S (S n)))))) (setContent lk (Some c)) s = (s', Returned tt)
    /\ invoke (S (S (S (S (S (S n)))))) (getContent lk) s' = (s', Returned (Some c))
    /\ invoke (S n) (getContent t) s' = (s', Returned (Some c))
    /\ (forall r, r <> t -> heap s' !! r = heap s !! r).
Proof.
  set (s' := assigned t (with_file (Some c) None ot) s).
  assert (Htlk : t <> lk) by (intros E; rewrite E, Hlk in Ht; congruence).
  assert (Ht' : heap s' !! t = Some (with_file (Some c) None ot))
    by (eapply assigned_lookup_eq, Ht).
  assert (Hlk' : heap s' !! lk = Some olk).
  { unfold s'. rewrite assigned_lookup_ne by congruence. exact Hlk. }
  assert (Es : assigned t (with_file (_content ot) (_contentResolver ot) ot) s = s).
  { apply assigned_same. rewrite Ht. f_equal. destruct ot. reflexivity. }
  assert (Eread : forall k, invoke (S k) (getContent t) s' = (s', Returned (Some c))).
  { intros k. rewrite invoke_S. simpl body. rewrite (run_dispatch _ _ _ _ _ Ht').
    change (class (with_file (Some c) None ot)) with (class ot). rewrite Hct.
    unfold VirtualFile_getContent. rewrite run_bind, (run_get _ _ _ _ Ht'). reflexivity. }
  exists s'. split; [|split; [|split; [apply Eread|]]].
  - rewrite invoke_S. simpl body. rewrite (run_dispatch _ _ _ _ _ Hlk), Hclk.
    unfold VirtualFileSymlink_setContent.
    pose proof (run_getRealFile_there n (_content ot) (_contentResolver ot)) as E.
    rewrite Es in E. rewrite run_bind, E, run_call_invoke, invoke_S. simpl body.
    rewrite (run_dispatch _ _ _ _ _ Ht), Hct.
    apply run_VirtualFile_setContent; assumption.
  - rewrite invoke_S. simpl body. rewrite (run_dispatch _ _ _ _ _ Hlk'), Hclk.
    unfold VirtualFileSymlink_getContent.
    pose proof (run_getRealFile_there n (Some c) None) as E. fold s' in E.
    rewrite run_bind, E, run_call_invoke.
    apply Eread.
  - intros r Hne. unfold s'. rewrite assigned_lookup_ne by congruence. reflexivity.
Qed.

End through_a_file_link.

(** * What a directory symlink lists *)

Section link_listing.
Context {env : Env}.

Lemma map_get_set_ne k k' v m : k' <> k -> map_get k' (map_set k v m) = map_get k' m.
Proof.
  intros Hne. induction m as [|[a b] m IH]; simpl.
  - destruct (Nat.eqb_spec k' k); [congruence|reflexivity].
  - destruct (Nat.eqb_spec k a) as [-> |]; simpl.
    + destruct (Nat.eqb_spec k' a); [congruence|reflexivity].
    + destruct (Nat.eqb_spec k' a); [reflexivity|exact IH].
Qed.

(** One link made by the listing. *)
Lemma mirroring_step k s0 this o seen done s e oe c init :
  heap s0 !! this = Some o ->
  class o = VirtualDirectorySymlink ->
  mirroring s0 this o seen done s ->
  heap s0 !! e = Some oe ->
  (forall p, class p = VirtualDirectorySymlink ->
             wrapper_of this oe (constructed c p p this (name oe) init)) ->
  returns k
    (symlink <- new_entry c this (name oe) init ;;
     put this (symLinks_set e symlink) ;;
     Ret symlink) s
    (fun s' y => mirroring s0 this o (seen ++ [e]) (done ++ [y]) s').
Proof.
  intros Hthis Hclass (o' & Ho' & Hst & Hse & Hmap & Hall & Hnd & Hlen & Hframe & Hask) He Hw.
  assert (Hlt : this < length (heap s0)) by (eapply lookup_lt_Some, Hthis).
  pose proof Hst as (Hc' & _).
  assert (Hown : owner_of o' this = this) by (unfold owner_of; rewrite Hc', Hclass; reflexivity).
  apply returns_bind. eapply returns_run.
  { apply (run_new_entry _ _ _ _ _ o' o'); [exact Ho'|rewrite Hown; exact Ho']. }
  set (w := constructed c o' o' this (name oe) init).
  set (fresh := length (heap s)).
  apply returns_bind. eapply returns_put.
  { apply allocated_lookup_old, Ho'. }
  { reflexivity. }
  apply returns_ret.
  set (o2 := with_link (_targetPath o') (_target o') (map_set e fresh (_symLinks o'))
               (_symEntries o') o').
  assert (Hkeep : forall r x, heap s !! r = Some x -> r <> this ->
            heap (assigned this o2 (allocated w s)) !! r = Some x).
  { intros r x Hr Hne. rewrite assigned_lookup_ne by congruence.
    apply allocated_lookup_old, Hr. }
  exists o2. split_and!.
  - eapply assigned_lookup_eq. apply allocated_lookup_old, Ho'.
  - exact Hst.
  - exact Hse.
  - intros e2 Hnin Hnone. unfold o2. simpl.
    rewrite map_get_set_ne.
    + apply Hmap; [|exact Hnone]. intros Hin. apply Hnin, elem_of_app. left. exact Hin.
    + intros ->. apply Hnin, elem_of_app. right. left.
  - apply Forall2_app.
    + eapply Forall2_impl; [exact Hall|]. intros e' e0 (Hge & oe0 & w0 & H0 & Hw0 & Hwr).
      split; [exact Hge|]. exists oe0, w0. split; [exact H0|]. split; [|exact Hwr].
      apply Hkeep; [exact Hw0|lia].
    + constructor; [|constructor]. split; [exact Hlen|]. exists oe, w.
      split; [exact He|]. split; [|apply Hw; congruence].
      rewrite assigned_lookup_ne by (unfold fresh; lia). apply allocated_lookup_new.
  - apply NoDup_app. split; [exact Hnd|]. split; [|apply NoDup_singleton].
    intros e' Hin Hin'. apply list_elem_of_singleton in Hin'. subst e'.
    clear -Hall Hin. induction Hall as [|e' e0 l1 l2 (_ & _ & w0 & _ & Hw0 & _) _ IH].
    + inversion Hin.
    + apply elem_of_cons in Hin as [E | Hin]; [|auto].
      apply lookup_lt_Some in Hw0. unfold fresh in E. lia.
  - rewrite assigned_length, allocated_length. lia.
  - intros r Hr Hne. rewrite assigned_lookup_ne by congruence.
    unfold allocated. simpl. rewrite lookup_app_l by lia. apply Hframe; assumption.
  - exact Hask.
Qed.

Lemma returns_getWrappedEntry k s0 this o seen done s e oe :
  heap s0 !! this = Some o ->
  class o = VirtualDirectorySymlink ->
  mirroring s0 this o seen done s ->
  heap s0 !! e = Some oe ->
  e ∉ seen ->
  map_get e (_symLinks o) = None ->
  returns k (getWrappedEntry this e) s
    (fun s' y => mirroring s0 this o (seen ++ [e]) (done ++ [y]) s').
Proof.
  intros Hthis Hclass Hm He Hnin Hnone.
  pose proof Hm as (o' & Ho' & Hst & Hse & Hmap & _ & _ & _ & Hframe & _).
  assert (Hcur : exists x, heap s !! e = Some x /\ name x = name oe /\ path x = path oe
                           /\ class x = class oe).
  { destruct (decide (e = this)) as [-> | Hne].
    - exists o'. rewrite Hthis in He. injection He as <-.
      destruct Hst as (? & ? & ? & ? & ? & _). auto.
    - exists oe. rewrite Hframe; [auto|eapply lookup_lt_Some, He|exact Hne]. }
  destruct Hcur as (x & Hx & Hnm & Hp & Hc).
  unfold getWrappedEntry.
  apply returns_bind. eapply returns_get; [exact Ho'|].
  apply returns_bind. eapply returns_get; [exact Hx|].
  cbv zeta. rewrite (Hmap e Hnin Hnone).
  apply returns_bind. apply returns_ret.
  rewrite Hnm, Hp, Hc.
  destruct (instanceof_VirtualFile (class oe)) eqn:Ef.
  - unfold new_VirtualFileSymlink. eapply mirroring_step; eauto.
    intros p Hcp. unfold wrapper_of, constructed. rewrite Ef, Hcp. repeat split.
  - unfold new_VirtualDirectorySymlink. eapply mirroring_step; eauto.
    intros p Hcp. unfold wrapper_of, constructed. rewrite Ef, Hcp. repeat split.
Qed.

(** X23.  A directory symlink that is resolved to a directory whose
    children are materialized, and that holds no link for any of them,
    lists at its first listing one new link per child of the target,
    in the target's order: a file symlink for a file or file symlink, a
    directory symlink otherwise, with the name of the child and its
    path for a target.  Nothing that was there but the symlink itself
    changes, and every later listing returns the same links and leaves
    the store as it is. *)
Theorem a_resolved_link_lists_a_link_per_child n s this o t ot l :
  heap s !! this = Some o ->
  class o = VirtualDirectorySymlink ->
  _target o = Some t ->
  _symEntries o = None ->
  heap s !! t = Some ot ->
  class ot = VirtualDirectory \/ class ot = VirtualDirectoryRoot ->
  _entries ot = Some l ->
  NoDup l ->
  Forall (fun e => is_Some (heap s !! e) /\ map_get e (_symLinks o) = None) l ->
  exists s' l',
    invoke (S (S (S (S n)))) (getEntries this no_options) s = (s', Returned l')
    /\ Forall2 (fun e' e => length (heap s) <= e'
                  /\ exists oe w, heap s !! e = Some oe /\ heap s' !! e' = Some w
                                  /\ wrapper_of this oe w) l' l
    /\ NoDup l'
    /\ (forall r, r < length (heap s) -> r <> this -> heap s' !! r = heap s !! r)
    /\ asked s' = asked s
    /\ forall k, invoke (S (S k)) (getEntries this no_options) s' = (s', Returned l').
Proof.
  intros Hthis Hclass Htarget Hsym Ht Hct Hentries Hnd Hall.
  assert (Hchildren : Forall (fun e => is_Some (heap s !! e)) l).
  { eapply Forall_impl; [exact Hall|]. intros e [H _]. exact H. }
  assert (Hlt : this < length (heap s)) by (eapply lookup_lt_Some, Hthis).
  assert (Hreal : forall k st x, heap st !! this = Some x -> _target x = Some t ->
            run k (getRealDirectory this) st = (st, Returned (Some t))).
  { intros k st x Hx Hxt. unfold getRealDirectory, resolveTarget.
    rewrite run_bind, run_bind, (run_get _ _ _ _ Hx), Hxt, run_ret.
    rewrite run_bind, (run_get _ _ _ _ Hx), Hxt. reflexivity. }
  assert (Hown : returns (S (S n)) (VirtualDirectorySymlink_getOwnEntries this) s
            (fun s' l' =>
               (exists o2, heap s' !! this = Some o2 /\ class o2 = VirtualDirectorySymlink
                           /\ _symEntries o2 = Some l')
               /\ Forall2 (fun e' e => length (heap s) <= e'
                             /\ exists oe w, heap s !! e = Some oe /\ heap s' !! e' = Some w
                                             /\ wrapper_of this oe w) l' l
               /\ NoDup l'
               /\ (forall r, r < length (heap s) -> r <> this -> heap s' !! r = heap s !! r)
               /\ asked s' = asked s)).
  { unfold VirtualDirectorySymlink_getOwnEntries.
    apply returns_bind. eapply returns_get; [exact Hthis|]. rewrite Hsym.
    apply returns_bind. eapply returns_run; [apply (Hreal _ _ _ Hthis Htarget)|].
    apply returns_bind. apply returns_bind. eapply returns_run.
    { rewrite run_call_invoke. eapply run_getEntries_materialized; eauto. }
    apply returns_map_of with
      (I := fun rest done s' => exists seen, l = seen ++ rest /\ mirroring s this o seen done s').
    - intros e rest done s1 (seen & Hl & Hm).
      assert (Hin : e ∈ l).
      { rewrite Hl. apply elem_of_app. right. left. }
      rewrite Forall_forall in Hall. destruct (Hall e Hin) as [[oe Hoe] Hnone].
      assert (Hnin : e ∉ seen).
      { rewrite Hl in Hnd. apply NoDup_app in Hnd as (_ & Hdisj & _).
        intros Hin'. apply (Hdisj e Hin'). left. }
      eapply returns_consequence.
      + eapply returns_getWrappedEntry; eauto.
      + intros s2 y Hm'. exists (seen ++ [e]). split; [|exact Hm'].
        rewrite Hl, <- app_assoc. reflexivity.
    - intros done s1 (seen & Hl & Hm). rewrite app_nil_r in Hl. subst seen.
      destruct Hm as (o' & Ho' & (Hc' & _) & Hse & _ & Hdone & Hndd & Hlen & Hframe & Hask).
      apply returns_bind. eapply returns_put; [exact Ho'|reflexivity|].
      apply returns_ret. split; [|split; [|split; [exact Hndd|split]]].
      + eexists. split; [eapply assigned_lookup_eq, Ho'|]. split; [|reflexivity].
        simpl. congruence.
      + eapply Forall2_impl; [exact Hdone|].
        intros e' e (Hge & oe & w & Hoe & Hw & Hwr). split; [exact Hge|].
        exists oe, w. split; [exact Hoe|]. split; [|exact Hwr].
        rewrite assigned_lookup_ne by lia. exact Hw.
      + intros r Hr Hne. rewrite assigned_lookup_ne by congruence. apply Hframe; assumption.
      + exact Hask.
    - exists []. split; [reflexivity|]. exists o.
      split_and!; auto using stable_refl; constructor. }
  destruct Hown as (s' & l' & Hrun & (o2 & Ho2 & Hc2 & Hs2) & Hdone & Hndd & Hframe & Hask).
  assert (Hexist : Forall (fun e => is_Some (heap s' !! e)) l').
  { clear -Hdone. induction Hdone as [|e' e l1 l2 (_ & _ & w & _ & Hw & _) _ IH];
      constructor; eauto. }
  exists s', l'. split; [|split; [exact Hdone|split; [exact Hndd|split; [exact Hframe|split;
    [exact Hask|]]]]].
  - rewrite invoke_S. simpl body. rewrite (run_dispatch _ _ _ _ _ Hthis), Hclass.
    simpl instanceof_VirtualFile. cbv iota.
    unfold Container_getEntries. simpl recursive. cbv iota.
    rewrite run_bind, run_call. simpl body. rewrite (run_dispatch _ _ _ _ _ Hthis), Hclass.
    rewrite Hrun. apply run_filter_all, Hexist.
  - intros k. rewrite invoke_S. simpl body. rewrite (run_dispatch _ _ _ _ _ Ho2), Hc2.
    simpl instanceof_VirtualFile. cbv iota.
    unfold Container_getEntries. simpl recursive. cbv iota.
    rewrite run_bind, run_call. simpl body. rewrite (run_dispatch _ _ _ _ _ Ho2), Hc2.
    unfold VirtualDirectorySymlink_getOwnEntries.
    rewrite run_bind, (run_get _ _ _ _ Ho2), Hs2, run_ret.
    apply run_filter_all, Hexist.
Qed.

End link_listing.

(** A mutable directory [d] (object [od], materialized children [l]) on
    which the directory symlink [link] (object [ol]) listens, as one
    that is resolved to [d] does; the link has been listed ([ls]), and
    nobody listens on the link itself. *)
Section live.
Context {env : Env}.
Variables (n : nat) (s : State) (d : ref) (od ofs po : Obj) (l : list ref).
Variables (link : ref) (ol : Obj) (ls : list ref) (p : string).
Hypothesis Hd : heap s !! d = Some od.
Hypothesis Hclass : class od = VirtualDirectory \/ class od = VirtualDirectoryRoot.
Hypothesis Hmutable : _readOnly od = false.
Hypothesis Hentries : _entries od = Some l.
Hypothesis Hfs : heap s !! fileSystem od = Some ofs.
Hypothesis Hpo : heap s !! owner_of od d = Some po.
Hypothesis Hadded : listeners_childAdded od = [onTargetChildAdded link].
Hypothesis Hlink : heap s !! link = Some ol.
Hypothesis Hcl : class ol = VirtualDirectorySymlink.
Hypothesis Hlisted : _symEntries ol = Some ls.
Hypothesis Hquiet : listeners_childAdded ol = [].
Hypothesis Hunknown : map_get (length (heap s)) (_symLinks ol) = None.
Hypothesis Hls : Forall (fun e => is_Some (heap s !! e)) ls.
Hypothesis Hplain : vpath_basename p = p.
Hypothesis Htruthy : truthy p = true.
Hypothesis Hnodir : truthy (vpath_dirname p) = false.
Hypothesis Hmiss :
  Forall (fun e => exists oe, heap s !! e = Some oe /\ sameName ofs (name oe) p = false) l.

Lemma link_is_not_d : link <> d.
Proof.
  intros E. rewrite E, Hd in Hlink. injection Hlink as <-.
  destruct Hclass; congruence.
Qed.

(** X26.  [addFile(p, content)] under a new name in the directory makes
    the file and, through the listener, one file symlink for it in the
    link: the listing of the link is the one it had with the new
    symlink at its end, which bears the name of the file, has the path
    of the file for its target and the link for its parent. *)
Theorem a_listed_link_mirrors_an_addition content :
  exists s' w,
    invoke (S (S (S (S n)))) (addFile d p content) s
    = (s', Returned (Some (length (heap s))))
    /\ invoke (S (S n)) (getEntries link no_options) s'
       = (s', Returned (ls ++ [S (length (heap s))]))
    /\ heap s' !! S (length (heap s)) = Some w
    /\ class w = VirtualFileSymlink /\ name w = p /\ parent w = link
    /\ (exists file, heap s' !! length (heap s) = Some file
                     /\ class file = VirtualFile /\ _targetPath w = path file)
    /\ (exists od', heap s' !! d = Some od' /\ _entries od' = Some (l ++ [length (heap s)]))
    /\ (forall r o, heap s !! r = Some o -> r <> d -> r <> link -> heap s' !! r = Some o).
Proof.
  pose proof link_is_not_d as Hne.
  assert (Hchildren : Forall (fun e => is_Some (heap s !! e)) l).
  { eapply Forall_impl; [exact Hmiss|]. intros e (oe & He & _). eauto. }
  set (f := length (heap s)).
  set (init := with_file (if content is content_string c then Some c else None)
                         (if content is content_function g then Some g else None)).
  set (file := constructed VirtualFile od po d p init).
  set (s2 := entry_attached s d od po l VirtualFile p init).
  set (od2 := with_dir (Some (l ++ [f])) (_resolver od) (_shadowRoot od) od).
  set (w := constructed VirtualFileSymlink ol ol link (name file)
              (fun o => with_link (path file) None [] None (with_file None None o))).
  set (s3 := allocated w s2).
  set (ol3 := with_link (_targetPath ol) (_target ol) (map_set f (S f) (_symLinks ol))
                (_symEntries ol) ol).
  set (s4 := assigned link ol3 s3).
  set (ol5 := with_link (_targetPath ol3) (_target ol3) (_symLinks ol3)
                (Some (ls ++ [S f])) ol3).
  set (s5 := assigned link ol5 s4).
  assert (Hdlt : d < f) by (eapply lookup_lt_Some, Hd).
  assert (Hllt : link < f) by (eapply lookup_lt_Some, Hlink).
  assert (Hlen2 : length (heap s2) = S f).
  { unfold s2, entry_attached. rewrite assigned_length, allocated_length. reflexivity. }
  assert (H2d : heap s2 !! d = Some od2) by (apply attached_lookup_d, Hd).
  assert (H2f : heap s2 !! f = Some file) by (apply attached_lookup_new, Hd).
  assert (H2l : heap s2 !! link = Some ol) by (apply attached_lookup_old; assumption).
  assert (H3l : heap s3 !! link = Some ol) by (apply allocated_lookup_old, H2l).
  assert (H4l : heap s4 !! link = Some ol3) by (eapply assigned_lookup_eq, H3l).
  assert (H5l : heap s5 !! link = Some ol5) by (eapply assigned_lookup_eq, H4l).
  assert (Hkeep : forall r o, heap s2 !! r = Some o -> r <> link -> heap s5 !! r = Some o).
  { intros r o Hr Hnl. unfold s5, s4. rewrite !assigned_lookup_ne by congruence.
    apply allocated_lookup_old, Hr. }
  assert (H5w : heap s5 !! S f = Some w).
  { unfold s5, s4. rewrite !assigned_lookup_ne by lia. rewrite <- Hlen2.
    apply allocated_lookup_new. }
  assert (Ewrap : run (S (S n)) (getWrappedEntry link f) s2 = (s4, Returned (S f))).
  { unfold getWrappedEntry.
    rewrite run_bind, (run_get _ _ _ _ H2l), run_bind, (run_get _ _ _ _ H2f).
    cbv zeta. fold f in Hunknown. rewrite Hunknown.
    rewrite run_bind, run_ret.
    change (instanceof_VirtualFile (class file)) with true. cbv iota.
    unfold new_VirtualFileSymlink.
    rewrite run_bind, (run_new_entry _ _ _ _ _ ol ol s2 H2l);
      [|unfold owner_of; rewrite Hcl; exact H2l].
    fold w. fold s3. rewrite Hlen2.
    rewrite run_bind. erewrite run_put_assigned; [|exact H3l|reflexivity].
    reflexivity. }
  assert (Elistener : run (S (S n)) (VirtualDirectorySymlink_onTargetChildAdded link f) s2
                      = (s5, Returned tt)).
  { unfold VirtualDirectorySymlink_onTargetChildAdded.
    rewrite run_bind, Ewrap.
    assert (EP : run (S (S n)) (push_own link (S f)) s4 = (s5, Returned tt)).
    { unfold push_own. rewrite run_bind, run_call_invoke, invoke_S. simpl body.
      rewrite (run_dispatch _ _ _ _ _ H4l).
      change (class ol3) with (class ol). rewrite Hcl.
      unfold VirtualDirectorySymlink_getOwnEntries.
      rewrite run_bind, (run_get _ _ _ _ H4l).
      change (_symEntries ol3) with (_symEntries ol). rewrite Hlisted, run_ret.
      rewrite run_bind, (run_get _ _ _ _ H4l).
      change (class ol3) with (class ol). rewrite Hcl.
      erewrite run_put_assigned; [reflexivity|exact H4l|].
      simpl. rewrite Hlisted. reflexivity. }
    rewrite run_bind, EP.
    apply (run_emit_silent _ _ ol5); [exact H5l|exact Hquiet]. }
  assert (H5f : heap s5 !! f = Some file) by (apply Hkeep; [exact H2f|lia]).
  assert (H5d : heap s5 !! d = Some od2) by (apply Hkeep; [exact H2d|congruence]).
  assert (Hwp : parent w = link).
  { unfold w, constructed. simpl. rewrite Hcl. reflexivity. }
  exists s5, w.
  split; [|split; [|split; [exact H5w|split; [reflexivity|split; [reflexivity|split;
    [exact Hwp|split; [|split]]]]]]].
  - rewrite invoke_S. simpl body. rewrite (run_dispatch _ _ _ _ _ Hd).
    assert (E : run (S (S (S n))) (VirtualDirectory_addFile d p content) s
                = (s5, Returned (Some f))).
    { unfold VirtualDirectory_addFile.
      rewrite run_bind, (run_writePreamble_mutable _ _ _ _ Hd Hmutable).
      cbv zeta. rewrite Hplain, Htruthy, Hnodir. simpl negb. cbv iota.
      rewrite run_bind, run_call_invoke.
      rewrite (run_getEntry_plain n d od l p no_options s Hd Hclass Hentries Hchildren);
        [|rewrite Hplain; exact Htruthy|exact Hnodir].
      rewrite Hplain, <- (app_nil_r l) at 1.
      rewrite (run_getEntry_scan_miss _ _ ofs _ _ _ _ _ Hfs Hmiss).
      cbn [getEntry_scan]. rewrite run_ret.
      unfold new_VirtualFile. fold init.
      rewrite run_bind.
      rewrite (run_attach_entry_heard _ s d od po l _ _ _ s5 Hd Hclass Hentries Hpo).
      - rewrite run_bind, (run_get _ _ _ _ H5f). reflexivity.
      - fold s2. fold f. unfold emit.
        rewrite run_bind, (run_get _ _ _ _ H2d).
        change (listeners childAdded od2) with (listeners_childAdded od).
        rewrite Hadded. cbn [for_of].
        rewrite run_bind, run_call_invoke, invoke_S. simpl body.
        rewrite Elistener. reflexivity. }
    destruct Hclass as [-> | ->]; exact E.
  - rewrite invoke_S. simpl body. rewrite (run_dispatch _ _ _ _ _ H5l).
    change (class ol5) with (class ol). rewrite Hcl.
    simpl instanceof_VirtualFile. cbv iota.
    unfold Container_getEntries. simpl recursive. cbv iota.
    rewrite run_bind, run_call. simpl body. rewrite (run_dispatch _ _ _ _ _ H5l).
    change (class ol5) with (class ol). rewrite Hcl.
    unfold VirtualDirectorySymlink_getOwnEntries.
    rewrite run_bind, (run_get _ _ _ _ H5l). simpl _symEntries. cbv iota.
    rewrite ?run_ret.
    apply run_filter_all. apply Forall_app. split.
    + eapply Forall_impl; [exact Hls|]. intros e [oe He].
      destruct (decide (e = link)) as [-> | Hnl]; [eauto|].
      destruct (decide (e = d)) as [-> | Hnd]; [eauto|].
      exists oe. apply Hkeep; [|exact Hnl]. apply attached_lookup_old; assumption.
    + repeat constructor. eauto.
  - exists file. split; [exact H5f|]. split; reflexivity.
  - exists od2. split; [exact H5d|reflexivity].
  - intros r o Hr Hnd Hnl. apply Hkeep; [|exact Hnl]. apply attached_lookup_old; assumption.
Qed.

End live.

(** The same directory and link where a removal is heard: the first
    file [f] of the directory to bear the name [p] has the symlink [w]
    at position [i] of the listing of the link. *)
Section live_removal.
Context {env : Env}.
Variables (n : nat) (s : State) (d : ref) (od ofs : Obj) (l : list ref).
Variables (link : ref) (ol : Obj) (ls : list ref) (p : string).
Variables (l1 l2 : list ref) (f w : ref) (ofile ow : Obj) (i : nat).
Hypothesis Hd : heap s !! d = Some od.
Hypothesis Hclass : class od = VirtualDirectory \/ class od = VirtualDirectoryRoot.
Hypothesis Hmutable : _readOnly od = false.
Hypothesis Hentries : _entries od = Some l.
Hypothesis Hfs : heap s !! fileSystem od = Some ofs.
Hypothesis Hremoved : listeners_childRemoved od = [onTargetChildRemoved link].
Hypothesis Hlink : heap s !! link = Some ol.
Hypothesis Hcl : class ol = VirtualDirectorySymlink.
Hypothesis Hlisted : _symEntries ol = Some ls.
Hypothesis Hquiet : listeners_childRemoved ol = [].
Hypothesis Hls : Forall (fun e => is_Some (heap s !! e)) ls.
Hypothesis Hplain : vpath_basename p = p.
Hypothesis Htruthy : truthy p = true.
Hypothesis Hnodir : truthy (vpath_dirname p) = false.
Hypothesis Hl : l = l1 ++ f :: l2.
Hypothesis Hmiss :
  Forall (fun e => exists oe, heap s !! e = Some oe
            /\ sameName ofs p (name oe) && instanceof_VirtualFile (class oe) = false) l1.
Hypothesis Hf : heap s !! f = Some ofile.
Hypothesis Hfile : instanceof_VirtualFile (class ofile) = true.
Hypothesis Hsame : sameName ofs p (name ofile) = true.
Hypothesis Hknown : map_get f (_symLinks ol) = Some w.
Hypothesis Hw : heap s !! w = Some ow.
Hypothesis Hcw : class ow = VirtualFileSymlink.
Hypothesis Hindex : indexOf w ls = Some i.

(** X27.  [removeFile(p)] in the directory takes the file out of its
    children and, through the listener, the symlink that stands for it
    out of the listing of the link, which is otherwise as it was; the
    link forgets the symlink, and nothing else changes. *)
Theorem a_listed_link_mirrors_a_removal :
  exists s',
    invoke (S (S (S n))) (removeFile d p) s = (s', Returned true)
    /\ invoke (S (S n)) (getEntries link no_options) s' = (s', Returned (splice i ls))
    /\ (exists od', heap s' !! d = Some od' /\ _entries od' = Some (l1 ++ l2))
    /\ (exists ol', heap s' !! link = Some ol' /\ map_get f (_symLinks ol') = None)
    /\ (forall r o, heap s !! r = Some o -> r <> d -> r <> link -> heap s' !! r = Some o).
Proof.
  assert (Hne : link <> d).
  { intros E. rewrite E, Hd in Hlink. injection Hlink as <-. destruct Hclass; congruence. }
  assert (Hfd : f <> d).
  { intros E. rewrite E, Hd in Hf. injection Hf as <-.
    destruct Hclass as [E' | E']; rewrite E' in Hfile; discriminate. }
  assert (Hwd : w <> d).
  { intros E. rewrite E, Hd in Hw. injection Hw as <-. destruct Hclass; congruence. }
  assert (Hwl : w <> link).
  { intros E. rewrite E, Hlink in Hw. injection Hw as <-. congruence. }
  assert (Hfl : f <> link).
  { intros E. rewrite E, Hlink in Hf. injection Hf as <-. rewrite Hcl in Hfile. discriminate. }
  set (od1 := with_dir (Some (splice (length l1) l)) (_resolver od) (_shadowRoot od) od).
  set (s1 := assigned d od1 s).
  set (ol2 := with_link (_targetPath ol) (_target ol) (_symLinks ol) (Some (splice i ls)) ol).
  set (s2 := assigned link ol2 s1).
  set (ol3 := with_link (_targetPath ol2) (_target ol2) (map_delete f (_symLinks ol2))
                (_symEntries ol2) ol2).
  set (s3 := assigned link ol3 s2).
  assert (H1d : heap s1 !! d = Some od1) by (eapply assigned_lookup_eq, Hd).
  assert (H1 : forall r o, heap s !! r = Some o -> r <> d -> heap s1 !! r = Some o).
  { intros r o Hr Hn. unfold s1. rewrite assigned_lookup_ne by congruence. exact Hr. }
  assert (H2l : heap s2 !! link = Some ol2) by (eapply assigned_lookup_eq, H1, Hne; exact Hlink).
  assert (H3l : heap s3 !! link = Some ol3) by (eapply assigned_lookup_eq, H2l).
  assert (H3 : forall r o, heap s1 !! r = Some o -> r <> link -> heap s3 !! r = Some o).
  { intros r o Hr Hn. unfold s3, s2. rewrite !assigned_lookup_ne by congruence. exact Hr. }
  assert (Eown : forall k st o, heap st !! link = Some o -> class o = VirtualDirectorySymlink ->
            forall es, _symEntries o = Some es ->
            invoke (S k) (getOwnEntries link) st = (st, Returned es)).
  { intros k st o Ho Hc es Hes. rewrite invoke_S. simpl body.
    rewrite (run_dispatch _ _ _ _ _ Ho), Hc. unfold VirtualDirectorySymlink_getOwnEntries.
    rewrite run_bind, (run_get _ _ _ _ Ho), Hes. reflexivity. }
  assert (Elistener : run (S n) (VirtualDirectorySymlink_onTargetChildRemoved link f) s1
                      = (s3, Returned tt)).
  { unfold VirtualDirectorySymlink_onTargetChildRemoved, getWrappedEntry.
    rewrite !run_bind, (run_get _ _ _ _ (H1 _ _ Hlink Hne)).
    rewrite !run_bind, (run_get _ _ _ _ (H1 _ _ Hf Hfd)).
    cbv zeta. rewrite Hknown.
    rewrite !run_bind, (run_get _ _ _ _ (H1 _ _ Hw Hwd)), run_ret, Hfile, Hcw, run_ret.
    rewrite run_bind, run_call_invoke, (Eown _ _ _ (H1 _ _ Hlink Hne) Hcl _ Hlisted), Hindex.
    unfold splice_own.
    rewrite !run_bind, (run_get _ _ _ _ (H1 _ _ Hlink Hne)), Hcl.
    erewrite run_put_assigned; [|exact (H1 _ _ Hlink Hne)|simpl; rewrite Hlisted; reflexivity].
    fold ol2. fold s2.
    rewrite run_bind.
    erewrite run_put_assigned; [|exact H2l|reflexivity].
    fold ol3. fold s3.
    apply (run_emit_silent _ _ ol3); [exact H3l|exact Hquiet]. }
  exists s3. split; [|split; [|split; [|split]]].
  - rewrite invoke_S. simpl body. rewrite (run_dispatch _ _ _ _ _ Hd).
    assert (E : run (S (S n)) (VirtualDirectory_removeFile d p) s = (s3, Returned true)).
    { unfold VirtualDirectory_removeFile.
      rewrite run_bind, (run_writePreamble_mutable _ _ _ _ Hd Hmutable).
      cbv zeta. rewrite Hplain, Htruthy, Hnodir. simpl negb. cbv iota.
      rewrite run_bind, run_call_invoke.
      rewrite (run_getOwnEntries_materialized _ d od l s Hd Hclass Hentries).
      rewrite Hl at 1.
      rewrite (run_remove_scan_miss _ d od ofs _ p (f :: l2) s l1 0 Hd Hfs Hmiss).
      cbn [remove_scan].
      rewrite run_bind, (run_get _ _ _ _ Hf), run_bind, (run_get _ _ _ _ Hd).
      rewrite run_bind, (run_get _ _ _ _ Hfs), Hsame, Hfile. simpl andb. cbv iota.
      unfold splice_own at 1.
      rewrite !run_bind, (run_get _ _ _ _ Hd).
      assert (Eu : (if class od is VirtualDirectorySymlink
                    then splice_symEntries (length l1 + 0)
                    else splice_entries (length l1 + 0))
                   = splice_entries (length l1)).
      { rewrite Nat.add_0_r. destruct Hclass as [-> | ->]; reflexivity. }
      rewrite Eu.
      erewrite run_put_assigned; [|exact Hd|simpl; rewrite Hentries; reflexivity].
      fold od1. fold s1. unfold emit.
      rewrite !run_bind, (run_get _ _ _ _ H1d).
      change (listeners childRemoved od1) with (listeners_childRemoved od).
      rewrite Hremoved. cbn [for_of].
      rewrite !run_bind, run_call_invoke, invoke_S. simpl body.
      rewrite Elistener. reflexivity. }
    destruct Hclass as [-> | ->]; exact E.
  - rewrite invoke_S. simpl body. rewrite (run_dispatch _ _ _ _ _ H3l).
    change (class ol3) with (class ol). rewrite Hcl.
    simpl instanceof_VirtualFile. cbv iota.
    unfold Container_getEntries. simpl recursive. cbv iota.
    rewrite run_bind, run_call_invoke, (Eown _ _ _ H3l Hcl (splice i ls) eq_refl).
    apply run_filter_all.
    assert (Hall : Forall (fun e => is_Some (heap s3 !! e)) ls).
    { eapply Forall_impl; [exact Hls|]. intros e [oe He].
      destruct (decide (e = link)) as [-> | Hnl]; [eauto|].
      destruct (decide (e = d)) as [-> | Hnd]; [exists od1; apply H3; auto|].
      exists oe. apply H3; [apply H1; assumption|exact Hnl]. }
    rewrite Forall_forall in Hall. apply Forall_forall. intros e He. apply Hall.
    unfold splice in He. apply elem_of_app in He as [He | He].
    + apply elem_of_take in He as (j & Hj & _). eapply list_elem_of_lookup_2, Hj.
    + apply list_elem_of_lookup in He as [j Hj]. rewrite lookup_drop in Hj.
      eapply list_elem_of_lookup_2, Hj.
  - exists od1. split; [apply H3; [exact H1d|congruence]|].
    unfold od1. simpl. f_equal. rewrite Hl. unfold splice.
    rewrite take_app_length.
    change (l1 ++ f :: l2) with (l1 ++ [f] ++ l2). rewrite app_assoc.
    rewrite drop_app_length'; [reflexivity|]. rewrite length_app. simpl. lia.
  - exists ol3. split; [exact H3l|]. unfold ol3, ol2. simpl.
    unfold map_delete. clear. induction (_symLinks ol) as [|[a b] m IH]; [reflexivity|].
    rewrite filter_cons. destruct (decide _) as [Hp | Hp]; [|exact IH].
    simpl in Hp |- *. destruct (Nat.eqb f a); [contradiction|exact IH].
  - intros r o Hr Hnd Hnl. apply H3; [apply H1; assumption|exact Hnl].
Qed.

End live_removal.

(** A directory [t] to which the link is resolved, held by the mutable
    directory [pd] (no root directory) as the first directory of the
    name [p]; the link's listeners are the only ones on [t] and on
    [pd]. *)
Section target_removed.
Context {env : Env}.
Variables (n : nat) (s : State) (pd t link : ref) (opd ot ol ofs : Obj).
Variables (l l1 l2 : list ref) (p : string).
Hypothesis Hpd : heap s !! pd = Some opd.
Hypothesis Hplace : class opd = VirtualDirectory.
Hypothesis Hmutable : _readOnly opd = false.
Hypothesis Hentries : _entries opd = Some l.
Hypothesis Hfs : heap s !! fileSystem opd = Some ofs.
Hypothesis Hheard : listeners_childRemoved opd = [onTargetParentChildRemoved link].
Hypothesis Hplain : vpath_basename p = p.
Hypothesis Htruthy : truthy p = true.
Hypothesis Hnodir : truthy (vpath_dirname p) = false.
Hypothesis Hl : l = l1 ++ t :: l2.
Hypothesis Hmiss :
  Forall (fun e => exists oe, heap s !! e = Some oe
            /\ sameName ofs p (name oe) && instanceof_VirtualDirectory (class oe) = false) l1.
Hypothesis Ht : heap s !! t = Some ot.
Hypothesis Hct : class ot = VirtualDirectory.
Hypothesis Hparent : parent ot = pd.
Hypothesis Hdistinct : t <> pd.
Hypothesis Hsame : sameName ofs p (name ot) = true.
Hypothesis Hadded : listeners_childAdded ot = [onTargetChildAdded link].
Hypothesis Hremoved : listeners_childRemoved ot = [onTargetChildRemoved link].
Hypothesis Hlink : heap s !! link = Some ol.
Hypothesis Hcl : class ol = VirtualDirectorySymlink.
Hypothesis Htarget : _target ol = Some t.

Lemma remove_last_singleton h : remove_last h [h] = [].
Proof.
  cbn [remove_last].
  rewrite (bool_decide_eq_false_2 (h ∈ [])) by (intros H; apply elem_of_nil in H; exact H).
  rewrite (bool_decide_eq_true_2 (h = h)) by reflexivity. reflexivity.
Qed.

(** X30.  [removeDirectory(p)] in [pd] takes the directory out of the
    children of [pd] and, through the listener, makes the link let go
    of it: the link holds no target, no listing and no symlinks any
    more, and none of its listeners is left on the directory or on
    [pd]; the directory itself keeps its children.  The link is then
    broken as soon as its target path finds nothing. *)
Theorem removing_the_target_unhooks_the_link :
  exists s',
    invoke (S (S (S n))) (removeDirectory pd p) s = (s', Returned true)
    /\ (exists ol', heap s' !! link = Some ol' /\ _target ol' = None
                    /\ _symEntries ol' = None /\ _symLinks ol' = []
                    /\ _targetPath ol' = _targetPath ol)
    /\ (exists ot', heap s' !! t = Some ot' /\ listeners_childAdded ot' = []
                    /\ listeners_childRemoved ot' = [] /\ _entries ot' = _entries ot)
    /\ (exists opd', heap s' !! pd = Some opd' /\ _entries opd' = Some (l1 ++ l2)
                     /\ listeners_childRemoved opd' = [])
    /\ (forall r, r <> pd -> r <> t -> r <> link -> heap s' !! r = heap s !! r)
    /\ (forall k,
          invoke k (findTarget (fileSystem ol) (_targetPath ol) None) s' = (s', Returned None) ->
          run k (VirtualDirectorySymlink_isBroken link) s' = (s', Returned true)).
Proof.
  assert (Hclass : class opd = VirtualDirectory \/ class opd = VirtualDirectoryRoot)
    by (left; exact Hplace).
  assert (Hlp : link <> pd).
  { intros E. rewrite E, Hpd in Hlink. injection Hlink as <-. destruct Hclass; congruence. }
  assert (Hlt : link <> t).
  { intros E. rewrite E, Ht in Hlink. injection Hlink as <-. congruence. }
  set (opd1 := with_dir (Some (splice (length l1) l)) (_resolver opd) (_shadowRoot opd) opd).
  set (s1 := assigned pd opd1 s).
  set (opd2 := with_listeners (listeners_childAdded opd1) [] opd1).
  set (s2 := assigned pd opd2 s1).
  set (ot2 := with_listeners [] (listeners_childRemoved ot) ot).
  set (s3 := assigned t ot2 s2).
  set (ot3 := with_listeners [] [] ot2).
  set (s4 := assigned t ot3 s3).
  set (ol5 := with_link (_targetPath ol) None (_symLinks ol) (_symEntries ol) ol).
  set (s5 := assigned link ol5 s4).
  set (ol6 := with_link (_targetPath ol) None [] (_symEntries ol) ol5).
  set (s6 := assigned link ol6 s5).
  set (ol7 := with_link (_targetPath ol) None [] None ol6).
  set (s7 := assigned link ol7 s6).
  assert (H1p : heap s1 !! pd = Some opd1) by (eapply assigned_lookup_eq, Hpd).
  assert (H1l : heap s1 !! link = Some ol).
  { unfold s1. rewrite assigned_lookup_ne by congruence. exact Hlink. }
  assert (H1t : heap s1 !! t = Some ot).
  { unfold s1. rewrite assigned_lookup_ne by congruence. exact Ht. }
  assert (H2p : heap s2 !! pd = Some opd2) by (eapply assigned_lookup_eq, H1p).
  assert (H2t : heap s2 !! t = Some ot).
  { unfold s2. rewrite assigned_lookup_ne by congruence. exact H1t. }
  assert (H3t : heap s3 !! t = Some ot2) by (eapply assigned_lookup_eq, H2t).
  assert (H4t : heap s4 !! t = Some ot3) by (eapply assigned_lookup_eq, H3t).
  assert (H4l : heap s4 !! link = Some ol).
  { unfold s4, s3, s2. rewrite !assigned_lookup_ne by congruence. exact H1l. }
  assert (H5l : heap s5 !! link = Some ol5) by (eapply assigned_lookup_eq, H4l).
  assert (H6l : heap s6 !! link = Some ol6) by (eapply assigned_lookup_eq, H5l).
  assert (H7l : heap s7 !! link = Some ol7) by (eapply assigned_lookup_eq, H6l).
  assert (Einvalidate : run (S n) (invalidateTarget link) s1 = (s7, Returned tt)).
  { unfold invalidateTarget.
    rewrite run_bind, (run_get _ _ _ _ H1l), Htarget.
    rewrite run_bind, (run_get _ _ _ _ H1t), Hparent.
    rewrite run_bind.
    erewrite run_put_assigned; [|exact H1p|simpl; rewrite Hheard, remove_last_singleton;
                                             reflexivity].
    fold opd2. fold s2. rewrite run_bind.
    erewrite run_put_assigned; [|exact H2t|simpl; rewrite Hadded, remove_last_singleton;
                                             reflexivity].
    fold ot2. fold s3. rewrite run_bind.
    erewrite run_put_assigned; [|exact H3t|simpl; rewrite Hremoved, remove_last_singleton;
                                             reflexivity].
    fold ot3. fold s4. rewrite run_bind.
    erewrite run_put_assigned; [|exact H4l|reflexivity].
    fold ol5. fold s5. rewrite run_bind.
    erewrite run_put_assigned; [|exact H5l|reflexivity].
    fold ol6. fold s6.
    erewrite run_put_assigned; [|exact H6l|reflexivity].
    reflexivity. }
  exists s7. split; [|split; [|split; [|split; [|split]]]].
  - rewrite invoke_S. simpl body. rewrite (run_dispatch _ _ _ _ _ Hpd).
    assert (E : run (S (S n)) (VirtualDirectory_removeDirectory pd p) s = (s7, Returned true)).
    { unfold VirtualDirectory_removeDirectory.
      rewrite run_bind, (run_writePreamble_mutable _ _ _ _ Hpd Hmutable).
      cbv zeta. rewrite Hplain, Htruthy, Hnodir. simpl negb. cbv iota.
      rewrite run_bind, run_call_invoke.
      rewrite (run_getOwnEntries_materialized _ pd opd l s Hpd Hclass Hentries).
      rewrite Hl at 1.
      rewrite (run_remove_scan_miss _ pd opd ofs _ p (t :: l2) s l1 0 Hpd Hfs Hmiss).
      cbn [remove_scan].
      rewrite run_bind, (run_get _ _ _ _ Ht), run_bind, (run_get _ _ _ _ Hpd).
      rewrite run_bind, (run_get _ _ _ _ Hfs), Hsame, Hct. simpl andb. cbv iota.
      unfold splice_own at 1.
      rewrite !run_bind, (run_get _ _ _ _ Hpd).
      assert (Eu : (if class opd is VirtualDirectorySymlink
                    then splice_symEntries (length l1 + 0)
                    else splice_entries (length l1 + 0))
                   = splice_entries (length l1)).
      { rewrite Nat.add_0_r. destruct Hclass as [-> | ->]; reflexivity. }
      rewrite Eu.
      erewrite run_put_assigned; [|exact Hpd|simpl; rewrite Hentries; reflexivity].
      fold opd1. fold s1. unfold emit.
      rewrite !run_bind, (run_get _ _ _ _ H1p).
      change (listeners childRemoved opd1) with (listeners_childRemoved opd).
      rewrite Hheard. cbn [for_of].
      rewrite !run_bind, run_call_invoke, invoke_S. simpl body.
      unfold VirtualDirectorySymlink_onTargetParentChildRemoved.
      rewrite run_bind, (run_get _ _ _ _ H1l).
      rewrite bool_decide_eq_true_2 by exact Htarget.
      rewrite Einvalidate. reflexivity. }
    destruct Hclass as [-> | ->]; exact E.
  - exists ol7. split; [exact H7l|]. repeat split.
  - exists ot3. split; [|repeat split].
    unfold s7, s6, s5. rewrite !assigned_lookup_ne by congruence. exact H4t.
  - exists opd2. split; [|split; [|reflexivity]].
    + unfold s7, s6, s5, s4, s3. rewrite !assigned_lookup_ne by congruence. exact H2p.
    + unfold opd2, opd1. simpl. f_equal. rewrite Hl. unfold splice.
      rewrite take_app_length.
      change (l1 ++ t :: l2) with (l1 ++ [t] ++ l2). rewrite app_assoc.
      rewrite drop_app_length'; [reflexivity|]. rewrite length_app. simpl. lia.
  - intros r Hrp Hrt Hrl. unfold s7, s6, s5, s4, s3, s2, s1.
    rewrite !assigned_lookup_ne by congruence. reflexivity.
  - intros k Hfind. apply (run_isBroken_unresolved k link ol7 s7 H7l eq_refl Hfind).
Qed.

End target_removed.

(** A directory [t] held by the root directory of a file system as the
    first directory of the name [p], and a link that is not resolved
    yet, whose target path finds [t]; nobody listens for removals on
    the root directory. *)
Section target_under_the_root.
Context {env : Env}.
Variables (n : nat) (s : State) (fs root t link : ref) (ofs oroot ot ol : Obj).
Variables (l l1 l2 : list ref) (p : string).
Hypothesis Hfs : heap s !! fs = Some ofs.
Hypothesis Hcfs : class ofs = VirtualFileSystem.
Hypothesis Hroot : heap s !! root = Some oroot.
Hypothesis Hcroot : class oroot = VirtualDirectoryRoot.
Hypothesis Hmutable : _readOnly oroot = false.
Hypothesis Hentries : _entries oroot = Some l.
Hypothesis Hfsroot : fileSystem oroot = fs.
Hypothesis Hquiet : listeners_childRemoved oroot = [].
Hypothesis Hplain : vpath_basename p = p.
Hypothesis Htruthy : truthy p = true.
Hypothesis Hnodir : truthy (vpath_dirname p) = false.
Hypothesis Hl : l = l1 ++ t :: l2.
Hypothesis Hmiss :
  Forall (fun e => exists oe, heap s !! e = Some oe
            /\ sameName ofs p (name oe) && instanceof_VirtualDirectory (class oe) = false) l1.
Hypothesis Ht : heap s !! t = Some ot.
Hypothesis Hct : class ot = VirtualDirectory.
Hypothesis Hparent : parent ot = fs.
Hypothesis Hsame : sameName ofs p (name ot) = true.
Hypothesis Hlink : heap s !! link = Some ol.
Hypothesis Hcl : class ol = VirtualDirectorySymlink.
Hypothesis Hunresolved : _target ol = None.
Hypothesis Hfind :
  invoke (S n) (findTarget (fileSystem ol) (_targetPath ol) None) s = (s, Returned (Some t)).

(** X30.  The link resolves to [t] and puts its listener for the
    removal of its target on the parent of [t], which for a child of
    the root directory is the file system and not the root directory.
    So [removeDirectory(p)] in the root directory, which announces the
    removal on the root directory, takes [t] out of the children
    without the link hearing of it: the link keeps [t] for its target
    and is not broken, though [t] is no longer in the tree. *)
Theorem a_link_to_a_child_of_the_root_outlives_its_target :
  exists s1 s2,
    run (S n) (VirtualDirectorySymlink_isBroken link) s = (s1, Returned false)
    /\ (exists ofs1, heap s1 !! fs = Some ofs1
          /\ listeners_childRemoved ofs1
             = listeners_childRemoved ofs ++ [onTargetParentChildRemoved link])
    /\ (exists oroot1, heap s1 !! root = Some oroot1 /\ listeners_childRemoved oroot1 = [])
    /\ invoke (S (S (S n))) (removeDirectory root p) s1 = (s2, Returned true)
    /\ (exists oroot2, heap s2 !! root = Some oroot2 /\ _entries oroot2 = Some (l1 ++ l2))
    /\ (exists ol2, heap s2 !! link = Some ol2 /\ _target ol2 = Some t)
    /\ forall k, run k (VirtualDirectorySymlink_isBroken link) s2 = (s2, Returned false).
Proof.
  assert (Hlf : link <> fs) by (intros E; rewrite E, Hfs in Hlink; congruence).
  assert (Hlr : link <> root) by (intros E; rewrite E, Hroot in Hlink; congruence).
  assert (Hlt : link <> t) by (intros E; rewrite E, Ht in Hlink; congruence).
  assert (Htf : t <> fs) by (intros E; rewrite E, Hfs in Ht; congruence).
  assert (Htr : t <> root) by (intros E; rewrite E, Hroot in Ht; congruence).
  assert (Hrf : root <> fs) by (intros E; rewrite E, Hfs in Hroot; congruence).
  set (ol1 := with_link (_targetPath ol) (Some t) (_symLinks ol) (_symEntries ol) ol).
  set (sa := assigned link ol1 s).
  set (ofs1 := with_listeners (listeners_childAdded ofs)
                 (listeners_childRemoved ofs ++ [onTargetParentChildRemoved link]) ofs).
  set (sb := assigned fs ofs1 sa).
  set (ot1 := with_listeners (listeners_childAdded ot ++ [onTargetChildAdded link])
                (listeners_childRemoved ot) ot).
  set (sc := assigned t ot1 sb).
  set (ot2 := with_listeners (listeners_childAdded ot1)
                (listeners_childRemoved ot1 ++ [onTargetChildRemoved link]) ot1).
  set (s1 := assigned t ot2 sc).
  set (oroot2 := with_dir (Some (splice (length l1) l)) (_resolver oroot) (_shadowRoot oroot)
                   oroot).
  set (s2 := assigned root oroot2 s1).
  assert (Hal : heap sa !! link = Some ol1) by (eapply assigned_lookup_eq, Hlink).
  assert (Haf : heap sa !! fs = Some ofs).
  { unfold sa. rewrite assigned_lookup_ne by congruence. exact Hfs. }
  assert (Hbf : heap sb !! fs = Some ofs1) by (eapply assigned_lookup_eq, Haf).
  assert (Hbt : heap sb !! t = Some ot).
  { unfold sb, sa. rewrite !assigned_lookup_ne by congruence. exact Ht. }
  assert (Hct' : heap sc !! t = Some ot1) by (eapply assigned_lookup_eq, Hbt).
  assert (H1t : heap s1 !! t = Some ot2) by (eapply assigned_lookup_eq, Hct').
  assert (H1l : heap s1 !! link = Some ol1).
  { unfold s1, sc, sb. rewrite !assigned_lookup_ne by congruence. exact Hal. }
  assert (H1f : heap s1 !! fs = Some ofs1).
  { unfold s1, sc. rewrite !assigned_lookup_ne by congruence. exact Hbf. }
  assert (H1r : heap s1 !! root = Some oroot).
  { unfold s1, sc, sb, sa. rewrite !assigned_lookup_ne by congruence. exact Hroot. }
  assert (H2r : heap s2 !! root = Some oroot2) by (eapply assigned_lookup_eq, H1r).
  assert (H2l : heap s2 !! link = Some ol1).
  { unfold s2. rewrite assigned_lookup_ne by congruence. exact H1l. }
  assert (Hkept : forall r o, heap s !! r = Some o ->
            exists o1, heap s1 !! r = Some o1 /\ name o1 = name o /\ class o1 = class o).
  { intros r o Hr.
    destruct (decide (r = t)) as [-> | Hnt].
    { exists ot2. rewrite Ht in Hr. injection Hr as <-. auto. }
    destruct (decide (r = fs)) as [-> | Hnf].
    { exists ofs1. rewrite Hfs in Hr. injection Hr as <-. auto. }
    destruct (decide (r = link)) as [-> | Hnl].
    { exists ol1. rewrite Hlink in Hr. injection Hr as <-. auto. }
    exists o. split; [|auto].
    unfold s1, sc, sb, sa. rewrite !assigned_lookup_ne by congruence. exact Hr. }
  assert (Hresolved : forall k st, heap st !! link = Some ol1 ->
            run k (VirtualDirectorySymlink_isBroken link) st = (st, Returned false)).
  { intros k st Hst. unfold VirtualDirectorySymlink_isBroken, getRealDirectory, resolveTarget.
    rewrite run_bind, run_bind, run_bind, (run_get _ _ _ _ Hst). simpl _target. cbv iota.
    rewrite run_ret, run_bind, (run_get _ _ _ _ Hst). reflexivity. }
  exists s1, s2. split; [|split; [|split; [|split; [|split; [|split]]]]].
  - unfold VirtualDirectorySymlink_isBroken, getRealDirectory.
    assert (E : run (S n) (resolveTarget link) s = (s1, Returned tt)).
    { unfold resolveTarget.
      rewrite run_bind, (run_get _ _ _ _ Hlink), Hunresolved.
      rewrite run_bind, run_call_invoke, Hfind.
      rewrite run_bind, (run_get _ _ _ _ Ht), Hct. simpl instanceof_VirtualDirectory. cbv iota.
      rewrite run_bind. erewrite run_put_assigned; [|exact Hlink|reflexivity].
      fold ol1. fold sa. rewrite Hparent, run_bind.
      erewrite run_put_assigned; [|exact Haf|reflexivity].
      fold ofs1. fold sb. rewrite run_bind.
      erewrite run_put_assigned; [|exact Hbt|reflexivity].
      fold ot1. fold sc.
      erewrite run_put_assigned; [|exact Hct'|reflexivity].
      reflexivity. }
    rewrite run_bind, run_bind, E, run_bind, (run_get _ _ _ _ H1l). reflexivity.
  - exists ofs1. split; [exact H1f|reflexivity].
  - exists oroot. split; [exact H1r|exact Hquiet].
  - rewrite invoke_S. simpl body. rewrite (run_dispatch _ _ _ _ _ H1r), Hcroot.
    unfold VirtualDirectory_removeDirectory.
    rewrite run_bind, (run_writePreamble_mutable _ _ _ _ H1r Hmutable).
    cbv zeta. rewrite Hplain, Htruthy, Hnodir. simpl negb. cbv iota.
    rewrite run_bind, run_call_invoke.
    rewrite (run_getOwnEntries_materialized _ root oroot l s1 H1r (or_intror Hcroot) Hentries).
    rewrite Hl at 1.
    rewrite (run_remove_scan_miss _ root oroot ofs1 _ p (t :: l2) s1 l1 0 H1r).
    + cbn [remove_scan].
      rewrite run_bind, (run_get _ _ _ _ H1t), run_bind, (run_get _ _ _ _ H1r).
      rewrite Hfsroot, run_bind, (run_get _ _ _ _ H1f).
      change (sameName ofs1 p (name ot2)) with (sameName ofs p (name ot)).
      change (class ot2) with (class ot).
      rewrite Hsame, Hct. simpl andb. cbv iota.
      unfold splice_own.
      rewrite !run_bind, (run_get _ _ _ _ H1r), Hcroot, Nat.add_0_r.
      erewrite run_put_assigned; [|exact H1r|simpl; rewrite Hentries; reflexivity].
      fold oroot2. fold s2.
      rewrite ?run_bind, (run_emit_silent _ _ oroot2 childRemoved _ _ H2r Hquiet). reflexivity.
    + rewrite Hfsroot. exact H1f.
    + eapply Forall_impl; [exact Hmiss|]. intros e (oe & He & Hne).
      destruct (Hkept _ _ He) as (o1 & Ho1 & Hnm & Hc). exists o1.
      split; [exact Ho1|]. rewrite Hnm, Hc. exact Hne.
  - exists oroot2. split; [exact H2r|].
    unfold oroot2. simpl. f_equal. rewrite Hl. unfold splice.
    rewrite take_app_length.
    change (l1 ++ t :: l2) with (l1 ++ [t] ++ l2). rewrite app_assoc.
    rewrite drop_app_length'; [reflexivity|]. rewrite length_app. simpl. lia.
  - exists ol1. split; [exact H2l|reflexivity].
  - intros k. apply Hresolved, H2l.
Qed.

End target_under_the_root.

(** * utils.ts *)

Section strings.

Lemma append_cons x (a b : string) : String x a +:+ b = String x (a +:+ b).
Proof. reflexivity. Qed.

Lemma append_empty_l (b : string) : "" +:+ b = b.
Proof. reflexivity. Qed.

Lemma length_append (a b : string) :
  String.length (a +:+ b) = String.length a + String.length b.
Proof.
  induction a as [|c a IH]; [reflexivity|].
  rewrite append_cons. simpl. rewrite IH. reflexivity.
Qed.

Lemma append_assoc (a b c : string) : (a +:+ b) +:+ c = a +:+ (b +:+ c).
Proof.
  induction a as [|x a IH]; [reflexivity|].
  rewrite !append_cons, IH. reflexivity.
Qed.

Lemma append_empty_r (a : string) : a +:+ "" = a.
Proof.
  induction a as [|x a IH]; [reflexivity|].
  rewrite append_cons, IH. reflexivity.
Qed.

Lemma length_copies text k : String.length (copies text k) = k * String.length text.
Proof. induction k as [|k IH]; simpl; [reflexivity|]. rewrite length_append, IH. lia. Qed.

Lemma copies_shift text k : text +:+ copies text k = copies text k +:+ text.
Proof.
  induction k as [|k IH]; simpl; [rewrite append_empty_r; reflexivity|].
  rewrite <- append_assoc, IH. reflexivity.
Qed.

Lemma while_loop_S {X} fuel (cond : X -> bool) step x :
  while_loop (S fuel) cond step x
  = if cond x then while_loop fuel cond step (step x) else Some x.
Proof. reflexivity. Qed.

Lemma while_loop_done {X} fuel (cond : X -> bool) step x :
  cond x = false -> while_loop fuel cond step x = Some x.
Proof. intros H. destruct fuel; simpl; rewrite H; reflexivity. Qed.

(** The loop of [repeatString], from any turn on. *)
Lemma repeatString_loop text count : forall fuel i acc,
  (0 <= i)%Z ->
  Z.to_nat (count - i) <= fuel ->
  while_loop fuel (fun st : Z * string => (fst st <? count)%Z)
    (fun st => ((fst st + 1)%Z, snd st +:+ text)) (i, acc)
  = Some (Z.max i count, acc +:+ copies text (Z.to_nat (count - i))).
Proof.
  induction fuel as [|fuel IH]; intros i acc Hi Hfuel.
  - rewrite while_loop_done by (simpl; lia).
    replace (Z.to_nat (count - i)) with 0 by lia. simpl. rewrite append_empty_r.
    f_equal. f_equal. lia.
  - rewrite while_loop_S. simpl fst. destruct (i <? count)%Z eqn:E.
    + rewrite IH by lia. simpl snd. f_equal. f_equal; [lia|].
      replace (Z.to_nat (count - i)) with (S (Z.to_nat (count - (i + 1)))) by lia.
      simpl. rewrite append_assoc, copies_shift. reflexivity.
    + replace (Z.to_nat (count - i)) with 0 by lia. simpl. rewrite append_empty_r.
      f_equal. f_equal. lia.
Qed.

(** X12.  [repeatString(text, count)] returns, after [count] turns of
    its loop, [count] copies of [text] one after the other: a string of
    [count] times the length of [text], the empty string when [count]
    is zero or negative; and one more for [count + 1] is that string
    with [text] appended. *)
Theorem repeatString_repeats text count fuel :
  Z.to_nat count <= fuel ->
  repeatString fuel text count = Some (copies text (Z.to_nat count))
  /\ String.length (copies text (Z.to_nat count)) = Z.to_nat count * String.length text
  /\ ((count <= 0)%Z -> repeatString fuel text count = Some "")
  /\ ((0 <= count)%Z ->
      repeatString (S fuel) text (count + 1) = Some (copies text (Z.to_nat count) +:+ text)).
Proof.
  intros Hfuel.
  assert (E : forall f c, Z.to_nat c <= f ->
            repeatString f text c = Some (copies text (Z.to_nat c))).
  { intros f c Hf. unfold repeatString.
    rewrite (repeatString_loop text c f 0 "") by (rewrite ?Z.sub_0_r; lia).
    simpl. rewrite Z.sub_0_r. reflexivity. }
  split; [apply E, Hfuel|]. split; [apply length_copies|]. split.
  - intros Hle. rewrite E by exact Hfuel. replace (Z.to_nat count) with 0 by lia. reflexivity.
  - intros Hge. rewrite E by lia.
    replace (Z.to_nat (count + 1)) with (S (Z.to_nat count)) by lia. reflexivity.
Qed.

(** The loops of [padLeft] and [padRight] with a filler that is not
    empty. *)
Lemma pad_loop (glue : string -> string -> string) ch size :
  (forall text, String.length (glue ch text) = String.length ch + String.length text) ->
  ch <> "" ->
  forall fuel text,
    Z.to_nat (size - Z.of_nat (String.length text)) <= fuel ->
    exists k,
      while_loop fuel (fun text => (Z.of_nat (String.length text) <? size)%Z) (glue ch) text
      = Some (Nat.iter k (glue ch) text)
      /\ (size <= Z.of_nat (String.length (Nat.iter k (glue ch) text)))%Z
      /\ (k = 0 \/ (Z.of_nat (String.length (Nat.iter k (glue ch) text))
                    < size + Z.of_nat (String.length ch))%Z)
      /\ (String.length ch = 1 -> k = Z.to_nat (size - Z.of_nat (String.length text))).
Proof.
  intros Hglue Hch.
  assert (Hpos : 0 < String.length ch) by (destruct ch; [congruence|simpl; lia]).
  assert (Hiter : forall k text, Nat.iter k (glue ch) (glue ch text)
                                 = Nat.iter (S k) (glue ch) text).
  { intros k text. induction k as [|k IH]; simpl; [reflexivity|]. rewrite IH. reflexivity. }
  induction fuel as [|fuel IH]; intros text Hfuel.
  - exists 0. rewrite while_loop_done by lia. simpl. split; [reflexivity|].
    split; [lia|]. split; [left; reflexivity|lia].
  - rewrite while_loop_S. destruct (Z.of_nat (String.length text) <? size)%Z eqn:E.
    + destruct (IH (glue ch text)) as (k & Hrun & Hsize & Hover & Hone).
      { rewrite Hglue. lia. }
      exists (S k). rewrite <- Hiter. split; [exact Hrun|]. split; [exact Hsize|].
      split.
      * right. destruct Hover as [-> | Hover]; [|exact Hover].
        simpl. rewrite Hglue. lia.
      * intros H1. rewrite (Hone H1), Hglue, H1. lia.
    + exists 0. simpl. split; [reflexivity|]. split; [lia|].
      split; [left; reflexivity|lia].
Qed.

Lemma iter_prepend ch text k : Nat.iter k (String.append ch) text = copies ch k +:+ text.
Proof.
  induction k as [|k IH]; simpl; [reflexivity|].
  rewrite IH, <- append_assoc, copies_shift. reflexivity.
Qed.

Lemma iter_append ch text k :
  Nat.iter k (fun text => text +:+ ch) text = text +:+ copies ch k.
Proof.
  induction k as [|k IH]; simpl; [rewrite append_empty_r; reflexivity|].
  rewrite IH, append_assoc. reflexivity.
Qed.

(** X13.  With a filler [ch] that is not empty, [padLeft(text, size, ch)]
    returns after at most [size - text.length] turns: the result is
    copies of [ch] in front of [text], at least [size] long, and no
    copy more than needed; with a filler of one character it is exactly
    [max(size, text.length)] long.  [padRight] likewise, the copies
    behind [text]. *)
Theorem padding_fills_up_to_the_size text size ch fuel :
  ch <> "" ->
  Z.to_nat (size - Z.of_nat (String.length text)) <= fuel ->
  exists k,
    padLeft fuel text size ch = Some (copies ch k +:+ text)
    /\ padRight fuel text size ch = Some (text +:+ copies ch k)
    /\ (size <= Z.of_nat (k * String.length ch + String.length text))%Z
    /\ (k = 0 \/ (Z.of_nat (k * String.length ch + String.length text)
                  < size + Z.of_nat (String.length ch))%Z)
    /\ (String.length ch = 1 -> k = Z.to_nat (size - Z.of_nat (String.length text))).
Proof.
  intros Hch Hfuel.
  destruct (pad_loop String.append ch size (length_append ch) Hch fuel text Hfuel)
    as (k & Hrun & Hsize & Hover & Hone).
  destruct (pad_loop (fun ch text => text +:+ ch) ch size
              ltac:(intros; cbv beta; rewrite length_append; lia) Hch fuel text Hfuel)
    as (k' & Hrun' & Hsize' & Hover' & Hone').
  cbv beta in *. rewrite iter_prepend in *. rewrite iter_append in *.
  rewrite !length_append, !length_copies in *.
  assert (Hk : k' = k).
  { assert (0 < String.length ch) by (destruct ch; [congruence|simpl; lia]).
    destruct Hover as [-> | Hover], Hover' as [-> | Hover']; nia. }
  subst k'. exists k. split; [exact Hrun|]. split; [exact Hrun'|].
  split; [lia|]. split; [|exact Hone].
  destruct Hover as [-> | Hover]; [left; reflexivity|right; lia].
Qed.

(** X14.  With the empty string for a filler and a text shorter than
    [size], the loops of [padLeft] and [padRight] never end: no number
    of turns suffices. *)
Theorem padding_with_an_empty_filler_never_ends text size fuel :
  (Z.of_nat (String.length text) < size)%Z ->
  padLeft fuel text size "" = None /\ padRight fuel text size "" = None.
Proof.
  intros Hshort. unfold padLeft, padRight. split.
  - induction fuel as [|fuel IH]; simpl.
    + replace (_ <? _)%Z with true by lia. reflexivity.
    + replace (_ <? _)%Z with true by lia. exact IH.
  - revert text Hshort. induction fuel as [|fuel IH]; intros text Hshort; simpl.
    + replace (_ <? _)%Z with true by lia. reflexivity.
    + replace (_ <? _)%Z with true by lia. apply IH. rewrite append_empty_r. exact Hshort.
Qed.

End strings.

Section comparisons.
Context {env : Env}.

Lemma ltb_compare a b : String.ltb a b = true <-> String.compare a b = Lt.
Proof. unfold String.ltb. destruct (String.compare a b); split; congruence. Qed.

(** The last lines of [compareStrings]: [a < b ? -1 : a > b ? +1 : 0]. *)
Lemma order_antisym a b :
  (if String.ltb a b then (-1)%Z else if String.ltb b a then 1%Z else 0%Z)
  = (- (if String.ltb b a then (-1)%Z else if String.ltb a b then 1%Z else 0%Z))%Z.
Proof.
  unfold String.ltb. rewrite (String.compare_antisym a b).
  destruct (String.compare b a); reflexivity.
Qed.

Lemma compare_refl (b : string) : String.compare b b = Eq.
Proof.
  pose proof (String.compare_antisym b b) as H.
  destruct (String.compare b b); simpl in H; congruence.
Qed.

Lemma order_zero a b :
  (if String.ltb a b then (-1)%Z else if String.ltb b a then 1%Z else 0%Z) = 0%Z <-> a = b.
Proof.
  unfold String.ltb. rewrite (String.compare_antisym a b).
  destruct (String.compare b a) eqn:E; simpl.
  - apply String.compare_eq_iff in E. split; [intros _; congruence|reflexivity].
  - split; [discriminate|]. intros ->. rewrite compare_refl in E. discriminate.
  - split; [discriminate|]. intros ->. rewrite compare_refl in E. discriminate.
Qed.

Lemma compareStrings_fallback a b ignoreCase :
  caseSensitiveCollator = None -> caseInsensitiveCollator = None ->
  compareStrings a b ignoreCase
  = if String.eqb a b then 0%Z
    else let a' := if ignoreCase then toUpperCase a else a in
         let b' := if ignoreCase then toUpperCase b else b in
         if String.ltb a' b' then (-1)%Z else if String.ltb b' a' then 1%Z else 0%Z.
Proof.
  intros Hs Hi. unfold compareStrings. rewrite Hs, Hi. destruct ignoreCase; reflexivity.
Qed.

Lemma sameName_fallback fs a b :
  caseSensitiveCollator = None -> caseInsensitiveCollator = None ->
  sameName fs a b = true
  <-> (if _useCaseSensitiveFileNames fs then a = b else toUpperCase a = toUpperCase b).
Proof.
  intros Hs Hi. unfold sameName. rewrite (compareStrings_fallback _ _ _ Hs Hi), Z.eqb_eq.
  destruct (String.eqb_spec a b) as [-> | Hne].
  - destruct (_useCaseSensitiveFileNames fs); split; reflexivity.
  - cbv zeta. destruct (_useCaseSensitiveFileNames fs); simpl; apply order_zero.
Qed.

(** X15.  Where the host has no [Intl] collator, [compareStrings] is
    antisymmetric, and [sameName] of a file system is an equivalence
    relation on names: equality of the names on a case sensitive file
    system, equality of their upper-cased forms otherwise. *)
Theorem sameName_without_a_collator_is_an_equivalence fs :
  caseSensitiveCollator = None ->
  caseInsensitiveCollator = None ->
  (forall a b ignoreCase,
     compareStrings a b ignoreCase = (- compareStrings b a ignoreCase)%Z)
  /\ (forall a b, sameName fs a b = true
                  <-> (if _useCaseSensitiveFileNames fs
                       then a = b else toUpperCase a = toUpperCase b))
  /\ (forall a, sameName fs a a = true)
  /\ (forall a b, sameName fs a b = sameName fs b a)
  /\ (forall a b c, sameName fs a b = true -> sameName fs b c = true ->
                    sameName fs a c = true).
Proof.
  intros Hs Hi.
  assert (Hanti : forall a b ignoreCase,
            compareStrings a b ignoreCase = (- compareStrings b a ignoreCase)%Z).
  { intros a b ic. rewrite !(compareStrings_fallback _ _ _ Hs Hi), (String.eqb_sym b a).
    destruct (String.eqb a b); [reflexivity|]. cbv zeta. apply order_antisym. }
  split; [exact Hanti|]. split; [intros a b; apply sameName_fallback; assumption|].
  split; [intros a; apply sameName_refl|]. split.
  - intros a b. unfold sameName. rewrite (Hanti a b).
    destruct (compareStrings b a _); reflexivity.
  - intros a b c. rewrite !(sameName_fallback _ _ _ Hs Hi).
    destruct (_useCaseSensitiveFileNames fs); congruence.
Qed.

End comparisons.

Section values.

(** X16.  [compareValues] orders integers as [<] does, with
    [undefined] below every integer: it answers 0 exactly for equal
    arguments, is antisymmetric, and is transitive, so it is a
    consistent comparer for [sort]. *)
Theorem compareValues_is_a_total_order (a b c : option Z) :
  (compareValues a b = 0%Z <-> a = b)
  /\ compareValues a b = (- compareValues b a)%Z
  /\ ((compareValues a b <= 0)%Z -> (compareValues b c <= 0)%Z -> (compareValues a c <= 0)%Z)
  /\ (compareValues None b <= 0)%Z.
Proof.
  unfold compareValues.
  split; [|split; [|split]].
  - destruct (bool_decide_reflect (a = b)) as [-> | Hne]; [split; reflexivity|].
    split; [|congruence]. destruct a as [x|], b as [y|]; try discriminate; try congruence.
    destruct (x <? y)%Z eqn:E1; [discriminate|].
    destruct (y <? x)%Z eqn:E2; [discriminate|].
    intros _. f_equal. lia.
  - destruct (bool_decide_reflect (a = b)) as [-> | Hne].
    + rewrite bool_decide_eq_true_2 by reflexivity. reflexivity.
    + rewrite (bool_decide_eq_false_2 (b = a)) by congruence.
      destruct a as [x|], b as [y|]; try reflexivity; try congruence.
      destruct (x <? y)%Z eqn:E1, (y <? x)%Z eqn:E2; try reflexivity; lia.
  - destruct (bool_decide_reflect (a = b)) as [-> | Hab]; [auto|].
    destruct (bool_decide_reflect (b = c)) as [-> | Hbc].
    + rewrite (bool_decide_eq_false_2 _ Hab). auto.
    + destruct (bool_decide_reflect (a = c)) as [-> | Hac]; [lia|].
      destruct a as [x|], b as [y|], c as [z|]; try lia; try congruence.
      destruct (x <? y)%Z eqn:E1, (y <? z)%Z eqn:E2, (x <? z)%Z eqn:E3,
               (y <? x)%Z eqn:E4, (z <? y)%Z eqn:E5, (z <? x)%Z eqn:E6; lia.
  - destruct (bool_decide (None = b)); [lia|]. destruct b; lia.
Qed.

End values.

Section extensions.

Lemma endsWith_suffix s t :
  endsWith s t = true
  <-> String.list_ascii_of_string t `suffix_of` String.list_ascii_of_string s.
Proof. unfold endsWith. apply bool_decide_eq_true. Qed.

(** A string that ends in two strings ends in them nested. *)
Lemma endsWith_nested s a b :
  endsWith s a = true -> endsWith s b = true -> endsWith a b || endsWith b a = true.
Proof.
  rewrite !endsWith_suffix. intros Ha Hb. apply orb_true_iff.
  rewrite !endsWith_suffix.
  destruct (suffix_weak_total _ _ _ Ha Hb); auto.
Qed.

Lemma endsWith_trans s a b :
  endsWith s a = true -> endsWith a b = true -> endsWith s b = true.
Proof. rewrite !endsWith_suffix. intros Ha Hb. etrans; eassumption. Qed.

Lemma endsWith_disjoint s a b :
  endsWith a b || endsWith b a = false -> endsWith s a = true -> endsWith s b = false.
Proof.
  intros Hno Ha. destruct (endsWith s b) eqn:Hb; [|reflexivity].
  rewrite (endsWith_nested s a b Ha Hb) in Hno. discriminate.
Qed.

(** X17.  The kinds of files that [utils] tells apart by extension: a
    declaration file (".d.ts") is a TypeScript file, and no path is of
    two of the kinds TypeScript, JavaScript, source map and JSON. *)
Theorem file_kinds_by_extension path :
  (isDeclarationFile path = true -> isTypeScriptFile path = true)
  /\ (isTypeScriptFile path = true ->
      isJavaScriptFile path = false /\ isSourceMapFile path = false
      /\ isJsonFile path = false)
  /\ (isJavaScriptFile path = true ->
      isSourceMapFile path = false /\ isJsonFile path = false)
  /\ (isSourceMapFile path = true -> isJsonFile path = false).
Proof.
  unfold isDeclarationFile, isTypeScriptFile, isJavaScriptFile, isSourceMapFile, isJsonFile.
  split; [|split; [|split]].
  - intros H. apply orb_true_iff. left. eapply endsWith_trans; [exact H|]. vm_compute. reflexivity.
  - intros H. apply orb_true_iff in H as [H | H];
      rewrite ?orb_false_iff; repeat split;
      (eapply endsWith_disjoint; [|exact H]); vm_compute; reflexivity.
  - intros H. apply orb_true_iff in H as [H | H]; repeat split;
      (eapply endsWith_disjoint; [|exact H]); vm_compute; reflexivity.
  - intros H. eapply endsWith_disjoint; [|exact H]. vm_compute. reflexivity.
Qed.

End extensions.

Section sorting.
Context {T : Type}.

Lemma compareValues_sign (x y : Z) :
  ((compareValues (Some x) (Some y) < 0)%Z <-> (x < y)%Z)
  /\ ((compareValues (Some x) (Some y) <= 0)%Z <-> (x <= y)%Z)
  /\ ((0 < compareValues (Some x) (Some y))%Z <-> (y < x)%Z).
Proof.
  unfold compareValues. destruct (bool_decide_reflect (Some x = Some y)) as [E | Hne].
  - injection E as ->. lia.
  - assert (x <> y) by congruence.
    destruct (x <? y)%Z eqn:E1; [lia|]. destruct (y <? x)%Z eqn:E2; lia.
Qed.

Lemma consistent_zero {X} (cmp : X -> X -> Z) a b :
  consistent cmp -> cmp a b = 0%Z -> cmp b a = 0%Z.
Proof.
  intros (_ & Hanti & _) E. pose proof (Hanti a b). pose proof (Hanti b a). lia.
Qed.

(** The comparer that [stableSort] hands to [sort] is consistent, and
    takes no two indices for equal. *)
Lemma index_order_consistent (undefined : T) array comparer :
  consistent comparer ->
  consistent (fun x y => or_else (comparer (nth x array undefined) (nth y array undefined))
                           (compareValues (Some (Z.of_nat x)) (Some (Z.of_nat y)))).
Proof.
  intros Hc. pose proof Hc as (Hrefl & Hanti & Htrans).
  set (v := fun x => nth x array undefined).
  split; [|split].
  - intros x. unfold or_else. rewrite Hrefl. simpl.
    pose proof (compareValues_sign (Z.of_nat x) (Z.of_nat x)). lia.
  - intros x y. fold (v x). fold (v y). unfold or_else.
    pose proof (Hanti (v x) (v y)). pose proof (Hanti (v y) (v x)).
    pose proof (compareValues_sign (Z.of_nat x) (Z.of_nat y)).
    pose proof (compareValues_sign (Z.of_nat y) (Z.of_nat x)).
    destruct (Z.eqb_spec (comparer (v x) (v y)) 0), (Z.eqb_spec (comparer (v y) (v x)) 0); lia.
  - intros x y z. fold (v x). fold (v y). fold (v z). unfold or_else.
    pose proof (Hanti (v x) (v y)). pose proof (Hanti (v y) (v x)).
    pose proof (Hanti (v y) (v z)). pose proof (Hanti (v z) (v y)).
    pose proof (Hanti (v x) (v z)). pose proof (Hanti (v z) (v x)).
    pose proof (Htrans (v x) (v y) (v z)). pose proof (Htrans (v z) (v y) (v x)).
    pose proof (Htrans (v y) (v x) (v z)). pose proof (Htrans (v z) (v x) (v y)).
    pose proof (Htrans (v x) (v z) (v y)). pose proof (Htrans (v y) (v z) (v x)).
    pose proof (compareValues_sign (Z.of_nat x) (Z.of_nat y)).
    pose proof (compareValues_sign (Z.of_nat y) (Z.of_nat z)).
    pose proof (compareValues_sign (Z.of_nat x) (Z.of_nat z)).
    destruct (Z.eqb_spec (comparer (v x) (v y)) 0), (Z.eqb_spec (comparer (v y) (v z)) 0),
      (Z.eqb_spec (comparer (v x) (v z)) 0); lia.
Qed.

Lemma ordered_distinct {X} (R R' : X -> X -> Prop) l :
  (forall x y, x <> y -> R x y -> R' x y) ->
  NoDup l -> ordered R l -> ordered R' l.
Proof.
  intros Himp. induction 1 as [|x l Hx _ IH]; simpl; [auto|].
  intros [Hall Hord]. split; [|auto].
  rewrite Forall_forall in *. intros y Hy. apply Himp; [|auto].
  intros ->. contradiction.
Qed.

Lemma ordered_map {X Y} (f : X -> Y) (R : X -> X -> Prop) (R' : Y -> Y -> Prop) l :
  (forall x y, R x y -> R' (f x) (f y)) ->
  ordered R l -> ordered R' (map f l).
Proof.
  intros Himp. induction l as [|x l IH]; simpl; [auto|].
  intros [Hall Hord]. split; [|auto].
  apply Forall_fmap. eapply Forall_impl; [exact Hall|]. intros y. apply Himp.
Qed.

(** An arrangement in a strict order is the only one. *)
Lemma ordered_unique {X} (R : X -> X -> Prop) :
  (forall x y, R x y -> R y x -> False) ->
  forall l1 l2, l1 ≡ₚ l2 -> ordered R l1 -> ordered R l2 -> l1 = l2.
Proof.
  intros Hasym. induction l1 as [|x l1 IH]; intros l2 Hperm H1 H2.
  - apply Permutation_nil_l in Hperm. congruence.
  - destruct l2 as [|y l2]; [apply Permutation_nil_r in Hperm; discriminate|].
    simpl in H1, H2. destruct H1 as [Hx H1], H2 as [Hy H2].
    rewrite Forall_forall in Hx, Hy.
    assert (E : x = y).
    { assert (Hin : x ∈ y :: l2) by (rewrite <- Hperm; left).
      assert (Hin' : y ∈ x :: l1) by (rewrite Hperm; left).
      apply elem_of_cons in Hin as [E | Hin]; [exact E|].
      apply elem_of_cons in Hin' as [E | Hin']; [congruence|].
      exfalso. eapply Hasym; eauto. }
    subst y. f_equal. apply IH; [|assumption..].
    eapply Permutation_cons_inv, Hperm.
Qed.

Lemma imap_indices {X} (l : list X) : forall k,
  imap (fun i _ => k + i) l = seq k (length l).
Proof.
  induction l as [|x l IH]; intros k; [reflexivity|].
  simpl. rewrite Nat.add_0_r. f_equal.
  rewrite <- IH. apply imap_ext. intros i y _. simpl. f_equal. lia.
Qed.

Lemma map_nth_seq (d : T) l : map (fun i => nth i l d) (seq 0 (length l)) = l.
Proof.
  induction l as [|x l IH]; [reflexivity|].
  simpl. f_equal. rewrite <- seq_shift, map_map. exact IH.
Qed.

(** X22.  Over any [sort] that does what the language promises, and
    for a consistent [comparer], [stableSort(array, comparer)] returns
    the elements of [array] in the one arrangement that puts an element
    before another exactly if [comparer] puts it first or takes the two
    for equal and it came first in [array]: the result is a rearrangement
    of [array], is ordered by [comparer], keeps equals in their order,
    and does not depend on how the host's [sort] treats equals. *)
Theorem stableSort_is_the_stable_arrangement sort (undefined : T) array comparer :
  sorts sort ->
  consistent comparer ->
  exists order,
    stableSort sort undefined array comparer = map (fun i => nth i array undefined) order
    /\ order ≡ₚ seq 0 (length array)
    /\ ordered (fun x y =>
                  (comparer (nth x array undefined) (nth y array undefined) < 0)%Z
                  \/ (comparer (nth x array undefined) (nth y array undefined) = 0%Z
                      /\ x < y)) order
    /\ (forall order',
          order' ≡ₚ seq 0 (length array) ->
          ordered (fun x y =>
                     (comparer (nth x array undefined) (nth y array undefined) < 0)%Z
                     \/ (comparer (nth x array undefined) (nth y array undefined) = 0%Z
                         /\ x < y)) order' ->
          order' = order)
    /\ stableSort sort undefined array comparer ≡ₚ array
    /\ ordered (fun u v => (comparer u v <= 0)%Z) (stableSort sort undefined array comparer).
Proof.
  intros Hsort Hc.
  set (c := fun x y => or_else (comparer (nth x array undefined) (nth y array undefined))
                         (compareValues (Some (Z.of_nat x)) (Some (Z.of_nat y)))).
  set (R := fun x y =>
              (comparer (nth x array undefined) (nth y array undefined) < 0)%Z
              \/ (comparer (nth x array undefined) (nth y array undefined) = 0%Z /\ x < y)).
  destruct (Hsort c (seq 0 (length array)) (index_order_consistent undefined array comparer Hc))
    as [Hperm Hord].
  set (order := sort c (seq 0 (length array))) in *.
  assert (E : stableSort sort undefined array comparer
              = map (fun i => nth i array undefined) order).
  { unfold stableSort. cbv zeta. fold c.
    assert (Ei : imap (fun i (_ : T) => i) array = seq 0 (length array))
      by exact (imap_indices array 0).
    rewrite Ei. reflexivity. }
  assert (HR : ordered R order).
  { eapply ordered_distinct; [|rewrite Hperm; apply NoDup_seq|exact Hord].
    intros x y Hne Hle. unfold c, or_else in Hle. unfold R.
    pose proof (compareValues_sign (Z.of_nat x) (Z.of_nat y)).
    destruct (Z.eqb_spec (comparer (nth x array undefined) (nth y array undefined)) 0); lia. }
  assert (Hasym : forall x y, R x y -> R y x -> False).
  { intros x y. unfold R. destruct Hc as (_ & Hanti & _).
    pose proof (Hanti (nth x array undefined) (nth y array undefined)).
    pose proof (Hanti (nth y array undefined) (nth x array undefined)). lia. }
  exists order. split; [exact E|]. split; [exact Hperm|]. split; [exact HR|].
  split; [|split].
  - intros order' Hperm' HR'. apply (ordered_unique R Hasym); [|assumption..].
    rewrite Hperm, Hperm'. reflexivity.
  - rewrite E, Hperm. rewrite map_nth_seq. reflexivity.
  - rewrite E. eapply ordered_map; [|exact HR].
    intros x y. unfold R. lia.
Qed.

(** Insertion is a [sort] of the kind the language allows. *)
Lemma inserted_permutation cmp x l : inserted cmp x l ≡ₚ x :: l.
Proof.
  induction l as [|y l IH]; simpl; [reflexivity|].
  destruct (cmp x y <? 0)%Z; [reflexivity|]. rewrite IH. apply Permutation_swap.
Qed.

Lemma inserted_ordered cmp x l :
  consistent cmp ->
  ordered (fun a b => (cmp a b <= 0)%Z) l ->
  ordered (fun a b => (cmp a b <= 0)%Z) (inserted cmp x l).
Proof.
  intros (_ & Hanti & Htrans). induction l as [|y l IH]; simpl; [auto|].
  intros [Hy Hord]. destruct (cmp x y <? 0)%Z eqn:E; simpl.
  - split; [|auto]. constructor; [lia|].
    eapply Forall_impl; [exact Hy|]. intros z Hz. apply (Htrans x y z); [lia|exact Hz].
  - split; [|auto]. rewrite (inserted_permutation cmp x l). constructor; [|exact Hy].
    pose proof (Hanti y x). pose proof (Hanti x y). lia.
Qed.

Lemma insertion_sort_sorts : sorts insertion_sort.
Proof.
  intros cmp l Hc. unfold insertion_sort. induction l as [|x l [IHp IHo]]; simpl.
  - split; [reflexivity|exact I].
  - split.
    + rewrite inserted_permutation, IHp. reflexivity.
    + apply inserted_ordered; assumption.
Qed.

Lemma by_number_consistent : consistent by_number.
Proof.
  unfold by_number. split; [|split].
  - intros a. pose proof (compareValues_sign a.1 a.1).
    pose proof (compareValues_sign a.1 a.1) as (_ & _ & ?). lia.
  - intros a b. pose proof (compareValues_sign a.1 b.1).
    pose proof (compareValues_sign b.1 a.1). lia.
  - intros a b c. pose proof (compareValues_sign a.1 b.1).
    pose proof (compareValues_sign b.1 c.1). pose proof (compareValues_sign a.1 c.1). lia.
Qed.

End sorting.

Section documents.

Lemma substring_length s : forall a m,
  a + m <= String.length s -> String.length (String.substring a m s) = m.
Proof.
  induction s as [|c s IH]; intros a m H; simpl in H.
  - destruct a, m; simpl in *; try lia; reflexivity.
  - destruct a as [|a].
    + destruct m as [|m]; simpl; [reflexivity|]. rewrite IH by lia. reflexivity.
    + simpl. apply IH. lia.
Qed.

Lemma substring_split s : forall a m1 m2,
  a + m1 + m2 <= String.length s ->
  String.substring a (m1 + m2) s
  = String.substring a m1 s +:+ String.substring (a + m1) m2 s.
Proof.
  induction s as [|c s IH]; intros a m1 m2 H; simpl in H.
  - destruct a, m1, m2; simpl in *; try lia; reflexivity.
  - destruct a as [|a].
    + destruct m1 as [|m1].
      * simpl. destruct m2; reflexivity.
      * simpl. rewrite append_cons. f_equal.
        rewrite (IH 0 m1 m2) by lia. reflexivity.
    + simpl. apply IH. lia.
Qed.

Lemma substring_all s : String.substring 0 (String.length s) s = s.
Proof. induction s as [|c s IH]; simpl; [reflexivity|]. rewrite IH. reflexivity. Qed.

(** [substring] at indices that are in order and within the string. *)
Lemma js_substring_within s a b :
  (0 <= a <= b)%Z -> (b <= Z.of_nat (String.length s))%Z ->
  js_substring s a b = String.substring (Z.to_nat a) (Z.to_nat (b - a)) s.
Proof.
  intros Ha Hb. unfold js_substring. cbv zeta.
  replace (Z.to_nat (Z.min (Z.max a 0) (Z.of_nat (String.length s)))) with (Z.to_nat a) by lia.
  replace (Z.to_nat (Z.min (Z.max b 0) (Z.of_nat (String.length s)))) with (Z.to_nat b) by lia.
  rewrite Nat.min_l, Nat.max_r by lia. f_equal. lia.
Qed.

(** X25.  The fragments of a document that was made from a string lie
    where they were cut: the fragment from [a] to [b] has these for its
    positions, the document for a parent and a text of [b - a]
    characters; two fragments cut at a common position join to the
    fragment over both; and the fragment over all of the document has
    its text. *)
Theorem fragments_of_a_document_partition_its_text file content m a b c f1 f2 :
  (0 <= a <= b)%Z -> (b <= c)%Z -> (c <= Z.of_nat (String.length content))%Z ->
  let document := new_TextDocument file (inl content) m in
  let first := new_TextDocument f1 (inr (mkTextFragment document a b)) None in
  let second := new_TextDocument f2 (inr (mkTextFragment document b c)) None in
  let both := new_TextDocument f1 (inr (mkTextFragment document a c)) None in
  let all := new_TextDocument f1 (inr (mkTextFragment document 0 (end_ document))) None in
  pos first = a /\ end_ first = b /\ parent_document first = Some document
  /\ Z.of_nat (String.length (text first)) = (b - a)%Z
  /\ text first +:+ text second = text both
  /\ text all = content.
Proof.
  intros Ha Hb Hc. simpl.
  rewrite !Z.add_0_l.
  rewrite !js_substring_within by lia.
  split; [reflexivity|]. split; [reflexivity|]. split; [reflexivity|]. split; [|split].
  - rewrite substring_length by lia. lia.
  - replace (Z.to_nat (c - a)) with (Z.to_nat (b - a) + Z.to_nat (c - b)) by lia.
    rewrite substring_split by lia. do 2 f_equal. lia.
  - rewrite Z.sub_0_r, Nat2Z.id. apply substring_all.
Qed.

End documents.

(** * The further statements at concrete trees *)

Section concrete_more.
Existing Instance reference_env.

(** The objects of a concrete list are in the store, each with what is
    said of it. *)
Ltac each_child :=
  repeat (apply List.Forall_cons;
          [first [eexists; vm_compute; reflexivity
                 |eexists; split;
                  [vm_compute; reflexivity
                  |first [vm_compute; reflexivity
                         |vm_compute; split; reflexivity
                         |vm_compute; intros; first [reflexivity|discriminate]]]]|]);
  apply List.Forall_nil.

Ltac evaluate := first [vm_compute; reflexivity | left; vm_compute; reflexivity
                       | right; vm_compute; reflexivity | eexists; vm_compute; reflexivity].


Lemma remove_without_a_match_changes_nothing_witness :
  invoke 2 (removeFile 1 "d") (state_after small_tree)
  = (state_after small_tree, Returned false)
  /\ invoke 2 (removeDirectory 1 "a") (state_after small_tree)
     = (state_after small_tree, Returned false).
Proof.
  split.
  - apply (remove_without_a_match_changes_nothing 0 (state_after small_tree) 1
             (object_at (state_after small_tree) 1) (object_at (state_after small_tree) 0)
             [2; 3]);
      [evaluate|evaluate|evaluate|evaluate|evaluate|evaluate|each_child].
  - apply (remove_without_a_match_changes_nothing 0 (state_after small_tree) 1
             (object_at (state_after small_tree) 1) (object_at (state_after small_tree) 0)
             [2; 3]);
      [evaluate|evaluate|evaluate|evaluate|evaluate|evaluate|each_child].
Defined.

Lemma add_under_an_existing_name_creates_nothing_witness :
  invoke 4 (addFile 1 "d" (content_string "new")) (state_after small_tree)
  = (state_after small_tree, Returned None)
  /\ invoke 4 (addDirectory 1 "d" (Some listing)) (state_after small_tree)
     = (state_after small_tree, Returned (Some 3)).
Proof.
  destruct (add_under_an_existing_name_creates_nothing 0 (state_after small_tree) 1
              (object_at (state_after small_tree) 1) (object_at (state_after small_tree) 0)
              [2; 3])
    with (p := "d") (l1 := [2]) (e := 3) (l2 := @nil nat)
         (oe := object_at (state_after small_tree) 3)
         (content := content_string "new") (resolver := Some listing)
    as [H1 H2];
    [evaluate|evaluate|evaluate|evaluate|each_child|evaluate|evaluate|evaluate|evaluate
    |reflexivity|each_child|evaluate|evaluate|].
  split; [exact H1|exact H2].
Defined.

Lemma addFile_then_removeFile_restores_the_directory_witness :
  exists s2 file,
    invoke 4 (addFile 1 "g" (content_string "c")) (state_after small_tree)
    = (s2, Returned (Some 5))
    /\ invoke 2 (removeFile 1 "g") s2 = (allocated file (state_after small_tree), Returned true)
    /\ run 4 (getFile 1 "g" no_options) (allocated file (state_after small_tree))
       = (allocated file (state_after small_tree), Returned None).
Proof.
  destruct (addFile_then_removeFile_restores_the_directory 0 (state_after small_tree) 1
              (object_at (state_after small_tree) 1) (object_at (state_after small_tree) 0)
              [2; 3])
    with (p := "g") (c := "c") (po := object_at (state_after small_tree) 0)
    as (s2 & file & H1 & H2 & _ & _ & _ & H3);
    [evaluate|evaluate|evaluate|evaluate|each_child|evaluate|split; reflexivity
    |evaluate|evaluate|evaluate|evaluate|each_child|].
  exists s2, file. split; [exact H1|]. split; [exact H2|exact H3].
Defined.

Lemma content_is_resolved_at_the_first_read_only_witness :
  exists s',
    invoke 1 (getContent 2) (state_after file_with_resolver) = (s', Returned (Some "text"))
    /\ asked s' = [asked_getContent "r"]
    /\ invoke 1 (getContent 2) s' = (s', Returned (Some "text")).
Proof.
  destruct (content_is_resolved_at_the_first_read_only 0 (state_after file_with_resolver) 2
              (object_at (state_after file_with_resolver) 2) (resolver_getContent listing))
    as (s' & H1 & H2 & _ & H4); [evaluate|evaluate|evaluate|evaluate|].
  exists s'. split; [exact H1|]. split; [exact H2|apply H4].
Defined.

Lemma clone_of_a_file_reads_the_original_lazily_witness :
  exists f' s0 s1 s2,
    run 0 (clone 2 3) (state_after small_tree) = (s0, Returned f')
    /\ invoke 1 (setContent 2 (Some "later")) s0 = (s1, Returned tt)
    /\ invoke 2 (getContent f') s1 = (s2, Returned (Some "later")).
Proof.
  destruct (clone_of_a_file_reads_the_original_lazily 0 (state_after small_tree) 2
              (object_at (state_after small_tree) 2) 3
              (object_at (state_after small_tree) 3) (object_at (state_after small_tree) 3)
              "later" "last")
    as (f' & s0 & s1 & s2 & s3 & H1 & H2 & H3 & _);
    [evaluate|evaluate|evaluate|evaluate|evaluate|].
  exists f', s0, s1, s2. split; [exact H1|]. split; [exact H2|exact H3].
Defined.



Lemma a_lookup_by_kind_is_the_plain_lookup_narrowed_witness :
  invoke 6 (getEntry 0 "d" (with_kind kind_file no_options)) (state_after small_tree)
  = narrowed kind_file (invoke 6 (getEntry 0 "d" no_options) (state_after small_tree)).
Proof.
  apply (a_lookup_by_kind_is_the_plain_lookup_narrowed 6 kind_file 0 "d" no_options
           (state_after small_tree)); reflexivity.
Defined.

Lemma existence_agrees_with_the_lookup_by_kind_witness :
  run 7 (fileExists 0 "a") (state_after small_tree)
  = is_found (run 6 (getFile 0 "a" no_options) (state_after small_tree))
  /\ run 7 (directoryExists 0 "a") (state_after small_tree)
     = is_found (run 6 (getDirectory 0 "a" no_options) (state_after small_tree)).
Proof.
  apply (existence_agrees_with_the_lookup_by_kind 6 (state_after small_tree) 0
           (object_at (state_after small_tree) 0) "a" small_tree_well_formed);
    evaluate.
Defined.

Lemma the_listing_of_a_resolver_is_shown_as_it_is_witness :
  exists s',
    run 4 (getAccessibleFileSystemEntries 0 "lib") (state_after directory_with_resolver)
    = (s', Returned (["a.ts"; "b.ts"], ["sub"]))
    /\ asked s' = [asked_getEntries "lib"].
Proof.
  destruct (the_listing_of_a_resolver_is_shown_as_it_is 1
              (state_after directory_with_resolver) 0 "lib"
              (state_after directory_with_resolver) 2
              (object_at (state_after directory_with_resolver) 2) listing)
    as (s' & H1 & H2); [evaluate|evaluate|evaluate|evaluate|evaluate|evaluate|].
  exists s'. split; [exact H1|exact H2].
Defined.

Lemma repeatString_repeats_witness :
  repeatString 3 "~" 3 = Some "~~~" /\ repeatString 4 "~" (3 + 1) = Some "~~~~".
Proof.
  destruct (repeatString_repeats "~" 3 3) as (H1 & _ & _ & H4); [vm_compute; lia|].
  split; [exact H1|apply H4; lia].
Defined.

Lemma padding_fills_up_to_the_size_witness :
  padLeft 3 "ab" 5 " " = Some "   ab" /\ padRight 3 "ab" 5 " " = Some "ab   ".
Proof.
  destruct (padding_fills_up_to_the_size "ab" 5 " " 3) as (k & H1 & H2 & _ & _ & Hk);
    [discriminate|vm_compute; lia|].
  rewrite (Hk eq_refl) in H1, H2. split; [exact H1|exact H2].
Defined.

Lemma padding_with_an_empty_filler_never_ends_witness :
  padLeft 100 "a" 3 "" = None /\ padRight 100 "a" 3 "" = None.
Proof. apply (padding_with_an_empty_filler_never_ends "a" 3 100). vm_compute. reflexivity. Defined.

Lemma sameName_without_a_collator_is_an_equivalence_witness :
  (sameName (object_at (state_after small_tree) 0) "a" "b" = true <-> "a" = "b")
  /\ sameName (object_at (state_after small_tree) 0) "a" "b"
     = sameName (object_at (state_after small_tree) 0) "b" "a".
Proof.
  destruct (sameName_without_a_collator_is_an_equivalence (object_at (state_after small_tree) 0))
    as (_ & H2 & _ & H4 & _); [reflexivity|reflexivity|].
  split; [apply (H2 "a" "b")|apply H4].
Defined.

Lemma writeFile_then_readFile_witness :
  exists s' host',
    run 5 (CompilerHost_writeFile unit unit host_of_object_0 "a" "new" true)
      (state_after small_tree) = (s', Returned host')
    /\ run 5 (CompilerHost_readFile unit unit host' "a") s'
       = (s', Returned (Some (byteOrderMark +:+ "new")))
    /\ run 5 (CompilerHost_fileExists unit unit host' "a") s' = (s', Returned true).
Proof.
  destruct (writeFile_then_readFile unit unit 0 (state_after small_tree) 1
              (object_at (state_after small_tree) 0) (object_at (state_after small_tree) 1)
              (object_at (state_after small_tree) 0) [2; 3] host_of_object_0 "a" "a")
    with (content := "new") (bom := true)
    as (s' & host' & document & H1 & H2 & H3 & _);
    [evaluate|evaluate|evaluate|evaluate|evaluate|evaluate|evaluate|evaluate|each_child
    |evaluate|evaluate|evaluate|evaluate|evaluate|split; reflexivity| |].
  - right. exists [], 2, (object_at (state_after small_tree) 2), [3].
    split; [reflexivity|]. split; [apply List.Forall_nil|].
    repeat split; vm_compute; reflexivity.
  - exists s', host'. split; [exact H1|]. split; [exact H2|exact H3].
Defined.

Lemma a_clone_lists_what_the_original_holds_witness :
  exists s' l',
    invoke 3 (getEntries 6 no_options) (state_after small_tree_cloned) = (s', Returned l')
    /\ Forall2 (fun e' e => length (heap (state_after small_tree_cloned)) <= e'
                             /\ is_Some (name_at (state_after small_tree_cloned) e)
                             /\ name_at s' e' = name_at (state_after small_tree_cloned) e
                             /\ class_at s' e' = class_at (state_after small_tree_cloned) e)
         l' [2; 3].
Proof.
  destruct (a_clone_lists_what_the_original_holds 0 (state_after small_tree_cloned) 6
              (object_at (state_after small_tree_cloned) 6) 1
              (object_at (state_after small_tree_cloned) 1) [2; 3])
    as (s' & l' & H1 & H2 & _);
    [evaluate|evaluate|evaluate|evaluate|evaluate|evaluate|evaluate|evaluate|evaluate| |].
  - repeat (apply List.Forall_cons;
            [eexists; split; [vm_compute; reflexivity|split; vm_compute; discriminate]|]).
    apply List.Forall_nil.
  - exists s', l'. split; [exact H1|exact H2].
Defined.

Lemma addFile_makes_the_missing_directory_witness :
  exists s',
    invoke 5 (addFile 1 "/e/g" (content_string "c")) (state_after small_tree)
    = (s', Returned (Some 6))
    /\ run 3 (getDirectory 1 "/e" no_options) s' = (s', Returned (Some 5))
    /\ run 4 (getFile 1 "/e/g" no_options) s' = (s', Returned (Some 6)).
Proof.
  destruct (addFile_makes_the_missing_directory 0 (state_after small_tree) 1
              (object_at (state_after small_tree) 1) (object_at (state_after small_tree) 0)
              (object_at (state_after small_tree) 0) [2; 3] "/e/g" "/e" "e" "g")
    with (content := content_string "c")
    as (s' & dir & file & H1 & _ & _ & _ & _ & H2 & H3);
    [evaluate|evaluate|evaluate|evaluate|evaluate|evaluate|evaluate|evaluate|evaluate
    |evaluate|evaluate|discriminate|evaluate|evaluate|evaluate|evaluate|evaluate|evaluate
    |evaluate|evaluate|each_child|].
  exists s'. split; [exact H1|]. split; [exact H2|exact H3].
Defined.

Lemma an_addition_below_a_rooted_path_makes_nothing_witness :
  invoke 1 (addFile 1 "x/y" (content_string "c")) (state_after small_tree)
  = (state_after small_tree, Returned None)
  /\ invoke 1 (addDirectory 1 "x/y" None) (state_after small_tree)
     = (state_after small_tree, Returned None).
Proof.
  apply (an_addition_below_a_rooted_path_makes_nothing 0 (state_after small_tree) 1
           (object_at (state_after small_tree) 1) "x/y");
    [evaluate|evaluate|evaluate|evaluate|evaluate|left; vm_compute; lia].
Defined.

Lemma stableSort_is_the_stable_arrangement_witness :
  stableSort insertion_sort (0%Z, "") [(2%Z, "a"); (1%Z, "b"); (2%Z, "c"); (1%Z, "d")] by_number
  = [(1%Z, "b"); (1%Z, "d"); (2%Z, "a"); (2%Z, "c")].
Proof.
  destruct (stableSort_is_the_stable_arrangement insertion_sort (0%Z, "")
              [(2%Z, "a"); (1%Z, "b"); (2%Z, "c"); (1%Z, "d")] by_number
              insertion_sort_sorts by_number_consistent)
    as (order & H1 & _ & _ & H4 & _).
  rewrite H1, <- (H4 [1; 3; 0; 2]); [reflexivity|vm_compute; eauto using Permutation|].
  vm_compute. repeat split; repeat constructor; lia.
Defined.

Lemma a_resolved_link_lists_a_link_per_child_witness :
  exists s' l',
    invoke 4 (getEntries 5 no_options) (state_after small_tree_with_link) = (s', Returned l')
    /\ Forall2 (fun e' e => length (heap (state_after small_tree_with_link)) <= e'
                  /\ exists oe w, heap (state_after small_tree_with_link) !! e = Some oe
                                  /\ heap s' !! e' = Some w /\ wrapper_of 5 oe w) l' [4].
Proof.
  destruct (a_resolved_link_lists_a_link_per_child 0 (state_after small_tree_with_link) 5
              (object_at (state_after small_tree_with_link) 5) 3
              (object_at (state_after small_tree_with_link) 3) [4])
    as (s' & l' & H1 & H2 & _);
    [evaluate|evaluate|evaluate|evaluate|evaluate|evaluate|evaluate| | |].
  - repeat constructor. intros H. inversion H.
  - repeat constructor. eexists. vm_compute. reflexivity.
  - exists s', l'. split; [exact H1|exact H2].
Defined.

Lemma realpath_of_a_link_witness :
  run 7 (CompilerHost_realpath unit unit host_of_object_0 "k")
    (state_after small_tree_with_file_link)
  = (state_after small_tree_with_file_link, Returned "a").
Proof.
  destruct (realpath_of_a_link unit unit 3 (state_after small_tree_with_file_link) 1
              (object_at (state_after small_tree_with_file_link) 0)
              (object_at (state_after small_tree_with_file_link) 1) [2; 3; 5]
              host_of_object_0 "k" "k")
    with (l1 := [2; 3]) (lk := 5) (olk := object_at (state_after small_tree_with_file_link) 5)
         (l2 := @nil nat)
    as [H _];
    [evaluate|evaluate|evaluate|evaluate|evaluate|evaluate|evaluate|each_child|evaluate
    |evaluate|evaluate|evaluate|reflexivity|each_child|evaluate|evaluate|evaluate|].
  etransitivity;
    [apply (H 2 (object_at (state_after small_tree_with_file_link) 2)); evaluate|].
  vm_compute. reflexivity.
Defined.

Lemma fragments_of_a_document_partition_its_text_witness :
  text (new_TextDocument "x"
          (inr (mkTextFragment (new_TextDocument "t" (inl "abcdef") None) 1 3)) None)
  +:+ text (new_TextDocument "y"
              (inr (mkTextFragment (new_TextDocument "t" (inl "abcdef") None) 3 5)) None)
  = text (new_TextDocument "x"
            (inr (mkTextFragment (new_TextDocument "t" (inl "abcdef") None) 1 5)) None).
Proof.
  pose proof (fragments_of_a_document_partition_its_text "t" "abcdef" None 1 3 5 "x" "y"
                ltac:(lia) ltac:(lia) ltac:(vm_compute; discriminate)) as H.
  cbv zeta in H. destruct H as (_ & _ & _ & _ & H & _). exact H.
Defined.

Lemma a_listed_link_mirrors_an_addition_witness :
  exists s',
    invoke 4 (addFile 3 "g" (content_string "c")) (state_after small_tree_with_listed_link)
    = (s', Returned (Some 7))
    /\ invoke 2 (getEntries 5 no_options) s' = (s', Returned [6; 8]).
Proof.
  destruct (a_listed_link_mirrors_an_addition 0 (state_after small_tree_with_listed_link) 3
              (object_at (state_after small_tree_with_listed_link) 3)
              (object_at (state_after small_tree_with_listed_link) 0)
              (object_at (state_after small_tree_with_listed_link) 3) [4] 5
              (object_at (state_after small_tree_with_listed_link) 5) [6] "g")
    with (content := content_string "c")
    as (s' & w & H1 & H2 & _);
    [first [evaluate | each_child]..|].
  exists s'. split; [exact H1|exact H2].
Defined.

Lemma a_listed_link_mirrors_a_removal_witness :
  exists s',
    invoke 3 (removeFile 3 "f") (state_after small_tree_with_listed_link)
    = (s', Returned true)
    /\ invoke 2 (getEntries 5 no_options) s' = (s', Returned []).
Proof.
  destruct (a_listed_link_mirrors_a_removal 0 (state_after small_tree_with_listed_link) 3
              (object_at (state_after small_tree_with_listed_link) 3)
              (object_at (state_after small_tree_with_listed_link) 0) [4] 5
              (object_at (state_after small_tree_with_listed_link) 5) [6] "f"
              [] [] 4 6 (object_at (state_after small_tree_with_listed_link) 4)
              (object_at (state_after small_tree_with_listed_link) 6) 0)
    as (s' & H1 & H2 & _);
    [first [evaluate | each_child]..|].
  exists s'. split; [exact H1|exact H2].
Defined.


Lemma writing_through_a_file_link_is_read_back_witness :
  exists s',
    invoke 6 (setContent 5 (Some "new")) (state_after small_tree_with_file_link)
    = (s', Returned tt)
    /\ invoke 6 (getContent 5) s' = (s', Returned (Some "new"))
    /\ invoke 1 (getContent 2) s' = (s', Returned (Some "new")).
Proof.
  destruct (writing_through_a_file_link_is_read_back 0 (state_after small_tree_with_file_link)
              0 1 5 2
              (object_at (state_after small_tree_with_file_link) 0)
              (object_at (state_after small_tree_with_file_link) 1)
              (object_at (state_after small_tree_with_file_link) 5)
              (object_at (state_after small_tree_with_file_link) 2)
              [2; 3; 5] [] [3; 5] "a")
    with (c := "new")
    as (s' & H1 & H2 & H3 & _); [first [evaluate | each_child]..|].
  exists s'. split; [exact H1|]. split; [exact H2|exact H3].
Defined.

Lemma removing_the_target_unhooks_the_link_witness :
  exists s',
    invoke 3 (removeDirectory 3 "e") (state_after link_to_a_nested_directory)
    = (s', Returned true)
    /\ exists ol', heap s' !! 6 = Some ol' /\ _target ol' = None /\ _symEntries ol' = None.
Proof.
  destruct (removing_the_target_unhooks_the_link 0 (state_after link_to_a_nested_directory)
              3 5 6
              (object_at (state_after link_to_a_nested_directory) 3)
              (object_at (state_after link_to_a_nested_directory) 5)
              (object_at (state_after link_to_a_nested_directory) 6)
              (object_at (state_after link_to_a_nested_directory) 0)
              [4; 5] [4] [] "e")
    as (s' & H1 & (ol' & Hl & Ht & Hs & _) & _);
    [first [evaluate | each_child | discriminate]..|].
  exists s'. split; [exact H1|]. exists ol'. split; [exact Hl|]. split; [exact Ht|exact Hs].
Defined.

Lemma a_link_to_a_child_of_the_root_outlives_its_target_witness :
  exists s1 s2,
    run 5 (VirtualDirectorySymlink_isBroken 5) (state_after small_tree_with_new_link)
    = (s1, Returned false)
    /\ invoke 7 (removeDirectory 1 "d") s1 = (s2, Returned true)
    /\ run 5 (VirtualDirectorySymlink_isBroken 5) s2 = (s2, Returned false).
Proof.
  destruct (a_link_to_a_child_of_the_root_outlives_its_target 4
              (state_after small_tree_with_new_link) 0 1 3 5
              (object_at (state_after small_tree_with_new_link) 0)
              (object_at (state_after small_tree_with_new_link) 1)
              (object_at (state_after small_tree_with_new_link) 3)
              (object_at (state_after small_tree_with_new_link) 5)
              [2; 3; 5] [2] [5] "d")
    as (s1 & s2 & H1 & _ & _ & H2 & _ & _ & H3);
    [first [evaluate | each_child]..|].
  exists s1, s2. split; [exact H1|]. split; [exact H2|apply H3].
Defined.

End concrete_more.
